(** * jax.experimental.treevec: the tree-vectorization rules

    A shallow embedding of [jax/experimental/treevec.py]: the axis
    utilities, the [TreeTracer] constructor, the conversion boundary
    ([convert_vectorized_tree], [restore_tree]) and the per-primitive
    rules (n-ary elementwise, concatenate, squeeze, reduction and
    [dot_general]).  Python exceptions are values of [error]; a function
    that may raise returns a [result]. *)

From Stdlib Require Import QArith.
From stdpp Require Import base option list sorting gmap strings.

Set Warnings "-register-all".

Open Scope nat_scope.
Open Scope list_scope.

(** ** Exceptions *)

(** One constructor per [raise] site of the module (named after the error
    kind it stands for), and one per kind of exception that the Python
    runtime raises on its own in the modelled code. *)
Inductive error : Type :=
| ConflictingStructure   (* ValueError "conflicting treedefs ..." *)
| ConflictingShape       (* ValueError "conflicting shapes ..." *)
| ShapeMismatch          (* ValueError "mismatched axis shape" *)
| InvalidLeafshapes      (* ValueError "invalid leafshapes ... along axis=..." *)
| InvalidConcatenateAxis (* ValueError "non-trivial treedefs along concatenated
                            axis" / "shapes along concatenated axis are not
                            all 1D" *)
| InvalidSqueezeAxis     (* ValueError "cannot squeeze dimension ..." *)
| NotALeaf               (* ValueError "argument to from_array must be a leaf
                            already" *)
| UnpackError            (* ValueError of a failed [x, = ...] unpacking *)
| KeyError               (* missing dictionary key *)
| IndexError             (* sequence index out of range *)
| AssertionError         (* failed [assert] *)
| TypeError              (* [reduce] of an empty sequence *)
| KernelError.           (* an exception of a numeric kernel or of tree_util *)

#[global] Instance error_eq_dec : EqDecision error.
Proof. solve_decision. Defined.

Inductive result (A : Type) : Type :=
| Ok (a : A)
| Err (e : error).
Arguments Ok {A} a.
Arguments Err {A} e.

#[global] Instance result_ret : MRet result := @Ok.
#[global] Instance result_bind : MBind result :=
  fun A B f m => match m with Ok a => f a | Err e => Err e end.
#[global] Instance result_fmap : FMap result :=
  fun A B f m => match m with Ok a => Ok (f a) | Err e => Err e end.

Definition is_Ok {A} (r : result A) : Prop := ∃ a, r = Ok a.

(** [assert cond] *)
Definition assert (b : bool) : result unit :=
  if b then Ok tt else Err AssertionError.

(** [raise e] when [b] holds. *)
Definition raise_if (b : bool) (e : error) : result unit :=
  if b then Err e else Ok tt.

(** [l[i]] for a non-negative index. *)
Definition index {A} (l : list A) (i : nat) : result A :=
  match l !! i with
  | Some x => Ok x
  | None => Err IndexError
  end.

(** [x, = xs]: unpacking of a one-element collection. *)
Definition unpack1 {A} (xs : list A) : result A :=
  match xs with
  | [x] => Ok x
  | _ => Err UnpackError
  end.

(** A [for] loop that threads a state and stops at the first exception. *)
Fixpoint foldM {A S} (f : S → A → result S) (s : S) (l : list A) : result S :=
  match l with
  | [] => Ok s
  | x :: l => s' ← f s x; foldM f s' l
  end.

(** [enumerate(l)] *)
Definition enumerate {A} (l : list A) : list (nat * A) :=
  imap (λ i x, (i, x)) l.

(** [range(n)] *)
Definition range (n : nat) : list nat := seq 0 n.

(** [a.insert(i, x)] for a non-negative [i]: past the end it appends. *)
Definition list_insert_at {A} (i : nat) (x : A) (l : list A) : list A :=
  take i l ++ x :: drop i l.

(** [[x for i, x in enumerate(l) if i not in axes]] *)
Definition without_axes {A} (axes : list nat) (l : list A) : list A :=
  (filter (λ ix, ix.1 ∉ axes) (enumerate l)).*2.

(** A Python [set] built by a comprehension, as the list of its distinct
    elements. *)
Definition pyset {A} `{EqDecision A} (l : list A) : list A := remove_dups l.

(** ** Nested containers (pytrees) *)

(** Modelled from the spec: [jax.tree_util] ([tree_flatten],
    [tree_unflatten], [tree_structure], [PyTreeDef.num_leaves]) is not part
    of the sources.  The spec gives its contract: flattening yields the
    ordered leaves and a comparable descriptor, unflattening rebuilds an
    equal-shaped container from new leaves of the same count.  A container
    node is a tuple, a list or a dict; a dict is held with its keys in the
    sorted order in which it is flattened. *)
Inductive NodeKind : Type :=
| KTuple
| KList
| KDict (keys : list string).

#[global] Instance NodeKind_eq_dec : EqDecision NodeKind.
Proof. solve_decision. Defined.

(** Modelled from the spec: a nested container with leaves of type [A]. *)
Inductive PyTree (A : Type) : Type :=
| PLeaf (x : A)
| PNode (k : NodeKind) (children : list (PyTree A)).
Arguments PLeaf {A} x.
Arguments PNode {A} k children.

(** Modelled from the spec: the container shape descriptor ([PyTreeDef]),
    comparable by [treedef_eqb]. *)
Inductive TreeDef : Type :=
| TLeaf
| TNode (k : NodeKind) (children : list TreeDef).

Fixpoint treedef_eqb (a b : TreeDef) : bool :=
  match a, b with
  | TLeaf, TLeaf => true
  | TNode k1 c1, TNode k2 c2 =>
      bool_decide (k1 = k2) &&
      (fix go (l1 l2 : list TreeDef) : bool :=
         match l1, l2 with
         | [], [] => true
         | x :: l1, y :: l2 => treedef_eqb x y && go l1 l2
         | _, _ => false
         end) c1 c2
  | _, _ => false
  end.

Lemma TreeDef_ind' (P : TreeDef → Prop) :
  P TLeaf →
  (∀ k ch, Forall P ch → P (TNode k ch)) →
  ∀ t, P t.
Proof.
  intros HL HN. fix IH 1. intros [|k ch]; [exact HL|].
  apply HN. induction ch as [|c ch IHch]; constructor; [apply IH | exact IHch].
Qed.

Lemma treedef_eqb_eq (a b : TreeDef) : treedef_eqb a b = true ↔ a = b.
Proof.
  revert b. induction a as [|k ch IH] using TreeDef_ind'; intros [|k' ch']; simpl;
    try (split; [discriminate | congruence]); [done|].
  rewrite andb_true_iff, bool_decide_eq_true.
  assert (Hgo : (fix go (l1 l2 : list TreeDef) : bool :=
                   match l1, l2 with
                   | [], [] => true
                   | x :: l1, y :: l2 => treedef_eqb x y && go l1 l2
                   | _, _ => false
                   end) ch ch' = true ↔ ch = ch').
  { revert ch'. induction IH as [|c ch Hc _ IHch]; intros [|c' ch'];
      try (split; [discriminate | congruence]); [done|].
    rewrite andb_true_iff, Hc, IHch. split; [intros [-> ->]; done | intros [= -> ->]; done]. }
  rewrite Hgo. split; [intros [-> ->]; done | intros [= -> ->]; done].
Qed.

#[global] Instance TreeDef_eq_dec : EqDecision TreeDef.
Proof.
  intros a b. destruct (treedef_eqb a b) eqn:E; [left | right].
  - by apply treedef_eqb_eq.
  - intros H. apply treedef_eqb_eq in H. congruence.
Defined.

(** [TRIVIAL_TREEDEF = tree_structure(1)] *)
Definition TRIVIAL_TREEDEF : TreeDef := TLeaf.

(** Modelled from the spec: [treedef.num_leaves]. *)
Fixpoint num_leaves (td : TreeDef) : nat :=
  match td with
  | TLeaf => 1
  | TNode _ ch => sum_list (map num_leaves ch)
  end.

(** Modelled from the spec: [tree_structure(tree)]. *)
Fixpoint tree_structure {A} (t : PyTree A) : TreeDef :=
  match t with
  | PLeaf _ => TLeaf
  | PNode k ch => TNode k (map tree_structure ch)
  end.

(** Modelled from the spec: the ordered leaves of a container. *)
Fixpoint tree_leaves {A} (t : PyTree A) : list A :=
  match t with
  | PLeaf x => [x]
  | PNode _ ch => concat (map tree_leaves ch)
  end.

(** Modelled from the spec: [tree_flatten(tree)]. *)
Definition tree_flatten {A} (t : PyTree A) : list A * TreeDef :=
  (tree_leaves t, tree_structure t).

(** Modelled from the spec: the container of [td] rebuilt from the front of
    [xs]; the values put at the leaves are containers themselves and are
    grafted in. *)
Fixpoint unflatten_from {A} (td : TreeDef) (xs : list (PyTree A))
  : option (PyTree A * list (PyTree A)) :=
  match td with
  | TLeaf =>
      match xs with
      | x :: xs => Some (x, xs)
      | [] => None
      end
  | TNode k ch =>
      let fix go (ch : list TreeDef) (xs : list (PyTree A))
        : option (list (PyTree A) * list (PyTree A)) :=
        match ch with
        | [] => Some ([], xs)
        | c :: ch =>
            match unflatten_from c xs with
            | Some (t, xs) =>
                match go ch xs with
                | Some (ts, xs) => Some (t :: ts, xs)
                | None => None
                end
            | None => None
            end
        end in
      match go ch xs with
      | Some (ts, xs) => Some (PNode k ts, xs)
      | None => None
      end
  end.

(** Modelled from the spec: [tree_unflatten(treedef, leaves)]; it fails
    unless the number of leaves is [treedef.num_leaves]. *)
Definition tree_unflatten {A} (td : TreeDef) (xs : list (PyTree A))
  : result (PyTree A) :=
  match unflatten_from td xs with
  | Some (t, []) => Ok t
  | _ => Err KernelError
  end.

(** ** Numeric kernels *)

(** The arrays and the kernels that the module calls ([np.shape],
    [jnp.result_type], [jnp.asarray], [jnp.split], [reshape] and the [lax]
    primitives) live outside the module: the rules are written over any
    implementation of this interface.  A kernel that raises returns [Err]. *)
Class Kernels (Arr DType : Type) : Type := {
  (* np.shape(x) *)
  np_shape : Arr → list nat;
  (* dtypes.dtype(x) *)
  dtype_of : Arr → DType;
  (* jnp.result_type( *xs ) *)
  result_type : list Arr → result DType;
  (* jnp.asarray(x, dtype) *)
  asarray : Arr → DType → result Arr;
  (* jnp.split(array, indices, axis) *)
  jnp_split : Arr → list nat → nat → result (list Arr);
  (* array.reshape(shape) *)
  reshape : Arr → list nat → result Arr;
  (* lax.squeeze(array, dimensions) and lax.squeeze_p.bind *)
  lax_squeeze : Arr → list nat → result Arr;
  (* lax.expand_dims(array, dimensions) *)
  lax_expand_dims : Arr → list nat → result Arr;
  (* lax.concatenate_p.bind( *args, dimension=d ) *)
  lax_concatenate : list Arr → nat → result Arr;
  (* lax.dot_general_p.bind(lhs, rhs, dimension_numbers=...) *)
  lax_dot_general :
    Arr → Arr → (list nat * list nat) * (list nat * list nat) → result Arr;
  (* operator.add *)
  operator_add : Arr → Arr → result Arr;
}.

(** [Sequence[Sequence[Tuple[int, ...]]]]: for each axis, the shape of each
    of its segments. *)
Abbreviation LeafShapes := (list (list (list nat))).
(** Block coordinates: one partition index per axis. *)
Abbreviation Coords := (list nat).

(** [d[k]] on a dictionary. *)
Definition getitem {V} (d : gmap Coords V) (k : Coords) : result V :=
  match d !! k with
  | Some v => Ok v
  | None => Err KeyError
  end.

(** [{k: v for k, v in kvs}]: a later binding of a key replaces an earlier
    one. *)
Definition dict_of {V} (kvs : list (Coords * V)) : gmap Coords V :=
  foldl (λ d kv, <[kv.1 := kv.2]> d) ∅ kvs.

(** ** Axis utilities *)

(** A descriptor object.  The test [treedef is TRIVIAL_TREEDEF] compares
    objects, not values: it holds of the module's object [TRIVIAL_TREEDEF]
    and of no other object, such as a result of [tree_flatten] or of
    [tree_structure], even when its value is the trivial descriptor.  The
    rules that compare descriptors with [==] and [!=] work on the values. *)
Inductive TreeDefObject : Type :=
| TRIVIAL_TREEDEF_object
| other_object (value : TreeDef).

Definition object_value (treedef : TreeDefObject) : TreeDef :=
  match treedef with
  | TRIVIAL_TREEDEF_object => TRIVIAL_TREEDEF
  | other_object value => value
  end.

(** [treedef is TRIVIAL_TREEDEF] *)
Definition is_TRIVIAL_TREEDEF (treedef : TreeDefObject) : bool :=
  match treedef with
  | TRIVIAL_TREEDEF_object => true
  | other_object _ => false
  end.

Definition is_trivial_axis (treedef : TreeDefObject) (leafshapes : list (list nat))
  : bool :=
  is_TRIVIAL_TREEDEF treedef &&
  match leafshapes with
  | [s] => bool_decide (length s = 1)
  | _ => false
  end.

(** [itertools.product( *ranges )] *)
Fixpoint product (ranges : list (list nat)) : list Coords :=
  match ranges with
  | [] => [[]]
  | r :: rs => x ← r; (x ::.) <$> product rs
  end.

Definition _iter_leaf_coords (treedefs : list TreeDef) : list Coords :=
  product (map (λ treedef, range (num_leaves treedef)) treedefs).

Definition _iter_leaf_coords2 (leafshapes : LeafShapes) : list Coords :=
  product (map (λ shapes, range (length shapes)) leafshapes).

(** [prod(shape)] *)
Definition prod (shape : list nat) : nat := foldr Nat.mul 1 shape.

Definition _axis_length (shapes : list (list nat)) : nat :=
  sum_list (map prod shapes).

Definition _concat_tuple {T} (tuples : list (list T)) : list T := concat tuples.

Definition _leafshape (leafshapes : LeafShapes) (coords : Coords) : result (list nat) :=
  _concat_tuple <$>
    mapM (λ ij, shapes ← index leafshapes ij.1; index shapes ij.2) (enumerate coords).

Definition _axes_for_leaf (leafshapes : LeafShapes) (coords : Coords) (axes : list nat)
  : result (list nat) :=
  fst <$>
    foldM (λ '(out_axes, leaf_axis) '(axis, coord),
             shapes ← index leafshapes axis;
             shape ← index shapes coord;
             let leaf_ndim := length shape in
             let out_axes :=
               if bool_decide (axis ∈ axes)
               then out_axes ++ seq leaf_axis leaf_ndim
               else out_axes in
             Ok (out_axes, leaf_axis + leaf_ndim))
          ([], 0) (enumerate coords).

(** ** The tracer and the conversion boundary *)

Section Treevec.
Context {Arr DType : Type} `{!Kernels Arr DType}.

(** [Dict[Tuple[int, ...], ArrayLike]] *)
Abbreviation Leaves := (gmap Coords Arr).
Abbreviation TreeState := (list TreeDef * LeafShapes * Leaves)%type.

(** The fields of a [TreeTracer] (the trace it belongs to plays no role in
    the rules). *)
Record TreeTracer : Type := mkTreeTracer {
  treedefs : list TreeDef;
  leafshapes : LeafShapes;
  leaves : Leaves;
}.

(** [TreeTracer.__init__] *)
Definition TreeTracer_init (treedefs : list TreeDef) (leafshapes : LeafShapes)
    (leaves : Leaves) : result TreeTracer :=
  assert (bool_decide (length treedefs = length leafshapes));;
  foldM (λ _ '(treedef, shapes),
           assert (bool_decide (num_leaves treedef = length shapes)))
        tt (zip treedefs leafshapes);;
  assert (bool_decide (size leaves ≠ 0));;
  foldM (λ _ coords,
           expected_shape ← _leafshape leafshapes coords;
           leaf ← getitem leaves coords;
           let actual_shape := np_shape leaf in
           assert (bool_decide (actual_shape = expected_shape)))
        tt (_iter_leaf_coords treedefs);;
  Ok (mkTreeTracer treedefs leafshapes leaves).

Definition convert_vectorized_tree (tree : PyTree Arr) : result TreeState :=
  let '(xs, treedef) := tree_flatten tree in
  let leafshape := map np_shape xs in
  dtype ← result_type xs;
  items ← mapM (λ '(i, leaf), x ← asarray leaf dtype; Ok ([i], x)) (enumerate xs);
  Ok ([treedef], [leafshape], dict_of items).

Definition convert_leaf_array (leaf : PyTree Arr) : result TreeState :=
  match leaf with
  | PLeaf x =>
      let ndim := length (np_shape x) in
      Ok (replicate ndim TRIVIAL_TREEDEF,
          map (λ s, [[s]]) (np_shape x),
          {[ replicate ndim 0 := x ]})
  | PNode _ _ => Err NotALeaf
  end.

(** The body of the [while treedefs:] loop of [restore_tree], by recursion
    on the axes from the last one. *)
Fixpoint restore_loop (rev_treedefs : list TreeDef)
    (leaves : gmap Coords (PyTree Arr)) : result (gmap Coords (PyTree Arr)) :=
  match rev_treedefs with
  | [] => Ok leaves
  | last :: rev_init =>
      flattened_leaves ←
        foldM (λ flattened_leaves coords,
                 leaf_list ← mapM (λ i, getitem leaves (coords ++ [i]))
                                  (range (num_leaves last));
                 tree ← tree_unflatten last leaf_list;
                 Ok (<[coords := tree]> flattened_leaves))
              ∅ (_iter_leaf_coords (reverse rev_init));
      restore_loop rev_init flattened_leaves
  end.

Definition restore_tree (treedefs : list TreeDef) (leaves : Leaves)
  : result (PyTree Arr) :=
  leaves ← restore_loop (reverse treedefs) (PLeaf <$> leaves);
  getitem leaves [].

(** ** Rules: shared helpers *)

Definition _filter_scalar_leaves (treedefs_in : list (list TreeDef))
    (leafshapes_in : list LeafShapes) (leaves_in : list Leaves)
  : result (list (list TreeDef) * list LeafShapes * list Leaves * list (nat * Arr)) :=
  foldM (λ '(treedefs_out, leafshapes_out, leaves_out, scalars)
           '(i, (treedefs, (leafshapes, leaves))),
           match treedefs with
           | _ :: _ =>
               Ok (treedefs_out ++ [treedefs], leafshapes_out ++ [leafshapes],
                   leaves_out ++ [leaves], scalars)
           | [] =>
               scalar ← getitem leaves [];
               Ok (treedefs_out, leafshapes_out, leaves_out, scalars ++ [(i, scalar)])
           end)
        ([], [], [], [])
        (enumerate (zip treedefs_in (zip leafshapes_in leaves_in))).

(** [np.cumsum] *)
Definition cumsum (l : list nat) : list nat :=
  (foldl (λ '(acc, total) n, (acc ++ [total + n], total + n)) ([], 0) l).1.

Definition _split_leaf (array : Arr) (axis : nat) (shapes : list (list nat))
  : result (list Arr) :=
  n ← index (np_shape array) axis;
  raise_if (bool_decide (_axis_length shapes ≠ n)) ShapeMismatch;;
  let indices := cumsum (map prod (removelast shapes)) in
  pieces ← jnp_split array indices axis;
  mapM (λ '(piece, axis_shape),
          let shape := take axis (np_shape array) ++ axis_shape
                         ++ drop (S axis) (np_shape array) in
          reshape piece shape)
       (zip pieces shapes).

Definition _split_leaves (leafshapes : LeafShapes) (leaves : Leaves) (axis : nat)
    (shapes : list (list nat)) : result Leaves :=
  axis_shapes ← index leafshapes axis;
  match axis_shapes with
  | [s] => raise_if (bool_decide (length s ≠ 1)) InvalidLeafshapes
  | _ => Err InvalidLeafshapes
  end;;
  foldM (λ leaves_out in_coords,
           leaf ← getitem leaves in_coords;
           leaf_axes ← _axes_for_leaf leafshapes in_coords [axis];
           leaf_axis ← unpack1 leaf_axes;
           new_leaves ← _split_leaf leaf leaf_axis shapes;
           Ok (foldl (λ leaves_out '(i, new_leaf),
                        let out_coords :=
                          take axis in_coords ++ [i] ++ drop (S axis) in_coords in
                        <[out_coords := new_leaf]> leaves_out)
                     leaves_out (enumerate new_leaves)))
        ∅ (_iter_leaf_coords2 leafshapes).

(** ** The n-ary elementwise rule *)

(** The body of the loop [for axis in range(ndim)] of [naryop_tree_rule]
    that checks the treedefs and the shapes of the operands along [axis] and
    extends [out_treedefs] and [out_leafshapes]. *)
Definition naryop_check_axis (treedefs_in : list (list TreeDef))
    (leafshapes_in : list LeafShapes)
    (out : list TreeDef * LeafShapes) (axis : nat)
  : result (list TreeDef * LeafShapes) :=
  let '(out_treedefs, out_leafshapes) := out in
  (* check treedefs *)
  axis_treedefs ← mapM (λ treedefs, index treedefs axis) treedefs_in;
  let non_trivial_treedefs :=
    pyset (filter (λ treedef, treedef ≠ TRIVIAL_TREEDEF) axis_treedefs) in
  out_treedefs ←
    (if decide (1 < length non_trivial_treedefs) then Err ConflictingStructure
     else if decide (length non_trivial_treedefs = 1) then
       treedef ← unpack1 non_trivial_treedefs;
       Ok (out_treedefs ++ [treedef])
     else Ok (out_treedefs ++ [TRIVIAL_TREEDEF]));
  (* check shapes *)
  axis_shapes ← mapM (λ leafshapes, index leafshapes axis) leafshapes_in;
  let non_trivial_shapes :=
    pyset (filter (λ shapes, length shapes ≠ 1) axis_shapes) in
  out_leafshapes ←
    (if decide (1 < length non_trivial_shapes) then Err ConflictingShape
     else if decide (length non_trivial_shapes = 1) then
       shapes ← unpack1 non_trivial_shapes;
       Ok (out_leafshapes ++ [shapes])
     else
       let size := max_list (map _axis_length axis_shapes) in
       Ok (out_leafshapes ++ [[[size]]]));
  Ok (out_treedefs, out_leafshapes).

Definition naryop_out_axes (treedefs_in : list (list TreeDef))
    (leafshapes_in : list LeafShapes) (ndim : nat)
  : result (list TreeDef * LeafShapes) :=
  foldM (naryop_check_axis treedefs_in leafshapes_in) ([], []) (range ndim).

(** The inner loop of the part of [naryop_tree_rule] that splits the
    "trivial" axes of one operand to match the output leafshape. *)
Definition naryop_fix_operand (ndim : nat) (out_leafshapes : LeafShapes)
    (leafshapes : LeafShapes) (leaves : Leaves) : result (LeafShapes * Leaves) :=
  foldM (λ '(leafshapes_, leaves) axis,
           shapes ← index leafshapes axis;
           out_shapes ← index out_leafshapes axis;
           if bool_decide (shapes ≠ out_shapes) && bool_decide (_axis_length shapes ≠ 1)
           then
             leaves ← _split_leaves leafshapes leaves axis out_shapes;
             Ok (<[axis := out_shapes]> leafshapes_, leaves)
           else Ok (leafshapes_, leaves))
        (leafshapes, leaves) (range ndim).

(** The block of one operand that goes into the kernel call at
    [out_coords]. *)
Definition naryop_operand_leaf (out_leafshapes : LeafShapes) (out_coords : Coords)
    (leafshapes : LeafShapes) (leaves : Leaves) : result Arr :=
  in_coords ← mapM (λ '(axis, coord),
                      shapes ← index leafshapes axis;
                      Ok (if decide (length shapes ≠ 1) then coord else 0))
                   (enumerate out_coords);
  leaf ← getitem leaves in_coords;
  let broadcasting_dims :=
    (filter (λ ix, ix.2 = [[1]]) (enumerate leafshapes)).*1 in
  remove_dims ← _axes_for_leaf leafshapes in_coords broadcasting_dims;
  insert_dims ← _axes_for_leaf out_leafshapes out_coords broadcasting_dims;
  leaf ← lax_squeeze leaf remove_dims;
  lax_expand_dims leaf insert_dims.

(** [prim] stands for [prim.bind( *args, **params )]. *)
Definition naryop_tree_rule (prim : list Arr → result Arr)
    (treedefs_in : list (list TreeDef)) (leafshapes_in : list LeafShapes)
    (leaves_in : list Leaves) : result TreeState :=
  '(treedefs_in, leafshapes_in, leaves_in, scalars) ←
    _filter_scalar_leaves treedefs_in leafshapes_in leaves_in;
  match treedefs_in with
  | [] =>
      let args := scalars.*2 in
      out ← prim args;
      Ok ([], [], {[ [] := out ]})
  | _ =>
      ndim ← unpack1 (pyset (map length treedefs_in));
      '(out_treedefs, out_leafshapes) ←
        naryop_out_axes treedefs_in leafshapes_in ndim;
      (* split "trivial" axes to match the output leafshape *)
      fixed ← mapM (λ '(leafshapes, leaves),
                      naryop_fix_operand ndim out_leafshapes leafshapes leaves)
                   (zip leafshapes_in leaves_in);
      (* compute leaves *)
      out_leaves ←
        foldM (λ out_leaves out_coords,
                 args ← mapM (λ '(leafshapes, leaves),
                                naryop_operand_leaf out_leafshapes out_coords
                                  leafshapes leaves)
                             fixed;
                 let args := foldl (λ args '(i, scalar), list_insert_at i scalar args)
                                   args scalars in
                 out ← prim args;
                 Ok (<[out_coords := out]> out_leaves))
              ∅ (_iter_leaf_coords out_treedefs);
      Ok (out_treedefs, out_leafshapes, out_leaves)
  end.

(** ** The concatenate rule *)

(** The body of the loop [for axis in range(ndim)] of
    [concatenate_tree_rule]. *)
Definition concatenate_check_axis (treedefs_in : list (list TreeDef))
    (leafshapes_in : list LeafShapes) (dimension : nat)
    (out : list TreeDef * LeafShapes) (axis : nat)
  : result (list TreeDef * LeafShapes) :=
  let '(out_treedefs, out_leafshapes) := out in
  (* check treedefs *)
  axis_treedefs ← mapM (λ treedefs, index treedefs axis) treedefs_in;
  let non_trivial_treedefs :=
    pyset (filter (λ treedef, treedef ≠ TRIVIAL_TREEDEF) axis_treedefs) in
  raise_if (bool_decide (axis = dimension)
            && bool_decide (non_trivial_treedefs ≠ []))
           InvalidConcatenateAxis;;
  raise_if (bool_decide (1 < length non_trivial_treedefs)) ConflictingStructure;;
  out_treedefs ←
    (if decide (length non_trivial_treedefs = 1) then
       treedef ← unpack1 non_trivial_treedefs;
       Ok (out_treedefs ++ [treedef])
     else Ok (out_treedefs ++ [TRIVIAL_TREEDEF]));
  (* check shapes *)
  axis_shapes ← mapM (λ leafshapes, index leafshapes axis) leafshapes_in;
  let non_trivial_shapes :=
    pyset (filter (λ shapes, length shapes ≠ 1) axis_shapes) in
  raise_if (bool_decide (axis = dimension)
            && bool_decide (non_trivial_shapes ≠ []))
           InvalidConcatenateAxis;;
  raise_if (bool_decide (1 < length non_trivial_shapes)) ConflictingShape;;
  out_leafshapes ←
    (if decide (length non_trivial_shapes = 1) then
       shapes ← unpack1 non_trivial_shapes;
       Ok (out_leafshapes ++ [shapes])
     else
       let lengths := map _axis_length axis_shapes in
       size ← (if decide (axis = dimension) then Ok (sum_list lengths)
               else unpack1 lengths);
       Ok (out_leafshapes ++ [[[size]]]));
  Ok (out_treedefs, out_leafshapes).

Definition concatenate_out_axes (treedefs_in : list (list TreeDef))
    (leafshapes_in : list LeafShapes) (dimension ndim : nat)
  : result (list TreeDef * LeafShapes) :=
  foldM (concatenate_check_axis treedefs_in leafshapes_in dimension)
        ([], []) (range ndim).

(** The inner loop of the part of [concatenate_tree_rule] that splits the
    "trivial" axes of one operand. *)
Definition concatenate_fix_operand (dimension ndim : nat)
    (out_leafshapes : LeafShapes) (leafshapes : LeafShapes) (leaves : Leaves)
  : result Leaves :=
  foldM (λ leaves axis,
           if decide (axis ≠ dimension) then
             shapes ← index leafshapes axis;
             out_shapes ← index out_leafshapes axis;
             if decide (shapes ≠ out_shapes)
             then _split_leaves leafshapes leaves axis out_shapes
             else Ok leaves
           else Ok leaves)
        leaves (range ndim).

Definition concatenate_tree_rule (treedefs_in : list (list TreeDef))
    (leafshapes_in : list LeafShapes) (leaves_in : list Leaves)
    (dimension : nat) : result TreeState :=
  ndim ← unpack1 (pyset (map length treedefs_in));
  '(out_treedefs, out_leafshapes) ←
    concatenate_out_axes treedefs_in leafshapes_in dimension ndim;
  (* split "trivial" axes to match the output leafshape *)
  leaves_fixed ← mapM (λ '(leafshapes, leaves),
                         concatenate_fix_operand dimension ndim out_leafshapes
                           leafshapes leaves)
                      (zip leafshapes_in leaves_in);
  (* compute leaves *)
  out_leaves ←
    foldM (λ out_leaves coords,
             args ← mapM (λ leaves : Leaves, getitem leaves coords) leaves_fixed;
             leaf_dims ← _axes_for_leaf out_leafshapes coords [dimension];
             leaf_dim ← unpack1 leaf_dims;
             out ← lax_concatenate args leaf_dim;
             Ok (<[coords := out]> out_leaves))
          ∅ (_iter_leaf_coords out_treedefs);
  Ok (out_treedefs, out_leafshapes, out_leaves).

(** ** The squeeze rule *)

(** The first loop of [squeeze_tree_rule], over [enumerate(treedefs)]. *)
Definition squeeze_check (dimensions : list nat) (treedefs : list TreeDef) : result unit :=
  foldM (λ _ '(axis, treedef),
           if decide (axis ∈ dimensions) then
             raise_if (bool_decide (treedef ≠ TRIVIAL_TREEDEF)) InvalidSqueezeAxis
           else Ok tt)
        tt (enumerate treedefs).

Definition squeeze_tree_rule (treedefs_in : list (list TreeDef))
    (leafshapes_in : list LeafShapes) (leaves_in : list Leaves)
    (dimensions : list nat) : result TreeState :=
  treedefs ← unpack1 treedefs_in;
  leafshapes ← unpack1 leafshapes_in;
  leaves ← unpack1 leaves_in;
  squeeze_check dimensions treedefs;;
  let out_treedefs := without_axes dimensions treedefs in
  let out_leafshapes := without_axes dimensions leafshapes in
  out_leaves ←
    foldM (λ out_leaves '(in_coords, out_coords),
             leaf ← getitem leaves in_coords;
             leaf_dims ← _axes_for_leaf leafshapes in_coords dimensions;
             out ← lax_squeeze leaf leaf_dims;
             Ok (<[out_coords := out]> out_leaves))
          ∅ (zip (_iter_leaf_coords treedefs) (_iter_leaf_coords out_treedefs));
  Ok (out_treedefs, out_leafshapes, out_leaves).

(** ** The reduction rule *)

(** [functools.reduce(binop, v)], without initial value. *)
Definition py_reduce (binop : Arr → Arr → result Arr) (v : list Arr) : result Arr :=
  match v with
  | [] => Err TypeError
  | x :: v => foldM binop x v
  end.

(** [{coords: [] for coords in coords_list}] *)
Definition empty_nodes (coords_list : list Coords) : gmap Coords (list Arr) :=
  dict_of (map (λ coords, (coords, [])) coords_list).

(** [out_nodes[out_coords].append(leaf)] *)
Definition append_node (out_nodes : gmap Coords (list Arr)) (out_coords : Coords)
    (leaf : Arr) : result (gmap Coords (list Arr)) :=
  match out_nodes !! out_coords with
  | Some v => Ok (<[out_coords := v ++ [leaf]]> out_nodes)
  | None => Err KeyError
  end.

(** [{k: reduce(binop, v) for k, v in out_nodes.items()}]; the keys of
    [out_nodes] come in the order [keys] in which they were entered. *)
Definition reduce_nodes (binop : Arr → Arr → result Arr) (keys : list Coords)
    (out_nodes : gmap Coords (list Arr)) : result Leaves :=
  dict_of <$> mapM (λ k, v ← getitem out_nodes k;
                         out ← py_reduce binop v;
                         Ok (k, out)) keys.

(** [prim] stands for [prim.bind(x, axes=axes, **params)]. *)
Definition reducer_tree_rule (prim : Arr → list nat → result Arr)
    (binop : Arr → Arr → result Arr)
    (treedefs_in : list (list TreeDef)) (leafshapes_in : list LeafShapes)
    (leaves_in : list Leaves) (axes : list nat) : result TreeState :=
  treedefs ← unpack1 treedefs_in;
  leafshapes ← unpack1 leafshapes_in;
  leaves ← unpack1 leaves_in;
  let out_treedefs := without_axes axes treedefs in
  let out_leafshapes := without_axes axes leafshapes in
  let out_nodes := empty_nodes (_iter_leaf_coords out_treedefs) in
  out_nodes ←
    foldM (λ out_nodes in_coords,
             let out_coords := without_axes axes in_coords in
             leaf_axes ← _axes_for_leaf leafshapes in_coords axes;
             leaf ← getitem leaves in_coords;
             reduced_leaf ← prim leaf leaf_axes;
             append_node out_nodes out_coords reduced_leaf)
          out_nodes (_iter_leaf_coords treedefs);
  out_leaves ← reduce_nodes binop (_iter_leaf_coords out_treedefs) out_nodes;
  Ok (out_treedefs, out_leafshapes, out_leaves).

(** ** The [dot_general] rule *)

(** [x, y = xs] *)
Definition unpack2 {A} (xs : list A) : result (A * A) :=
  match xs with
  | [x; y] => Ok (x, y)
  | _ => Err UnpackError
  end.

(** The coordinates of the right operand, of the result, and the kernel
    call for one pair [lhs_coords], [rhs_nonbatch_coords]: the body of the
    double loop of [dot_general_tree_rule]. *)
Definition dot_general_coords (lhs_contracting rhs_contracting batch : list nat)
    (lhs_remaining rhs_remaining : list nat)
    (lhs_coords rhs_nonbatch_coords : Coords) : result (Coords * Coords) :=
  rhs_only_coords ←
    foldM (λ rhs_only_coords '(lhs_axis, rhs_axis),
             c ← index lhs_coords lhs_axis;
             Ok (list_insert_at rhs_axis c rhs_only_coords))
          rhs_nonbatch_coords (zip lhs_contracting rhs_contracting);
  let rhs_coords := take (length batch) lhs_coords ++ rhs_only_coords in
  out_l ← mapM (index lhs_coords) (batch ++ lhs_remaining);
  out_r ← mapM (index rhs_coords) rhs_remaining;
  Ok (rhs_coords, out_l ++ out_r).

Definition dot_general_leaf (lhs_leafshapes rhs_leafshapes : LeafShapes)
    (lhs_leaves rhs_leaves : Leaves)
    (lhs_contracting rhs_contracting batch : list nat)
    (lhs_coords rhs_coords : Coords) : result Arr :=
  leaf_lhs_contracting ← _axes_for_leaf lhs_leafshapes lhs_coords lhs_contracting;
  leaf_rhs_contracting ← _axes_for_leaf rhs_leafshapes rhs_coords rhs_contracting;
  leaf_batch ← _axes_for_leaf lhs_leafshapes lhs_coords batch;
  leaf_batch' ← _axes_for_leaf rhs_leafshapes rhs_coords batch;
  assert (bool_decide (leaf_batch = leaf_batch'));;
  let leaf_dim_numbers :=
    ((leaf_lhs_contracting, leaf_rhs_contracting), (leaf_batch, leaf_batch)) in
  lhs_leaf ← getitem lhs_leaves lhs_coords;
  rhs_leaf ← getitem rhs_leaves rhs_coords;
  lax_dot_general lhs_leaf rhs_leaf leaf_dim_numbers.

(** The first loop of [dot_general_tree_rule], over the batch and the
    contracting pairs of axes. *)
Definition dot_general_check (lhs_treedefs rhs_treedefs : list TreeDef)
    (lhs_leafshapes rhs_leafshapes : LeafShapes)
    (batch lhs_contracting rhs_contracting : list nat) : result unit :=
  foldM (λ _ '(lhs_axis, rhs_axis),
           lhs_treedef ← index lhs_treedefs lhs_axis;
           rhs_treedef ← index rhs_treedefs rhs_axis;
           raise_if (bool_decide (lhs_treedef ≠ rhs_treedef)) ConflictingStructure;;
           lhs_shapes ← index lhs_leafshapes lhs_axis;
           rhs_shapes ← index rhs_leafshapes rhs_axis;
           raise_if (bool_decide (lhs_shapes ≠ rhs_shapes)) ConflictingShape)
        tt (zip batch batch ++ zip lhs_contracting rhs_contracting).

Definition dot_general_tree_rule (treedefs_in : list (list TreeDef))
    (leafshapes_in : list LeafShapes) (leaves_in : list Leaves)
    (dimension_numbers : (list nat * list nat) * (list nat * list nat))
  : result TreeState :=
  let '((lhs_contracting, rhs_contracting), (lhs_batch, rhs_batch)) :=
    dimension_numbers in
  batch ← unpack1 (pyset [lhs_batch; rhs_batch]);
  '(lhs_treedefs, rhs_treedefs) ← unpack2 treedefs_in;
  '(lhs_leafshapes, rhs_leafshapes) ← unpack2 leafshapes_in;
  '(lhs_leaves, rhs_leaves) ← unpack2 leaves_in;
  dot_general_check lhs_treedefs rhs_treedefs lhs_leafshapes rhs_leafshapes
    batch lhs_contracting rhs_contracting;;
  let lhs_contract_or_batch := lhs_contracting ++ batch in
  let lhs_remaining :=
    filter (λ i, i ∉ lhs_contract_or_batch) (range (length lhs_treedefs)) in
  let rhs_contract_or_batch := rhs_contracting ++ batch in
  let rhs_remaining :=
    filter (λ i, i ∉ rhs_contract_or_batch) (range (length rhs_treedefs)) in
  out_treedefs_l ← mapM (index lhs_treedefs) (batch ++ lhs_remaining);
  out_treedefs_r ← mapM (index rhs_treedefs) rhs_remaining;
  let out_treedefs := out_treedefs_l ++ out_treedefs_r in
  out_leafshapes_l ← mapM (index lhs_leafshapes) (batch ++ lhs_remaining);
  out_leafshapes_r ← mapM (index rhs_leafshapes) rhs_remaining;
  let out_leafshapes := out_leafshapes_l ++ out_leafshapes_r in
  let out_nodes := empty_nodes (_iter_leaf_coords out_treedefs) in
  rhs_nonbatch_treedefs ← mapM (index rhs_treedefs) rhs_remaining;
  out_nodes ←
    foldM (λ out_nodes '(lhs_coords, rhs_nonbatch_coords),
             '(rhs_coords, out_coords) ←
               dot_general_coords lhs_contracting rhs_contracting batch
                 lhs_remaining rhs_remaining lhs_coords rhs_nonbatch_coords;
             reduced_leaf ←
               dot_general_leaf lhs_leafshapes rhs_leafshapes lhs_leaves rhs_leaves
                 lhs_contracting rhs_contracting batch lhs_coords rhs_coords;
             append_node out_nodes out_coords reduced_leaf)
          out_nodes
          (lhs_coords ← _iter_leaf_coords lhs_treedefs;
           rhs_nonbatch_coords ← _iter_leaf_coords rhs_nonbatch_treedefs;
           [(lhs_coords, rhs_nonbatch_coords)]);
  out_leaves ← reduce_nodes operator_add (_iter_leaf_coords out_treedefs) out_nodes;
  Ok (out_treedefs, out_leafshapes, out_leaves).

End Treevec.

(** ** The tracer's methods and the remaining rules *)

Section Tracer_methods.
Context {Arr DType : Type} `{!Kernels Arr DType}.

Abbreviation Leaves := (gmap Coords Arr).
Abbreviation TreeState := (list TreeDef * LeafShapes * Leaves)%type.

(** The shape of [TreeTracer.aval]: the logical length of each axis. *)
Definition aval_shape (t : @TreeTracer Arr) : list nat :=
  map _axis_length (leafshapes t).

(** The descriptor objects in the state of [convert_leaf_array]: the
    module's object [TRIVIAL_TREEDEF], once for each dimension. *)
Definition convert_leaf_array_objects (leaf : Arr) : list TreeDefObject :=
  replicate (length (np_shape leaf)) TRIVIAL_TREEDEF_object.

(** The descriptor object in the state of [convert_vectorized_tree]: the
    result of [tree_flatten], an object of its own. *)
Definition convert_vectorized_tree_objects (tree : PyTree Arr) : list TreeDefObject :=
  [other_object (tree_structure tree)].

(** [TreeTracer.full_lower].  [objects] are the descriptor objects that
    [self.treedefs] holds, of which the record keeps the values.  The
    module's [map] is [safe_map], which asserts that its arguments have one
    length; [core_full_lower] stands for [core.full_lower] on the stored
    value.  The result is the lowered value or the tracer itself. *)
Definition full_lower (core_full_lower : Arr → Arr) (objects : list TreeDefObject)
    (t : @TreeTracer Arr) : result (Arr + @TreeTracer Arr) :=
  assert (bool_decide (length objects = length (leafshapes t)));;
  if forallb (λ '(treedef, shapes), is_trivial_axis treedef shapes)
             (zip objects (leafshapes t))
  then
    value ← unpack1 (map_to_list (leaves t)).*2;
    Ok (inl (core_full_lower value))
  else Ok (inr t).

(** A Python dictionary enumerates its keys, values and items in the order
    in which the keys were inserted, which a [gmap] does not record.  Where
    the code enumerates [tracer.leaves], its items are given in that order
    ([list(tracer.leaves.items())]); [dict_of] of them is the dictionary. *)

(** [_flatten_tracer]; [items] are the items of [tracer.leaves] in their
    order.  The last component of [tracer_treedef] is that dictionary, of
    which [_unflatten_tracer] enumerates the keys. *)
Definition _flatten_tracer (items : list (Coords * Arr)) (tracer : @TreeTracer Arr)
  : list Arr * (list TreeDef * LeafShapes * list (Coords * Arr)) :=
  let xs := items.*2 in
  let tracer_treedef := (treedefs tracer, leafshapes tracer, items) in
  (xs, tracer_treedef).

(** [_unflatten_tracer]; [zip] stops at the shorter of the keys and [xs]. *)
Definition _unflatten_tracer
    (tracer_treedef : list TreeDef * LeafShapes * list (Coords * Arr))
    (xs : list Arr) : result (@TreeTracer Arr) :=
  let '(treedefs, leafshapes, leaf_keys) := tracer_treedef in
  let leaves := dict_of (zip leaf_keys.*1 xs) in
  TreeTracer_init treedefs leafshapes leaves.

(** [TreeTrace.pure] and [TreeTrace.lift] *)
Definition TreeTrace_pure (val : PyTree Arr) : result (@TreeTracer Arr) :=
  '(treedefs, leafshapes, leaves) ← convert_leaf_array val;
  TreeTracer_init treedefs leafshapes leaves.

(** [TreeTrace.process_primitive] for a primitive with one result; [rule]
    stands for [tree_rules[primitive]] with the parameters applied. *)
Definition process_primitive
    (rule : list (list TreeDef) → list LeafShapes → list Leaves → result TreeState)
    (tracers : list (@TreeTracer Arr)) : result (@TreeTracer Arr) :=
  let treedefs_in := treedefs <$> tracers in
  let leafshapes_in := leafshapes <$> tracers in
  let leaves_in := leaves <$> tracers in
  '(treedefs, leafshapes, leaves) ← rule treedefs_in leafshapes_in leaves_in;
  TreeTracer_init treedefs leafshapes leaves.

Definition _tree_tracers_to_trees (tracers : list (@TreeTracer Arr))
  : result (list (PyTree Arr)) :=
  mapM (λ t, restore_tree (treedefs t) (leaves t)) tracers.

Definition _trees_to_tree_tracers (trees : list (PyTree Arr))
  : result (list (@TreeTracer Arr)) :=
  parts ← mapM convert_vectorized_tree trees;
  mapM (λ '(treedefs, leafshapes, leaves),
          TreeTracer_init treedefs leafshapes leaves) parts.


(** [transpose_p] stands for [lax.transpose_p.bind(x, permutation=...)]. *)
Definition transpose_tree_rule (transpose_p : Arr → list nat → result Arr)
    (treedefs_in : list (list TreeDef)) (leafshapes_in : list LeafShapes)
    (leaves_in : list Leaves) (permutation : list nat) : result TreeState :=
  treedefs ← unpack1 treedefs_in;
  leafshapes ← unpack1 leafshapes_in;
  leaves ← unpack1 leaves_in;
  out_treedefs ← mapM (index treedefs) permutation;
  out_leafshapes ← mapM (index leafshapes) permutation;
  out_leaves ←
    foldM (λ out_leaves in_coords,
             out_coords ← mapM (index in_coords) permutation;
             leaf ← getitem leaves in_coords;
             leaf_perm ← _axes_for_leaf leafshapes in_coords permutation;
             out ← transpose_p leaf leaf_perm;
             Ok (<[out_coords := out]> out_leaves))
          ∅ (_iter_leaf_coords treedefs);
  Ok (out_treedefs, out_leafshapes, out_leaves).

End Tracer_methods.

(** ** The broadcast rule *)

(** The outcomes of [broadcast_in_dim_tree_rule]: a result, its own
    ValueError, or an exception of an operation that it calls. *)
Inductive broadcast_result (A : Type) : Type :=
| Broadcast (a : A)
| CannotResizeDimension   (* ValueError "cannot resize dimension ... because
                             it corresponds to a non-trivial pytree" *)
| Raised (e : error).
Arguments Broadcast {A} a.
Arguments CannotResizeDimension {A}.
Arguments Raised {A} e.

#[global] Instance broadcast_result_ret : MRet broadcast_result := @Broadcast.
#[global] Instance broadcast_result_bind : MBind broadcast_result :=
  fun A B f m =>
    match m with
    | Broadcast a => f a
    | CannotResizeDimension => CannotResizeDimension
    | Raised e => Raised e
    end.

(** An operation that raises the exceptions of [error] only. *)
Definition raised {A} (r : result A) : broadcast_result A :=
  match r with
  | Ok a => Broadcast a
  | Err e => Raised e
  end.

(** A [for] loop of the rule. *)
Fixpoint foldB {A S} (f : S → A → broadcast_result S) (s : S) (l : list A)
  : broadcast_result S :=
  match l with
  | [] => Broadcast s
  | x :: l => s' ← f s x; foldB f s' l
  end.

(** [l[i] = x] on a list, for a non-negative index. *)
Definition setitem {A} (l : list A) (i : nat) (x : A) : result (list A) :=
  if decide (i < length l) then Ok (<[i := x]> l) else Err IndexError.

Section Broadcast_rule.
Context {Arr DType : Type} `{!Kernels Arr DType}.

Abbreviation Leaves := (gmap Coords Arr).

(** [broadcast_in_dim_p] stands for
    [lax.broadcast_in_dim_p.bind(x, shape=..., broadcast_dimensions=...)].
    The rule tests [is_trivial_axis], so that its descriptors are objects:
    those of the unmapped axes of the result are the module's
    [TRIVIAL_TREEDEF], those of the mapped axes are the operand's. *)
Definition broadcast_in_dim_tree_rule
    (broadcast_in_dim_p : Arr → list nat → list nat → result Arr)
    (treedefs_in : list (list TreeDefObject)) (leafshapes_in : list LeafShapes)
    (leaves_in : list Leaves) (shape broadcast_dimensions : list nat)
  : broadcast_result (list TreeDefObject * LeafShapes * Leaves) :=
  treedefs ← raised (unpack1 treedefs_in);
  leafshapes ← raised (unpack1 leafshapes_in);
  leaves ← raised (unpack1 leaves_in);
  let out_treedefs := replicate (length shape) TRIVIAL_TREEDEF_object in
  let out_leafshapes := map (λ s, [[s]]) shape in
  '(out_treedefs, out_leafshapes) ←
    foldB (λ '(out_treedefs, out_leafshapes) '(input_dim, output_dim),
             treedef ← raised (index treedefs input_dim);
             out_treedefs ← raised (setitem out_treedefs output_dim treedef);
             leafshape ← raised (index leafshapes input_dim);
             if is_trivial_axis treedef leafshape
             then mret (out_treedefs, out_leafshapes)
             else
               s ← raised (index shape output_dim);
               if bool_decide (_axis_length leafshape ≠ s)
               then CannotResizeDimension
               else
                 out_leafshapes ←
                   raised (setitem out_leafshapes output_dim leafshape);
                 mret (out_treedefs, out_leafshapes))
          (out_treedefs, out_leafshapes) (enumerate broadcast_dimensions);
  out_leaves ←
    raised
      (foldM (λ out_leaves '(in_coords, out_coords),
                leaf ← getitem leaves in_coords;
                leaf_shape ← _leafshape out_leafshapes out_coords;
                leaf_bdims ←
                  _axes_for_leaf out_leafshapes out_coords broadcast_dimensions;
                out ← broadcast_in_dim_p leaf leaf_shape leaf_bdims;
                Ok (<[out_coords := out]> out_leaves))
             ∅ (zip (_iter_leaf_coords (object_value <$> treedefs))
                    (_iter_leaf_coords (object_value <$> out_treedefs))));
  mret (out_treedefs, out_leafshapes, out_leaves).

End Broadcast_rule.

(** ** The arguments of the vectorized function *)

(** [_apply_callables]: the callable arguments with their positions, each
    passed through [callable_transform], and the other arguments in their
    order ([callable] stands for Python's [callable]).  The first component
    is what the source hands to [_partial_args]. *)
Definition _apply_callables {A} (callable : A → bool) (callable_transform : A → A)
    (args : list A) : list (nat * A) * list A :=
  foldl (λ '(callables, out_args) '(i, arg),
           if callable arg
           then (callables ++ [(i, callable_transform arg)], out_args)
           else (callables, out_args ++ [arg]))
        ([], []) (enumerate args).

(** [_partial_args]: the argument list with which the wrapped function is
    called. *)
Definition _partial_args {A} (fixed_args : list (nat * A)) (dyn_args : list A)
  : list A :=
  foldl (λ args '(i, arg), list_insert_at i arg args) dyn_args fixed_args.

(** ** A reference implementation of the kernels *)

(** Modelled from the spec: the numeric kernels of [jax.lax], [jax.numpy]
    and [numpy] are not part of the sources; the spec asks of them the
    conventional semantics of the plain-array primitives.  Arrays are held
    in row-major order with exact rational elements, so a cast keeps the
    values it can represent and the rounding of machine floats is outside
    the model.  It serves to run the rules on concrete containers. *)
Module Ref.

(** Modelled from the spec: element types, in the order of promotion. *)
Inductive dtype : Type := bool_ | int32 | float32.

#[global] Instance dtype_eq_dec : EqDecision dtype.
Proof. solve_decision. Defined.

(** Modelled from the spec: the place of a dtype in the promotion order. *)
Definition dtype_rank (d : dtype) : nat :=
  match d with bool_ => 0 | int32 => 1 | float32 => 2 end.

(** Modelled from the spec: the promotion of two dtypes. *)
Definition promote_types (a b : dtype) : dtype :=
  if decide (dtype_rank a ≤ dtype_rank b) then b else a.

(** Modelled from the spec: an array, by its dtype, its shape and its
    elements in row-major order. *)
Record ndarray : Type := NDArray {
  nd_dtype : dtype;
  nd_shape : list nat;
  nd_data : list Q;
}.

(** Modelled from the spec: the indices of an array of a given shape, in
    row-major order. *)
Definition nd_indices (shape : list nat) : list (list nat) :=
  product (map range shape).

(** Modelled from the spec: the row-major position of an index. *)
Definition nd_ravel (shape idx : list nat) : nat :=
  foldl (λ acc ni, acc * ni.1 + ni.2) 0 (zip shape idx).

(** Modelled from the spec: [a[idx]]. *)
Definition nd_get (a : ndarray) (idx : list nat) : Q :=
  nth (nd_ravel (nd_shape a) idx) (nd_data a) 0%Q.

(** Modelled from the spec: the array of a shape with the element [f idx]
    at each index. *)
Definition nd_build (d : dtype) (shape : list nat) (f : list nat → Q) : ndarray :=
  NDArray d shape (map f (nd_indices shape)).

(** Modelled from the spec: the cast of one element. *)
Definition cast_value (d : dtype) (v : Q) : Q :=
  match d with
  | bool_ => if Qeq_bool v 0 then 0%Q else 1%Q
  | int32 => inject_Z (Z.quot (Qnum v) (Zpos (Qden v)))
  | float32 => v
  end.

(** Modelled from the spec: [jnp.result_type( *xs )], the promotion of the
    dtypes of at least one array. *)
Definition nd_result_type (xs : list ndarray) : result dtype :=
  match xs with
  | [] => Err IndexError
  | x :: xs => Ok (foldl promote_types (nd_dtype x) (map nd_dtype xs))
  end.

(** Modelled from the spec: [jnp.asarray(x, dtype)]. *)
Definition nd_asarray (x : ndarray) (d : dtype) : result ndarray :=
  Ok (NDArray d (nd_shape x) (map (cast_value d) (nd_data x))).

(** Modelled from the spec: [jnp.split(a, indices, axis)], the pieces of [a]
    between consecutive indices along [axis]. *)
Definition nd_split (a : ndarray) (indices : list nat) (axis : nat)
  : result (list ndarray) :=
  n ← index (nd_shape a) axis;
  Ok (map (λ '(lo, hi),
             nd_build (nd_dtype a) (<[axis := hi - lo]> (nd_shape a))
                      (λ idx, nd_get a (alter (λ i, i + lo) axis idx)))
          (zip (0 :: indices) (indices ++ [n]))).

(** Modelled from the spec: [a.reshape(shape)]. *)
Definition nd_reshape (a : ndarray) (shape : list nat) : result ndarray :=
  if decide (prod shape = prod (nd_shape a))
  then Ok (NDArray (nd_dtype a) shape (nd_data a))
  else Err KernelError.

(** Modelled from the spec: [lax.squeeze(a, dims)]; the dimensions removed
    must have size 1. *)
Definition nd_squeeze (a : ndarray) (dims : list nat) : result ndarray :=
  if forallb (λ d, bool_decide (nd_shape a !! d = Some 1)) dims
  then Ok (NDArray (nd_dtype a) (without_axes dims (nd_shape a)) (nd_data a))
  else Err KernelError.

(** Modelled from the spec: [lax.expand_dims(a, dims)]; [dims] are positions
    in the result. *)
Definition nd_expand_dims (a : ndarray) (dims : list nat) : result ndarray :=
  let ndim_out := length (nd_shape a) + length dims in
  if forallb (λ d, bool_decide (d < ndim_out)) dims
  then Ok (NDArray (nd_dtype a)
             (foldl (λ s i, list_insert_at i 1 s) (nd_shape a) (merge_sort le dims))
             (nd_data a))
  else Err KernelError.

(** Modelled from the spec: the element at [idx] of the concatenation of
    [args] along [dim]. *)
Fixpoint concat_get (args : list ndarray) (dim : nat) (idx : list nat) : Q :=
  match args with
  | [] => 0%Q
  | a :: rest =>
      let n := default 0 (nd_shape a !! dim) in
      let i := default 0 (idx !! dim) in
      if decide (i < n) then nd_get a idx
      else concat_get rest dim (<[dim := i - n]> idx)
  end.

(** Modelled from the spec: [lax.concatenate(args, dim)]. *)
Definition nd_concatenate (args : list ndarray) (dim : nat) : result ndarray :=
  match args with
  | [] => Err KernelError
  | a0 :: _ =>
      if bool_decide (dim < length (nd_shape a0)) &&
         forallb (λ a, bool_decide (<[dim := 0]> (nd_shape a) = <[dim := 0]> (nd_shape a0)))
                 args
      then
        let total := sum_list (map (λ a, default 0 (nd_shape a !! dim)) args) in
        Ok (nd_build (nd_dtype a0) (<[dim := total]> (nd_shape a0)) (concat_get args dim))
      else Err KernelError
  end.

(** Modelled from the spec: the index of rank [length mask] that takes its
    entries from [r] where the mask is set and from [o] elsewhere. *)
Fixpoint merge_index (mask : list bool) (o r : list nat) : list nat :=
  match mask with
  | [] => []
  | true :: mask =>
      match r with
      | x :: r => x :: merge_index mask o r
      | [] => []
      end
  | false :: mask =>
      match o with
      | x :: o => x :: merge_index mask o r
      | [] => []
      end
  end.

(** Modelled from the spec: the entries of [l] at the positions [axes]. *)
Definition only_axes {A} (axes : list nat) (l : list A) : list A :=
  (filter (λ ix, ix.1 ∈ axes) (enumerate l)).*2.

(** Modelled from the spec: a reduction primitive, [op] folded over the
    dimensions [axes]; [unit] is the value of an empty reduction, when there
    is one. *)
Definition nd_reduce (op : Q → Q → Q) (unit : option Q) (a : ndarray)
    (axes : list nat) : result ndarray :=
  let shape := nd_shape a in
  if forallb (λ d, bool_decide (d < length shape)) axes then
    let mask := map (λ i, bool_decide (i ∈ axes)) (range (length shape)) in
    let red := nd_indices (only_axes axes shape) in
    match red, unit with
    | [], None => Err KernelError
    | _, _ =>
        Ok (nd_build (nd_dtype a) (without_axes axes shape)
              (λ o, match map (λ r, nd_get a (merge_index mask o r)) red with
                    | [] => default 0%Q unit
                    | v :: vs => foldl op v vs
                    end))
    end
  else Err KernelError.

(** Modelled from the spec: [base] with the entries [vals] at the positions
    [pos]. *)
Definition place (pos vals : list nat) (base : list nat) : list nat :=
  foldl (λ acc pv, <[pv.1 := pv.2]> acc) base (zip pos vals).

(** Modelled from the spec: [lax.dot_general]; the result has the batch
    dimensions, then the free dimensions of [lhs], then those of [rhs], and
    each element is the sum of the products over the contracting indices. *)
Definition nd_dot_general (lhs rhs : ndarray)
    (dimension_numbers : (list nat * list nat) * (list nat * list nat))
  : result ndarray :=
  let '((lc, rc), (lb, rb)) := dimension_numbers in
  let ls := nd_shape lhs in
  let rs := nd_shape rhs in
  let lfree := filter (λ i, i ∉ lc ++ lb) (range (length ls)) in
  let rfree := filter (λ i, i ∉ rc ++ rb) (range (length rs)) in
  shape_b ← mapM (index ls) lb;
  shape_b' ← mapM (index rs) rb;
  shape_c ← mapM (index ls) lc;
  shape_c' ← mapM (index rs) rc;
  shape_l ← mapM (index ls) lfree;
  shape_r ← mapM (index rs) rfree;
  if bool_decide (shape_b = shape_b') && bool_decide (shape_c = shape_c') then
    Ok (nd_build (nd_dtype lhs) (shape_b ++ shape_l ++ shape_r)
          (λ o,
             let b := take (length lb) o in
             let i := take (length lfree) (drop (length lb) o) in
             let j := drop (length lb + length lfree) o in
             foldl Qplus 0%Q
               (map (λ c,
                       let li := place lfree i (place lc c (place lb b
                                   (replicate (length ls) 0))) in
                       let ri := place rfree j (place rc c (place rb b
                                   (replicate (length rs) 0))) in
                       Qmult (nd_get lhs li) (nd_get rhs ri))
                    (nd_indices shape_c))))
  else Err KernelError.

(** Modelled from the spec: the shape of an elementwise result; operands of
    rank 0 are left out, the others have one rank and agree on each
    dimension up to size 1. *)
Fixpoint broadcast_shapes (shapes : list (list nat)) : result (list nat) :=
  match shapes with
  | [] => Ok []
  | [] :: shapes => broadcast_shapes shapes
  | s :: shapes =>
      t ← broadcast_shapes shapes;
      match t with
      | [] => if forallb (λ u, bool_decide (u = [])) shapes then Ok s
              else Err KernelError
      | _ =>
          if bool_decide (length s = length t) &&
             forallb (λ nm, bool_decide (nm.1 = nm.2 ∨ nm.1 = 1 ∨ nm.2 = 1)) (zip s t)
          then Ok (zip_with Nat.max s t)
          else Err KernelError
      end
  end.

(** Modelled from the spec: the element of [a] that is combined at [idx]. *)
Definition broadcast_get (a : ndarray) (idx : list nat) : Q :=
  match nd_shape a with
  | [] => nd_get a []
  | s => nd_get a (zip_with (λ n i, if decide (n = 1) then 0 else i) s idx)
  end.

(** Modelled from the spec: an elementwise binary primitive,
    [prim.bind(x, y)]. *)
Definition nd_binop (op : Q → Q → Q) (args : list ndarray) : result ndarray :=
  match args with
  | [x; y] =>
      shape ← broadcast_shapes [nd_shape x; nd_shape y];
      Ok (nd_build (nd_dtype x) shape
            (λ idx, op (broadcast_get x idx) (broadcast_get y idx)))
  | _ => Err TypeError
  end.

(** Modelled from the spec: the maximum of two elements. *)
Definition Qmax (x y : Q) : Q := if Qle_bool x y then y else x.

(** Modelled from the spec: the kernels, on [ndarray]. *)
#[global] Instance kernels : Kernels ndarray dtype := {|
  np_shape := nd_shape;
  dtype_of := nd_dtype;
  result_type := nd_result_type;
  asarray := nd_asarray;
  jnp_split := nd_split;
  reshape := nd_reshape;
  lax_squeeze := nd_squeeze;
  lax_expand_dims := nd_expand_dims;
  lax_concatenate := nd_concatenate;
  lax_dot_general := nd_dot_general;
  operator_add := λ x y, nd_binop Qplus [x; y];
|}.

(** Modelled from the spec: [lax.reduce_sum_p], [lax.reduce_max_p],
    [lax.add_p] and [lax.max_p]. *)
Definition reduce_sum_p (x : ndarray) (axes : list nat) : result ndarray :=
  nd_reduce Qplus (Some 0%Q) x axes.
Definition reduce_max_p (x : ndarray) (axes : list nat) : result ndarray :=
  nd_reduce Qmax None x axes.
Definition add_p (x y : ndarray) : result ndarray := nd_binop Qplus [x; y].
Definition max_p (x y : ndarray) : result ndarray := nd_binop Qmax [x; y].

(** Modelled from the spec: [lax.transpose_p]; dimension [k] of the result
    is the dimension [permutation[k]] of the operand. *)
Definition transpose_p (a : ndarray) (permutation : list nat) : result ndarray :=
  shape ← mapM (index (nd_shape a)) permutation;
  if bool_decide (length permutation = length (nd_shape a))
     && bool_decide (NoDup permutation)
  then Ok (nd_build (nd_dtype a) shape
             (λ idx, nd_get a (place permutation idx
                                 (replicate (length permutation) 0))))
  else Err KernelError.

(** Modelled from the spec: [lax.neg_p]. *)
Definition neg_p (a : ndarray) : result ndarray :=
  Ok (NDArray (nd_dtype a) (nd_shape a) (map Qopp (nd_data a))).

(** Modelled from the spec: [lax.broadcast_in_dim_p]; dimension [i] of the
    operand becomes dimension [broadcast_dimensions[i]] of the result, of
    which it has the size or the size 1. *)
Definition broadcast_in_dim_p (a : ndarray) (shape broadcast_dimensions : list nat)
  : result ndarray :=
  sizes ← mapM (index shape) broadcast_dimensions;
  if bool_decide (length broadcast_dimensions = length (nd_shape a))
     && bool_decide (StronglySorted lt broadcast_dimensions)
     && forallb (λ nm, bool_decide (nm.1 = nm.2 ∨ nm.1 = 1)) (zip (nd_shape a) sizes)
  then Ok (nd_build (nd_dtype a) shape
             (λ idx, nd_get a (zip_with (λ n d, if decide (n = 1) then 0
                                                else default 0 (idx !! d))
                                        (nd_shape a) broadcast_dimensions)))
  else Err KernelError.

(** A Python float, and arrays of floats of rank 1 and 2. *)
Definition scalar (v : Q) : ndarray := NDArray float32 [] [v].
Definition array1 (vs : list Q) : ndarray := NDArray float32 [length vs] vs.
Definition array2 (rows : list (list Q)) : ndarray :=
  NDArray float32 [length rows; length (default [] (head rows))] (concat rows).

End Ref.

(** ** Concrete containers *)

Module Examples.
Import Ref.

(** A Python int. *)
Definition int_scalar (v : Z) : ndarray := NDArray int32 [] [inject_Z v].
Definition int_array1 (vs : list Z) : ndarray :=
  NDArray int32 [length vs] (map inject_Z vs).

(** [{'x': 1.0, 'y': jnp.array([2.0]), 'z': jnp.array([[3.0, 4.0]])}], the
    container of [test_reduce] and [test_dot]. *)
Definition tree_xyz : PyTree ndarray :=
  PNode (KDict ["x"; "y"; "z"]%string)
    [PLeaf (scalar 1); PLeaf (array1 [2%Q]); PLeaf (array2 [[3%Q; 4%Q]])].

(** [{'x': 1.0, 'y': [2.0], 'z': [[3.0, 4.0]]}] with Python lists. *)
Definition tree_xyz_lists : PyTree ndarray :=
  PNode (KDict ["x"; "y"; "z"]%string)
    [PLeaf (scalar 1);
     PNode KList [PLeaf (scalar 2)];
     PNode KList [PNode KList [PLeaf (scalar 3); PLeaf (scalar 4)]]].

(** [{'a': 0, 'b': 0}] and [{'c': 0, 'd': 0}] *)
Definition tree_ab : PyTree ndarray :=
  PNode (KDict ["a"; "b"]%string) [PLeaf (int_scalar 0); PLeaf (int_scalar 0)].
Definition tree_cd : PyTree ndarray :=
  PNode (KDict ["c"; "d"]%string) [PLeaf (int_scalar 0); PLeaf (int_scalar 0)].

(** [{'a': 0, 'b': np.array([1.0]), 'c': np.array([2, 3])}], the container of
    [test_convert_vectorized_tree]. *)
Definition tree_mixed : PyTree ndarray :=
  PNode (KDict ["a"; "b"; "c"]%string)
    [PLeaf (int_scalar 0); PLeaf (array1 [1%Q]); PLeaf (int_array1 [2%Z; 3%Z])].

(** An array of the given shape filled with one value. *)
Definition full (shape : list nat) (v : Q) : ndarray :=
  NDArray float32 shape (replicate (prod shape) v).

Definition treedef_ab : TreeDef := tree_structure tree_ab.
Definition treedef_cd : TreeDef := tree_structure tree_cd.

(** Two operands of rank 2.  Along axis 0 both have the container
    [{'a', 'b'}], with the layouts [()], [(2,)] and [(3,)], [()]; along
    axis 1 the first has the container [{'a', 'b'}] and the second
    [{'c', 'd'}]. *)
Definition outer_ab_ab : list TreeDef * LeafShapes * gmap Coords ndarray :=
  ([treedef_ab; treedef_ab], [[[]; [2]]; [[]; []]],
   {[ [0; 0] := full [] 1; [0; 1] := full [] 2;
      [1; 0] := full [2] 3; [1; 1] := full [2] 4 ]}).
Definition outer_ab_cd : list TreeDef * LeafShapes * gmap Coords ndarray :=
  ([treedef_ab; treedef_cd], [[[3]; []]; [[]; []]],
   {[ [0; 0] := full [3] 1; [0; 1] := full [3] 2;
      [1; 0] := full [] 3; [1; 1] := full [] 4 ]}).

End Examples.

(** ** Definitions used in the statements *)

(** The segment shapes that a block coordinate selects, one per axis. *)
Definition segments_at (leafshapes : LeafShapes) (coords : Coords)
  : result (list (list nat)) :=
  mapM (λ ij, shapes ← index leafshapes ij.1; index shapes ij.2) (enumerate coords).

(** The physical dimensions that the logical axes [axes] occupy in a block
    whose per-axis segment shapes are [segs]. *)
Definition leaf_axes (segs : list (list nat)) (axes : list nat) : list nat :=
  concat (imap (λ k s, if decide (k ∈ axes)
                       then seq (length (concat (take k segs))) (length s)
                       else [])
               segs).

(** [without_axes] by recursion on the list, from position [k]. *)
Fixpoint drop_at {A} (axes : list nat) (k : nat) (l : list A) : list A :=
  match l with
  | [] => []
  | x :: l => if decide (k ∈ axes) then drop_at axes (S k) l
              else x :: drop_at axes (S k) l
  end.

(** A trivial axis, in the words of the spec and of C8: the axis has the
    trivial container descriptor and a single segment, of one dimension. *)
Definition trivial_axis (treedef : TreeDef) (leafshapes : list (list nat)) : bool :=
  bool_decide (treedef = TRIVIAL_TREEDEF) &&
  match leafshapes with
  | [s] => bool_decide (length s = 1)
  | _ => false
  end.

(** Two operands carry distinct non-trivial container descriptors along
    [axis]. *)
Definition descriptor_conflict (treedefs_in : list (list TreeDef)) (axis : nat) : Prop :=
  ∃ d1 d2 t1 t2,
    t1 ∈ treedefs_in ∧ t2 ∈ treedefs_in
    ∧ t1 !! axis = Some d1 ∧ t2 !! axis = Some d2
    ∧ d1 ≠ TRIVIAL_TREEDEF ∧ d2 ≠ TRIVIAL_TREEDEF ∧ d1 ≠ d2.

(** Two operands carry distinct multi-segment layouts along [axis]. *)
Definition shape_conflict (leafshapes_in : list LeafShapes) (axis : nat) : Prop :=
  ∃ s1 s2 l1 l2,
    l1 ∈ leafshapes_in ∧ l2 ∈ leafshapes_in
    ∧ l1 !! axis = Some s1 ∧ l2 !! axis = Some s2
    ∧ length s1 ≠ 1 ∧ length s2 ≠ 1 ∧ s1 ≠ s2.

Section Statements.
Context {Arr DType : Type} `{!Kernels Arr DType}.

(** The logical length of [axis] in [leafshapes]. *)
Definition axis_length_at (leafshapes : LeafShapes) (axis : nat) : nat :=
  _axis_length (default [] (leafshapes !! axis)).

(** One split of the blocks of an operand along [axis], to the output
    layout of that axis. *)
Definition split_axis (out_leafshapes leafshapes : LeafShapes)
    (state : LeafShapes * gmap Coords Arr) (axis : nat)
  : result (LeafShapes * gmap Coords Arr) :=
  let '(leafshapes_, leaves) := state in
  out_shapes ← index out_leafshapes axis;
  leaves ← _split_leaves leafshapes leaves axis out_shapes;
  Ok (<[axis := out_shapes]> leafshapes_, leaves).

(** The axes of an operand that the n-ary rule splits: the layout differs
    from the output layout and the axis is not of length 1. *)
Definition naryop_split_axes (ndim : nat) (out_leafshapes leafshapes : LeafShapes)
  : list nat :=
  filter (λ axis, leafshapes !! axis ≠ out_leafshapes !! axis
                  ∧ axis_length_at leafshapes axis ≠ 1)
         (range ndim).



(** The blocks that are accumulated into the output coordinate [k], in the
    order in which they were produced. *)
Definition contributions (kvs : list (Coords * Arr)) (k : Coords) : list Arr :=
  (filter (λ kv, kv.1 = k) kvs).*2.

(** Accumulation in the words of the specification: every input [x] of [l]
    yields an output coordinate and a block; the blocks that go to one
    output coordinate are folded with the binary combiner. *)
Definition group_reduce {A} (binop : Arr → Arr → result Arr)
    (g : A → result (Coords * Arr)) (keys : list Coords) (l : list A)
  : result (gmap Coords Arr) :=
  kvs ← mapM g l;
  if decide (Forall (λ kv, kv.1 ∈ keys) kvs) then
    dict_of <$> mapM (λ k, out ← py_reduce binop (contributions kvs k); Ok (k, out)) keys
  else Err KeyError.

(** The loop that appends each produced block to the list of its output
    coordinate. *)
Definition accumulate {A} (g : A → result (Coords * Arr))
    (nodes : gmap Coords (list Arr)) (l : list A) : result (gmap Coords (list Arr)) :=
  foldM (λ nodes x, g x ≫= λ kv, append_node nodes kv.1 kv.2) nodes l.

(** The partially reduced block of one input coordinate: the kernel call of
    the loop of [reducer_tree_rule]. *)
Definition reduced_leaf (prim : Arr → list nat → result Arr)
    (leafshapes : LeafShapes) (leaves : gmap Coords Arr) (axes : list nat)
    (in_coords : Coords) : result Arr :=
  leaf_axes ← _axes_for_leaf leafshapes in_coords axes;
  leaf ← getitem leaves in_coords;
  prim leaf leaf_axes.

(** The output coordinate and the kernel result of one pair of input
    coordinates: the body of the double loop of [dot_general_tree_rule]. *)
Definition dot_general_pair (lhs_leafshapes rhs_leafshapes : LeafShapes)
    (lhs_leaves rhs_leaves : gmap Coords Arr)
    (lhs_contracting rhs_contracting batch lhs_remaining rhs_remaining : list nat)
    (pair : Coords * Coords) : result (Coords * Arr) :=
  '(rhs_coords, out_coords) ←
    dot_general_coords lhs_contracting rhs_contracting batch
      lhs_remaining rhs_remaining pair.1 pair.2;
  reduced_leaf ←
    dot_general_leaf lhs_leafshapes rhs_leafshapes lhs_leaves rhs_leaves
      lhs_contracting rhs_contracting batch pair.1 rhs_coords;
  Ok (out_coords, reduced_leaf).

End Statements.

(** The lexicographic order of block coordinates of one length. *)
Fixpoint coords_lt (a b : Coords) : Prop :=
  match a, b with
  | x :: a, y :: b => x < y ∨ (x = y ∧ coords_lt a b)
  | _, _ => False
  end.

(** The sizes of the dimensions that the logical axes [axes] occupy in a
    block whose per-axis segment shapes are [segs]. *)
Definition selected_shape (segs : list (list nat)) (axes : list nat) : list nat :=
  concat (imap (λ k s, if decide (k ∈ axes) then s else []) segs).

(** The descriptor of a container of shape [outer] that holds a container
    of shape [inner] in the place of each of its leaves. *)
Fixpoint treedef_compose (outer inner : TreeDef) : TreeDef :=
  match outer with
  | TLeaf => inner
  | TNode k ch => TNode k (map (λ c, treedef_compose c inner) ch)
  end.

(** The nesting of the descriptors of the axes, the first axis outermost. *)
Definition nested_treedef (treedefs : list TreeDef) : TreeDef :=
  foldr treedef_compose TRIVIAL_TREEDEF treedefs.

(** The list that has the entries of [ss] at the positions where [mask] is
    set and the entries of [xs] at the others, each in their order. *)
Fixpoint merge_by_mask {A} (mask : list bool) (ss xs : list A) : list A :=
  match mask with
  | [] => []
  | true :: mask =>
      match ss with
      | s :: ss => s :: merge_by_mask mask ss xs
      | [] => []
      end
  | false :: mask =>
      match xs with
      | x :: xs => x :: merge_by_mask mask ss xs
      | [] => []
      end
  end.

(** The descriptor [d] that the n-ary rule adopts along [axis]: every
    operand has the trivial descriptor or [d] there, and a non-trivial [d]
    is the descriptor of some operand. *)
Definition adopts_descriptor (treedefs_in : list (list TreeDef)) (axis : nat)
    (d : TreeDef) : Prop :=
  (∀ t d', t ∈ treedefs_in → t !! axis = Some d' → d' = TRIVIAL_TREEDEF ∨ d' = d)
  ∧ (d ≠ TRIVIAL_TREEDEF → ∃ t, t ∈ treedefs_in ∧ t !! axis = Some d).

(** The layout [s] that the n-ary rule adopts along [axis]: every operand
    has one segment or the layout [s] there; a layout [s] with several
    segments (or none) is the layout of some operand, and otherwise [s] is
    one segment of the largest logical length among the operands. *)
Definition adopts_layout (leafshapes_in : list LeafShapes) (axis : nat)
    (s : list (list nat)) : Prop :=
  (∀ l s', l ∈ leafshapes_in → l !! axis = Some s' → length s' = 1 ∨ s' = s)
  ∧ (length s ≠ 1 → ∃ l, l ∈ leafshapes_in ∧ l !! axis = Some s)
  ∧ (length s = 1 →
     s = [[max_list (map (λ l, _axis_length (default [] (l !! axis))) leafshapes_in)]]).

(** [[x for i, x in enumerate(l) if i in axes]], the complement of
    [drop_at], by recursion on the list from position [k]. *)
Fixpoint keep_at {A} (axes : list nat) (k : nat) (l : list A) : list A :=
  match l with
  | [] => []
  | x :: l => if decide (k ∈ axes) then x :: keep_at axes (S k) l
              else keep_at axes (S k) l
  end.

(** The axes [lhs_axis] of the left operand and [rhs_axis] of the right
    operand of [dot_general] have one descriptor and one layout. *)
Definition axes_match (lhs_treedefs rhs_treedefs : list TreeDef)
    (lhs_leafshapes rhs_leafshapes : LeafShapes) (pair : nat * nat) : Prop :=
  ∃ treedef shapes,
    lhs_treedefs !! pair.1 = Some treedef ∧ rhs_treedefs !! pair.2 = Some treedef
    ∧ lhs_leafshapes !! pair.1 = Some shapes ∧ rhs_leafshapes !! pair.2 = Some shapes.

(** The operand axis [i] has a container or a block layout of its own, and
    the requested length of the result axis that it is mapped to is not its
    length. *)
Definition resized_container (treedefs : list TreeDefObject) (leafshapes : LeafShapes)
    (shape broadcast_dimensions : list nat) (i : nat) : Prop :=
  ∃ treedef leafshape d s,
    treedefs !! i = Some treedef ∧ leafshapes !! i = Some leafshape
    ∧ broadcast_dimensions !! i = Some d ∧ shape !! d = Some s
    ∧ is_trivial_axis treedef leafshape = false
    ∧ _axis_length leafshape ≠ s.

(** The axes of the result of the broadcast rule: the result axis
    [broadcast_dimensions[i]] has the descriptor object of the operand axis
    [i], with its layout, or with one segment of the requested length when
    the operand axis is trivial; the other result axes have the module's
    trivial descriptor and one segment of the requested length. *)
Definition broadcast_axes (treedefs : list TreeDefObject) (leafshapes : LeafShapes)
    (shape broadcast_dimensions : list nat)
    (out_treedefs : list TreeDefObject) (out_leafshapes : LeafShapes) : Prop :=
  length out_treedefs = length shape ∧ length out_leafshapes = length shape
  ∧ (∀ i d, broadcast_dimensions !! i = Some d →
       ∃ treedef leafshape s,
         treedefs !! i = Some treedef ∧ leafshapes !! i = Some leafshape
         ∧ shape !! d = Some s
         ∧ out_treedefs !! d = Some treedef
         ∧ out_leafshapes !! d
           = Some (if is_trivial_axis treedef leafshape then [[s]] else leafshape))
  ∧ (∀ d s, shape !! d = Some s → d ∉ broadcast_dimensions →
       out_treedefs !! d = Some TRIVIAL_TREEDEF_object
       ∧ out_leafshapes !! d = Some [[s]]).

(** What is left of a tuple with one entry per axis when the axes [axes]
    are reduced: the entries at the positions that are not in [axes], in
    their order. *)
Definition remaining {A} (axes : list nat) (l : list A) : list A :=
  omap (λ i, l !! i) (filter (λ i, i ∉ axes) (seq 0 (length l))).

(** * Properties *)

(** ** The [result] monad and the loops *)

Lemma bind_Ok {A B} (m : result A) (f : A → result B) (b : B) :
  m ≫= f = Ok b ↔ ∃ a, m = Ok a ∧ f a = Ok b.
Proof.
  destruct m as [a|e]; simpl; split.
  - intros Hf. by exists a.
  - by intros (a' & [= ->] & Hf).
  - discriminate.
  - by intros (a' & [=] & _).
Qed.

Lemma fmap_Ok {A B} (m : result A) (f : A → B) (b : B) :
  f <$> m = Ok b ↔ ∃ a, m = Ok a ∧ b = f a.
Proof.
  destruct m as [a|e]; simpl; split.
  - intros [= <-]. by exists a.
  - by intros (a' & [= ->] & ->).
  - discriminate.
  - by intros (a' & [=] & _).
Qed.

Lemma assert_Ok (b : bool) (u : unit) : assert b = Ok u ↔ b = true.
Proof. destruct b, u; simpl; split; done. Qed.

Lemma raise_if_Ok (b : bool) (e : error) (u : unit) : raise_if b e = Ok u ↔ b = false.
Proof. destruct b, u; simpl; split; done. Qed.

Lemma index_Ok {A} (l : list A) (i : nat) (x : A) : index l i = Ok x ↔ l !! i = Some x.
Proof. unfold index. destruct (l !! i); split; congruence. Qed.

Lemma getitem_Ok {V} (d : gmap Coords V) (k : Coords) (v : V) :
  getitem d k = Ok v ↔ d !! k = Some v.
Proof. unfold getitem. destruct (d !! k); split; congruence. Qed.

Lemma unpack1_Ok {A} (xs : list A) (x : A) : unpack1 xs = Ok x ↔ xs = [x].
Proof. destruct xs as [|y [|z xs]]; simpl; split; congruence. Qed.

Lemma mapM_Ok {A B} (f : A → result B) (l : list A) (k : list B) :
  mapM f l = Ok k ↔ Forall2 (λ x y, f x = Ok y) l k.
Proof.
  revert k. induction l as [|x l IH]; intros k; simpl.
  - split; [intros [= <-]; constructor | by inversion 1].
  - rewrite bind_Ok. split.
    + intros (y & Hy & Hk). apply bind_Ok in Hk as (k' & Hk' & [= <-]).
      constructor; [done | by apply IH].
    + inversion 1 as [|? y ? k' Hy Hk']; subst. exists y. split; [done|].
      apply bind_Ok. exists k'. split; [by apply IH | done].
Qed.

Lemma mapM_ext_in {A B} (f g : A → result B) (l : list A) :
  (∀ x, x ∈ l → f x = g x) → mapM f l = mapM g l.
Proof.
  induction l as [|x l IH]; intros Hfg; simpl; [done|].
  rewrite Hfg by left. rewrite IH; [done|]. intros y Hy. apply Hfg. by right.
Qed.

Lemma foldM_app {A S} (f : S → A → result S) (s : S) (l1 l2 : list A) :
  foldM f s (l1 ++ l2) = foldM f s l1 ≫= λ s', foldM f s' l2.
Proof.
  revert s. induction l1 as [|x l1 IH]; intros s; simpl; [done|].
  destruct (f s x); simpl; [apply IH | done].
Qed.

Lemma foldM_ext_in {A S} (f g : S → A → result S) (s : S) (l : list A) :
  (∀ s x, x ∈ l → f s x = g s x) → foldM f s l = foldM g s l.
Proof.
  revert s. induction l as [|x l IH]; intros s Hfg; simpl; [done|].
  rewrite Hfg by left. destruct (g s x); simpl; [|done].
  apply IH. intros s' y Hy. apply Hfg. by right.
Qed.

(** A loop of checks succeeds exactly when every check does. *)
Lemma foldM_unit_Ok {A} (f : A → result unit) (l : list A) :
  foldM (λ _ x, f x) tt l = Ok tt ↔ Forall (λ x, f x = Ok tt) l.
Proof.
  induction l as [|x l IH]; simpl.
  - split; [constructor | done].
  - rewrite bind_Ok. split.
    + intros ([] & Hx & Hl). constructor; [done | by apply IH].
    + inversion 1; subst. exists tt. split; [done | by apply IH].
Qed.

Lemma enumerate_lookup {A} (l : list A) (i : nat) :
  enumerate l !! i = (λ x, (i, x)) <$> l !! i.
Proof. unfold enumerate. by rewrite list_lookup_imap. Qed.

Lemma elem_of_enumerate {A} (l : list A) (i : nat) (x : A) :
  (i, x) ∈ enumerate l ↔ l !! i = Some x.
Proof.
  rewrite list_elem_of_lookup. split.
  - intros (j & Hj). rewrite enumerate_lookup in Hj.
    destruct (l !! j) eqn:E; simpl in Hj; [|done]. by injection Hj as -> ->.
  - intros Hx. exists i. by rewrite enumerate_lookup, Hx.
Qed.

Lemma length_enumerate {A} (l : list A) : length (enumerate l) = length l.
Proof. unfold enumerate. by rewrite length_imap. Qed.

Lemma enumerate_snoc {A} (l : list A) (x : A) :
  enumerate (l ++ [x]) = enumerate l ++ [(length l, x)].
Proof.
  unfold enumerate. rewrite imap_app. simpl. by rewrite Nat.add_0_r.
Qed.

(** ** Dictionaries *)

Lemma dict_of_snoc {V} (kvs : list (Coords * V)) (k : Coords) (v : V) :
  dict_of (kvs ++ [(k, v)]) = <[k := v]> (dict_of kvs).
Proof. unfold dict_of. by rewrite foldl_app. Qed.

Lemma dict_of_lookup_None {V} (kvs : list (Coords * V)) (k : Coords) :
  k ∉ kvs.*1 → dict_of kvs !! k = None.
Proof.
  induction kvs as [|[k' v] kvs IH] using rev_ind; intros Hk.
  - apply lookup_empty.
  - rewrite dict_of_snoc. rewrite fmap_app, elem_of_app in Hk. simpl in Hk.
    rewrite lookup_insert_ne.
    + apply IH. tauto.
    + intros ->. apply Hk. right. by left.
Qed.

Lemma dict_of_lookup_Some {V} (kvs : list (Coords * V)) (k : Coords) (v : V) :
  NoDup kvs.*1 → (k, v) ∈ kvs → dict_of kvs !! k = Some v.
Proof.
  induction kvs as [|[k' v'] kvs IH] using rev_ind; intros Hnd Hin.
  - by apply elem_of_nil in Hin.
  - rewrite dict_of_snoc. rewrite fmap_app in Hnd. simpl in Hnd.
    apply NoDup_app in Hnd as (Hnd & Hdisj & _).
    apply elem_of_app in Hin as [Hin | Hin].
    + rewrite lookup_insert_ne; [by apply IH|].
      intros ->. eapply Hdisj; [|by left].
      apply list_elem_of_fmap. by exists (k, v).
    + apply list_elem_of_singleton in Hin as [= -> ->]. apply lookup_insert_eq.
Qed.

Lemma dict_of_size {V} (kvs : list (Coords * V)) :
  kvs ≠ [] → size (dict_of kvs) ≠ 0.
Proof.
  destruct kvs as [|[k v] kvs _] using rev_ind; [done|]. intros _.
  rewrite dict_of_snoc. intros Hsz. apply map_size_empty_inv in Hsz.
  by apply insert_non_empty in Hsz.
Qed.

(** ** Containers *)

Lemma PyTree_ind' {A} (P : PyTree A → Prop) :
  (∀ x, P (PLeaf x)) →
  (∀ k ch, Forall P ch → P (PNode k ch)) →
  ∀ t, P t.
Proof.
  intros HL HN. fix IH 1. intros [x|k ch]; [apply HL|].
  apply HN. induction ch as [|c ch IHch]; constructor; [apply IH | exact IHch].
Qed.

Lemma num_leaves_structure {A} (t : PyTree A) :
  num_leaves (tree_structure t) = length (tree_leaves t).
Proof.
  induction t as [x|k ch IH] using PyTree_ind'; simpl; [done|].
  induction IH as [|c ch Hc _ IHch]; simpl; [done|].
  rewrite length_app. congruence.
Qed.


(** Unflattening the structure of a container over a list of leaves of the
    right count rebuilds a container of that structure with those leaves. *)
Lemma unflatten_from_leaves {A} (td : TreeDef) (xs : list A) (rest : list (PyTree A)) :
  length xs = num_leaves td →
  ∃ t, unflatten_from td ((PLeaf <$> xs) ++ rest) = Some (t, rest)
       ∧ tree_structure t = td ∧ tree_leaves t = xs.
Proof.
  revert xs rest. induction td as [|k ch IH] using TreeDef_ind'; intros xs rest Hlen.
  - destruct xs as [|x [|y xs]]; simpl in Hlen; try discriminate.
    exists (PLeaf x). done.
  - simpl in Hlen |- *.
    set (go := fix go (ch : list TreeDef) (xs : list (PyTree A))
               : option (list (PyTree A) * list (PyTree A)) :=
           match ch with
           | [] => Some ([], xs)
           | c :: ch =>
               match unflatten_from c xs with
               | Some (t, xs) =>
                   match go ch xs with
                   | Some (ts, xs) => Some (t :: ts, xs)
                   | None => None
                   end
               | None => None
               end
           end).
    assert (Hgo : ∃ ts, go ch ((PLeaf <$> xs) ++ rest) = Some (ts, rest)
                        ∧ map tree_structure ts = ch
                        ∧ concat (map tree_leaves ts) = xs).
    { clear k. revert xs Hlen. induction IH as [|c ch Hc _ IHch]; intros xs Hlen.
      - destruct xs; [|discriminate]. by exists [].
      - simpl in Hlen.
        destruct (Hc (take (num_leaves c) xs) ((PLeaf <$> drop (num_leaves c) xs) ++ rest))
          as (t & Ht & Hst & Hlv).
        { rewrite length_take. lia. }
        destruct (IHch (drop (num_leaves c) xs)) as (ts & Hts & Hsts & Hlvs).
        { rewrite length_drop. lia. }
        exists (t :: ts). simpl.
        rewrite <- (take_drop (num_leaves c) xs) at 1.
        rewrite fmap_app, <- app_assoc, Ht, Hts. simpl.
        rewrite Hst, Hsts, Hlv, Hlvs, take_drop. done. }
    destruct Hgo as (ts & Hts & Hsts & Hlvs). exists (PNode k ts).
    rewrite Hts. simpl. by rewrite Hsts, Hlvs.
Qed.

Lemma tree_unflatten_leaves {A} (td : TreeDef) (xs : list A) :
  length xs = num_leaves td →
  ∃ t, tree_unflatten td (PLeaf <$> xs) = Ok t
       ∧ tree_structure t = td ∧ tree_leaves t = xs.
Proof.
  intros Hlen. destruct (unflatten_from_leaves td xs [] Hlen) as (t & Ht & Hst & Hlv).
  exists t. unfold tree_unflatten. rewrite app_nil_r in Ht. by rewrite Ht.
Qed.

(** ** The conversion boundary *)

Section Conversion.
Context {Arr DType : Type} `{!Kernels Arr DType}.
Abbreviation Leaves := (gmap Coords Arr).

(** The blocks stored for a list of cast leaves. *)
Lemma dict_of_enumerate_lookup (ys : list Arr) (i : nat) :
  dict_of (imap (λ i y, ([i], y)) ys) !! [i] = ys !! i.
Proof.
  induction ys as [|y ys IH] using rev_ind.
  - by rewrite lookup_nil.
  - rewrite imap_app. simpl. rewrite dict_of_snoc, Nat.add_0_r.
    destruct (decide (i = length ys)) as [->|Hne].
    + rewrite lookup_insert_eq. by rewrite list_lookup_middle.
    + rewrite lookup_insert_ne by congruence. rewrite IH.
      destruct (decide (i < length ys)).
      * by rewrite lookup_app_l.
      * rewrite !lookup_ge_None_2; [done | rewrite length_app; simpl; lia | lia].
Qed.

Lemma dict_of_enumerate_keys (ys : list Arr) (coords : Coords) (y : Arr) :
  dict_of (imap (λ i y, ([i], y)) ys) !! coords = Some y →
  ∃ i, coords = [i] ∧ ys !! i = Some y.
Proof.
  induction ys as [|y' ys IH] using rev_ind.
  - unfold dict_of. simpl. by rewrite lookup_empty.
  - rewrite imap_app. simpl. rewrite dict_of_snoc, Nat.add_0_r.
    destruct (decide (coords = [length ys])) as [->|Hne].
    + rewrite lookup_insert_eq. intros [= ->]. exists (length ys).
      by rewrite list_lookup_middle.
    + rewrite lookup_insert_ne by congruence. intros Hl.
      destruct (IH Hl) as (i & -> & Hi). exists i. split; [done|].
      by apply lookup_app_l_Some.
Qed.

(** What [convert_vectorized_tree] returns once the promoted dtype is known
    and every leaf has been cast. *)
Lemma convert_vectorized_tree_Ok (tree : PyTree Arr) (dtype : DType) (ys : list Arr) :
  result_type (tree_leaves tree) = Ok dtype →
  Forall2 (λ x y, asarray x dtype = Ok y) (tree_leaves tree) ys →
  convert_vectorized_tree tree =
    Ok ([tree_structure tree], [map np_shape (tree_leaves tree)],
        dict_of (imap (λ i y, ([i], y)) ys)).
Proof.
  intros Hdt Hys. unfold convert_vectorized_tree, tree_flatten. rewrite Hdt. simpl.
  assert (Hitems : mapM (λ '(i, leaf), asarray leaf dtype ≫= λ x, Ok ([i], x))
                        (enumerate (tree_leaves tree))
                   = Ok (imap (λ i y, ([i], y)) ys)).
  { apply mapM_Ok. unfold enumerate.
    generalize (λ (i : nat), i) as g. intros _.
    apply Forall2_same_length_lookup_2.
    - rewrite !length_imap. by eapply Forall2_length.
    - intros i [j x] [k y]. rewrite !list_lookup_imap.
      destruct (tree_leaves tree !! i) as [x'|] eqn:Ex; [|done].
      destruct (ys !! i) as [y'|] eqn:Ey; [|done]. simpl.
      intros [= <- <-] [= <- <-].
      by rewrite (Forall2_lookup_lr _ _ _ _ _ _ Hys Ex Ey). }
  by rewrite Hitems.
Qed.

Lemma convert_vectorized_tree_inv (tree : PyTree Arr) (tds : list TreeDef)
    (ls : LeafShapes) (lv : Leaves) :
  convert_vectorized_tree tree = Ok (tds, ls, lv) →
  ∃ dtype ys, result_type (tree_leaves tree) = Ok dtype
    ∧ Forall2 (λ x y, asarray x dtype = Ok y) (tree_leaves tree) ys.
Proof.
  unfold convert_vectorized_tree, tree_flatten. intros Hc.
  apply bind_Ok in Hc as (dtype & Hdt & Hc).
  apply bind_Ok in Hc as (items & Hitems & _).
  exists dtype, (items.*2). split; [done|].
  apply mapM_Ok in Hitems.
  apply Forall2_same_length_lookup_2.
  - apply Forall2_length in Hitems. rewrite length_enumerate in Hitems.
    by rewrite length_fmap.
  - intros i x y Hx Hy. rewrite list_lookup_fmap in Hy.
    destruct (items !! i) as [[k y']|] eqn:Ei; simpl in Hy; [|done].
    injection Hy as ->.
    assert (Hex : enumerate (tree_leaves tree) !! i = Some (i, x))
      by (by rewrite enumerate_lookup, Hx).
    pose proof (Forall2_lookup_lr _ _ _ _ _ _ Hitems Hex Ei) as Hi. simpl in Hi.
    apply bind_Ok in Hi as (y'' & Hy'' & [= _ ->]). done.
Qed.

(** Restoring the one-axis state built from a container. *)
Lemma restore_tree_one_axis (td : TreeDef) (ys : list Arr) :
  length ys = num_leaves td →
  ∃ t, restore_tree [td] (dict_of (imap (λ i y, ([i], y)) ys)) = Ok t
       ∧ tree_structure t = td ∧ tree_leaves t = ys.
Proof.
  intros Hlen. destruct (tree_unflatten_leaves td ys Hlen) as (t & Ht & Hst & Hlv).
  exists t. split; [|done].
  unfold restore_tree. simpl. unfold _iter_leaf_coords. simpl.
  assert (Hlist : mapM (λ i, getitem (PLeaf <$> dict_of (imap (λ i y, ([i], y)) ys)) [i])
                       (range (num_leaves td)) = Ok (PLeaf <$> ys)).
  { apply mapM_Ok. apply Forall2_same_length_lookup_2.
    - unfold range. by rewrite length_seq, length_fmap.
    - intros i j y Hj Hy. unfold range in Hj. apply lookup_seq in Hj as [-> _].
      simpl. apply getitem_Ok. rewrite lookup_fmap, dict_of_enumerate_lookup.
      rewrite list_lookup_fmap in Hy. done. }
  rewrite Hlist. simpl. rewrite Ht. simpl.
  apply getitem_Ok. apply lookup_insert_eq.
Qed.

End Conversion.




(** C10: [convert_vectorized_tree] casts every leaf of the container to the
    one dtype that [jnp.result_type] computes from all the leaves: block [i]
    is leaf [i] cast to it, there are no other blocks, and (a cast giving an
    array of the dtype asked for) all blocks have that dtype.  The dtype of
    a block can differ from the dtype of the leaf it comes from: the int
    leaf ['a'] of [tree_mixed] becomes a float block. *)
Theorem convert_vectorized_tree_promoted_dtype :
  (∀ (Arr DType : Type) (K : Kernels Arr DType) (tree : PyTree Arr) (dtype : DType),
     (∀ x d y, asarray x d = Ok y → dtype_of y = d) →
     result_type (tree_leaves tree) = Ok dtype →
     (∀ x, x ∈ tree_leaves tree → is_Ok (asarray x dtype)) →
     ∃ lv : gmap Coords Arr,
       convert_vectorized_tree tree =
         Ok ([tree_structure tree], [map np_shape (tree_leaves tree)], lv)
       ∧ (∀ i leaf, tree_leaves tree !! i = Some leaf →
            ∃ block, lv !! [i] = Some block ∧ asarray leaf dtype = Ok block)
       ∧ (∀ coords block, lv !! coords = Some block →
            dtype_of block = dtype
            ∧ ∃ i leaf, coords = [i] ∧ tree_leaves tree !! i = Some leaf
                        ∧ asarray leaf dtype = Ok block))
  ∧ (∃ tds ls (lv : gmap Coords Ref.ndarray) leaf block,
       convert_vectorized_tree Examples.tree_mixed = Ok (tds, ls, lv)
       ∧ tree_leaves Examples.tree_mixed !! 0 = Some leaf
       ∧ lv !! [0] = Some block
       ∧ dtype_of block ≠ dtype_of leaf).
Proof.
  split.
  - intros Arr DType K tree dtype Hdtype Hdt Hcast.
    assert (Hys : ∃ ys, Forall2 (λ x y, asarray x dtype = Ok y) (tree_leaves tree) ys).
    { clear Hdt. revert Hcast. generalize (tree_leaves tree) as xs.
      induction xs as [|x xs IH]; intros Hcast; [by exists []|].
      destruct (Hcast x) as [y Hy]; [by left|].
      destruct IH as [ys Hys]; [intros x' Hx'; apply Hcast; by right|].
      exists (y :: ys). by constructor. }
    destruct Hys as [ys Hys].
    exists (dict_of (imap (λ i y, ([i], y)) ys)).
    split; [by apply (convert_vectorized_tree_Ok tree dtype ys)|]. split.
    + intros i leaf Hleaf.
      destruct (Forall2_lookup_l _ _ _ _ _ Hys Hleaf) as (block & Hblock & Hc).
      exists block. by rewrite dict_of_enumerate_lookup.
    + intros coords block Hblock.
      apply dict_of_enumerate_keys in Hblock as (i & -> & Hi).
      destruct (Forall2_lookup_r _ _ _ _ _ Hys Hi) as (leaf & Hleaf & Hc).
      split; [by eapply Hdtype|]. by exists i, leaf.
  - eexists _, _, _, _, _. split; [reflexivity|].
    split; [reflexivity|]. split; [reflexivity|]. discriminate.
Qed.

Lemma convert_vectorized_tree_promoted_dtype_witness :
  ∃ lv : gmap Coords Ref.ndarray,
    convert_vectorized_tree Examples.tree_mixed =
      Ok ([tree_structure Examples.tree_mixed],
          [map np_shape (tree_leaves Examples.tree_mixed)], lv)
    ∧ (∀ i leaf, tree_leaves Examples.tree_mixed !! i = Some leaf →
         ∃ block, lv !! [i] = Some block ∧ asarray leaf Ref.float32 = Ok block)
    ∧ (∀ coords block, lv !! coords = Some block →
         dtype_of block = Ref.float32
         ∧ ∃ i leaf, coords = [i] ∧ tree_leaves Examples.tree_mixed !! i = Some leaf
                     ∧ asarray leaf Ref.float32 = Ok block).
Proof.
  apply (proj1 convert_vectorized_tree_promoted_dtype
           Ref.ndarray Ref.dtype Ref.kernels Examples.tree_mixed Ref.float32).
  - intros x d y [= <-]. reflexivity.
  - reflexivity.
  - intros x _. eexists. reflexivity.
Defined.

(** ** Coordinates and physical dimensions *)

Lemma mapM_app {A B} (f : A → result B) (l1 l2 : list A) :
  mapM f (l1 ++ l2) = mapM f l1 ≫= λ k1, mapM f l2 ≫= λ k2, Ok (k1 ++ k2).
Proof.
  induction l1 as [|x l1 IH]; simpl.
  - destruct (mapM f l2); done.
  - destruct (f x); simpl; [|done]. rewrite IH.
    destruct (mapM f l1); simpl; [|done]. destruct (mapM f l2); done.
Qed.

Lemma mapM_length {A B} (f : A → result B) (l : list A) (k : list B) :
  mapM f l = Ok k → length k = length l.
Proof. intros Hk. apply mapM_Ok in Hk. symmetry. by eapply Forall2_length. Qed.

Lemma elem_of_product (c : Coords) (rs : list (list nat)) :
  c ∈ product rs ↔ Forall2 (λ x r, x ∈ r) c rs.
Proof.
  revert c. induction rs as [|r rs IH]; intros c; simpl.
  - rewrite list_elem_of_singleton. split; [intros ->; constructor | by inversion 1].
  - rewrite list_elem_of_bind. split.
    + intros (x & Hc & Hx). apply list_elem_of_fmap in Hc as (c' & -> & Hc').
      constructor; [done | by apply IH].
    + inversion 1 as [|x ? c' ? Hx Hc']; subst. exists x. split; [|done].
      apply list_elem_of_fmap. exists c'. split; [done | by apply IH].
Qed.

Lemma product_nonempty (rs : list (list nat)) :
  Forall (λ r, r ≠ []) rs → product rs ≠ [].
Proof.
  induction 1 as [|r rs Hr _ IH]; simpl; [done|].
  destruct r as [|x r]; [done|]. simpl.
  destruct (product rs); [done | done].
Qed.

Lemma NoDup_product (rs : list (list nat)) :
  Forall NoDup rs → NoDup (product rs).
Proof.
  induction 1 as [|r rs Hr _ IH]; simpl; [apply NoDup_singleton|].
  induction Hr as [|x r Hx _ IHr]; simpl; [constructor|].
  apply NoDup_app. split; [|split; [|done]].
  - apply NoDup_fmap_2; [|done]. by intros ?? [=].
  - intros c Hc Hc'. apply list_elem_of_fmap in Hc as (c' & -> & _).
    apply list_elem_of_bind in Hc' as (y & Hc' & Hy).
    apply list_elem_of_fmap in Hc' as (c'' & [= -> ->] & _). done.
Qed.

Lemma elem_of_iter_leaf_coords (treedefs : list TreeDef) (c : Coords) :
  c ∈ _iter_leaf_coords treedefs ↔ Forall2 (λ x treedef, x < num_leaves treedef) c treedefs.
Proof.
  unfold _iter_leaf_coords. rewrite elem_of_product, Forall2_fmap_r.
  split; intros H; (eapply Forall2_impl; [exact H|]); intros x td; unfold range;
    simpl; rewrite elem_of_seq; lia.
Qed.

Lemma elem_of_iter_leaf_coords2 (leafshapes : LeafShapes) (c : Coords) :
  c ∈ _iter_leaf_coords2 leafshapes ↔ Forall2 (λ x shapes, x < length shapes) c leafshapes.
Proof.
  unfold _iter_leaf_coords2. rewrite elem_of_product, Forall2_fmap_r.
  split; intros H; (eapply Forall2_impl; [exact H|]); intros x td; unfold range;
    simpl; rewrite elem_of_seq; lia.
Qed.

Lemma NoDup_iter_leaf_coords (treedefs : list TreeDef) :
  NoDup (_iter_leaf_coords treedefs).
Proof.
  apply NoDup_product. apply Forall_fmap, Forall_forall. intros td _.
  apply NoDup_seq.
Qed.

Lemma leafshape_segments (leafshapes : LeafShapes) (coords : Coords) :
  _leafshape leafshapes coords = _concat_tuple <$> segments_at leafshapes coords.
Proof. reflexivity. Qed.

Lemma segments_at_snoc (leafshapes : LeafShapes) (coords : Coords) (x : nat) :
  segments_at leafshapes (coords ++ [x]) =
    segments_at leafshapes coords ≫= λ segs,
    index leafshapes (length coords) ≫= λ shapes,
    index shapes x ≫= λ s, Ok (segs ++ [s]).
Proof.
  unfold segments_at. rewrite enumerate_snoc, mapM_app. simpl.
  destruct (mapM _ (enumerate coords)); simpl; [|done].
  destruct (index leafshapes (length coords)); simpl; [|done].
  destruct (index _ x); done.
Qed.

Lemma segments_at_length (leafshapes : LeafShapes) (coords : Coords) segs :
  segments_at leafshapes coords = Ok segs → length segs = length coords.
Proof. intros H. apply mapM_length in H. by rewrite length_enumerate in H. Qed.

Lemma segments_at_lookup (leafshapes : LeafShapes) (coords : Coords) segs k x shapes :
  segments_at leafshapes coords = Ok segs →
  coords !! k = Some x → leafshapes !! k = Some shapes →
  segs !! k = shapes !! x ∧ is_Some (segs !! k).
Proof.
  intros Hsegs Hx Hshapes. apply mapM_Ok in Hsegs.
  assert (Hex : enumerate coords !! k = Some (k, x)) by (by rewrite enumerate_lookup, Hx).
  destruct (Forall2_lookup_l _ _ _ _ _ Hsegs Hex) as (s & Hs & Hi). simpl in Hi.
  apply bind_Ok in Hi as (shapes' & Hi1 & Hi2).
  apply index_Ok in Hi1, Hi2. rewrite Hshapes in Hi1. injection Hi1 as <-.
  rewrite Hs, Hi2. eauto.
Qed.

Lemma mapM_is_Ok {A B} (f : A → result B) (l : list A) :
  (∀ x, x ∈ l → is_Ok (f x)) → is_Ok (mapM f l).
Proof.
  induction l as [|x l IH]; intros Hf; simpl; [by eexists|].
  destruct (Hf x) as [y ->]; [by left|]. simpl.
  destruct IH as [k ->]; [intros; apply Hf; by right|]. by eexists.
Qed.

(** Every coordinate of the iteration space selects a segment on each axis. *)
Lemma segments_at_in_range (leafshapes : LeafShapes) (coords : Coords) :
  Forall2 (λ x shapes, x < length shapes) coords leafshapes →
  is_Ok (segments_at leafshapes coords).
Proof.
  intros Hc. apply mapM_is_Ok. intros [k x] Hkx. simpl.
  apply elem_of_enumerate in Hkx.
  destruct (Forall2_lookup_l _ _ _ _ _ Hc Hkx) as (shapes & Hshapes & Hlt).
  unfold index. rewrite Hshapes. simpl.
  destruct (lookup_lt_is_Some_2 shapes x Hlt) as [s ->]. by eexists.
Qed.

Lemma concat_imap_nil {A B} (g : nat → A → list B) (l : list A) :
  (∀ k x, l !! k = Some x → g k x = []) → concat (imap g l) = [].
Proof.
  revert g. induction l as [|x l IH]; intros g Hg; simpl; [done|].
  rewrite (Hg 0 x) by done. simpl. apply IH. intros k y Hy. by apply (Hg (S k)).
Qed.

Lemma leaf_axes_snoc (segs : list (list nat)) (s : list nat) (axes : list nat) :
  leaf_axes (segs ++ [s]) axes =
    leaf_axes segs axes ++
      (if decide (length segs ∈ axes) then seq (length (concat segs)) (length s) else []).
Proof.
  unfold leaf_axes. rewrite imap_app, concat_app. simpl.
  rewrite Nat.add_0_r, take_app_length, app_nil_r. f_equal. f_equal.
  apply imap_ext. intros k x Hx. simpl.
  rewrite take_app_le; [done|]. apply lookup_lt_Some in Hx. lia.
Qed.

(** [_axes_for_leaf] in closed form. *)
Lemma axes_for_leaf_segments (leafshapes : LeafShapes) (coords : Coords) (axes : list nat) :
  _axes_for_leaf leafshapes coords axes =
    segments_at leafshapes coords ≫= λ segs, Ok (leaf_axes segs axes).
Proof.
  unfold _axes_for_leaf.
  set (step := λ '(out_axes, leaf_axis) '(axis, coord), _).
  assert (H : foldM step ([], 0) (enumerate coords) =
              segments_at leafshapes coords ≫= λ segs,
                Ok (leaf_axes segs axes, length (concat segs))).
  { induction coords as [|x coords IH] using rev_ind; [done|].
    rewrite enumerate_snoc, foldM_app, IH, segments_at_snoc.
    destruct (segments_at leafshapes coords) as [segs|e] eqn:Hsegs; simpl; [|done].
    destruct (index leafshapes (length coords)) as [shapes|e]; simpl; [|done].
    destruct (index shapes x) as [s|e]; simpl; [|done].
    rewrite leaf_axes_snoc, concat_app, length_app. simpl.
    rewrite app_nil_r, (segments_at_length _ _ _ Hsegs).
    case_bool_decide; case_decide; try done. by rewrite app_nil_r. }
  rewrite H. destruct (segments_at leafshapes coords); done.
Qed.

(** The one physical dimension of a logical axis whose selected segment is
    one-dimensional. *)
Lemma leaf_axes_single (segs : list (list nat)) (axis : nat) (s : list nat) :
  segs !! axis = Some s →
  leaf_axes segs [axis] = seq (length (concat (take axis segs))) (length s).
Proof.
  intros Hs. unfold leaf_axes.
  set (g := λ (k : nat) (s : list nat), if decide (k ∈ [axis])
            then seq (length (concat (take k segs))) (length s) else []).
  rewrite <- (take_drop_middle segs axis s Hs).
  rewrite imap_app, concat_app. simpl.
  assert (Hlen : length (take axis segs) = axis).
  { rewrite length_take. apply lookup_lt_Some in Hs. lia. }
  rewrite Hlen, Nat.add_0_r.
  rewrite !concat_imap_nil, app_nil_r.
  - unfold g. rewrite decide_True by (by apply list_elem_of_singleton).
    by rewrite (take_drop_middle segs axis s Hs).
  - intros k x _. unfold g. simpl. rewrite decide_False; [done|].
    rewrite list_elem_of_singleton. lia.
  - intros k x Hk. unfold g. rewrite decide_False; [done|].
    rewrite list_elem_of_singleton. apply lookup_lt_Some in Hk.
    rewrite length_take in Hk. lia.
Qed.

Lemma concat_lookup_middle {A} (segs : list (list A)) (axis : nat) (n : A) :
  segs !! axis = Some [n] →
  concat segs !! length (concat (take axis segs)) = Some n.
Proof.
  intros Hs.
  assert (concat segs = concat (take axis segs) ++ n :: concat (drop (S axis) segs)) as ->.
  { rewrite <- (take_drop_middle segs axis [n] Hs) at 1. by rewrite concat_app. }
  by rewrite list_lookup_middle.
Qed.

Lemma foldM_fail_all {A S} (f : S → A → result S) (s : S) (l : list A) (e : error) :
  l ≠ [] → (∀ s x, x ∈ l → f s x = Err e) → foldM f s l = Err e.
Proof.
  destruct l as [|x l]; [done|]. intros _ Hf. simpl. rewrite Hf by left. done.
Qed.

(** ** Axis splitting *)

Section Split.
Context {Arr DType : Type} `{!Kernels Arr DType}.
Abbreviation Leaves := (gmap Coords Arr).

Lemma split_leaf_mismatch (array : Arr) (axis : nat) (shapes : list (list nat)) (n : nat) :
  np_shape array !! axis = Some n →
  _axis_length shapes ≠ n →
  _split_leaf array axis shapes = Err ShapeMismatch.
Proof.
  intros Hn Hne. unfold _split_leaf, index. rewrite Hn. simpl.
  by rewrite bool_decide_true.
Qed.

Lemma split_leaves_invalid (leafshapes : LeafShapes) (leaves : Leaves) (axis : nat)
    (shapes axis_shapes : list (list nat)) :
  leafshapes !! axis = Some axis_shapes →
  (∀ n, axis_shapes ≠ [[n]]) →
  _split_leaves leafshapes leaves axis shapes = Err InvalidLeafshapes.
Proof.
  intros Hax Hne. unfold _split_leaves, index. rewrite Hax. simpl.
  destruct axis_shapes as [|s [|s' l]]; [done| |done].
  destruct s as [|n [|m s]]; [done | by destruct (Hne n) | done].
Qed.

(** In a block that has its declared shape, the physical dimension of a
    one-segment axis [[n]] has length [n]: a split of that block into
    segments of another total length is refused. *)
Lemma split_leaves_mismatch (leafshapes : LeafShapes) (leaves : Leaves) (axis : nat)
    (shapes : list (list nat)) (n : nat) :
  leafshapes !! axis = Some [[n]] →
  Forall (λ axis_shapes, axis_shapes ≠ []) leafshapes →
  (∀ c, c ∈ _iter_leaf_coords2 leafshapes →
        ∃ leaf, leaves !! c = Some leaf ∧ _leafshape leafshapes c = Ok (np_shape leaf)) →
  _axis_length shapes ≠ n →
  _split_leaves leafshapes leaves axis shapes = Err ShapeMismatch.
Proof.
  intros Hax Hne Hblocks Hlen. unfold _split_leaves, index. rewrite Hax. simpl.
  apply foldM_fail_all.
  - apply product_nonempty, Forall_fmap. eapply Forall_impl; [exact Hne|].
    intros [|s l] Hs; simpl; done.
  - intros acc c Hc. destruct (Hblocks c Hc) as (leaf & Hleaf & Hshape).
    unfold getitem. rewrite Hleaf. simpl.
    rewrite leafshape_segments in Hshape.
    apply fmap_Ok in Hshape as (segs & Hsegs & Hnp).
    rewrite axes_for_leaf_segments, Hsegs. simpl.
    apply elem_of_iter_leaf_coords2 in Hc.
    destruct (Forall2_lookup_r _ _ _ _ _ Hc Hax) as (x & Hx & Hlt).
    simpl in Hlt. assert (x = 0) as -> by lia.
    destruct (segments_at_lookup _ _ _ _ _ _ Hsegs Hx Hax) as [Hseg _].
    simpl in Hseg. rewrite (leaf_axes_single _ _ _ Hseg). simpl.
    rewrite (split_leaf_mismatch leaf _ shapes n); [done | | done].
    rewrite Hnp. by apply concat_lookup_middle.
Qed.

End Split.

(** C9: a split of a block whose physical length along the split dimension
    is not the total length of the target segments fails with ShapeMismatch;
    [_split_leaves] first requires a single one-dimensional segment along
    the split axis, and then every block with its declared shape is such a
    block when the lengths disagree. *)
Theorem split_shape_mismatch {Arr DType : Type} `{!Kernels Arr DType} :
  (∀ (array : Arr) axis shapes n,
     np_shape array !! axis = Some n →
     _axis_length shapes ≠ n →
     _split_leaf array axis shapes = Err ShapeMismatch)
  ∧ (∀ leafshapes (leaves : gmap Coords Arr) axis shapes axis_shapes,
       leafshapes !! axis = Some axis_shapes →
       (∀ n, axis_shapes ≠ [[n]]) →
       _split_leaves leafshapes leaves axis shapes = Err InvalidLeafshapes)
  ∧ (∀ leafshapes (leaves : gmap Coords Arr) axis shapes n,
       leafshapes !! axis = Some [[n]] →
       Forall (λ axis_shapes, axis_shapes ≠ []) leafshapes →
       (∀ c, c ∈ _iter_leaf_coords2 leafshapes →
             ∃ leaf, leaves !! c = Some leaf
                     ∧ _leafshape leafshapes c = Ok (np_shape leaf)) →
       _axis_length shapes ≠ n →
       _split_leaves leafshapes leaves axis shapes = Err ShapeMismatch).
Proof.
  split; [|split].
  - apply split_leaf_mismatch.
  - apply split_leaves_invalid.
  - apply split_leaves_mismatch.
Qed.

(** A flat array of three elements is not split into segments [()] and
    [(1,)]; a block of shape [(2, 3)] held as one segment is not split. *)
Lemma split_shape_mismatch_witness :
  _split_leaf (Ref.array1 [1%Q; 2%Q; 3%Q]) 0 [[]; [1]] = Err ShapeMismatch
  ∧ _split_leaves [[[2; 3]]] ({[ [0] := Ref.array2 [[1%Q; 2%Q; 3%Q]; [4%Q; 5%Q; 6%Q]] ]})
      0 [[]; [5]] = Err InvalidLeafshapes
  ∧ _split_leaves [[[3]]] ({[ [0] := Ref.array1 [1%Q; 2%Q; 3%Q] ]}) 0 [[]; [1]]
    = Err ShapeMismatch.
Proof.
  destruct (@split_shape_mismatch Ref.ndarray Ref.dtype Ref.kernels) as (H1 & H2 & H3).
  split; [|split].
  - apply (H1 _ 0 _ 3); [reflexivity | vm_compute; lia].
  - apply (H2 _ _ 0 _ [[2; 3]]); [reflexivity | intros n [=]].
  - apply (H3 _ _ 0 _ 3); [reflexivity | repeat constructor; done | | vm_compute; lia].
    intros c Hc. vm_compute in Hc. apply list_elem_of_singleton in Hc as ->.
    eexists. split; reflexivity.
Defined.

(** ** The tracer constructor *)

Section Tracer.
Context {Arr DType : Type} `{!Kernels Arr DType}.
Abbreviation Leaves := (gmap Coords Arr).

(** The construction succeeds exactly when its assertions hold. *)
Lemma TreeTracer_init_Ok (treedefs : list TreeDef) (leafshapes : LeafShapes)
    (leaves : Leaves) (t : TreeTracer) :
  TreeTracer_init treedefs leafshapes leaves = Ok t ↔
    t = mkTreeTracer treedefs leafshapes leaves
    ∧ length treedefs = length leafshapes
    ∧ Forall2 (λ treedef shapes, num_leaves treedef = length shapes) treedefs leafshapes
    ∧ size leaves ≠ 0
    ∧ ∀ coords, coords ∈ _iter_leaf_coords treedefs →
        ∃ leaf, leaves !! coords = Some leaf
                ∧ _leafshape leafshapes coords = Ok (np_shape leaf).
Proof.
  unfold TreeTracer_init. split.
  - intros H.
    apply bind_Ok in H as ([] & Hlen & H). apply bind_Ok in H as ([] & Hnum & H).
    apply bind_Ok in H as ([] & Hsize & H). apply bind_Ok in H as ([] & Hblocks & [= <-]).
    apply assert_Ok, bool_decide_eq_true in Hlen, Hsize.
    apply (foldM_unit_Ok (λ '(treedef, shapes),
             assert (bool_decide (num_leaves treedef = length shapes)))) in Hnum.
    apply (foldM_unit_Ok (λ coords,
             _leafshape leafshapes coords ≫= λ expected_shape,
             getitem leaves coords ≫= λ leaf,
             assert (bool_decide (np_shape leaf = expected_shape)))) in Hblocks.
    split; [done|]. split; [done|]. split; [|split; [done|]].
    + apply Forall2_same_length_lookup_2; [done|]. intros i td shapes Htd Hshapes.
      rewrite Forall_forall in Hnum. specialize (Hnum (td, shapes)). simpl in Hnum.
      apply assert_Ok, bool_decide_eq_true in Hnum; [done|].
      apply list_elem_of_lookup. exists i. apply lookup_zip_with_Some. eauto.
    + intros coords Hc. rewrite Forall_forall in Hblocks.
      specialize (Hblocks coords Hc). simpl in Hblocks.
      apply bind_Ok in Hblocks as (expected & Hexp & Hblocks).
      apply bind_Ok in Hblocks as (leaf & Hleaf & Hassert).
      apply assert_Ok, bool_decide_eq_true in Hassert. apply getitem_Ok in Hleaf.
      exists leaf. split; [done | rewrite Hassert; exact Hexp].
  - intros (-> & Hlen & Hnum & Hsize & Hblocks).
    apply bind_Ok. exists tt. split; [by apply assert_Ok, bool_decide_eq_true|].
    apply bind_Ok. exists tt. split.
    { apply (foldM_unit_Ok (λ '(treedef, shapes),
               assert (bool_decide (num_leaves treedef = length shapes)))).
      apply Forall_forall. intros [td shapes] Hin. simpl.
      apply assert_Ok, bool_decide_eq_true.
      apply list_elem_of_lookup in Hin as (i & Hi).
      apply lookup_zip_with_Some in Hi as (td' & sh' & [= <- <-] & Htd & Hsh).
      exact (Forall2_lookup_lr _ _ _ _ _ _ Hnum Htd Hsh). }
    apply bind_Ok. exists tt. split; [by apply assert_Ok, bool_decide_eq_true|].
    apply bind_Ok. exists tt. split; [|done].
    apply (foldM_unit_Ok (λ coords,
             _leafshape leafshapes coords ≫= λ expected_shape,
             getitem leaves coords ≫= λ leaf,
             assert (bool_decide (np_shape leaf = expected_shape)))).
    apply Forall_forall. intros coords Hc.
    destruct (Hblocks coords Hc) as (leaf & Hleaf & Hshape).
    rewrite Hshape. simpl. unfold getitem. rewrite Hleaf. simpl.
    by apply assert_Ok, bool_decide_eq_true.
Qed.

End Tracer.

(** C3 (as the code has it): the construction of a tracer checks that the
    treedefs and leafshapes have one length and agree on the number of
    segments of each axis, that the block mapping is not empty, and that
    every coordinate of the Cartesian product of the partition-index ranges
    has a block whose shape is the concatenation of the segment shapes that
    the coordinate selects; it succeeds exactly when all of this holds.  The
    element type of the blocks plays no part: blocks of the same shapes
    under the same coordinates are accepted alike. *)
Theorem TreeTracer_init_checks {Arr DType : Type} `{!Kernels Arr DType}
    (treedefs : list TreeDef) (leafshapes : LeafShapes) (leaves : gmap Coords Arr) :
  (is_Ok (TreeTracer_init treedefs leafshapes leaves) ↔
     length treedefs = length leafshapes
     ∧ Forall2 (λ treedef shapes, num_leaves treedef = length shapes) treedefs leafshapes
     ∧ size leaves ≠ 0
     ∧ ∀ coords, coords ∈ _iter_leaf_coords treedefs →
         ∃ leaf, leaves !! coords = Some leaf
                 ∧ _leafshape leafshapes coords = Ok (np_shape leaf))
  ∧ (∀ leaves' : gmap Coords Arr,
       (∀ coords, np_shape <$> leaves !! coords = np_shape <$> leaves' !! coords) →
       is_Ok (TreeTracer_init treedefs leafshapes leaves) →
       is_Ok (TreeTracer_init treedefs leafshapes leaves')).
Proof.
  assert (Hiff : ∀ lv : gmap Coords Arr,
            is_Ok (TreeTracer_init treedefs leafshapes lv) ↔
              length treedefs = length leafshapes
              ∧ Forall2 (λ treedef shapes, num_leaves treedef = length shapes)
                        treedefs leafshapes
              ∧ size lv ≠ 0
              ∧ ∀ coords, coords ∈ _iter_leaf_coords treedefs →
                  ∃ leaf, lv !! coords = Some leaf
                          ∧ _leafshape leafshapes coords = Ok (np_shape leaf)).
  { intros lv. split.
    - intros [t Ht]. apply TreeTracer_init_Ok in Ht. tauto.
    - intros H. exists (mkTreeTracer treedefs leafshapes lv).
      apply TreeTracer_init_Ok. tauto. }
  split; [apply Hiff|].
  intros leaves' Hsame Hok. apply Hiff in Hok as (Hlen & Hnum & Hsize & Hblocks).
  apply Hiff. split; [done|]. split; [done|]. split.
  - apply map_size_ne_0_lookup in Hsize as (c & x & Hx).
    apply map_size_ne_0_lookup. exists c. specialize (Hsame c).
    rewrite Hx in Hsame. destruct (leaves' !! c); [by eexists | done].
  - intros coords Hc. destruct (Hblocks coords Hc) as (leaf & Hleaf & Hshape).
    specialize (Hsame coords). rewrite Hleaf in Hsame.
    destruct (leaves' !! coords) as [leaf'|]; [|done].
    injection Hsame as Hsame. exists leaf'. by rewrite <- Hsame.
Qed.

(** The state built from [tree_xyz] makes a tracer. *)
Lemma TreeTracer_init_checks_witness :
  is_Ok (TreeTracer_init [tree_structure Examples.tree_xyz] [[[]; [1]; [1; 2]]]
           ({[ [0] := Ref.scalar 1; [1] := Ref.array1 [2%Q];
               [2] := Ref.array2 [[3%Q; 4%Q]] ]} : gmap Coords Ref.ndarray)).
Proof.
  apply (proj1 (TreeTracer_init_checks _ _ _)).
  split; [reflexivity|]. split; [repeat constructor|]. split; [vm_compute; lia|].
  intros coords Hc. vm_compute in Hc.
  repeat (apply elem_of_cons in Hc as [-> | Hc]; [eexists; split; reflexivity|]).
  by apply elem_of_nil in Hc.
Defined.

(** C3, as stated, fails: a tracer is made of an int block and a float
    block, so the uniformity of the element type is not checked. *)
Lemma TreeTracer_init_dtype_unchecked :
  let leaves : gmap Coords Ref.ndarray :=
    {[ [0] := Examples.int_scalar 0; [1] := Ref.scalar 1 ]} in
  TreeTracer_init [tree_structure Examples.tree_ab] [[[]; []]] leaves
    = Ok (mkTreeTracer [tree_structure Examples.tree_ab] [[[]; []]] leaves)
  ∧ leaves !! [0] = Some (Examples.int_scalar 0)
  ∧ leaves !! [1] = Some (Ref.scalar 1)
  ∧ dtype_of (Examples.int_scalar 0) ≠ dtype_of (Ref.scalar 1).
Proof.
  simpl. split; [|split; [reflexivity|split; [reflexivity|discriminate]]].
  apply TreeTracer_init_Ok. split; [reflexivity|]. split; [reflexivity|].
  split; [repeat constructor|]. split; [vm_compute; lia|].
  intros coords Hc. vm_compute in Hc.
  repeat (apply elem_of_cons in Hc as [-> | Hc]; [eexists; split; reflexivity|]).
  by apply elem_of_nil in Hc.
Qed.

(** ** The n-ary rule: splitting *)

Lemma foldM_filter {A S} (P : A → Prop) `{∀ x, Decision (P x)}
    (g : S → A → result S) (s : S) (l : list A) :
  foldM (λ s x, if decide (P x) then g s x else Ok s) s l = foldM g s (filter P l).
Proof.
  revert s. induction l as [|x l IH]; intros s; simpl; [done|].
  rewrite filter_cons. destruct (decide (P x)); simpl; [|apply IH].
  destruct (g s x); simpl; [apply IH | done].
Qed.

Section Naryop_split.
Context {Arr DType : Type} `{!Kernels Arr DType}.
Abbreviation Leaves := (gmap Coords Arr).

(** The loop over the axes of one operand performs the splits of
    [naryop_split_axes], in order, and nothing else. *)
Lemma naryop_fix_operand_splits (ndim : nat) (out_leafshapes leafshapes : LeafShapes)
    (leaves : Leaves) :
  ndim ≤ length leafshapes → ndim ≤ length out_leafshapes →
  naryop_fix_operand ndim out_leafshapes leafshapes leaves =
    foldM (split_axis out_leafshapes leafshapes) (leafshapes, leaves)
          (naryop_split_axes ndim out_leafshapes leafshapes).
Proof.
  intros Hls Hout. unfold naryop_fix_operand, naryop_split_axes.
  rewrite <- foldM_filter. apply foldM_ext_in.
  intros [ls_ lv] axis Hax. unfold range in Hax. apply elem_of_seq in Hax.
  destruct (lookup_lt_is_Some_2 leafshapes axis) as [shapes Hs]; [lia|].
  destruct (lookup_lt_is_Some_2 out_leafshapes axis) as [out_shapes Ho]; [lia|].
  unfold split_axis, index, axis_length_at. rewrite Hs, Ho. simpl.
  destruct (decide (Some shapes ≠ Some out_shapes ∧ _axis_length shapes ≠ 1))
    as [[Hne Hlen]|Hn].
  - rewrite !bool_decide_true by congruence. done.
  - destruct (decide (shapes = out_shapes)) as [->|Hne].
    + by rewrite bool_decide_false by tauto.
    + rewrite (bool_decide_false (_axis_length shapes ≠ 1)), andb_false_r; [done|].
      intros Hlen. apply Hn. split; [congruence | done].
Qed.

(** After a run of splits the layout is the output layout on the split
    axes and the layout of the operand elsewhere. *)
Lemma split_axis_layout (out_leafshapes leafshapes : LeafShapes) (axes : list nat)
    (ls0 ls' : LeafShapes) (lv0 lv' : Leaves) :
  foldM (split_axis out_leafshapes leafshapes) (ls0, lv0) axes = Ok (ls', lv') →
  (∀ a, a ∈ axes → a < length ls0) →
  ∀ axis, ls' !! axis = if decide (axis ∈ axes) then out_leafshapes !! axis
                        else ls0 !! axis.
Proof.
  revert ls0 lv0. induction axes as [|a axes IH]; intros ls0 lv0 Hf Hlt axis.
  - injection Hf as <- <-. rewrite decide_False; [done | apply not_elem_of_nil].
  - simpl in Hf. apply bind_Ok in Hf as ([ls1 lv1] & Hstep & Hf).
    unfold split_axis in Hstep.
    apply bind_Ok in Hstep as (out_shapes & Ho & Hstep).
    apply bind_Ok in Hstep as (lv1' & _ & [= <- <-]). apply index_Ok in Ho.
    rewrite (IH _ _ Hf); [|intros b Hb; rewrite length_insert; apply Hlt; by right].
    destruct (decide (axis ∈ axes)) as [Hin|Hnin].
    + rewrite decide_True; [done | by right].
    + destruct (decide (axis = a)) as [->|Hne].
      * rewrite decide_True by left. rewrite list_lookup_insert_eq; [done|].
        apply Hlt. by left.
      * rewrite decide_False by (rewrite elem_of_cons; tauto).
        by rewrite list_lookup_insert_ne.
Qed.

End Naryop_split.




(** ** The n-ary rule: conflicts *)

Lemma NoDup_length_gt1 {A} (l : list A) (x y : A) :
  NoDup l → x ∈ l → y ∈ l → x ≠ y → 1 < length l.
Proof.
  intros Hnd Hx Hy Hne. destruct l as [|a [|b l]]; simpl; [|exfalso|lia].
  - by apply elem_of_nil in Hx.
  - apply list_elem_of_singleton in Hx, Hy. congruence.
Qed.

Lemma pyset_length_gt1 {A} `{EqDecision A} (l : list A) :
  1 < length (pyset l) ↔ ∃ x y, x ∈ l ∧ y ∈ l ∧ x ≠ y.
Proof.
  unfold pyset. split.
  - intros Hlen. pose proof (NoDup_remove_dups l) as Hnd.
    destruct (remove_dups l) as [|a [|b k]] eqn:E; simpl in Hlen; try lia.
    exists a, b. rewrite <- !(elem_of_remove_dups l), E.
    split; [by left|]. split; [right; by left|].
    apply NoDup_cons in Hnd as [Ha _]. intros ->. apply Ha. by left.
  - intros (x & y & Hx & Hy & Hne).
    apply (NoDup_length_gt1 _ x y); [apply NoDup_remove_dups | | | done];
      by apply elem_of_remove_dups.
Qed.

Lemma pyset_length_1 {A} `{EqDecision A} (l : list A) :
  length (pyset l) = 1 → ∃ x, pyset l = [x].
Proof. destruct (pyset l) as [|x [|y k]]; simpl; try lia. eauto. Qed.

Lemma pyset_constant {A} `{EqDecision A} (l : list A) (c : A) :
  l ≠ [] → Forall (λ x, x = c) l → pyset l = [c].
Proof.
  intros Hne Hall. unfold pyset.
  induction Hall as [|x l -> Hall IH]; [done|]. simpl.
  destruct l as [|y l]; [done|].
  destruct (decide_rel elem_of c (y :: l)) as [Hin|Hnin].
  - by apply IH.
  - exfalso. apply Hnin. apply Forall_cons in Hall as [-> _]. by left.
Qed.

Lemma mapM_cons {A B} (f : A → result B) (x : A) (l : list A) :
  mapM f (x :: l) = f x ≫= λ y, mapM f l ≫= λ k, Ok (y :: k).
Proof. reflexivity. Qed.

(** The entries at position [axis] of rows that are long enough. *)
Lemma mapM_index_column {A} (rows : list (list A)) (axis : nat) :
  Forall (λ row, axis < length row) rows →
  ∃ col, mapM (λ row, index row axis) rows = Ok col
         ∧ ∀ x, x ∈ col ↔ ∃ row, row ∈ rows ∧ row !! axis = Some x.
Proof.
  induction 1 as [|row rows Hrow _ (col & Hcol & Hin)].
  - exists []. split; [done|]. intros x. split.
    + intros Hx. by apply elem_of_nil in Hx.
    + intros (row & Hr & _). by apply elem_of_nil in Hr.
  - destruct (lookup_lt_is_Some_2 row axis Hrow) as [x Hx].
    apply index_Ok in Hx as Hix. rewrite mapM_cons, Hix, Hcol. simpl.
    exists (x :: col). split; [done|]. intros y. rewrite elem_of_cons, Hin. split.
    + intros [-> | (r & Hr & Hy)]; [exists row; split; [by left | done]|].
      exists r. split; [by right | done].
    + intros (r & Hr & Hy). apply elem_of_cons in Hr as [-> | Hr].
      * left. congruence.
      * right. eauto.
Qed.

(** A loop stops with the exception of the first iteration that raises. *)
Lemma foldM_first_failure {A S} (f : S → A → result S) (s : S) (l1 l2 : list A) (x : A)
    (E : A → error → Prop) :
  (∀ s y, y ∈ l1 → is_Ok (f s y) ∨ ∃ e, f s y = Err e ∧ E y e) →
  (∀ s, ∃ e, f s x = Err e ∧ E x e) →
  ∃ e y, foldM f s (l1 ++ x :: l2) = Err e ∧ y ∈ l1 ++ [x] ∧ E y e.
Proof.
  revert s. induction l1 as [|y l1 IH]; intros s Hl1 Hx; simpl.
  - destruct (Hx s) as (e & -> & He). exists e, x. split; [done|]. split; [by left | done].
  - destruct (Hl1 s y) as [[s' Hs'] | (e & He & HE)]; [by left | |].
    + rewrite Hs'. simpl.
      destruct (IH s') as (e & z & Hf & Hz & HE); [|done|].
      * intros s'' z Hz. apply Hl1. by right.
      * exists e, z. split; [done|]. split; [by right | done].
    + rewrite He. simpl. exists e, y. split; [done|]. split; [by left | done].
Qed.

Lemma foldM_seq_S {St} (f : St → nat → result St) (s : St) (k n : nat) :
  foldM f s (seq k (S n)) = foldM f s (seq k n) ≫= λ s', f s' (k + n).
Proof.
  rewrite seq_S, foldM_app. destruct (foldM f s (seq k n)) as [s'|e]; simpl; [|done].
  destruct (f s' (k + n)); done.
Qed.

Section Naryop_conflict.

(** What the check of one axis does, when every operand has that axis. *)
Lemma naryop_check_axis_cases (treedefs_in : list (list TreeDef))
    (leafshapes_in : list LeafShapes) (out : list TreeDef * LeafShapes) (axis : nat) :
  Forall (λ treedefs, axis < length treedefs) treedefs_in →
  Forall (λ leafshapes, axis < length leafshapes) leafshapes_in →
  (descriptor_conflict treedefs_in axis
   ∧ naryop_check_axis treedefs_in leafshapes_in out axis = Err ConflictingStructure)
  ∨ (¬ descriptor_conflict treedefs_in axis ∧ shape_conflict leafshapes_in axis
     ∧ naryop_check_axis treedefs_in leafshapes_in out axis = Err ConflictingShape)
  ∨ (¬ descriptor_conflict treedefs_in axis ∧ ¬ shape_conflict leafshapes_in axis
     ∧ is_Ok (naryop_check_axis treedefs_in leafshapes_in out axis)).
Proof.
  intros Htd Hls. destruct out as [out_treedefs out_leafshapes].
  unfold naryop_check_axis.
  destruct (mapM_index_column treedefs_in axis Htd) as (tcol & -> & Htcol).
  destruct (mapM_index_column leafshapes_in axis Hls) as (scol & Hscol_eq & Hscol).
  simpl.
  set (nt := pyset (filter (λ treedef, treedef ≠ TRIVIAL_TREEDEF) tcol)).
  set (ns := pyset (filter (λ shapes : list (list nat), length shapes ≠ 1) scol)).
  assert (Hdc : 1 < length nt ↔ descriptor_conflict treedefs_in axis).
  { unfold nt. rewrite pyset_length_gt1. unfold descriptor_conflict. split.
    - intros (d1 & d2 & H1 & H2 & Hne).
      apply list_elem_of_filter in H1 as [Hn1 H1], H2 as [Hn2 H2].
      apply Htcol in H1 as (t1 & Ht1 & Hd1), H2 as (t2 & Ht2 & Hd2).
      exists d1, d2, t1, t2. tauto.
    - intros (d1 & d2 & t1 & t2 & Ht1 & Ht2 & Hd1 & Hd2 & Hn1 & Hn2 & Hne).
      exists d1, d2. rewrite !list_elem_of_filter, !Htcol. eauto 10. }
  assert (Hsc : 1 < length ns ↔ shape_conflict leafshapes_in axis).
  { unfold ns. rewrite pyset_length_gt1. unfold shape_conflict. split.
    - intros (d1 & d2 & H1 & H2 & Hne).
      apply list_elem_of_filter in H1 as [Hn1 H1], H2 as [Hn2 H2].
      apply Hscol in H1 as (t1 & Ht1 & Hd1), H2 as (t2 & Ht2 & Hd2).
      exists d1, d2, t1, t2. tauto.
    - intros (d1 & d2 & t1 & t2 & Ht1 & Ht2 & Hd1 & Hd2 & Hn1 & Hn2 & Hne).
      exists d1, d2. rewrite !list_elem_of_filter, !Hscol. eauto 10. }
  destruct (decide (1 < length nt)) as [Hnt|Hnt].
  { left. split; [by apply Hdc | done]. }
  right.
  assert (Htd_ok : ∃ otd, (if decide (length nt = 1)
                           then unpack1 nt ≫= λ treedef, Ok (out_treedefs ++ [treedef])
                           else Ok (out_treedefs ++ [TRIVIAL_TREEDEF])) = Ok otd).
  { destruct (decide (length nt = 1)) as [H1|H1]; [|by eexists].
    destruct (pyset_length_1 _ H1) as [x Hx]. fold nt in Hx. rewrite Hx. by eexists. }
  destruct Htd_ok as [otd ->]. simpl. rewrite Hscol_eq. simpl. fold ns.
  destruct (decide (1 < length ns)) as [Hns|Hns].
  { left. split; [by rewrite <- Hdc|]. split; [by apply Hsc | done]. }
  right. split; [by rewrite <- Hdc|]. split; [by rewrite <- Hsc|].
  destruct (decide (length ns = 1)) as [H1|H1]; [|by eexists].
  destruct (pyset_length_1 _ H1) as [x Hx]. fold ns in Hx. rewrite Hx. by eexists.
Qed.

(** The loop over the first [n] axes either passes, and then none of them
    has a conflict, or stops at the first axis that has one: with
    ConflictingStructure when that axis has a descriptor conflict, and with
    ConflictingShape when it has only a layout conflict. *)
Lemma naryop_out_axes_prefix_cases (treedefs_in : list (list TreeDef))
    (leafshapes_in : list LeafShapes) (ndim n : nat) :
  Forall (λ treedefs, length treedefs = ndim) treedefs_in →
  Forall (λ leafshapes, length leafshapes = ndim) leafshapes_in →
  n ≤ ndim →
  (is_Ok (foldM (naryop_check_axis treedefs_in leafshapes_in) ([], []) (seq 0 n))
   ∧ ∀ a, a < n → ¬ descriptor_conflict treedefs_in a ∧ ¬ shape_conflict leafshapes_in a)
  ∨ ∃ first, first < n
      ∧ (∀ a, a < first →
              ¬ descriptor_conflict treedefs_in a ∧ ¬ shape_conflict leafshapes_in a)
      ∧ ((descriptor_conflict treedefs_in first
          ∧ foldM (naryop_check_axis treedefs_in leafshapes_in) ([], []) (seq 0 n)
            = Err ConflictingStructure)
         ∨ (¬ descriptor_conflict treedefs_in first
            ∧ shape_conflict leafshapes_in first
            ∧ foldM (naryop_check_axis treedefs_in leafshapes_in) ([], []) (seq 0 n)
              = Err ConflictingShape)).
Proof.
  intros Htd Hls. induction n as [|n IH]; intros Hn.
  { left. split; [by eexists | intros a Ha; lia]. }
  rewrite foldM_seq_S. simpl.
  destruct IH as [[[s Hs] Hnone] | (first & Hfirst & Hnone & Herr)]; [lia| |].
  - rewrite Hs. simpl.
    destruct (naryop_check_axis_cases treedefs_in leafshapes_in s n)
      as [[Hdc H] | [(Hdc & Hsc & H) | (Hdc & Hsc & H)]].
    + eapply Forall_impl; [exact Htd|]. simpl. intros; lia.
    + eapply Forall_impl; [exact Hls|]. simpl. intros; lia.
    + right. exists n. split; [lia|]. split; [done|]. by left.
    + right. exists n. split; [lia|]. split; [done|]. by right.
    + left. split; [done|]. intros a Ha.
      destruct (decide (a = n)) as [->|]; [done | apply Hnone; lia].
  - right. exists first. split; [lia|]. split; [done|].
    destruct Herr as [[Hdc ->] | (Hdc & Hsc & ->)]; [by left | by right].
Qed.

(** The loop over the axes fails when some axis has a descriptor conflict,
    with the exception of the first axis that has a conflict of either
    kind; at one axis the descriptors are compared before the layouts. *)
Lemma naryop_out_axes_first_conflict (treedefs_in : list (list TreeDef))
    (leafshapes_in : list LeafShapes) (ndim axis : nat) :
  Forall (λ treedefs, length treedefs = ndim) treedefs_in →
  Forall (λ leafshapes, length leafshapes = ndim) leafshapes_in →
  descriptor_conflict treedefs_in axis →
  ∃ first, first ≤ axis
    ∧ (∀ a, a < first →
            ¬ descriptor_conflict treedefs_in a ∧ ¬ shape_conflict leafshapes_in a)
    ∧ ((descriptor_conflict treedefs_in first
        ∧ naryop_out_axes treedefs_in leafshapes_in ndim = Err ConflictingStructure)
       ∨ (¬ descriptor_conflict treedefs_in first
          ∧ shape_conflict leafshapes_in first
          ∧ first < axis
          ∧ naryop_out_axes treedefs_in leafshapes_in ndim = Err ConflictingShape)).
Proof.
  intros Htd Hls Hconf.
  assert (Hax : axis < ndim).
  { destruct Hconf as (d1 & _ & t1 & _ & Ht1 & _ & Hd1 & _).
    rewrite Forall_forall in Htd. rewrite <- (Htd t1 Ht1). by eapply lookup_lt_Some. }
  unfold naryop_out_axes, range.
  assert (Hseq : seq 0 ndim = seq 0 (S axis) ++ seq (S axis) (ndim - S axis)).
  { replace (seq 0 ndim) with (seq 0 (S axis + (ndim - S axis))) by (f_equal; lia).
    by rewrite seq_app. }
  rewrite Hseq, foldM_app.
  destruct (naryop_out_axes_prefix_cases treedefs_in leafshapes_in ndim (S axis))
    as [[_ Hnone] | (first & Hfirst & Hnone & Herr)]; [done|done|lia| |].
  { by destruct (Hnone axis) as [Hn _]; [lia|]. }
  exists first. split; [lia|]. split; [done|].
  destruct Herr as [[Hdc ->] | (Hdc & Hsc & ->)]; [by left|].
  right. split; [done|]. split; [done|]. split; [|done].
  destruct (decide (first = axis)) as [->|]; [done | lia].
Qed.

End Naryop_conflict.

(** C6 (as the code has it): when two operands of the n-ary rule (operands
    of rank 0 set aside, the others of one rank) carry distinct non-trivial
    container descriptors along some axis, the rule returns no result: it
    raises the exception of the first axis that has a conflict of either
    kind.  That axis is the given one or lies before it; the exception is
    ConflictingStructure when that axis has two distinct non-trivial
    descriptors, whatever its layouts, and ConflictingShape when it has no
    such descriptors but two distinct multi-segment layouts (then it lies
    before the given axis).  For the containers [{'a': 0, 'b': 0}] and
    [{'c': 0, 'd': 0}] it is ConflictingStructure, and so it is for two
    operands of rank 2 that have both kinds of conflict at axis 0. *)
Theorem naryop_conflicting_structure :
  (∀ (Arr DType : Type) (K : Kernels Arr DType) (prim : list Arr → result Arr)
     treedefs_in leafshapes_in (leaves_in : list (gmap Coords Arr))
     treedefs leafshapes leaves scalars ndim axis,
     _filter_scalar_leaves treedefs_in leafshapes_in leaves_in
       = Ok (treedefs, leafshapes, leaves, scalars) →
     Forall (λ t, length t = ndim) treedefs →
     Forall (λ l, length l = ndim) leafshapes →
     descriptor_conflict treedefs axis →
     ∃ first, first ≤ axis
       ∧ (∀ a, a < first →
               ¬ descriptor_conflict treedefs a ∧ ¬ shape_conflict leafshapes a)
       ∧ ((descriptor_conflict treedefs first
           ∧ naryop_tree_rule prim treedefs_in leafshapes_in leaves_in
             = Err ConflictingStructure)
          ∨ (¬ descriptor_conflict treedefs first
             ∧ shape_conflict leafshapes first
             ∧ first < axis
             ∧ naryop_tree_rule prim treedefs_in leafshapes_in leaves_in
               = Err ConflictingShape)))
  ∧ (∃ s1 s2 : list TreeDef * LeafShapes * gmap Coords Ref.ndarray,
       convert_vectorized_tree Examples.tree_ab = Ok s1
       ∧ convert_vectorized_tree Examples.tree_cd = Ok s2
       ∧ ∀ prim, naryop_tree_rule prim [s1.1.1; s2.1.1] [s1.1.2; s2.1.2] [s1.2; s2.2]
                 = Err ConflictingStructure)
  ∧ (let '(treedefs1, leafshapes1, leaves1) := Examples.outer_ab_ab in
     let '(_, leafshapes2, leaves2) := Examples.outer_ab_cd in
     let treedefs2 := [Examples.treedef_cd; Examples.treedef_cd] in
     is_Ok (TreeTracer_init treedefs1 leafshapes1 leaves1)
     ∧ is_Ok (TreeTracer_init treedefs2 leafshapes2 leaves2)
     ∧ descriptor_conflict [treedefs1; treedefs2] 0
     ∧ shape_conflict [leafshapes1; leafshapes2] 0
     ∧ descriptor_conflict [treedefs1; treedefs2] 1
     ∧ ∀ prim, naryop_tree_rule prim [treedefs1; treedefs2] [leafshapes1; leafshapes2]
                 [leaves1; leaves2] = Err ConflictingStructure).
Proof.
  split; [|split].
  - intros Arr DType K prim tds_in lss_in lvs_in tds lss lvs scalars ndim axis
      Hfilter Htd Hls Hconf.
    assert (Hrule : ∀ e, naryop_out_axes tds lss ndim = Err e →
                         naryop_tree_rule prim tds_in lss_in lvs_in = Err e).
    { intros e He. unfold naryop_tree_rule. rewrite Hfilter. simpl.
      destruct tds as [|t tds].
      { destruct Hconf as (_ & _ & t1 & _ & Ht1 & _). by apply elem_of_nil in Ht1. }
      rewrite (pyset_constant (map length (t :: tds)) ndim); [|done|].
      + simpl. by rewrite He.
      + apply Forall_fmap. exact Htd. }
    destruct (naryop_out_axes_first_conflict tds lss ndim axis Htd Hls Hconf)
      as (first & Hle & Hnone & Herr).
    exists first. split; [done|]. split; [done|].
    destruct Herr as [[Hdc He] | (Hdc & Hsc & Hlt & He)].
    + left. split; [done | by apply Hrule].
    + right. split_and!; [done..|by apply Hrule].
  - eexists _, _. split; [reflexivity|]. split; [reflexivity|].
    intros prim. vm_compute. reflexivity.
  - simpl. split; [eexists; vm_compute; reflexivity|].
    split; [eexists; vm_compute; reflexivity|].
    split_and!.
    + exists Examples.treedef_ab, Examples.treedef_cd,
        [Examples.treedef_ab; Examples.treedef_ab],
        [Examples.treedef_cd; Examples.treedef_cd].
      split; [by left|]. split; [right; by left|]. done.
    + exists [[]; [2]], [[3]; []], [[[]; [2]]; [[]; []]], [[[3]; []]; [[]; []]].
      split; [by left|]. split; [right; by left|]. done.
    + exists Examples.treedef_ab, Examples.treedef_cd,
        [Examples.treedef_ab; Examples.treedef_ab],
        [Examples.treedef_cd; Examples.treedef_cd].
      split; [by left|]. split; [right; by left|]. done.
    + intros prim. vm_compute. reflexivity.
Qed.

(** Two operands of rank 2 with distinct containers along axis 1 and
    distinct multi-segment layouts along axis 0: the first axis with a
    conflict is axis 0, and the rule raises ConflictingShape. *)
Lemma naryop_conflicting_structure_witness :
  let '(treedefs1, leafshapes1, leaves1) := Examples.outer_ab_ab in
  let '(treedefs2, leafshapes2, leaves2) := Examples.outer_ab_cd in
  ∃ first, first ≤ 1
    ∧ (∀ a, a < first →
            ¬ descriptor_conflict [treedefs1; treedefs2] a
            ∧ ¬ shape_conflict [leafshapes1; leafshapes2] a)
    ∧ ((descriptor_conflict [treedefs1; treedefs2] first
        ∧ naryop_tree_rule (Ref.nd_binop Qplus) [treedefs1; treedefs2]
            [leafshapes1; leafshapes2] [leaves1; leaves2] = Err ConflictingStructure)
       ∨ (¬ descriptor_conflict [treedefs1; treedefs2] first
          ∧ shape_conflict [leafshapes1; leafshapes2] first
          ∧ first < 1
          ∧ naryop_tree_rule (Ref.nd_binop Qplus) [treedefs1; treedefs2]
              [leafshapes1; leafshapes2] [leaves1; leaves2] = Err ConflictingShape)).
Proof.
  simpl.
  eapply (proj1 naryop_conflicting_structure Ref.ndarray Ref.dtype Ref.kernels _ _ _ _
            _ _ _ _ 2 1).
  - reflexivity.
  - repeat constructor.
  - repeat constructor.
  - exists Examples.treedef_ab, Examples.treedef_cd,
      [Examples.treedef_ab; Examples.treedef_ab], [Examples.treedef_ab; Examples.treedef_cd].
    split; [by left|]. split; [right; by left|]. done.
Defined.

(** C6, as stated, fails: two well-formed operands of rank 2 carry distinct
    non-trivial containers along axis 1, and the rule raises
    ConflictingShape, for the layouts of axis 0. *)
Lemma naryop_conflicting_structure_counterexample :
  let '(treedefs1, leafshapes1, leaves1) := Examples.outer_ab_ab in
  let '(treedefs2, leafshapes2, leaves2) := Examples.outer_ab_cd in
  is_Ok (TreeTracer_init treedefs1 leafshapes1 leaves1)
  ∧ is_Ok (TreeTracer_init treedefs2 leafshapes2 leaves2)
  ∧ descriptor_conflict [treedefs1; treedefs2] 1
  ∧ ∀ prim, naryop_tree_rule prim [treedefs1; treedefs2] [leafshapes1; leafshapes2]
              [leaves1; leaves2] = Err ConflictingShape.
Proof.
  simpl. split; [eexists; vm_compute; reflexivity|].
  split; [eexists; vm_compute; reflexivity|]. split.
  - exists Examples.treedef_ab, Examples.treedef_cd,
      [Examples.treedef_ab; Examples.treedef_ab], [Examples.treedef_ab; Examples.treedef_cd].
    split; [by left|]. split; [right; by left|]. done.
  - intros prim. vm_compute. reflexivity.
Qed.

(** ** The concatenate rule *)

Lemma pyset_nil {A} `{EqDecision A} (l : list A) : pyset l = [] ↔ l = [].
Proof.
  unfold pyset. split; [|by intros ->].
  intros Hnil. destruct l as [|x l]; [done|].
  assert (Hx : x ∈ remove_dups (x :: l)) by (apply elem_of_remove_dups; by left).
  rewrite Hnil in Hx. by apply elem_of_nil in Hx.
Qed.

Lemma mapM_index_values {A} (rows : list (list A)) (axis : nat) (col : list A) :
  mapM (λ row, index row axis) rows = Ok col →
  Forall2 (λ row x, row !! axis = Some x) rows col.
Proof.
  intros Hcol. apply mapM_Ok in Hcol.
  eapply Forall2_impl; [exact Hcol|]. intros row x. apply index_Ok.
Qed.

(** A loop over [range(n)] that appends one entry per iteration. *)
Lemma foldM_append_lookup {St B} (f : St → nat → result St) (π : St → list B)
    (Q : nat → B → Prop) (s0 s : St) (n : nat) :
  (∀ s a s', f s a = Ok s' → ∃ x, π s' = π s ++ [x] ∧ Q a x) →
  π s0 = [] →
  foldM f s0 (seq 0 n) = Ok s →
  length (π s) = n ∧ ∀ a x, π s !! a = Some x → Q a x.
Proof.
  intros Hf H0. revert s. induction n as [|n IH]; intros s Hs.
  - injection Hs as <-. rewrite H0. split; [done|]. intros a x Hx.
    by rewrite lookup_nil in Hx.
  - rewrite foldM_seq_S in Hs. apply bind_Ok in Hs as (s' & Hs' & Hstep).
    destruct (IH s' Hs') as [Hlen HQ]. simpl in Hstep.
    destruct (Hf _ _ _ Hstep) as (x & Hπ & Hx). rewrite Hπ. split.
    + rewrite length_app. simpl. lia.
    + intros a y Hy. apply lookup_app_Some in Hy as [Hy | [Hge Hy]]; [by apply HQ|].
      apply list_lookup_singleton_Some in Hy as [Ha <-].
      replace a with n by lia. done.
Qed.

(** A loop over [range(n)] either passes or stops at its first failing
    iteration, with the exception of that iteration. *)
Lemma foldM_seq_first_failure {St} (f : St → nat → result St) (s0 : St) (n : nat) :
  is_Ok (foldM f s0 (seq 0 n))
  ∨ ∃ first s e, first < n
      ∧ foldM f s0 (seq 0 first) = Ok s
      ∧ f s first = Err e
      ∧ foldM f s0 (seq 0 n) = Err e.
Proof.
  induction n as [|n IH]; [left; by eexists|].
  rewrite foldM_seq_S. simpl.
  destruct IH as [[s Hs] | (first & s & e & Hlt & Hs & He & Hn)].
  - rewrite Hs. simpl. destruct (f s n) as [s'|e] eqn:Hf.
    + left. by eexists.
    + right. exists n, s, e. split; [lia|]. done.
  - right. exists first, s, e. rewrite Hn. split; [lia|]. done.
Qed.

Section Concatenate.
Context {Arr DType : Type} `{!Kernels Arr DType}.
Abbreviation Leaves := (gmap Coords Arr).

(** Along the concatenation axis a non-trivial descriptor or a
    multi-segment layout is refused. *)
Lemma concatenate_check_axis_invalid (treedefs_in : list (list TreeDef))
    (leafshapes_in : list LeafShapes) (dimension : nat)
    (out : list TreeDef * LeafShapes) :
  Forall (λ treedefs, dimension < length treedefs) treedefs_in →
  Forall (λ leafshapes, dimension < length leafshapes) leafshapes_in →
  (∃ t d, t ∈ treedefs_in ∧ t !! dimension = Some d ∧ d ≠ TRIVIAL_TREEDEF)
  ∨ (∃ l s, l ∈ leafshapes_in ∧ l !! dimension = Some s ∧ length s ≠ 1) →
  concatenate_check_axis treedefs_in leafshapes_in dimension out dimension
    = Err InvalidConcatenateAxis.
Proof.
  intros Htd Hls Hnt. destruct out as [otd ols]. unfold concatenate_check_axis.
  destruct (mapM_index_column treedefs_in dimension Htd) as (tcol & -> & Htcol).
  destruct (mapM_index_column leafshapes_in dimension Hls) as (scol & Hscol_eq & Hscol).
  simpl.
  set (nt := pyset (filter (λ treedef, treedef ≠ TRIVIAL_TREEDEF) tcol)).
  set (ns := pyset (filter (λ shapes : list (list nat), length shapes ≠ 1) scol)).
  rewrite (bool_decide_true (dimension = dimension)) by done. simpl.
  destruct (decide (nt = [])) as [Hnil|Hne].
  - rewrite (bool_decide_false (nt ≠ [])) by tauto. rewrite Hnil. simpl.
    rewrite Hscol_eq. simpl. fold ns.
    rewrite (bool_decide_true (ns ≠ [])); [done|].
    destruct Hnt as [(t & d & Ht & Hd & Hdn) | (l & s & Hl & Hs & Hsn)].
    + exfalso. unfold nt in Hnil. apply (proj1 (pyset_nil _)) in Hnil.
      assert (Hin : d ∈ filter (λ treedef, treedef ≠ TRIVIAL_TREEDEF) tcol).
      { apply list_elem_of_filter. split; [done|]. apply Htcol. eauto. }
      rewrite Hnil in Hin. by apply elem_of_nil in Hin.
    + unfold ns. intros Hnil'. apply (proj1 (pyset_nil _)) in Hnil'.
      assert (Hin : s ∈ filter (λ shapes : list (list nat), length shapes ≠ 1) scol).
      { apply list_elem_of_filter. split; [done|]. apply Hscol. eauto. }
      rewrite Hnil' in Hin. by apply elem_of_nil in Hin.
  - by rewrite (bool_decide_true (nt ≠ [])).
Qed.

(** A passing check appends to [out_leafshapes]; along the concatenation
    axis it appends one segment of the summed length. *)
Lemma concatenate_check_axis_Ok (treedefs_in : list (list TreeDef))
    (leafshapes_in : list LeafShapes) (dimension : nat)
    (out out' : list TreeDef * LeafShapes) (axis : nat) :
  concatenate_check_axis treedefs_in leafshapes_in dimension out axis = Ok out' →
  ∃ shapes, out'.2 = out.2 ++ [shapes]
    ∧ (axis = dimension →
       shapes = [[sum_list (map (λ l, axis_length_at l dimension) leafshapes_in)]]
       ∧ Forall (λ t, t !! dimension = Some TRIVIAL_TREEDEF) treedefs_in
       ∧ Forall (λ l, ∃ s, l !! dimension = Some [s]) leafshapes_in).
Proof.
  destruct out as [otd ols]. unfold concatenate_check_axis. intros H.
  apply bind_Ok in H as (tcol & Htcol & H).
  apply bind_Ok in H as ([] & Hr1 & H). apply bind_Ok in H as ([] & Hr2 & H).
  apply bind_Ok in H as (otd' & Hotd & H).
  apply bind_Ok in H as (scol & Hscol & H).
  apply bind_Ok in H as ([] & Hr3 & H). apply bind_Ok in H as ([] & Hr4 & H).
  apply bind_Ok in H as (ols' & Hols & [= <-]). simpl.
  apply raise_if_Ok in Hr1, Hr3.
  apply mapM_index_values in Htcol, Hscol.
  destruct (decide (axis = dimension)) as [->|Hne].
  - rewrite bool_decide_true in Hr1, Hr3 by done. simpl in Hr1, Hr3.
    apply bool_decide_eq_false in Hr1, Hr3.
    apply dec_stable in Hr1, Hr3.
    apply (proj1 (pyset_nil _)) in Hr1, Hr3.
    rewrite Hr3 in Hols. simpl in Hols.
    rewrite ?decide_True in Hols by done. simpl in Hols. injection Hols as <-.
    eexists. split; [done|]. intros _. split; [|split].
    + do 3 f_equal. clear -Hscol.
      induction Hscol as [|l s ls ss Hl _ IH]; simpl; [done|].
      unfold axis_length_at at 1. rewrite Hl. simpl. by rewrite IH.
    + clear -Htcol Hr1. induction Htcol as [|t d ts ds Ht _ IH]; [done|].
      rewrite filter_cons in Hr1. destruct (decide (d ≠ TRIVIAL_TREEDEF)) as [|Hd]; [done|].
      apply dec_stable in Hd. subst d. constructor; [done | by apply IH].
    + clear -Hscol Hr3. induction Hscol as [|l s ls ss Hl _ IH]; [done|].
      rewrite filter_cons in Hr3. destruct (decide (length s ≠ 1)) as [|Hs]; [done|].
      apply dec_stable in Hs. destruct s as [|x [|y s]]; try done.
      constructor; [by exists x | by apply IH].
  - destruct (decide (length _ = 1)) in Hols.
    + apply bind_Ok in Hols as (shapes & _ & [= <-]). eexists. split; [done | done].
    + apply bind_Ok in Hols as (size & _ & [= <-]). eexists. split; [done | done].
Qed.

(** What the check of an axis other than the concatenation axis does, when
    every operand has that axis. *)
Lemma concatenate_check_axis_cases (treedefs_in : list (list TreeDef))
    (leafshapes_in : list LeafShapes) (dimension : nat)
    (out : list TreeDef * LeafShapes) (axis : nat) :
  Forall (λ treedefs, axis < length treedefs) treedefs_in →
  Forall (λ leafshapes, axis < length leafshapes) leafshapes_in →
  axis ≠ dimension →
  (descriptor_conflict treedefs_in axis
   ∧ concatenate_check_axis treedefs_in leafshapes_in dimension out axis
     = Err ConflictingStructure)
  ∨ (¬ descriptor_conflict treedefs_in axis ∧ shape_conflict leafshapes_in axis
     ∧ concatenate_check_axis treedefs_in leafshapes_in dimension out axis
       = Err ConflictingShape)
  ∨ (¬ descriptor_conflict treedefs_in axis ∧ ¬ shape_conflict leafshapes_in axis).
Proof.
  intros Htd Hls Hne. destruct out as [out_treedefs out_leafshapes].
  unfold concatenate_check_axis.
  destruct (mapM_index_column treedefs_in axis Htd) as (tcol & -> & Htcol).
  destruct (mapM_index_column leafshapes_in axis Hls) as (scol & Hscol_eq & Hscol).
  simpl.
  set (nt := pyset (filter (λ treedef, treedef ≠ TRIVIAL_TREEDEF) tcol)).
  set (ns := pyset (filter (λ shapes : list (list nat), length shapes ≠ 1) scol)).
  rewrite (bool_decide_false (axis = dimension)) by done. simpl.
  assert (Hdc : 1 < length nt ↔ descriptor_conflict treedefs_in axis).
  { unfold nt. rewrite pyset_length_gt1. unfold descriptor_conflict. split.
    - intros (d1 & d2 & H1 & H2 & Hd).
      apply list_elem_of_filter in H1 as [Hn1 H1], H2 as [Hn2 H2].
      apply Htcol in H1 as (t1 & Ht1 & Hd1), H2 as (t2 & Ht2 & Hd2).
      exists d1, d2, t1, t2. tauto.
    - intros (d1 & d2 & t1 & t2 & Ht1 & Ht2 & Hd1 & Hd2 & Hn1 & Hn2 & Hd).
      exists d1, d2. rewrite !list_elem_of_filter, !Htcol. eauto 10. }
  assert (Hsc : 1 < length ns ↔ shape_conflict leafshapes_in axis).
  { unfold ns. rewrite pyset_length_gt1. unfold shape_conflict. split.
    - intros (d1 & d2 & H1 & H2 & Hd).
      apply list_elem_of_filter in H1 as [Hn1 H1], H2 as [Hn2 H2].
      apply Hscol in H1 as (t1 & Ht1 & Hd1), H2 as (t2 & Ht2 & Hd2).
      exists d1, d2, t1, t2. tauto.
    - intros (d1 & d2 & t1 & t2 & Ht1 & Ht2 & Hd1 & Hd2 & Hn1 & Hn2 & Hd).
      exists d1, d2. rewrite !list_elem_of_filter, !Hscol. eauto 10. }
  destruct (decide (1 < length nt)) as [Hnt|Hnt].
  { left. split; [by apply Hdc|]. by rewrite bool_decide_true. }
  right. rewrite (bool_decide_false (1 < length nt)) by done. simpl.
  assert (Htd_ok : ∃ otd, (if decide (length nt = 1)
                           then unpack1 nt ≫= λ treedef, Ok (out_treedefs ++ [treedef])
                           else Ok (out_treedefs ++ [TRIVIAL_TREEDEF])) = Ok otd).
  { destruct (decide (length nt = 1)) as [H1|H1]; [|by eexists].
    destruct (pyset_length_1 _ H1) as [x Hx]. fold nt in Hx. rewrite Hx. by eexists. }
  destruct Htd_ok as [otd ->]. simpl. rewrite Hscol_eq. simpl. fold ns.
  destruct (decide (1 < length ns)) as [Hns|Hns].
  { left. split; [by rewrite <- Hdc|]. split; [by apply Hsc|].
    by rewrite bool_decide_true. }
  right. split; [by rewrite <- Hdc | by rewrite <- Hsc].
Qed.

End Concatenate.

(** C7 (as the code has it): when an operand of the concatenate rule
    (operands of one rank) carries a non-trivial container descriptor or a
    multi-segment layout along the concatenation axis, the rule returns no
    result.  The axes are checked in order: when the checks of the axes
    before the concatenation axis pass (as they do when it is axis 0), the
    exception is InvalidConcatenateAxis; otherwise it is the exception of
    the check of the first axis that fails, an axis before the
    concatenation axis whose predecessors all pass: ConflictingStructure
    when two operands carry distinct non-trivial descriptors there, and
    ConflictingShape when none do but two operands carry distinct
    multi-segment layouts there.  When the rule returns
    a result that has the concatenation axis, every operand has the trivial
    descriptor and a single segment along it, and the result has there one
    segment, of the sum of the operands' lengths; [jnp.arange(1, 3)] and
    [jnp.arange(3, 6)] are concatenated so, to one segment of length 5. *)
Theorem concatenate_axis_restriction :
  (∀ (Arr DType : Type) (K : Kernels Arr DType)
     treedefs_in leafshapes_in (leaves_in : list (gmap Coords Arr)) dimension ndim,
     treedefs_in ≠ [] →
     Forall (λ t, length t = ndim) treedefs_in →
     Forall (λ l, length l = ndim) leafshapes_in →
     dimension < ndim →
     (∃ t d, t ∈ treedefs_in ∧ t !! dimension = Some d ∧ d ≠ TRIVIAL_TREEDEF)
     ∨ (∃ l s, l ∈ leafshapes_in ∧ l !! dimension = Some s ∧ length s ≠ 1) →
     (is_Ok (concatenate_out_axes treedefs_in leafshapes_in dimension dimension)
      ∧ concatenate_tree_rule treedefs_in leafshapes_in leaves_in dimension
        = Err InvalidConcatenateAxis)
     ∨ (∃ first out e,
          first < dimension
          ∧ concatenate_out_axes treedefs_in leafshapes_in dimension first = Ok out
          ∧ concatenate_check_axis treedefs_in leafshapes_in dimension out first = Err e
          ∧ concatenate_tree_rule treedefs_in leafshapes_in leaves_in dimension = Err e
          ∧ (descriptor_conflict treedefs_in first → e = ConflictingStructure)
          ∧ (¬ descriptor_conflict treedefs_in first →
             shape_conflict leafshapes_in first → e = ConflictingShape)))
  ∧ (∀ (Arr DType : Type) (K : Kernels Arr DType)
       treedefs_in leafshapes_in (leaves_in : list (gmap Coords Arr)) dimension
       out_treedefs out_leafshapes out_leaves,
       concatenate_tree_rule treedefs_in leafshapes_in leaves_in dimension
         = Ok (out_treedefs, out_leafshapes, out_leaves) →
       dimension < length out_leafshapes →
       out_leafshapes !! dimension
         = Some [[sum_list (map (λ l, axis_length_at l dimension) leafshapes_in)]]
       ∧ Forall (λ t, t !! dimension = Some TRIVIAL_TREEDEF) treedefs_in
       ∧ Forall (λ l, ∃ s, l !! dimension = Some [s]) leafshapes_in)
  ∧ concatenate_tree_rule [[TRIVIAL_TREEDEF]; [TRIVIAL_TREEDEF]] [[[[2]]]; [[[3]]]]
      [({[ [0] := Ref.array1 [1%Q; 2%Q] ]} : gmap Coords Ref.ndarray);
       {[ [0] := Ref.array1 [3%Q; 4%Q; 5%Q] ]}] 0
    = Ok ([TRIVIAL_TREEDEF], [[[5]]],
          {[ [0] := Ref.array1 [1%Q; 2%Q; 3%Q; 4%Q; 5%Q] ]}).
Proof.
  split; [|split].
  - intros Arr DType K tds lss lvs dimension ndim Hne Htd Hls Hdim Hnt.
    unfold concatenate_tree_rule.
    rewrite (pyset_constant (map length tds) ndim);
      [|by destruct tds | by apply Forall_fmap].
    simpl. unfold concatenate_out_axes, range.
    assert (Hseq : seq 0 ndim = seq 0 dimension ++ dimension :: seq (S dimension) (ndim - S dimension)).
    { replace (seq 0 ndim) with (seq 0 (dimension + S (ndim - S dimension))) by (f_equal; lia).
      by rewrite seq_app. }
    rewrite Hseq, foldM_app.
    destruct (foldM_seq_first_failure (concatenate_check_axis tds lss dimension)
                ([], []) dimension) as [[s Hs] | (first & s & e & Hlt & Hs & He & Hn)].
    + left. split; [by exists s|]. rewrite Hs. simpl.
      rewrite concatenate_check_axis_invalid; [done| | |done].
      * eapply Forall_impl; [exact Htd|]. simpl. intros; lia.
      * eapply Forall_impl; [exact Hls|]. simpl. intros; lia.
    + right. exists first, s, e. rewrite Hn. split_and!; [done..| |].
      * intros Hdc.
        destruct (concatenate_check_axis_cases tds lss dimension s first)
          as [[_ H] | [(Hn' & _) | (Hn' & _)]]; [| |lia| |done..].
        -- eapply Forall_impl; [exact Htd|]. simpl. intros; lia.
        -- eapply Forall_impl; [exact Hls|]. simpl. intros; lia.
        -- congruence.
      * intros Hdc Hsc.
        destruct (concatenate_check_axis_cases tds lss dimension s first)
          as [[Hdc' _] | [(_ & _ & H) | (_ & Hn')]]; [| |lia|done| |done].
        -- eapply Forall_impl; [exact Htd|]. simpl. intros; lia.
        -- eapply Forall_impl; [exact Hls|]. simpl. intros; lia.
        -- congruence.
  - intros Arr DType K tds lss lvs dimension otd ols olv Hrule Hdim.
    unfold concatenate_tree_rule in Hrule.
    apply bind_Ok in Hrule as (ndim & _ & Hrule).
    apply bind_Ok in Hrule as ([otd' ols'] & Hout & Hrule).
    apply bind_Ok in Hrule as (fixed & _ & Hrule).
    apply bind_Ok in Hrule as (olv' & _ & [= <- <- <-]).
    unfold concatenate_out_axes, range in Hout.
    destruct (foldM_append_lookup (concatenate_check_axis tds lss dimension) snd
                (λ axis shapes, axis = dimension →
                   shapes = [[sum_list (map (λ l, axis_length_at l dimension) lss)]]
                   ∧ Forall (λ t, t !! dimension = Some TRIVIAL_TREEDEF) tds
                   ∧ Forall (λ l, ∃ s, l !! dimension = Some [s]) lss)
                ([], []) (otd', ols') ndim) as [Hlen HQ]; [|done|done|].
    { intros s a s'. apply concatenate_check_axis_Ok. }
    simpl in Hlen, HQ.
    destruct (lookup_lt_is_Some_2 ols' dimension Hdim) as [shapes Hshapes].
    destruct (HQ dimension shapes Hshapes eq_refl) as (-> & H1 & H2). done.
  - vm_compute. reflexivity.
Qed.

(** Two tracers of the container [{'a', 'b'}] are not concatenated along
    their axis, which is axis 0: InvalidConcatenateAxis.  Of two operands
    of rank 2 the first has the container [{'a', 'b'}] along the
    concatenation axis 1; the check of axis 0 fails first, with
    ConflictingShape.  [jnp.arange(1, 3)] and [jnp.arange(3, 6)] are
    concatenated, to length 5. *)
Lemma concatenate_axis_restriction_witness :
  concatenate_tree_rule [[Examples.treedef_ab]; [Examples.treedef_ab]]
    [[[[]; []]]; [[[]; []]]]
    [({[ [0] := Ref.scalar 0; [1] := Ref.scalar 0 ]} : gmap Coords Ref.ndarray);
     {[ [0] := Ref.scalar 1; [1] := Ref.scalar 1 ]}] 0 = Err InvalidConcatenateAxis
  ∧ (let '(treedefs1, leafshapes1, leaves1) := Examples.outer_ab_ab in
     let '(treedefs2, leafshapes2, leaves2) := Examples.outer_ab_cd in
     concatenate_check_axis [treedefs1; treedefs2] [leafshapes1; leafshapes2] 1 ([], []) 0
       = Err ConflictingShape
     ∧ concatenate_tree_rule [treedefs1; treedefs2] [leafshapes1; leafshapes2]
         [leaves1; leaves2] 1 = Err ConflictingShape)
  ∧ ([[[5]]] : LeafShapes) !! 0
      = Some [[sum_list (map (λ l, axis_length_at l 0) [[[[2]]]; [[[3]]]])]]
    ∧ Forall (λ t, t !! 0 = Some TRIVIAL_TREEDEF) [[TRIVIAL_TREEDEF]; [TRIVIAL_TREEDEF]]
    ∧ Forall (λ l : LeafShapes, ∃ s, l !! 0 = Some [s]) [[[[2]]]; [[[3]]]].
Proof.
  split; [|split].
  - destruct (proj1 concatenate_axis_restriction Ref.ndarray Ref.dtype Ref.kernels
                [[Examples.treedef_ab]; [Examples.treedef_ab]] [[[[]; []]]; [[[]; []]]]
                [({[ [0] := Ref.scalar 0; [1] := Ref.scalar 0 ]} : gmap Coords Ref.ndarray);
                 {[ [0] := Ref.scalar 1; [1] := Ref.scalar 1 ]}] 0 1)
      as [[_ H] | (first & _ & _ & Hlt & _)].
    + done.
    + repeat constructor.
    + repeat constructor.
    + lia.
    + left. exists [Examples.treedef_ab], Examples.treedef_ab.
      split; [by left|]. done.
    + exact H.
    + lia.
  - simpl.
    destruct (proj1 concatenate_axis_restriction Ref.ndarray Ref.dtype Ref.kernels
                [[Examples.treedef_ab; Examples.treedef_ab];
                 [Examples.treedef_ab; Examples.treedef_cd]]
                [[[[]; [2]]; [[]; []]]; [[[3]; []]; [[]; []]]]
                [Examples.outer_ab_ab.2; Examples.outer_ab_cd.2] 1 2)
      as [[Hok _] | (first & out & e & Hlt & Hout & He & Hrule & _ & Hshape)].
    + done.
    + repeat constructor.
    + repeat constructor.
    + lia.
    + left. exists [Examples.treedef_ab; Examples.treedef_ab], Examples.treedef_ab.
      split; [by left|]. done.
    + exfalso. destruct Hok as [s Hs]. vm_compute in Hs. discriminate Hs.
    + assert (first = 0) as -> by lia. vm_compute in Hout. injection Hout as <-.
      assert (e = ConflictingShape) as ->; [|split; [exact He | exact Hrule]].
      apply Hshape.
      * intros (d1 & d2 & t1 & t2 & Ht1 & Ht2 & Hd1 & Hd2 & _ & _ & Hne).
        rewrite !elem_of_cons, elem_of_nil in Ht1, Ht2.
        destruct Ht1 as [-> | [-> | []]], Ht2 as [-> | [-> | []]];
          simpl in Hd1, Hd2; congruence.
      * exists [[]; [2]], [[3]; []], [[[]; [2]]; [[]; []]], [[[3]; []]; [[]; []]].
        split; [by left|]. split; [right; by left|]. done.
  - apply (proj1 (proj2 concatenate_axis_restriction) Ref.ndarray Ref.dtype Ref.kernels
             [[TRIVIAL_TREEDEF]; [TRIVIAL_TREEDEF]] [[[[2]]]; [[[3]]]]
             [({[ [0] := Ref.array1 [1%Q; 2%Q] ]} : gmap Coords Ref.ndarray);
              {[ [0] := Ref.array1 [3%Q; 4%Q; 5%Q] ]}] 0
             [TRIVIAL_TREEDEF] [[[5]]]
             {[ [0] := Ref.array1 [1%Q; 2%Q; 3%Q; 4%Q; 5%Q] ]}).
    + vm_compute. reflexivity.
    + simpl. lia.
Defined.

(** C7, as stated, fails: the first of two well-formed operands of rank 2
    carries the container [{'a', 'b'}] along the concatenation axis 1, and
    the rule raises ConflictingShape, for the layouts of axis 0. *)
Lemma concatenate_axis_restriction_counterexample :
  let '(treedefs1, leafshapes1, leaves1) := Examples.outer_ab_ab in
  let '(treedefs2, leafshapes2, leaves2) := Examples.outer_ab_cd in
  is_Ok (TreeTracer_init treedefs1 leafshapes1 leaves1)
  ∧ is_Ok (TreeTracer_init treedefs2 leafshapes2 leaves2)
  ∧ (treedefs1 !! 1 = Some Examples.treedef_ab
     ∧ Examples.treedef_ab ≠ TRIVIAL_TREEDEF)
  ∧ concatenate_tree_rule [treedefs1; treedefs2] [leafshapes1; leafshapes2]
      [leaves1; leaves2] 1 = Err ConflictingShape.
Proof.
  simpl. split; [eexists; vm_compute; reflexivity|].
  split; [eexists; vm_compute; reflexivity|]. split; [done|].
  vm_compute. reflexivity.
Qed.

(** ** Dropping axes *)

Lemma without_axes_drop_at {A} (axes : list nat) (l : list A) :
  without_axes axes l = drop_at axes 0 l.
Proof.
  unfold without_axes, enumerate.
  assert (H : ∀ k, (filter (λ ix : nat * A, ix.1 ∉ axes) (imap (λ i x, (k + i, x)) l)).*2
                   = drop_at axes k l).
  { induction l as [|x l IH]; intros k; simpl; [done|].
    rewrite filter_cons. simpl. rewrite Nat.add_0_r.
    rewrite (imap_ext _ (λ i x, (S k + i, x))) by (intros; simpl; f_equal; lia).
    destruct (decide (k ∈ axes)) as [Hin|Hnin].
    - rewrite decide_False by tauto. apply IH.
    - rewrite decide_True by done. rewrite fmap_cons. f_equal. apply IH. }
  apply (H 0).
Qed.

Lemma drop_at_fmap {A B} (f : A → B) (axes : list nat) (k : nat) (l : list A) :
  drop_at axes k (f <$> l) = f <$> drop_at axes k l.
Proof.
  revert k. induction l as [|x l IH]; intros k; simpl; [done|].
  destruct (decide (k ∈ axes)); simpl; by rewrite IH.
Qed.

Lemma without_axes_fmap {A B} (f : A → B) (axes : list nat) (l : list A) :
  without_axes axes (f <$> l) = f <$> without_axes axes l.
Proof. rewrite !without_axes_drop_at. apply drop_at_fmap. Qed.

(** Dropping the axes that have a single partition from every coordinate
    of a product enumerates the product of the remaining ranges, in order. *)
Lemma product_drop_at (axes : list nat) (rs : list (list nat)) (k : nat) :
  (∀ i r, rs !! i = Some r → k + i ∈ axes → r = [0]) →
  drop_at axes k <$> product rs = product (drop_at axes k rs).
Proof.
  revert k. induction rs as [|r rs IH]; intros k Hone; simpl; [done|].
  assert (IH' : drop_at axes (S k) <$> product rs = product (drop_at axes (S k) rs)).
  { apply IH. intros i r' Hr' Hin. apply (Hone (S i) r' Hr').
    by replace (k + S i) with (S k + i) by lia. }
  destruct (decide (k ∈ axes)) as [Hin|Hnin].
  - rewrite (Hone 0 r) by (done || by rewrite Nat.add_0_r). simpl.
    rewrite app_nil_r, <- list_fmap_compose, <- IH'.
    apply list_fmap_ext. intros i c _. simpl. by rewrite decide_True.
  - simpl. rewrite <- IH'. clear Hone IH IH'.
    induction r as [|x r IHr]; [done|].
    rewrite !bind_cons, fmap_app, IHr. f_equal.
    rewrite <- !list_fmap_compose. apply list_fmap_ext.
    intros i c _. simpl. by rewrite decide_False.
Qed.

Lemma iter_leaf_coords_without_axes (dimensions : list nat) (treedefs : list TreeDef) :
  (∀ axis treedef, treedefs !! axis = Some treedef → axis ∈ dimensions →
                   treedef = TRIVIAL_TREEDEF) →
  _iter_leaf_coords (without_axes dimensions treedefs)
    = without_axes dimensions <$> _iter_leaf_coords treedefs.
Proof.
  intros Htriv. unfold _iter_leaf_coords.
  rewrite <- (without_axes_fmap (λ treedef, range (num_leaves treedef))).
  rewrite without_axes_drop_at.
  rewrite (list_fmap_ext (without_axes dimensions) (drop_at dimensions 0) (product _))
    by (intros; apply without_axes_drop_at).
  symmetry. apply product_drop_at. intros i r Hr Hin.
  rewrite list_lookup_fmap in Hr. destruct (treedefs !! i) as [td|] eqn:Htd; [|done].
  injection Hr as <-. by rewrite (Htriv i td Htd Hin).
Qed.

Lemma zip_fmap_r_diag {A B} (f : A → B) (l : list A) :
  zip l (f <$> l) = (λ x, (x, f x)) <$> l.
Proof. induction l as [|x l IH]; [done|]. simpl. f_equal. exact IH. Qed.

(** ** Loops that fill a dictionary *)

Lemma foldM_insert_dict {A V} (g : A → result V) (key : A → Coords)
    (kvs0 : list (Coords * V)) (l : list A) :
  foldM (λ d x, g x ≫= λ v, Ok (<[key x := v]> d)) (dict_of kvs0) l =
    (λ kvs, dict_of (kvs0 ++ kvs)) <$> mapM (λ x, g x ≫= λ v, Ok (key x, v)) l.
Proof.
  revert kvs0. induction l as [|x l IH]; intros kvs0; simpl.
  - by rewrite app_nil_r.
  - destruct (g x) as [v|e]; simpl; [|done].
    rewrite <- (dict_of_snoc kvs0 (key x) v), IH.
    destruct (mapM _ l) as [kvs|e]; simpl; [|done].
    by rewrite <- app_assoc.
Qed.

(** A loop that stores [g x] under [key x], the keys being distinct: what
    it returns, and when it returns. *)
Lemma foldM_insert_lookup {A V} (g : A → result V) (key : A → Coords)
    (l : list A) (d : gmap Coords V) :
  NoDup (key <$> l) →
  foldM (λ d x, g x ≫= λ v, Ok (<[key x := v]> d)) ∅ l = Ok d →
  (∀ x, x ∈ l → ∃ v, g x = Ok v ∧ d !! key x = Some v)
  ∧ (∀ k v, d !! k = Some v → ∃ x, x ∈ l ∧ k = key x ∧ g x = Ok v).
Proof.
  intros Hnd Hd. change (∅ : gmap Coords V) with (dict_of (V:=V) []) in Hd.
  rewrite foldM_insert_dict in Hd. apply fmap_Ok in Hd as (kvs & Hkvs & ->).
  simpl. apply mapM_Ok in Hkvs.
  assert (Hkeys : kvs.*1 = key <$> l).
  { clear Hnd. induction Hkvs as [|x [k v] l kvs Hx _ IH]; [done|].
    apply bind_Ok in Hx as (v' & _ & [= <- _]). rewrite !fmap_cons. simpl.
    f_equal. exact IH. }
  split.
  - intros x Hx. apply list_elem_of_lookup in Hx as (i & Hi).
    destruct (Forall2_lookup_l _ _ _ _ _ Hkvs Hi) as ([k v] & Hkv & Hg).
    apply bind_Ok in Hg as (v' & Hv' & [= <- <-]). exists v'. split; [done|].
    apply dict_of_lookup_Some; [by rewrite Hkeys|].
    by eapply list_elem_of_lookup_2.
  - intros k v Hkv.
    destruct (decide (k ∈ kvs.*1)) as [Hin|Hnin];
      [|by rewrite dict_of_lookup_None in Hkv].
    apply list_elem_of_fmap in Hin as ([k' v'] & -> & Hin). simpl in Hkv.
    rewrite (dict_of_lookup_Some kvs k' v') in Hkv by (by rewrite ?Hkeys).
    injection Hkv as ->.
    apply list_elem_of_lookup in Hin as (i & Hi).
    destruct (Forall2_lookup_r _ _ _ _ _ Hkvs Hi) as (x & Hx & Hg).
    apply bind_Ok in Hg as (v' & Hv' & [= <- <-]).
    exists x. split; [by eapply list_elem_of_lookup_2 | done].
Qed.

Lemma foldM_insert_is_Ok {A V} (g : A → result V) (key : A → Coords)
    (l : list A) (d0 : gmap Coords V) :
  (∀ x, x ∈ l → is_Ok (g x)) →
  is_Ok (foldM (λ d x, g x ≫= λ v, Ok (<[key x := v]> d)) d0 l).
Proof.
  revert d0. induction l as [|x l IH]; intros d0 Hg; simpl; [by eexists|].
  destruct (Hg x) as [v ->]; [by left|]. simpl. apply IH.
  intros y Hy. apply Hg. by right.
Qed.

Lemma foldM_fmap {A B St} (f : St → B → result St) (h : A → B) (s : St) (l : list A) :
  foldM f s (h <$> l) = foldM (λ s x, f s (h x)) s l.
Proof.
  revert s. induction l as [|x l IH]; intros s; simpl; [done|].
  destruct (f s (h x)); simpl; [apply IH | done].
Qed.

(** ** The squeeze rule *)

Section Squeeze.
Context {Arr DType : Type} `{!Kernels Arr DType}.
Abbreviation Leaves := (gmap Coords Arr).

Lemma squeeze_check_Ok (dimensions : list nat) (treedefs : list TreeDef) :
  squeeze_check dimensions treedefs = Ok tt ↔
    ∀ axis treedef, treedefs !! axis = Some treedef → axis ∈ dimensions →
                    treedef = TRIVIAL_TREEDEF.
Proof.
  unfold squeeze_check.
  rewrite (foldM_unit_Ok (λ '(axis, treedef),
             if decide (axis ∈ dimensions)
             then raise_if (bool_decide (treedef ≠ TRIVIAL_TREEDEF)) InvalidSqueezeAxis
             else Ok tt)).
  rewrite Forall_forall. split.
  - intros Hall axis td Htd Hin. specialize (Hall (axis, td)). simpl in Hall.
    rewrite decide_True in Hall by done.
    apply raise_if_Ok, bool_decide_eq_false, dec_stable in Hall; [done|].
    by apply elem_of_enumerate.
  - intros Hall [axis td] Hin. apply elem_of_enumerate in Hin. simpl.
    destruct (decide (axis ∈ dimensions)) as [Hd|]; [|done].
    apply raise_if_Ok, bool_decide_eq_false. intros Hne. by apply Hne, (Hall axis).
Qed.

Lemma squeeze_check_Err (dimensions : list nat) (treedefs : list TreeDef) :
  (∃ axis treedef, treedefs !! axis = Some treedef ∧ axis ∈ dimensions
                   ∧ treedef ≠ TRIVIAL_TREEDEF) →
  squeeze_check dimensions treedefs = Err InvalidSqueezeAxis.
Proof.
  intros (axis & td & Htd & Hin & Hne). unfold squeeze_check.
  apply elem_of_enumerate, list_elem_of_split in Htd as (l1 & l2 & ->).
  destruct (foldM_first_failure
              (λ (_ : unit) '(axis, treedef),
                 if decide (axis ∈ dimensions)
                 then raise_if (bool_decide (treedef ≠ TRIVIAL_TREEDEF)) InvalidSqueezeAxis
                 else Ok tt)
              tt l1 l2 (axis, td) (λ _ e, e = InvalidSqueezeAxis))
    as (e & _ & Hf & _ & ->); [| |done].
  - intros [] [a t] _. destruct (decide (a ∈ dimensions)); [|left; by eexists].
    destruct (decide (t = TRIVIAL_TREEDEF)) as [->|Ht].
    + left. rewrite bool_decide_false by tauto. by eexists.
    + right. rewrite bool_decide_true by done. by eexists.
  - intros []. rewrite decide_True by done. rewrite bool_decide_true by done.
    by eexists.
Qed.

(** The second loop of the rule, once the check has passed. *)
Lemma squeeze_leaves_loop (treedefs : list TreeDef) (leafshapes : LeafShapes)
    (leaves : Leaves) (dimensions : list nat) :
  (∀ axis treedef, treedefs !! axis = Some treedef → axis ∈ dimensions →
                   treedef = TRIVIAL_TREEDEF) →
  foldM (λ out_leaves '(in_coords, out_coords),
           leaf ← getitem leaves in_coords;
           leaf_dims ← _axes_for_leaf leafshapes in_coords dimensions;
           out ← lax_squeeze leaf leaf_dims;
           Ok (<[out_coords := out]> out_leaves))
        (∅ : Leaves) (zip (_iter_leaf_coords treedefs)
               (_iter_leaf_coords (without_axes dimensions treedefs)))
  = foldM (λ out_leaves in_coords,
             (getitem leaves in_coords ≫= λ leaf,
              _axes_for_leaf leafshapes in_coords dimensions ≫= λ leaf_dims,
              lax_squeeze leaf leaf_dims) ≫= λ out,
             Ok (<[without_axes dimensions in_coords := out]> out_leaves))
          (∅ : Leaves) (_iter_leaf_coords treedefs).
Proof.
  intros Htriv. rewrite (iter_leaf_coords_without_axes _ _ Htriv).
  rewrite zip_fmap_r_diag, foldM_fmap. apply foldM_ext_in. intros d c _.
  destruct (getitem leaves c); simpl; [|done].
  destruct (_axes_for_leaf leafshapes c dimensions); simpl; [|done].
  destruct (lax_squeeze _ _); done.
Qed.

End Squeeze.

(** C8 (as the code has it): the squeeze rule checks the container
    descriptor of each requested axis, and nothing else of it: it raises
    InvalidSqueezeAxis as soon as a requested axis has a non-trivial
    descriptor, whatever the blocks.  When the requested axes have trivial
    descriptors, a result has the treedefs and leafshapes of the remaining
    axes, and its block at a coordinate without the removed axes is the
    input block squeezed along the physical dimensions of the removed
    axes; such a result is returned when every block is present and the
    kernel squeezes it. *)
Theorem squeeze_axis_restriction {Arr DType : Type} `{!Kernels Arr DType}
    (treedefs : list TreeDef) (leafshapes : LeafShapes) (leaves : gmap Coords Arr)
    (dimensions : list nat) :
  ((∃ axis treedef, treedefs !! axis = Some treedef ∧ axis ∈ dimensions
                    ∧ treedef ≠ TRIVIAL_TREEDEF) →
   squeeze_tree_rule [treedefs] [leafshapes] [leaves] dimensions
     = Err InvalidSqueezeAxis)
  ∧ ((∀ axis treedef, treedefs !! axis = Some treedef → axis ∈ dimensions →
                      treedef = TRIVIAL_TREEDEF) →
     (∀ out_treedefs out_leafshapes out_leaves,
        squeeze_tree_rule [treedefs] [leafshapes] [leaves] dimensions
          = Ok (out_treedefs, out_leafshapes, out_leaves) →
        out_treedefs = without_axes dimensions treedefs
        ∧ out_leafshapes = without_axes dimensions leafshapes
        ∧ (∀ in_coords, in_coords ∈ _iter_leaf_coords treedefs →
             ∃ leaf leaf_dims out,
               leaves !! in_coords = Some leaf
               ∧ _axes_for_leaf leafshapes in_coords dimensions = Ok leaf_dims
               ∧ lax_squeeze leaf leaf_dims = Ok out
               ∧ out_leaves !! without_axes dimensions in_coords = Some out)
        ∧ (∀ out_coords out, out_leaves !! out_coords = Some out →
             ∃ in_coords, in_coords ∈ _iter_leaf_coords treedefs
                          ∧ out_coords = without_axes dimensions in_coords))
     ∧ ((∀ in_coords, in_coords ∈ _iter_leaf_coords treedefs →
           ∃ leaf leaf_dims,
             leaves !! in_coords = Some leaf
             ∧ _axes_for_leaf leafshapes in_coords dimensions = Ok leaf_dims
             ∧ is_Ok (lax_squeeze leaf leaf_dims)) →
        is_Ok (squeeze_tree_rule [treedefs] [leafshapes] [leaves] dimensions))).
Proof.
  split.
  - intros Hnt. unfold squeeze_tree_rule. simpl.
    by rewrite (squeeze_check_Err _ _ Hnt).
  - intros Htriv. unfold squeeze_tree_rule. simpl.
    rewrite (proj2 (squeeze_check_Ok _ _) Htriv). simpl.
    rewrite (squeeze_leaves_loop _ _ _ _ Htriv). split.
    + intros otd ols olv Hrule.
      apply bind_Ok in Hrule as (olv' & Hloop & [= <- <- <-]).
      split; [done|]. split; [done|].
      apply foldM_insert_lookup in Hloop as [Hin Hout].
      * split.
        -- intros c Hc. destruct (Hin c Hc) as (out & Hg & Hlk).
           apply bind_Ok in Hg as (leaf & Hleaf & Hg).
           apply bind_Ok in Hg as (leaf_dims & Hdims & Hg).
           apply getitem_Ok in Hleaf. by exists leaf, leaf_dims, out.
        -- intros k out Hk. destruct (Hout k out Hk) as (c & Hc & -> & _). eauto.
      * rewrite <- (iter_leaf_coords_without_axes _ _ Htriv).
        apply NoDup_iter_leaf_coords.
    + intros Hblocks.
      destruct (foldM_insert_is_Ok
                  (λ in_coords,
                     getitem leaves in_coords ≫= λ leaf,
                     _axes_for_leaf leafshapes in_coords dimensions ≫= λ leaf_dims,
                     lax_squeeze leaf leaf_dims)
                  (without_axes dimensions) (_iter_leaf_coords treedefs) ∅)
        as [olv Holv].
      * intros c Hc. destruct (Hblocks c Hc) as (leaf & leaf_dims & Hleaf & Hdims & [out Hout]).
        exists out. unfold getitem. rewrite Hleaf. simpl. rewrite Hdims. simpl. done.
      * rewrite Holv. simpl. by eexists.
Qed.

(** A tracer of the container [{'a', 'b'}] is not squeezed along its axis;
    a tracer of shape [(1, 2)] with the container on its second axis is
    squeezed along its first. *)
Lemma squeeze_axis_restriction_witness :
  squeeze_tree_rule [[Examples.treedef_ab]] [[[[]; []]]]
    [({[ [0] := Ref.scalar 1; [1] := Ref.scalar 2 ]} : gmap Coords Ref.ndarray)] [0]
    = Err InvalidSqueezeAxis
  ∧ is_Ok (squeeze_tree_rule [[TRIVIAL_TREEDEF; Examples.treedef_ab]]
             [[[[1]]; [[]; [2]]]]
             [({[ [0; 0] := Ref.array1 [1%Q];
                  [0; 1] := Ref.array2 [[2%Q; 3%Q]] ]} : gmap Coords Ref.ndarray)] [0]).
Proof.
  split.
  - apply (proj1 (squeeze_axis_restriction _ _ _ _)).
    exists 0, Examples.treedef_ab. split; [done|]. split; [by left | done].
  - apply (proj2 (squeeze_axis_restriction _ _ _ _)).
    + intros axis td Htd Hin. apply list_elem_of_singleton in Hin as ->.
      by injection Htd as <-.
    + intros c Hc. vm_compute in Hc.
      repeat (apply elem_of_cons in Hc as [-> | Hc];
              [eexists _, _; split; [reflexivity|]; split; [reflexivity|];
               eexists; vm_compute; reflexivity|]).
      by apply elem_of_nil in Hc.
Defined.

(** C8, as stated, fails: the axis of the tracer made from a scalar and the
    axis of the tracer made from an array of shape [(2, 3)] have the trivial
    descriptor and are not trivial axes (their one segment is not
    one-dimensional); the rule squeezes the first without complaint, and
    for the second the exception is the kernel's, not InvalidSqueezeAxis. *)
Lemma squeeze_axis_restriction_counterexample :
  (convert_vectorized_tree (PLeaf (Ref.scalar 5))
     = Ok ([TRIVIAL_TREEDEF], [[[]]], {[ [0] := Ref.scalar 5 ]})
   ∧ trivial_axis TRIVIAL_TREEDEF [[]] = false
   ∧ squeeze_tree_rule [[TRIVIAL_TREEDEF]] [[[[]]]]
       [({[ [0] := Ref.scalar 5 ]} : gmap Coords Ref.ndarray)] [0]
     = Ok ([], [], {[ [] := Ref.scalar 5 ]}))
  ∧ (convert_vectorized_tree (PLeaf (Examples.full [2; 3] 1))
       = Ok ([TRIVIAL_TREEDEF], [[[2; 3]]], {[ [0] := Examples.full [2; 3] 1 ]})
     ∧ trivial_axis TRIVIAL_TREEDEF [[2; 3]] = false
     ∧ squeeze_tree_rule [[TRIVIAL_TREEDEF]] [[[[2; 3]]]]
         [({[ [0] := Examples.full [2; 3] 1 ]} : gmap Coords Ref.ndarray)] [0]
       = Err KernelError).
Proof.
  split; (split; [vm_compute; reflexivity|]); (split; [reflexivity|]);
    vm_compute; reflexivity.
Qed.

(** ** Accumulation into output blocks *)

Section Accumulate.
Context {Arr : Type} {A : Type}.
Implicit Types (g : A → result (Coords * Arr)) (nodes : gmap Coords (list Arr)).

Lemma contributions_cons (k k' : Coords) (v : Arr) (kvs : list (Coords * Arr)) :
  contributions ((k', v) :: kvs) k =
    if decide (k' = k) then v :: contributions kvs k else contributions kvs k.
Proof.
  unfold contributions. rewrite filter_cons. simpl. by destruct (decide (k' = k)).
Qed.

Lemma accumulate_Ok g nodes0 nodes (l : list A) :
  accumulate g nodes0 l = Ok nodes →
  ∃ kvs, mapM g l = Ok kvs
         ∧ Forall (λ kv, is_Some (nodes0 !! kv.1)) kvs
         ∧ ∀ k, nodes !! k = (λ old, old ++ contributions kvs k) <$> nodes0 !! k.
Proof.
  unfold accumulate. revert nodes0.
  induction l as [|x l IH]; intros nodes0 Hacc; simpl in Hacc.
  - injection Hacc as <-. exists []. split; [done|]. split; [done|].
    intros k. unfold contributions. simpl.
    destruct (nodes0 !! k); simpl; [by rewrite app_nil_r | done].
  - apply bind_Ok in Hacc as (nodes1 & Hstep & Hacc).
    apply bind_Ok in Hstep as ([k' v] & Hg & Happ). simpl in Happ.
    unfold append_node in Happ.
    destruct (nodes0 !! k') as [old|] eqn:Hold; [|done]. injection Happ as <-.
    destruct (IH _ Hacc) as (kvs & Hkvs & Hkeys & Hlook).
    exists ((k', v) :: kvs). rewrite mapM_cons, Hg, Hkvs. simpl.
    split; [done|]. split.
    + constructor; [simpl; by rewrite Hold|].
      eapply Forall_impl; [exact Hkeys|]. intros [k w] Hk. simpl in *.
      destruct (decide (k' = k)) as [->|Hne]; [by rewrite Hold|].
      by rewrite lookup_insert_ne in Hk.
    + intros k. rewrite Hlook, contributions_cons.
      destruct (decide (k' = k)) as [->|Hne].
      * rewrite lookup_insert_eq, Hold. simpl. by rewrite <- app_assoc.
      * by rewrite lookup_insert_ne.
Qed.

Lemma accumulate_is_Ok g nodes0 (l : list A) (kvs : list (Coords * Arr)) :
  mapM g l = Ok kvs →
  Forall (λ kv, is_Some (nodes0 !! kv.1)) kvs →
  is_Ok (accumulate g nodes0 l).
Proof.
  unfold accumulate. revert nodes0 kvs.
  induction l as [|x l IH]; intros nodes0 kvs Hkvs Hkeys; simpl; [by eexists|].
  rewrite mapM_cons in Hkvs. apply bind_Ok in Hkvs as ([k v] & Hg & Hkvs).
  apply bind_Ok in Hkvs as (kvs' & Hkvs' & [= <-]).
  apply Forall_cons in Hkeys as [[old Hold] Hkeys]. simpl in Hold.
  rewrite Hg. simpl. unfold append_node. rewrite Hold. simpl.
  apply (IH _ kvs'); [done|].
  eapply Forall_impl; [exact Hkeys|]. intros [k' w] Hk. simpl in *.
  destruct (decide (k = k')) as [->|Hne].
  - rewrite lookup_insert_eq. by eexists.
  - by rewrite lookup_insert_ne.
Qed.

Lemma empty_nodes_lookup (keys : list Coords) (k : Coords) :
  empty_nodes (Arr:=Arr) keys !! k = if decide (k ∈ keys) then Some [] else None.
Proof.
  unfold empty_nodes. induction keys as [|k' keys IH] using rev_ind.
  - rewrite decide_False by apply not_elem_of_nil. apply lookup_empty.
  - rewrite map_app. simpl. rewrite dict_of_snoc.
    destruct (decide (k' = k)) as [->|Hne].
    + rewrite lookup_insert_eq. rewrite decide_True; [done|].
      apply elem_of_app. right. by left.
    + rewrite lookup_insert_ne by done. rewrite IH.
      destruct (decide (k ∈ keys)) as [Hin|Hnin].
      * rewrite decide_True; [done | apply elem_of_app; by left].
      * rewrite decide_False; [done|]. rewrite elem_of_app, list_elem_of_singleton.
        intros [? | ?]; [done | congruence].
Qed.

(** The loop of a reduction or contraction rule followed by the fold of the
    collected blocks returns what the accumulation of the specification
    returns, and returns exactly when it does. *)
Lemma accumulate_group_reduce (binop : Arr → Arr → result Arr) g
    (keys : list Coords) (l : list A) (d : gmap Coords Arr) :
  accumulate g (empty_nodes keys) l ≫= reduce_nodes binop keys = Ok d ↔
  group_reduce binop g keys l = Ok d.
Proof.
  unfold group_reduce.
  assert (Hreduce : ∀ nodes kvs,
            (∀ k, nodes !! k = (λ old, old ++ contributions kvs k)
                                 <$> empty_nodes keys !! k) →
            reduce_nodes binop keys nodes =
              dict_of <$> mapM (λ k, py_reduce binop (contributions kvs k)
                                       ≫= λ out, Ok (k, out)) keys).
  { intros nodes kvs Hlook. unfold reduce_nodes. f_equal. apply mapM_ext_in.
    intros k Hk. unfold getitem. rewrite Hlook, empty_nodes_lookup.
    by rewrite decide_True. }
  assert (Hkeys : ∀ kvs : list (Coords * Arr),
            Forall (λ kv, is_Some (empty_nodes (Arr:=Arr) keys !! kv.1)) kvs ↔
            Forall (λ kv, kv.1 ∈ keys) kvs).
  { intros kvs. apply Forall_iff. intros [k v]. simpl. rewrite empty_nodes_lookup.
    destruct (decide (k ∈ keys)); split; intros H; try done; try (by eexists); by destruct H. }
  split.
  - intros H. apply bind_Ok in H as (nodes & Hacc & Hred).
    apply accumulate_Ok in Hacc as (kvs & -> & Hin & Hlook). simpl.
    rewrite decide_True by (by apply Hkeys). by rewrite <- (Hreduce nodes).
  - intros H. apply bind_Ok in H as (kvs & Hkvs & H).
    destruct (decide (Forall (λ kv, kv.1 ∈ keys) kvs)) as [Hin|]; [|done].
    destruct (accumulate_is_Ok g (empty_nodes keys) l kvs Hkvs) as [nodes Hacc];
      [by apply Hkeys|].
    rewrite Hacc. simpl.
    apply accumulate_Ok in Hacc as (kvs' & Hkvs' & _ & Hlook).
    rewrite Hkvs in Hkvs'. injection Hkvs' as <-. by rewrite (Hreduce nodes kvs).
Qed.

(** The block of an output coordinate. *)
Lemma group_reduce_lookup (binop : Arr → Arr → result Arr) g
    (keys : list Coords) (l : list A) (d : gmap Coords Arr) :
  NoDup keys →
  group_reduce binop g keys l = Ok d →
  ∃ kvs, mapM g l = Ok kvs
    ∧ Forall (λ kv, kv.1 ∈ keys) kvs
    ∧ (∀ k, k ∈ keys → ∃ out, d !! k = Some out
                              ∧ py_reduce binop (contributions kvs k) = Ok out)
    ∧ (∀ k, is_Some (d !! k) → k ∈ keys).
Proof.
  intros Hnd H. unfold group_reduce in H. apply bind_Ok in H as (kvs & Hkvs & H).
  destruct (decide (Forall (λ kv, kv.1 ∈ keys) kvs)) as [Hin|]; [|done].
  exists kvs. split; [done|]. split; [done|].
  apply fmap_Ok in H as (outs & Houts & ->).
  assert (Hfold : foldM (λ d k, py_reduce binop (contributions kvs k)
                                  ≫= λ out, Ok (<[id k := out]> d)) ∅ keys
                  = Ok (dict_of outs)).
  { change (∅ : gmap Coords Arr) with (dict_of (V:=Arr) []).
    rewrite (foldM_insert_dict (λ k, py_reduce binop (contributions kvs k)) id).
    simpl. unfold id. by rewrite Houts. }
  apply foldM_insert_lookup in Hfold as [Hl Hr]; [|by rewrite list_fmap_id].
  split.
  - intros k Hk. destruct (Hl k Hk) as (out & Hout & Hd). by exists out.
  - intros k [out Hk]. by destruct (Hr k out Hk) as (k' & Hk' & -> & _).
Qed.

(** The contributions to an output coordinate are the blocks of the inputs
    that map to it. *)
Lemma contributions_filter (h : A → result Arr) (key : A → Coords)
    (l : list A) (kvs : list (Coords * Arr)) (k : Coords) :
  mapM (λ x, h x ≫= λ v, Ok (key x, v)) l = Ok kvs →
  mapM h (filter (λ x, key x = k) l) = Ok (contributions kvs k).
Proof.
  revert kvs. induction l as [|x l IH]; intros kvs Hkvs.
  - injection Hkvs as <-. done.
  - rewrite mapM_cons in Hkvs. apply bind_Ok in Hkvs as ([k' v] & Hg & Hkvs).
    apply bind_Ok in Hkvs as (kvs' & Hkvs' & [= <-]).
    apply bind_Ok in Hg as (v' & Hv' & [= <- <-]).
    rewrite filter_cons, contributions_cons.
    destruct (decide (key x = k)); [|by apply IH].
    rewrite mapM_cons, Hv', (IH _ Hkvs'). done.
Qed.

End Accumulate.

(** ** The reduction rule *)

Lemma Forall2_drop_at {A B} (P : A → B → Prop) (axes : list nat) (n : nat)
    (l : list A) (k : list B) :
  Forall2 P l k → Forall2 P (drop_at axes n l) (drop_at axes n k).
Proof.
  intros H. revert n. induction H as [|x y l k Hxy _ IH]; intros n; simpl; [done|].
  destruct (decide (n ∈ axes)); [apply IH | constructor; [done | apply IH]].
Qed.

Lemma without_axes_iter_leaf_coords (axes : list nat) (treedefs : list TreeDef)
    (c : Coords) :
  c ∈ _iter_leaf_coords treedefs →
  without_axes axes c ∈ _iter_leaf_coords (without_axes axes treedefs).
Proof.
  rewrite !elem_of_iter_leaf_coords, !without_axes_drop_at. apply Forall2_drop_at.
Qed.

Section Reducer.
Context {Arr DType : Type} `{!Kernels Arr DType}.
Abbreviation Leaves := (gmap Coords Arr).

Lemma reducer_tree_rule_accumulate (prim : Arr → list nat → result Arr)
    (binop : Arr → Arr → result Arr) (treedefs : list TreeDef)
    (leafshapes : LeafShapes) (leaves : Leaves) (axes : list nat) :
  reducer_tree_rule prim binop [treedefs] [leafshapes] [leaves] axes =
    (accumulate (λ c, reduced_leaf prim leafshapes leaves axes c
                        ≫= λ v, Ok (without_axes axes c, v))
                (empty_nodes (_iter_leaf_coords (without_axes axes treedefs)))
                (_iter_leaf_coords treedefs)
       ≫= reduce_nodes binop (_iter_leaf_coords (without_axes axes treedefs)))
    ≫= λ out_leaves,
         Ok (without_axes axes treedefs, without_axes axes leafshapes, out_leaves).
Proof.
  unfold reducer_tree_rule, accumulate. simpl.
  rewrite (foldM_ext_in _
             (λ nodes x, (reduced_leaf prim leafshapes leaves axes x
                            ≫= λ v, Ok (without_axes axes x, v))
                         ≫= λ kv, append_node nodes kv.1 kv.2)).
  - destruct (foldM _ _ _) as [nodes|e]; simpl; [|done].
    destruct (reduce_nodes _ _ _); done.
  - intros nodes c _. unfold reduced_leaf.
    destruct (_axes_for_leaf leafshapes c axes); simpl; [|done].
    destruct (getitem leaves c); simpl; [|done].
    destruct (prim _ _); done.
Qed.

End Reducer.

(** The comprehension over [enumerate] keeps the entries at the positions
    that are not reduced. *)
Lemma drop_at_remaining {A} (axes : list nat) (k : nat) (l : list A) :
  drop_at axes k l
  = omap (λ i, l !! (i - k)) (filter (λ i, i ∉ axes) (seq k (length l))).
Proof.
  revert k. induction l as [|x l IH]; intros k; [done|].
  cbn [drop_at length seq].
  assert (Hrest : omap (λ i, (x :: l) !! (i - k))
                       (filter (λ i, i ∉ axes) (seq (S k) (length l)))
                  = omap (λ i, l !! (i - S k))
                         (filter (λ i, i ∉ axes) (seq (S k) (length l)))).
  { apply list_omap_ext, Forall_Forall2_diag, Forall_forall.
    intros i [_ Hi%elem_of_seq]%list_elem_of_filter.
    by replace (i - k) with (S (i - S k)) by lia. }
  rewrite filter_cons. destruct (decide (k ∈ axes)) as [Hin|Hnin].
  - rewrite decide_False by tauto. by rewrite IH, Hrest.
  - rewrite decide_True by done. cbn [omap list_omap]. rewrite Nat.sub_diag.
    cbn [lookup list_lookup]. by rewrite IH, Hrest.
Qed.

Lemma without_axes_remaining {A} (axes : list nat) (l : list A) :
  without_axes axes l = remaining axes l.
Proof.
  rewrite without_axes_drop_at, drop_at_remaining. unfold remaining.
  apply list_omap_ext, Forall_Forall2_diag, Forall_forall.
  intros i _. by rewrite Nat.sub_0_r.
Qed.

(** C4: the reduction rule returns the descriptors and layouts of the axes
    that are not reduced and, for every output coordinate, the fold with
    the binary combiner of the partially reduced blocks of the input
    coordinates that give it once the indices at the reduced axes are
    dropped, in the order of the iteration; each partially reduced block
    is the kernel applied to the input block and to the physical
    dimensions of the reduced axes in it.  The rule returns exactly when
    all these kernel calls and folds do.  For the container
    [{'x': 1.0, 'y': [2.0], 'z': [[3.0, 4.0]]}], with array leaves or with
    nested lists, the sum over the axis is [10.0] and the max is [4.0].
    For a value with two axes of two blocks each, the sum over one axis
    keeps the index along the other axis: the blocks [(0, j)] and [(1, j)]
    go to the output block [(j,)] when axis 0 is reduced, the blocks
    [(i, 0)] and [(i, 1)] to [(i,)] when axis 1 is. *)
Theorem reducer_tree_rule_correct :
  (∀ (Arr DType : Type) (K : Kernels Arr DType)
     (prim : Arr → list nat → result Arr) (binop : Arr → Arr → result Arr)
     treedefs leafshapes (leaves : gmap Coords Arr) axes,
     let out_treedefs := remaining axes treedefs in
     let partial := reduced_leaf prim leafshapes leaves axes in
     (∀ state,
        reducer_tree_rule prim binop [treedefs] [leafshapes] [leaves] axes = Ok state ↔
        ∃ out_leaves,
          state = (out_treedefs, remaining axes leafshapes, out_leaves)
          ∧ group_reduce binop (λ c, partial c ≫= λ v, Ok (remaining axes c, v))
              (_iter_leaf_coords out_treedefs) (_iter_leaf_coords treedefs)
            = Ok out_leaves)
     ∧ (∀ out_leaves,
          group_reduce binop (λ c, partial c ≫= λ v, Ok (remaining axes c, v))
            (_iter_leaf_coords out_treedefs) (_iter_leaf_coords treedefs)
          = Ok out_leaves →
          (∀ out_coords, out_coords ∈ _iter_leaf_coords out_treedefs →
             ∃ blocks out,
               Forall2 (λ in_coords block,
                          ∃ leaf leaf_axes,
                            leaves !! in_coords = Some leaf
                            ∧ _axes_for_leaf leafshapes in_coords axes = Ok leaf_axes
                            ∧ prim leaf leaf_axes = Ok block)
                       (filter (λ c, remaining axes c = out_coords)
                               (_iter_leaf_coords treedefs))
                       blocks
               ∧ py_reduce binop blocks = Ok out
               ∧ out_leaves !! out_coords = Some out)
          ∧ (∀ out_coords, is_Some (out_leaves !! out_coords) →
               out_coords ∈ _iter_leaf_coords out_treedefs))
     ∧ (∀ c, c ∈ _iter_leaf_coords treedefs →
             remaining axes c ∈ _iter_leaf_coords out_treedefs))
  ∧ (∀ tree, tree = Examples.tree_xyz ∨ tree = Examples.tree_xyz_lists →
       ∃ treedefs leafshapes (leaves : gmap Coords Ref.ndarray),
         convert_vectorized_tree tree = Ok ([treedefs], [leafshapes], leaves)
         ∧ reducer_tree_rule Ref.reduce_sum_p Ref.add_p [[treedefs]] [[leafshapes]]
             [leaves] [0] = Ok ([], [], {[ [] := Ref.scalar 10 ]})
         ∧ reducer_tree_rule Ref.reduce_max_p Ref.max_p [[treedefs]] [[leafshapes]]
             [leaves] [0] = Ok ([], [], {[ [] := Ref.scalar 4 ]}))
  ∧ (let treedefs := [Examples.treedef_ab; Examples.treedef_cd] in
     let leafshapes := [[[2]; [1]]; [[3]; [1]]] in
     let leaves : gmap Coords Ref.ndarray :=
       {[ [0; 0] := Examples.full [2; 3] 1; [0; 1] := Examples.full [2; 1] 2;
          [1; 0] := Examples.full [1; 3] 3; [1; 1] := Examples.full [1; 1] 4 ]} in
     remaining [0] [0; 1] = [1] ∧ remaining [0] [1; 0] = [0]
     ∧ remaining [1] [0; 1] = [0] ∧ remaining [1] [1; 0] = [1]
     ∧ remaining [0; 1] [1; 0] = []
     ∧ reducer_tree_rule Ref.reduce_sum_p Ref.add_p [treedefs] [leafshapes] [leaves] [0]
       = Ok ([Examples.treedef_cd], [[[3]; [1]]],
             {[ [0] := Examples.full [3] 5; [1] := Examples.full [1] 8 ]})
     ∧ reducer_tree_rule Ref.reduce_sum_p Ref.add_p [treedefs] [leafshapes] [leaves] [1]
       = Ok ([Examples.treedef_ab], [[[2]; [1]]],
             {[ [0] := Examples.full [2] 5; [1] := Examples.full [1] 13 ]})
     ∧ reducer_tree_rule Ref.reduce_sum_p Ref.add_p [treedefs] [leafshapes] [leaves] [0; 1]
       = Ok ([], [], {[ [] := Ref.scalar 23 ]})).
Proof.
  split; [|split].
  - intros Arr DType K prim binop tds ls lv axes otd partial. subst otd partial.
    assert (Hg : group_reduce binop
                   (λ c, reduced_leaf prim ls lv axes c ≫= λ v, Ok (remaining axes c, v))
                   (_iter_leaf_coords (remaining axes tds)) (_iter_leaf_coords tds)
                 = group_reduce binop
                     (λ c, reduced_leaf prim ls lv axes c
                             ≫= λ v, Ok (without_axes axes c, v))
                     (_iter_leaf_coords (without_axes axes tds)) (_iter_leaf_coords tds)).
    { rewrite <- without_axes_remaining. unfold group_reduce.
      rewrite (mapM_ext_in
                 (λ c, reduced_leaf prim ls lv axes c ≫= λ v, Ok (remaining axes c, v))
                 (λ c, reduced_leaf prim ls lv axes c
                         ≫= λ v, Ok (without_axes axes c, v))); [done|].
      intros c _. by rewrite without_axes_remaining. }
    rewrite Hg. rewrite <- !without_axes_remaining.
    split; [|split].
    + intros state. rewrite reducer_tree_rule_accumulate. split.
      * intros H. apply bind_Ok in H as (olv & Hacc & [= <-]).
        exists olv. split; [done|]. by apply accumulate_group_reduce.
      * intros (olv & -> & Hgr). apply accumulate_group_reduce in Hgr.
        by rewrite Hgr.
    + intros olv Hgr.
      apply group_reduce_lookup in Hgr as (kvs & Hkvs & _ & Hl & Hr);
        [|apply NoDup_iter_leaf_coords].
      split; [|done]. intros oc Hoc. destruct (Hl oc Hoc) as (out & Hout & Hred).
      exists (contributions kvs oc), out. split; [|done].
      rewrite (list_filter_iff _ (λ c, without_axes axes c = oc))
        by (intros c; by rewrite without_axes_remaining).
      pose proof (contributions_filter (reduced_leaf prim ls lv axes)
                    (without_axes axes) _ _ oc Hkvs) as Hblocks.
      apply mapM_Ok in Hblocks. eapply Forall2_impl; [exact Hblocks|].
      intros c block Hc. unfold reduced_leaf in Hc.
      apply bind_Ok in Hc as (leaf_axes & Haxes & Hc).
      apply bind_Ok in Hc as (leaf & Hleaf%getitem_Ok & Hprim).
      by exists leaf, leaf_axes.
    + intros c Hc. rewrite <- without_axes_remaining.
      by apply without_axes_iter_leaf_coords.
  - intros tree [-> | ->]; eexists _, _, _;
      (split; [vm_compute; reflexivity|]);
      (split; vm_compute; reflexivity).
  - intros tds ls lv. split_and!; vm_compute; reflexivity.
Qed.

(** The sum over axis 0 of a value with two axes of two blocks each: the
    blocks [(0, 1)] and [(1, 1)], each reduced to [[4.0]], go to the output
    coordinate [(1,)] and add up to [[8.0]]. *)
Lemma reducer_tree_rule_correct_witness :
  let treedefs := [Examples.treedef_ab; Examples.treedef_cd] in
  let leafshapes := [[[2]; [1]]; [[3]; [1]]] in
  let leaves : gmap Coords Ref.ndarray :=
    {[ [0; 0] := Examples.full [2; 3] 1; [0; 1] := Examples.full [2; 1] 2;
       [1; 0] := Examples.full [1; 3] 3; [1; 1] := Examples.full [1; 1] 4 ]} in
  let out_leaves : gmap Coords Ref.ndarray :=
    {[ [0] := Examples.full [3] 5; [1] := Examples.full [1] 8 ]} in
  reducer_tree_rule Ref.reduce_sum_p Ref.add_p [treedefs] [leafshapes] [leaves] [0]
  = Ok ([Examples.treedef_cd], [[[3]; [1]]], out_leaves)
  ∧ (∃ blocks out,
       Forall2 (λ in_coords block,
                  ∃ leaf leaf_axes,
                    leaves !! in_coords = Some leaf
                    ∧ _axes_for_leaf leafshapes in_coords [0] = Ok leaf_axes
                    ∧ Ref.reduce_sum_p leaf leaf_axes = Ok block)
               [[0; 1]; [1; 1]] blocks
       ∧ py_reduce Ref.add_p blocks = Ok out
       ∧ out_leaves !! [1] = Some out)
  ∧ remaining [0] [1; 1] ∈ _iter_leaf_coords (remaining [0] treedefs).
Proof.
  intros treedefs leafshapes leaves out_leaves.
  destruct (proj1 reducer_tree_rule_correct Ref.ndarray Ref.dtype Ref.kernels
              Ref.reduce_sum_p Ref.add_p treedefs leafshapes leaves [0])
    as (Hrule & Hblocks & Hcoords).
  assert (Hgroup : group_reduce Ref.add_p
            (λ c, reduced_leaf Ref.reduce_sum_p leafshapes leaves [0] c
                    ≫= λ v, Ok (remaining [0] c, v))
            (_iter_leaf_coords (remaining [0] treedefs))
            (_iter_leaf_coords treedefs)
          = Ok out_leaves) by (vm_compute; reflexivity).
  split; [|split].
  - apply Hrule. eexists. split; [reflexivity | exact Hgroup].
  - apply (proj1 (Hblocks _ Hgroup) [1]). vm_compute. right. by left.
  - apply Hcoords. vm_compute. do 3 right. by left.
Defined.

(** ** The [dot_general] rule *)

Section Dot_general.
Context {Arr DType : Type} `{!Kernels Arr DType}.
Abbreviation Leaves := (gmap Coords Arr).

Lemma dot_general_tree_rule_accumulate (lt rt : list TreeDef) (ls rs : LeafShapes)
    (ll rl : Leaves) (lc rc batch : list nat) :
  let lrem := filter (λ i, i ∉ lc ++ batch) (range (length lt)) in
  let rrem := filter (λ i, i ∉ rc ++ batch) (range (length rt)) in
  dot_general_tree_rule [lt; rt] [ls; rs] [ll; rl] ((lc, rc), (batch, batch)) =
    dot_general_check lt rt ls rs batch lc rc ≫= λ _,
    mapM (index lt) (batch ++ lrem) ≫= λ otd_l,
    mapM (index rt) rrem ≫= λ otd_r,
    mapM (index ls) (batch ++ lrem) ≫= λ ols_l,
    mapM (index rs) rrem ≫= λ ols_r,
    (accumulate (dot_general_pair ls rs ll rl lc rc batch lrem rrem)
                (empty_nodes (_iter_leaf_coords (otd_l ++ otd_r)))
                (lhs_coords ← _iter_leaf_coords lt;
                 rhs_nonbatch_coords ← _iter_leaf_coords otd_r;
                 [(lhs_coords, rhs_nonbatch_coords)])
       ≫= reduce_nodes operator_add (_iter_leaf_coords (otd_l ++ otd_r)))
    ≫= λ out_leaves, Ok (otd_l ++ otd_r, ols_l ++ ols_r, out_leaves).
Proof.
  intros lrem rrem. unfold dot_general_tree_rule.
  assert (Hset : pyset [batch; batch] = [batch]).
  { unfold pyset. simpl. destruct (decide_rel elem_of batch [batch]) as [|Hn]; [done|].
    exfalso. apply Hn. by left. }
  rewrite Hset. simpl.
  destruct (dot_general_check lt rt ls rs batch lc rc) as [[]|e]; simpl; [|done].
  fold lrem rrem.
  destruct (mapM (index lt) (batch ++ lrem)) as [otd_l|e]; simpl; [|done].
  destruct (mapM (index rt) rrem) as [otd_r|e]; simpl; [|done].
  destruct (mapM (index ls) (batch ++ lrem)) as [ols_l|e]; simpl; [|done].
  destruct (mapM (index rs) rrem) as [ols_r|e]; simpl; [|done].
  unfold accumulate.
  rewrite (foldM_ext_in _
             (λ nodes x, dot_general_pair ls rs ll rl lc rc batch lrem rrem x
                         ≫= λ kv, append_node nodes kv.1 kv.2)).
  - destruct (foldM _ _ _) as [nodes|e]; simpl; [|done].
    destruct (reduce_nodes _ _ _); done.
  - intros nodes [lhs_coords rnb] _. unfold dot_general_pair. simpl.
    destruct (dot_general_coords _ _ _ _ _ _ _) as [[rhs_coords oc]|e]; simpl; [|done].
    destruct (dot_general_leaf _ _ _ _ _ _ _ _ _); done.
Qed.

(** The output coordinate of a pair of input coordinates. *)
Lemma dot_general_pair_Ok (ls rs : LeafShapes) (ll rl : Leaves)
    (lc rc batch lrem rrem : list nat) (lhs_coords rhs_nonbatch_coords oc : Coords)
    (v : Arr) :
  dot_general_pair ls rs ll rl lc rc batch lrem rrem (lhs_coords, rhs_nonbatch_coords)
    = Ok (oc, v) →
  ∃ rhs_coords out_l out_r,
    mapM (index lhs_coords) (batch ++ lrem) = Ok out_l
    ∧ mapM (index rhs_coords) rrem = Ok out_r
    ∧ oc = out_l ++ out_r
    ∧ dot_general_leaf ls rs ll rl lc rc batch lhs_coords rhs_coords = Ok v.
Proof.
  unfold dot_general_pair. simpl. intros H.
  apply bind_Ok in H as ([rhs_coords oc'] & Hcoords & H).
  apply bind_Ok in H as (v' & Hleaf & [= <- <-]).
  unfold dot_general_coords in Hcoords.
  apply bind_Ok in Hcoords as (rhs_only & _ & Hcoords).
  apply bind_Ok in Hcoords as (out_l & Hl & Hcoords).
  apply bind_Ok in Hcoords as (out_r & Hr & [= <- <-]).
  by exists (take (length batch) lhs_coords ++ rhs_only), out_l, out_r.
Qed.

End Dot_general.

(** C5 (the code at a batched product): with a batch axis the rule inserts
    the contracting index of the left operand into the coordinates of the
    right operand at the position [rhs_axis], counted with the batch axes,
    in a list that does not hold the batch indices.  For the dimension
    numbers [(((2,), (1,)), ((0,), (0,)))] of a batched matrix product the
    block of the right operand that is read for the left coordinates
    [(b, m, k)] and the remaining index [n] is [(b, n, k)], not
    [(b, k, n)], and the kernel result goes to the output coordinate
    [(b, m, k)], not [(b, m, n)].  For the left operand [[[1, 2]]] (one
    block per column) and the right operand [[[1, 2], [3, 4]]] (one block
    per entry), both well formed, the rule returns the blocks [4] and [12]:
    the sums over the right remaining index.  The sums over the contracting
    index of the kernel results, which is also what the kernel returns for
    the two arrays, are [7] and [10].  Without a batch axis the insertion
    is in place: the dot product of the tracer of
    [{'x': 1.0, 'y': [2.0], 'z': [[3.0, 4.0]]}] with itself is [30.0]. *)
Theorem dot_general_tree_rule_batch_offset :
  let lhs_treedefs := [TRIVIAL_TREEDEF; TRIVIAL_TREEDEF; Examples.treedef_ab] in
  let rhs_treedefs := [TRIVIAL_TREEDEF; Examples.treedef_ab; Examples.treedef_cd] in
  let lhs_leafshapes : LeafShapes := [[[1]]; [[1]]; [[1]; [1]]] in
  let rhs_leafshapes : LeafShapes := [[[1]]; [[1]; [1]]; [[1]; [1]]] in
  let block := Examples.full [1; 1; 1] in
  let lhs_leaves : gmap Coords Ref.ndarray :=
    {[ [0; 0; 0] := block 1%Q; [0; 0; 1] := block 2%Q ]} in
  let rhs_leaves : gmap Coords Ref.ndarray :=
    {[ [0; 0; 0] := block 1%Q; [0; 0; 1] := block 2%Q;
       [0; 1; 0] := block 3%Q; [0; 1; 1] := block 4%Q ]} in
  let dimension_numbers := (([2], [1]), ([0], [0])) in
  is_Ok (TreeTracer_init lhs_treedefs lhs_leafshapes lhs_leaves)
  ∧ is_Ok (TreeTracer_init rhs_treedefs rhs_leafshapes rhs_leaves)
  ∧ (∀ b m k n,
       dot_general_coords [2] [1] [0] [1] [2] [b; m; k] [n]
       = Ok ([b; n; k], [b; m; k]))
  ∧ dot_general_tree_rule [lhs_treedefs; rhs_treedefs] [lhs_leafshapes; rhs_leafshapes]
      [lhs_leaves; rhs_leaves] dimension_numbers
    = Ok ([TRIVIAL_TREEDEF; TRIVIAL_TREEDEF; Examples.treedef_cd],
          [[[1]]; [[1]]; [[1]; [1]]],
          {[ [0; 0; 0] := block 4%Q; [0; 0; 1] := block 12%Q ]})
  ∧ (x ← lax_dot_general (block 1%Q) (block 1%Q) dimension_numbers;
     y ← lax_dot_general (block 2%Q) (block 3%Q) dimension_numbers;
     operator_add x y) = Ok (block 7%Q)
  ∧ (x ← lax_dot_general (block 1%Q) (block 2%Q) dimension_numbers;
     y ← lax_dot_general (block 2%Q) (block 4%Q) dimension_numbers;
     operator_add x y) = Ok (block 10%Q)
  ∧ lax_dot_general (Ref.NDArray Ref.float32 [1; 1; 2] [1%Q; 2%Q])
      (Ref.NDArray Ref.float32 [1; 2; 2] [1%Q; 2%Q; 3%Q; 4%Q]) dimension_numbers
    = Ok (Ref.NDArray Ref.float32 [1; 1; 2] [7%Q; 10%Q])
  ∧ (∃ treedefs leafshapes (leaves : gmap Coords Ref.ndarray),
       convert_vectorized_tree Examples.tree_xyz = Ok ([treedefs], [leafshapes], leaves)
       ∧ dot_general_tree_rule [[treedefs]; [treedefs]] [[leafshapes]; [leafshapes]]
           [leaves; leaves] (([0], [0]), ([], []))
         = Ok ([], [], {[ [] := Ref.scalar 30 ]})).
Proof.
  intros lhs_treedefs rhs_treedefs lhs_leafshapes rhs_leafshapes block
    lhs_leaves rhs_leaves dimension_numbers.
  split_and!.
  - eexists. vm_compute. reflexivity.
  - eexists. vm_compute. reflexivity.
  - intros b m k n. reflexivity.
  - vm_compute. reflexivity.
  - vm_compute. reflexivity.
  - vm_compute. reflexivity.
  - vm_compute. reflexivity.
  - eexists _, _, _. split; vm_compute; reflexivity.
Qed.

(** * Further properties

    Properties of the functions of the module beyond those above: the axis
    utilities, the tracer's methods, the conversion boundary and the
    rules. *)

(** ** The enumeration of block coordinates *)

Lemma length_product (rs : list (list nat)) :
  length (product rs) = prod (length <$> rs).
Proof.
  unfold prod. induction rs as [|r rs IH]; [done|].
  rewrite fmap_cons. cbn [product foldr]. rewrite <- IH. clear IH. induction r as [|x r IHr]; [done|].
  rewrite bind_cons, length_app, length_fmap, IHr. done.
Qed.

Lemma StronglySorted_seq (k n : nat) : StronglySorted lt (seq k n).
Proof.
  revert k. induction n as [|n IH]; intros k; simpl; constructor; [apply IH|].
  apply Forall_forall. intros x Hx. apply elem_of_seq in Hx. lia.
Qed.

Lemma StronglySorted_product (rs : list (list nat)) :
  Forall (StronglySorted lt) rs → StronglySorted coords_lt (product rs).
Proof.
  induction 1 as [|r rs Hr _ IH]; simpl.
  { repeat constructor. }
  induction Hr as [|x r Hr IHr Hx]; simpl; [constructor|].
  apply StronglySorted_app_2.
  - intros c1 c2 Hc1 Hc2. apply list_elem_of_fmap in Hc1 as (d1 & -> & _).
    apply list_elem_of_bind in Hc2 as (y & Hc2 & Hy).
    apply list_elem_of_fmap in Hc2 as (d2 & -> & _).
    simpl. left. rewrite Forall_forall in Hx. by apply Hx.
  - apply StronglySorted_fmap with (R1 := coords_lt); [|exact IH].
    intros c1 c2 Hc. simpl. by right.
  - exact IHr.
Qed.

(** X1.  [_iter_leaf_coords] enumerates the block coordinates of the axes
    [treedefs]: exactly the tuples with one index per axis, each below the
    number of leaves of the descriptor of its axis; there are as many as the
    product of the numbers of leaves, and they come in strictly increasing
    lexicographic order (the last axis varies fastest), so without
    repetition. *)
Theorem iter_leaf_coords_enumeration (treedefs : list TreeDef) :
  (∀ c, c ∈ _iter_leaf_coords treedefs ↔
        length c = length treedefs
        ∧ ∀ axis x treedef, c !! axis = Some x → treedefs !! axis = Some treedef →
                            x < num_leaves treedef)
  ∧ length (_iter_leaf_coords treedefs) = prod (num_leaves <$> treedefs)
  ∧ StronglySorted coords_lt (_iter_leaf_coords treedefs)
  ∧ NoDup (_iter_leaf_coords treedefs).
Proof.
  split_and!.
  - intros c. rewrite elem_of_iter_leaf_coords, Forall2_lookup. split.
    + intros Hc. split.
      * apply Nat.le_antisymm; apply Nat.nlt_ge; intros Hlt.
        -- destruct (lookup_lt_is_Some_2 c (length treedefs) Hlt) as [x Hx].
           specialize (Hc (length treedefs)). rewrite Hx in Hc.
           rewrite (lookup_ge_None_2 treedefs) in Hc by lia. inversion Hc.
        -- destruct (lookup_lt_is_Some_2 treedefs (length c) Hlt) as [x Hx].
           specialize (Hc (length c)). rewrite Hx in Hc.
           rewrite (lookup_ge_None_2 c) in Hc by lia. inversion Hc.
      * intros axis x td Hx Htd. specialize (Hc axis). rewrite Hx, Htd in Hc.
        by inversion Hc.
    + intros [Hlen Hc] i. destruct (c !! i) as [x|] eqn:Hx.
      * destruct (lookup_lt_is_Some_2 treedefs i) as [td Htd].
        { rewrite <- Hlen. by eapply lookup_lt_Some. }
        rewrite Htd. constructor. by eapply Hc.
      * rewrite (lookup_ge_None_2 treedefs); [constructor|].
        rewrite <- Hlen. by apply lookup_ge_None.
  - unfold _iter_leaf_coords. rewrite length_product. f_equal.
    rewrite <- list_fmap_compose. apply list_fmap_ext. intros i td _. simpl.
    unfold range. by rewrite length_seq.
  - apply StronglySorted_product. apply Forall_fmap, Forall_forall. intros td _.
    apply StronglySorted_seq.
  - apply NoDup_iter_leaf_coords.
Qed.

(** ** The dimensions of a block *)

Lemma selected_shape_snoc (segs : list (list nat)) (s : list nat) (axes : list nat) :
  selected_shape (segs ++ [s]) axes =
    selected_shape segs axes ++ (if decide (length segs ∈ axes) then s else []).
Proof.
  unfold selected_shape. rewrite imap_app, concat_app. simpl.
  by rewrite Nat.add_0_r, app_nil_r.
Qed.

Lemma mapM_index_seq_app {A} (l1 l2 : list A) :
  mapM (index (l1 ++ l2)) (seq (length l1) (length l2)) = Ok l2.
Proof.
  apply mapM_Ok. apply Forall2_same_length_lookup_2.
  { by rewrite length_seq. }
  intros i d y Hd Hy. apply lookup_seq in Hd as [-> _].
  apply index_Ok. by rewrite lookup_app_r, Nat.add_comm, Nat.add_sub by lia.
Qed.

Lemma mapM_Err {A B} (f : A → result B) (l : list A) (e : error) :
  mapM f l = Err e → ∃ x, x ∈ l ∧ f x = Err e.
Proof.
  induction l as [|x l IH]; [done|]. rewrite mapM_cons.
  destruct (f x) as [y|e'] eqn:Hx; simpl.
  - destruct (mapM f l) as [k|e']; simpl; [done|]. intros [= ->].
    destruct IH as (x' & Hin & Hx'); [done|]. exists x'. split; [by right|done].
  - intros [= ->]. exists x. split; [by left|done].
Qed.

Lemma is_Ok_Ok {A} (a : A) : is_Ok (Ok a).
Proof. by exists a. Qed.

Lemma not_is_Ok_Err {A} (e : error) : ¬ is_Ok (@Err A e).
Proof. by intros [a Ha]. Qed.

(** The dimensions listed by [leaf_axes] are increasing, lie inside the
    block and carry the sizes of the selected segments. *)
Lemma leaf_axes_spec (segs : list (list nat)) (axes : list nat) :
  StronglySorted lt (leaf_axes segs axes)
  ∧ Forall (λ d, d < length (concat segs)) (leaf_axes segs axes)
  ∧ mapM (index (concat segs)) (leaf_axes segs axes) = Ok (selected_shape segs axes).
Proof.
  induction segs as [|s segs (IH1 & IH2 & IH3)] using rev_ind.
  { split_and!; [constructor|constructor|done]. }
  rewrite leaf_axes_snoc, selected_shape_snoc, concat_app. simpl. rewrite app_nil_r.
  split_and!.
  - apply StronglySorted_app_2; [|done|].
    + intros d1 d2 Hd1 Hd2. rewrite Forall_forall in IH2. apply IH2 in Hd1.
      case_decide; [|by apply elem_of_nil in Hd2]. apply elem_of_seq in Hd2. lia.
    + case_decide; [apply StronglySorted_seq|constructor].
  - apply Forall_app. split.
    + eapply Forall_impl; [exact IH2|]. intros d Hd. simpl in Hd. rewrite length_app. lia.
    + case_decide; [|constructor]. apply Forall_forall. intros d Hd.
      apply elem_of_seq in Hd. rewrite length_app. lia.
  - rewrite mapM_app.
    rewrite (mapM_ext_in _ (index (concat segs)) (leaf_axes segs axes)).
    2:{ intros d Hd. rewrite Forall_forall in IH2. apply IH2 in Hd.
        unfold index. by rewrite lookup_app_l. }
    rewrite IH3. simpl. case_decide; simpl.
    + by rewrite mapM_index_seq_app.
    + done.
Qed.

Lemma leaf_axes_all (segs : list (list nat)) (axes : list nat) :
  (∀ k, k < length segs → k ∈ axes) →
  leaf_axes segs axes = seq 0 (length (concat segs)).
Proof.
  induction segs as [|s segs IH] using rev_ind; intros Hall; [done|].
  rewrite leaf_axes_snoc, concat_app, length_app, seq_app. simpl.
  rewrite app_nil_r, IH.
  - rewrite decide_True; [done|]. apply Hall. rewrite length_app. simpl. lia.
  - intros k Hk. apply Hall. rewrite length_app. lia.
Qed.

Lemma leaf_axes_none (segs : list (list nat)) (axes : list nat) :
  (∀ k, k < length segs → k ∉ axes) → leaf_axes segs axes = [].
Proof.
  intros Hnone. unfold leaf_axes. apply concat_imap_nil. intros k s Hk.
  rewrite decide_False; [done|]. apply Hnone. by eapply lookup_lt_Some.
Qed.

Lemma segments_at_is_Ok (leafshapes : LeafShapes) (coords : Coords) :
  is_Ok (segments_at leafshapes coords) ↔
    ∀ axis x, coords !! axis = Some x →
              ∃ shapes, leafshapes !! axis = Some shapes ∧ x < length shapes.
Proof.
  split.
  - intros [segs Hsegs] axis x Hx. unfold segments_at in Hsegs.
    apply mapM_Ok in Hsegs.
    assert (Hin : enumerate coords !! axis = Some (axis, x)).
    { by rewrite enumerate_lookup, Hx. }
    destruct (Forall2_lookup_l _ _ _ _ _ Hsegs Hin) as (s & _ & Hs). simpl in Hs.
    apply bind_Ok in Hs as (shapes & Hshapes & Hs).
    apply index_Ok in Hshapes, Hs. exists shapes. split; [done|].
    by eapply lookup_lt_Some.
  - intros Hall. apply mapM_is_Ok. intros [axis x] Hin.
    apply elem_of_enumerate in Hin. destruct (Hall _ _ Hin) as (shapes & Hshapes & Hlt).
    destruct (lookup_lt_is_Some_2 shapes x Hlt) as [s Hs].
    exists s. apply bind_Ok. exists shapes. split; by apply index_Ok.
Qed.

(** X2.  [_leafshape] and [_axes_for_leaf] succeed exactly on the block
    coordinates that select an existing segment on each of their axes (they
    raise IndexError otherwise).  The dimensions that [_axes_for_leaf] lists
    for the logical axes [axes] are strictly increasing, they are dimensions
    of the block, and the block has there the sizes of the selected segments
    of these axes; they are all the dimensions of the block when [axes] has
    every axis, and none when it has no axis of the block. *)
Theorem axes_for_leaf_dimensions (leafshapes : LeafShapes) (coords : Coords)
    (axes : list nat) :
  (is_Ok (_leafshape leafshapes coords) ↔
     ∀ axis x, coords !! axis = Some x →
               ∃ shapes, leafshapes !! axis = Some shapes ∧ x < length shapes)
  ∧ (is_Ok (_axes_for_leaf leafshapes coords axes) ↔
       is_Ok (_leafshape leafshapes coords))
  ∧ (∀ e, _axes_for_leaf leafshapes coords axes = Err e → e = IndexError)
  ∧ (∀ shape dims,
       _leafshape leafshapes coords = Ok shape →
       _axes_for_leaf leafshapes coords axes = Ok dims →
       StronglySorted lt dims
       ∧ (∃ segs, segments_at leafshapes coords = Ok segs
                  ∧ shape = concat segs
                  ∧ mapM (index shape) dims = Ok (selected_shape segs axes))
       ∧ ((∀ axis, axis < length coords → axis ∈ axes) →
          dims = seq 0 (length shape))
       ∧ ((∀ axis, axis < length coords → axis ∉ axes) → dims = [])).
Proof.
  rewrite leafshape_segments, axes_for_leaf_segments. split_and!.
  - rewrite <- segments_at_is_Ok.
    destruct (segments_at leafshapes coords) as [segs|e]; simpl.
    + split; intros _; apply is_Ok_Ok.
    + split; intros H; by apply not_is_Ok_Err in H.
  - destruct (segments_at leafshapes coords) as [segs|e]; simpl.
    + split; intros _; apply is_Ok_Ok.
    + split; intros H; by apply not_is_Ok_Err in H.
  - intros e. destruct (segments_at leafshapes coords) as [segs|e'] eqn:Hsegs;
      simpl; [done|]. intros [= <-]. unfold segments_at in Hsegs.
    apply mapM_Err in Hsegs as ([i j] & _ & Hij). simpl in Hij.
    destruct (index leafshapes i) as [shapes|e1] eqn:E1; simpl in Hij.
    + unfold index in Hij. destruct (shapes !! j); congruence.
    + unfold index in E1. destruct (leafshapes !! i); congruence.
  - intros shape dims Hshape Hdims.
    destruct (segments_at leafshapes coords) as [segs|e] eqn:Hsegs; simpl in *; [|done].
    injection Hshape as <-. injection Hdims as <-.
    destruct (leaf_axes_spec segs axes) as (H1 & H2 & H3).
    pose proof (segments_at_length _ _ _ Hsegs) as Hlen.
    split_and!; [done|by exists segs|..].
    + intros Hall. apply leaf_axes_all. by rewrite Hlen.
    + intros Hnone. apply leaf_axes_none. by rewrite Hlen.
Qed.

Lemma axes_for_leaf_dimensions_witness :
  ∃ dims, _axes_for_leaf [[[]; [2]]; [[3]]; [[4; 5]; []]] [1; 0; 0] [0; 2] = Ok dims
    ∧ StronglySorted lt dims
    ∧ mapM (index [2; 3; 4; 5]) dims = Ok [2; 4; 5].
Proof.
  destruct (axes_for_leaf_dimensions [[[]; [2]]; [[3]]; [[4; 5]; []]] [1; 0; 0] [0; 2])
    as (_ & _ & _ & H).
  destruct (H [2; 3; 4; 5] [0; 2; 3] eq_refl eq_refl) as (H1 & (segs & Hsegs & _ & H2) & _).
  exists [0; 2; 3]. split; [reflexivity|]. split; [exact H1|].
  injection Hsegs as <-. exact H2.
Defined.

(** ** Restoring a container of any rank *)

Lemma unflatten_from_trees {A} (td s : TreeDef) (xs rest : list (PyTree A)) :
  length xs = num_leaves td →
  Forall (λ x, tree_structure x = s) xs →
  ∃ t, unflatten_from td (xs ++ rest) = Some (t, rest)
       ∧ tree_structure t = treedef_compose td s
       ∧ tree_leaves t = concat (tree_leaves <$> xs).
Proof.
  revert xs rest. induction td as [|k ch IH] using TreeDef_ind'; intros xs rest Hlen Hs.
  - destruct xs as [|x [|y xs]]; simpl in Hlen; try discriminate.
    exists x. simpl. rewrite app_nil_r. split_and!; [done| |done].
    by apply Forall_cons in Hs as [Hx _].
  - simpl in Hlen |- *.
    set (go := fix go (ch : list TreeDef) (xs : list (PyTree A))
               : option (list (PyTree A) * list (PyTree A)) :=
           match ch with
           | [] => Some ([], xs)
           | c :: ch =>
               match unflatten_from c xs with
               | Some (t, xs) =>
                   match go ch xs with
                   | Some (ts, xs) => Some (t :: ts, xs)
                   | None => None
                   end
               | None => None
               end
           end).
    assert (Hgo : ∃ ts, go ch (xs ++ rest) = Some (ts, rest)
                        ∧ map tree_structure ts = map (λ c, treedef_compose c s) ch
                        ∧ concat (map tree_leaves ts) = concat (tree_leaves <$> xs)).
    { clear k. revert xs Hlen Hs. induction IH as [|c ch Hc _ IHch]; intros xs Hlen Hs.
      - destruct xs; [|discriminate]. by exists [].
      - simpl in Hlen.
        destruct (Hc (take (num_leaves c) xs) (drop (num_leaves c) xs ++ rest))
          as (t & Ht & Hst & Hlv).
        { rewrite length_take. lia. }
        { by apply Forall_take. }
        destruct (IHch (drop (num_leaves c) xs)) as (ts & Hts & Hsts & Hlvs).
        { rewrite length_drop. lia. }
        { by apply Forall_drop. }
        exists (t :: ts). simpl.
        rewrite <- (take_drop (num_leaves c) xs) at 1.
        rewrite <- app_assoc, Ht, Hts. simpl.
        rewrite Hst, Hsts, Hlv, Hlvs, <- concat_app, <- fmap_app, take_drop. done. }
    destruct Hgo as (ts & Hts & Hsts & Hlvs). exists (PNode k ts).
    rewrite Hts. simpl. by rewrite Hsts, Hlvs.
Qed.

Lemma tree_unflatten_trees {A} (td s : TreeDef) (xs : list (PyTree A)) :
  length xs = num_leaves td →
  Forall (λ x, tree_structure x = s) xs →
  ∃ t, tree_unflatten td xs = Ok t
       ∧ tree_structure t = treedef_compose td s
       ∧ tree_leaves t = concat (tree_leaves <$> xs).
Proof.
  intros Hlen Hs.
  destruct (unflatten_from_trees td s xs [] Hlen Hs) as (t & Ht & Hst & Hlv).
  exists t. unfold tree_unflatten. rewrite app_nil_r in Ht. by rewrite Ht.
Qed.

Lemma product_snoc (rs : list (list nat)) (r : list nat) :
  product (rs ++ [r]) = c ← product rs; (λ i, c ++ [i]) <$> r.
Proof.
  induction rs as [|r0 rs IH].
  - simpl. rewrite app_nil_r. induction r as [|x r IHr]; [done|].
    rewrite bind_cons, fmap_cons, IHr. done.
  - simpl. rewrite IH. clear IH. induction r0 as [|x r0 IHr0]; [done|].
    rewrite !bind_cons, bind_app, IHr0. f_equal.
    generalize (product rs) as cs. intros cs. induction cs as [|c cs IHcs]; [done|].
    rewrite bind_cons, fmap_app, fmap_cons, bind_cons, IHcs. f_equal.
    rewrite <- list_fmap_compose. done.
Qed.

Lemma iter_leaf_coords_snoc (treedefs : list TreeDef) (treedef : TreeDef) :
  _iter_leaf_coords (treedefs ++ [treedef]) =
    c ← _iter_leaf_coords treedefs; (λ i, c ++ [i]) <$> range (num_leaves treedef).
Proof. unfold _iter_leaf_coords. rewrite map_app. exact (product_snoc _ _). Qed.

Lemma concat_fmap_bind {A B C} (f : B → list C) (g : A → list B) (l : list A) :
  concat (f <$> (l ≫= g)) = concat ((λ x, concat (f <$> g x)) <$> l).
Proof.
  induction l as [|x l IH]; [done|].
  rewrite bind_cons, fmap_app, concat_app, fmap_cons, IH. done.
Qed.
Lemma Forall2_structure_leaves {A I} (P : I → PyTree A → Prop) (h : I → list A)
    (s : TreeDef) (l : list I) (xs : list (PyTree A)) :
  Forall2 P l xs →
  (∀ i x, i ∈ l → P i x → tree_structure x = s ∧ tree_leaves x = h i) →
  Forall (λ x, tree_structure x = s) xs
  ∧ concat (tree_leaves <$> xs) = concat (h <$> l).
Proof.
  induction 1 as [|i x l xs Hix _ IH]; intros Hall; [done|].
  destruct (Hall i x) as [Hs Hl]; [by left|done|].
  destruct IH as [IH1 IH2]; [intros j y Hj; apply Hall; by right|].
  split; [by constructor|]. rewrite !fmap_cons. simpl. by rewrite Hl, IH2.
Qed.

Section Restore.
Context {Arr : Type}.

Lemma restore_loop_snoc (init : list TreeDef) (last : TreeDef)
    (lv : gmap Coords (PyTree Arr)) :
  restore_loop (reverse (init ++ [last])) lv =
    foldM (λ d c, (mapM (λ i, getitem lv (c ++ [i])) (range (num_leaves last))
                     ≫= tree_unflatten last) ≫= λ v, Ok (<[c := v]> d))
          ∅ (_iter_leaf_coords init)
    ≫= restore_loop (reverse init).
Proof.
  rewrite reverse_snoc. cbn [restore_loop]. rewrite reverse_involutive.
  f_equal. apply foldM_ext_in. intros d c _.
  destruct (mapM _ _) as [xs|e]; simpl; [|done].
  destruct (tree_unflatten last xs); done.
Qed.

Lemma restore_loop_spec (tds : list TreeDef) (lv : gmap Coords (PyTree Arr))
    (s : TreeDef) (f : Coords → list Arr) :
  (∀ c, c ∈ _iter_leaf_coords tds →
        ∃ t, lv !! c = Some t ∧ tree_structure t = s ∧ tree_leaves t = f c) →
  ∃ lv' t, restore_loop (reverse tds) lv = Ok lv' ∧ lv' !! [] = Some t
           ∧ tree_structure t = foldr treedef_compose s tds
           ∧ tree_leaves t = concat (f <$> _iter_leaf_coords tds).
Proof.
  revert lv s f. induction tds as [|last init IH] using rev_ind; intros lv s f Hblocks.
  { destruct (Hblocks []) as (t & Ht & Hs & Hl); [by left|].
    exists lv, t. simpl. rewrite app_nil_r. done. }
  rewrite restore_loop_snoc.
  set (n := num_leaves last).
  set (g := λ c, mapM (λ i, getitem lv (c ++ [i])) (range n) ≫= tree_unflatten last).
  set (f' := λ c, concat ((λ i, f (c ++ [i])) <$> range n)).
  assert (Hg : ∀ c, c ∈ _iter_leaf_coords init →
             ∃ t, g c = Ok t ∧ tree_structure t = treedef_compose last s
                  ∧ tree_leaves t = f' c).
  { intros c Hc.
    assert (Hin : ∀ i, i ∈ range n → c ++ [i] ∈ _iter_leaf_coords (init ++ [last])).
    { intros i Hi. rewrite iter_leaf_coords_snoc. apply list_elem_of_bind.
      exists c. split; [|done]. apply list_elem_of_fmap. by exists i. }
    destruct (mapM_is_Ok (λ i, getitem lv (c ++ [i])) (range n)) as [xs Hxs].
    { intros i Hi. destruct (Hblocks _ (Hin i Hi)) as (t & Ht & _).
      exists t. by apply getitem_Ok. }
    pose proof Hxs as Hxs'. apply mapM_Ok in Hxs'.
    destruct (Forall2_structure_leaves _ (λ i, f (c ++ [i])) s _ _ Hxs') as [Hs Hl].
    { intros i x Hi Hx. apply getitem_Ok in Hx.
      destruct (Hblocks _ (Hin i Hi)) as (t & Ht & Hst & Hlt). by simplify_eq. }
    destruct (tree_unflatten_trees last s xs) as (t & Ht & Hst & Hlt); [|done|].
    { apply Forall2_length in Hxs'. unfold range in Hxs'.
      rewrite length_seq in Hxs'. done. }
    exists t. unfold g. rewrite Hxs. simpl. rewrite Ht. split_and!; [done..|].
    by rewrite Hlt, Hl. }
  destruct (foldM_insert_is_Ok g id (_iter_leaf_coords init) (∅ : gmap Coords (PyTree Arr)))
    as [lv1 Hlv1].
  { intros c Hc. destruct (Hg c Hc) as (t & Ht & _). by exists t. }
  unfold id in Hlv1. pose proof Hlv1 as Hlv1'. unfold g in Hlv1'. cbv beta in Hlv1'.
  rewrite Hlv1'. simpl.
  destruct (foldM_insert_lookup g id (_iter_leaf_coords init) lv1) as [Hl1 _].
  { rewrite list_fmap_id. apply NoDup_iter_leaf_coords. }
  { exact Hlv1. }
  destruct (IH lv1 (treedef_compose last s) f') as (lv' & t & Hlv' & Ht & Hst & Hlt).
  { intros c Hc. destruct (Hl1 c Hc) as (v & Hv & Hlook).
    destruct (Hg c Hc) as (t & Ht & Hst & Hlt). exists t.
    rewrite Ht in Hv. injection Hv as <-. done. }
  exists lv', t. split_and!; [done|done|..].
  - by rewrite foldr_app.
  - rewrite Hlt, iter_leaf_coords_snoc, concat_fmap_bind.
    f_equal. apply list_fmap_ext. intros i c _. unfold f'.
    by rewrite <- list_fmap_compose.
Qed.

End Restore.
Lemma mapM_not_Ok {A B} (f : A → result B) (l : list A) (x : A) :
  x ∈ l → ¬ is_Ok (f x) → ∃ e, mapM f l = Err e.
Proof.
  intros Hx Hf. destruct (mapM f l) as [k|e] eqn:Hk; [|by exists e].
  apply mapM_Ok in Hk. apply list_elem_of_lookup in Hx as [i Hi].
  destruct (Forall2_lookup_l _ _ _ _ _ Hk Hi) as (y & _ & Hy).
  destruct Hf. by exists y.
Qed.

Section Restore_tree.
Context {Arr DType : Type} `{!Kernels Arr DType}.

Lemma mapM_getitem_blocks (leaves : gmap Coords Arr) (l : list Coords) :
  (∀ c, c ∈ l → is_Some (leaves !! c)) →
  mapM (getitem leaves) l
    = Ok (concat ((λ c, match leaves !! c with Some x => [x] | None => [] end) <$> l)).
Proof.
  induction l as [|c l IH]; intros Hall; [done|].
  rewrite mapM_cons, IH by (intros c' Hc'; apply Hall; by right).
  destruct (Hall c) as [x Hx]; [by left|].
  unfold getitem at 1. rewrite fmap_cons. simpl. by rewrite Hx.
Qed.

Lemma restore_tree_present (treedefs : list TreeDef) (leaves : gmap Coords Arr) :
  (∀ coords, coords ∈ _iter_leaf_coords treedefs → is_Some (leaves !! coords)) →
  ∃ tree blocks,
    restore_tree treedefs leaves = Ok tree
    ∧ tree_structure tree = nested_treedef treedefs
    ∧ mapM (getitem leaves) (_iter_leaf_coords treedefs) = Ok blocks
    ∧ tree_leaves tree = blocks.
Proof.
  intros Hall.
  destruct (restore_loop_spec treedefs (PLeaf <$> leaves) TLeaf
              (λ c, match leaves !! c with Some x => [x] | None => [] end))
    as (lv' & t & Hlv' & Ht & Hst & Hlt).
  { intros c Hc. destruct (Hall c Hc) as [x Hx]. exists (PLeaf x).
    rewrite lookup_fmap, Hx. done. }
  exists t, (concat ((λ c, match leaves !! c with Some x => [x] | None => [] end)
                       <$> _iter_leaf_coords treedefs)).
  split_and!; [|done|by apply mapM_getitem_blocks|done].
  unfold restore_tree. rewrite Hlv'. simpl. by apply getitem_Ok.
Qed.

(** X3.  [restore_tree] on the axes [treedefs]: when every block of the
    iteration space is present, the result is the container whose shape is
    the nesting of the descriptors of the axes (the first axis outermost)
    and whose leaves are the blocks in the order of their coordinates; when
    a block of the iteration space is missing, it raises KeyError. *)
Theorem restore_tree_nested (treedefs : list TreeDef) (leaves : gmap Coords Arr) :
  ((∀ coords, coords ∈ _iter_leaf_coords treedefs → is_Some (leaves !! coords)) →
   ∃ tree blocks,
     restore_tree treedefs leaves = Ok tree
     ∧ tree_structure tree = nested_treedef treedefs
     ∧ mapM (getitem leaves) (_iter_leaf_coords treedefs) = Ok blocks
     ∧ tree_leaves tree = blocks)
  ∧ ((∃ coords, coords ∈ _iter_leaf_coords treedefs ∧ leaves !! coords = None) →
     restore_tree treedefs leaves = Err KeyError).
Proof.
  split; [apply restore_tree_present|].
  - intros (c & Hc & Hnone). unfold restore_tree.
    destruct treedefs as [|last init _] using rev_ind.
    { apply list_elem_of_singleton in Hc as ->. simpl.
      unfold getitem. by rewrite lookup_fmap, Hnone. }
    rewrite restore_loop_snoc.
    set (n := num_leaves last).
    set (g := λ c, mapM (λ i, getitem (PLeaf <$> leaves) (c ++ [i])) (range n)
                     ≫= tree_unflatten last).
    assert (Hg : ∀ c, is_Ok (g c) ∨ g c = Err KeyError).
    { intros c0. unfold g.
      destruct (mapM _ (range n)) as [xs|e] eqn:Hxs; simpl.
      - left. apply mapM_Ok in Hxs.
        destruct (tree_unflatten_trees last TLeaf xs) as (t & Ht & _).
        + apply Forall2_length in Hxs. unfold range in Hxs.
          by rewrite length_seq in Hxs.
        + apply Forall_forall. intros x Hx.
          apply list_elem_of_lookup in Hx as [i Hi].
          destruct (Forall2_lookup_r _ _ _ _ _ Hxs Hi) as (j & _ & Hj).
          apply getitem_Ok in Hj. rewrite lookup_fmap in Hj.
          destruct (leaves !! (c0 ++ [j])); by simplify_eq/=.
        + by exists t.
      - right. apply mapM_Err in Hxs as (i & _ & Hi). unfold getitem in Hi.
        destruct ((PLeaf <$> leaves) !! (c0 ++ [i])); [done|by injection Hi as <-]. }
    rewrite iter_leaf_coords_snoc in Hc.
    apply list_elem_of_bind in Hc as (c0 & Hc & Hc0).
    apply list_elem_of_fmap in Hc as (i & -> & Hi).
    assert (Hg0 : g c0 = Err KeyError).
    { destruct (Hg c0) as [Hok|]; [|done]. exfalso. unfold g in Hok.
      destruct (mapM_not_Ok (λ i, getitem (PLeaf <$> leaves) (c0 ++ [i])) (range n) i)
        as [e He]; [done| |].
      - intros [x Hx]. apply getitem_Ok in Hx. by rewrite lookup_fmap, Hnone in Hx.
      - rewrite He in Hok. by apply not_is_Ok_Err in Hok. }
    apply list_elem_of_split in Hc0 as (l1 & l2 & ->).
    destruct (foldM_first_failure
                (λ (d : gmap Coords (PyTree Arr)) c, g c ≫= λ v, Ok (<[c := v]> d))
                ∅ l1 l2 c0 (λ _ e, e = KeyError)) as (e & y & He & _ & ->).
    { intros d y _. destruct (Hg y) as [[v Hv]| Hv]; rewrite Hv; simpl.
      - left. apply is_Ok_Ok.
      - right. by exists KeyError. }
    { intros d. rewrite Hg0. by exists KeyError. }
    unfold g in He. cbv beta in He. fold n. rewrite He. done.
Qed.

End Restore_tree.

Lemma restore_tree_nested_witness :
  ∃ tree blocks,
    restore_tree [Examples.treedef_ab; Examples.treedef_cd]
      ({[ [0; 0] := Ref.scalar 1; [0; 1] := Ref.scalar 2;
          [1; 0] := Ref.scalar 3; [1; 1] := Ref.scalar 4 ]} : gmap Coords Ref.ndarray)
      = Ok tree
    ∧ tree_structure tree = nested_treedef [Examples.treedef_ab; Examples.treedef_cd]
    ∧ mapM (getitem ({[ [0; 0] := Ref.scalar 1; [0; 1] := Ref.scalar 2;
                        [1; 0] := Ref.scalar 3; [1; 1] := Ref.scalar 4 ]}
                      : gmap Coords Ref.ndarray))
           (_iter_leaf_coords [Examples.treedef_ab; Examples.treedef_cd]) = Ok blocks
    ∧ tree_leaves tree = blocks.
Proof.
  apply (proj1 (restore_tree_nested _ _)).
  intros coords Hc. vm_compute in Hc.
  repeat (apply elem_of_cons in Hc as [->|Hc]; [by eexists|]).
  by apply elem_of_nil in Hc.
Defined.

(** ** Lifting an array *)

Lemma product_replicate_singleton (n x : nat) :
  product (replicate n [x]) = [replicate n x].
Proof. induction n as [|n IH]; [done|]. simpl. by rewrite IH. Qed.

Lemma iter_leaf_coords_trivial (n : nat) :
  _iter_leaf_coords (replicate n TRIVIAL_TREEDEF) = [replicate n 0].
Proof.
  unfold _iter_leaf_coords. rewrite <- product_replicate_singleton. f_equal.
  induction n as [|n IH]; [done|]. simpl. by rewrite IH.
Qed.

Lemma segments_at_flat (shape : list nat) :
  segments_at (map (λ s, [[s]]) shape) (replicate (length shape) 0)
    = Ok (map (λ s, [s]) shape).
Proof.
  unfold segments_at. apply mapM_Ok. apply Forall2_same_length_lookup_2.
  { by rewrite length_enumerate, length_replicate, length_map. }
  intros i [j x] y Hjx Hy. rewrite enumerate_lookup in Hjx.
  destruct (replicate (length shape) 0 !! i) as [x'|] eqn:Hx; simplify_eq/=.
  apply lookup_replicate in Hx as [-> _].
  change (map (λ s, [s]) shape !! j = Some y) in Hy.
  rewrite list_lookup_fmap in Hy.
  destruct (shape !! j) as [s|] eqn:Hs; simplify_eq/=.
  apply bind_Ok. exists [[s]]. split; [|done].
  apply index_Ok. change ((λ s, [[s]]) <$> shape) with (map (λ s, [[s]]) shape).
  by rewrite list_lookup_fmap, Hs.
Qed.

Lemma concat_singletons {A} (l : list A) : concat (map (λ x, [x]) l) = l.
Proof. induction l as [|x l IH]; [done|]. simpl. by rewrite IH. Qed.

Lemma nested_treedef_trivial (n : nat) :
  nested_treedef (replicate n TRIVIAL_TREEDEF) = TRIVIAL_TREEDEF.
Proof. induction n as [|n IH]; [done|]. exact IH. Qed.

Section Pure.
Context {Arr DType : Type} `{!Kernels Arr DType}.

(** X4.  Lifting a plain array with [TreeTrace.pure] (or [lift]) always
    gives a tracer: its descriptors are the module's [TRIVIAL_TREEDEF]
    object, every axis is trivial, the logical shape ([aval]) is the shape
    of the array, and the tracer holds the array as its only block.
    [restore_tree] gives the array back, and so does [full_lower] (up to
    [core.full_lower] of the array).  A container that is not a leaf is
    refused with the ValueError of [convert_leaf_array]. *)
Theorem TreeTrace_pure_array (x : Arr) (core_full_lower : Arr → Arr) :
  (∃ t, TreeTrace_pure (PLeaf x) = Ok t
        ∧ aval_shape t = np_shape x
        ∧ length (treedefs t) = length (np_shape x)
        ∧ object_value <$> convert_leaf_array_objects x = treedefs t
        ∧ Forall2 (λ treedef shapes, is_trivial_axis treedef shapes = true)
                  (convert_leaf_array_objects x) (leafshapes t)
        ∧ (∀ coords block, leaves t !! coords = Some block →
                           block = x ∧ coords = replicate (length (np_shape x)) 0)
        ∧ restore_tree (treedefs t) (leaves t) = Ok (PLeaf x)
        ∧ full_lower core_full_lower (convert_leaf_array_objects x) t
          = Ok (inl (core_full_lower x)))
  ∧ (∀ k children, TreeTrace_pure (PNode k children) = Err NotALeaf).
Proof.
  split; [|done].
  set (ndim := length (np_shape x)).
  set (t := mkTreeTracer (replicate ndim TRIVIAL_TREEDEF)
              (map (λ s, [[s]]) (np_shape x))
              ({[ replicate ndim 0 := x ]} : gmap Coords Arr)).
  assert (Htriv : Forall2 (λ treedef shapes, is_trivial_axis treedef shapes = true)
                    (convert_leaf_array_objects x) (leafshapes t)).
  { unfold convert_leaf_array_objects. fold ndim. simpl.
    apply Forall2_same_length_lookup_2.
    { by rewrite length_replicate, length_map. }
    intros i td shapes Htd Hshapes. apply lookup_replicate in Htd as [-> _].
    change (((λ s, [[s]]) <$> np_shape x) !! i = Some shapes) in Hshapes.
    rewrite list_lookup_fmap in Hshapes.
    destruct (np_shape x !! i); by simplify_eq/=. }
  exists t. split_and!.
  - unfold TreeTrace_pure. simpl. fold ndim. apply TreeTracer_init_Ok.
    split_and!; [done|by rewrite length_replicate, length_map| | |].
    + apply Forall2_same_length_lookup_2.
      { by rewrite length_replicate, length_map. }
      intros i td shapes Htd Hshapes. apply lookup_replicate in Htd as [-> _].
      change (((λ s, [[s]]) <$> np_shape x) !! i = Some shapes) in Hshapes.
      rewrite list_lookup_fmap in Hshapes.
      destruct (np_shape x !! i); by simplify_eq/=.
    + by rewrite map_size_singleton.
    + intros coords Hc. rewrite iter_leaf_coords_trivial in Hc.
      apply list_elem_of_singleton in Hc as ->. exists x.
      split; [by rewrite lookup_singleton_eq|].
      rewrite leafshape_segments. unfold ndim. rewrite segments_at_flat. simpl.
      by rewrite concat_singletons.
  - unfold aval_shape. simpl. rewrite map_map.
    rewrite <- (map_id (np_shape x)) at 2. apply map_ext. intros s.
    unfold _axis_length. simpl. lia.
  - simpl. by rewrite length_replicate.
  - unfold convert_leaf_array_objects. fold ndim. simpl.
    by rewrite fmap_replicate.
  - exact Htriv.
  - simpl. intros coords block Hb. apply lookup_singleton_Some in Hb as [<- <-]. done.
  - simpl.
    destruct (restore_tree_present (replicate ndim TRIVIAL_TREEDEF)
                ({[ replicate ndim 0 := x ]} : gmap Coords Arr))
      as (tree & blocks & Htree & Hst & Hblocks & Hlv).
    { intros coords Hc. rewrite iter_leaf_coords_trivial in Hc.
      apply list_elem_of_singleton in Hc as ->. rewrite lookup_singleton_eq. by eexists. }
    rewrite Htree. f_equal. rewrite nested_treedef_trivial in Hst.
    rewrite iter_leaf_coords_trivial in Hblocks. simpl in Hblocks.
    unfold getitem in Hblocks. rewrite lookup_singleton_eq in Hblocks. simpl in Hblocks.
    injection Hblocks as <-. destruct tree as [y|]; [|done]. simpl in Hlv. congruence.
  - unfold full_lower. simpl.
    rewrite bool_decide_eq_true_2
      by (unfold convert_leaf_array_objects; by rewrite length_replicate, length_map).
    simpl.
    assert (Hall : forallb (λ '(treedef, shapes), is_trivial_axis treedef shapes)
                     (zip (convert_leaf_array_objects x)
                          (map (λ s, [[s]]) (np_shape x))) = true).
    { apply forallb_forall. intros [td shapes] Hin. apply list_elem_of_In in Hin.
      apply list_elem_of_lookup in Hin as [i Hi].
      apply lookup_zip_with_Some in Hi as (td' & shapes' & [= <- <-] & Htd & Hshapes).
      exact (Forall2_lookup_lr _ _ _ _ _ _ Htriv Htd Hshapes). }
    rewrite Hall. by rewrite map_to_list_singleton.
Qed.

End Pure.

Lemma TreeTrace_pure_array_witness :
  let x := Ref.array2 [[1%Q; 2%Q; 3%Q]; [4%Q; 5%Q; 6%Q]] in
  ∃ t, TreeTrace_pure (PLeaf x) = Ok t
       ∧ aval_shape t = [2; 3]
       ∧ restore_tree (treedefs t) (leaves t) = Ok (PLeaf x)
       ∧ full_lower id [TRIVIAL_TREEDEF_object; TRIVIAL_TREEDEF_object] t
         = Ok (inl x).
Proof.
  intros x.
  destruct (proj1 (TreeTrace_pure_array x id))
    as (t & H1 & H2 & _ & _ & _ & _ & H3 & H4).
  exists t. split_and!; [exact H1|exact H2|exact H3|exact H4].
Defined.

(** ** Tracing containers *)

Lemma Forall2_exists_mapM {A B} (f : A → result B) (l : list A) :
  (∀ x, x ∈ l → is_Ok (f x)) → ∃ k, Forall2 (λ x y, f x = Ok y) l k.
Proof.
  intros Hall. destruct (mapM_is_Ok f l Hall) as [k Hk]. exists k. by apply mapM_Ok.
Qed.

Section Trace.
Context {Arr DType : Type} `{!Kernels Arr DType}.

Lemma iter_leaf_coords_one (treedef : TreeDef) :
  _iter_leaf_coords [treedef] = (λ i, [i]) <$> range (num_leaves treedef).
Proof.
  unfold _iter_leaf_coords. simpl. generalize (range (num_leaves treedef)) as r.
  induction r as [|x r IH]; [done|]. rewrite bind_cons, fmap_cons, IH. done.
Qed.

(** The tracer of one container: the state of [convert_vectorized_tree]
    passes the checks of the constructor. *)
Lemma convert_vectorized_tree_tracer (tree : PyTree Arr) (dtype : DType) :
  (∀ x y, asarray x dtype = Ok y → np_shape y = np_shape x) →
  tree_leaves tree ≠ [] →
  result_type (tree_leaves tree) = Ok dtype →
  (∀ x, x ∈ tree_leaves tree → is_Ok (asarray x dtype)) →
  ∃ lv tree',
    convert_vectorized_tree tree
      = Ok ([tree_structure tree], [map np_shape (tree_leaves tree)], lv)
    ∧ TreeTracer_init [tree_structure tree] [map np_shape (tree_leaves tree)] lv
      = Ok (mkTreeTracer [tree_structure tree] [map np_shape (tree_leaves tree)] lv)
    ∧ restore_tree [tree_structure tree] lv = Ok tree'
    ∧ tree_structure tree' = tree_structure tree
    ∧ Forall2 (λ x' x, asarray x dtype = Ok x') (tree_leaves tree') (tree_leaves tree).
Proof.
  intros Hshape Hne Hdt Hcast.
  destruct (Forall2_exists_mapM (λ x, asarray x dtype) (tree_leaves tree) Hcast)
    as [ys Hys].
  pose proof (Forall2_length _ _ _ Hys) as Hlen.
  destruct (restore_tree_one_axis (tree_structure tree) ys) as (tree' & Htree' & Hst & Hlv).
  { by rewrite num_leaves_structure. }
  exists (dict_of (imap (λ i y, ([i], y)) ys)), tree'.
  split_and!; [by apply (convert_vectorized_tree_Ok tree dtype ys)| |done|done|].
  - apply TreeTracer_init_Ok. split_and!; [done|done| | |].
    + constructor; [|constructor]. by rewrite num_leaves_structure, length_map.
    + apply dict_of_size. destruct ys; [|done].
      destruct (tree_leaves tree); [done|discriminate].
    + intros coords Hc. rewrite iter_leaf_coords_one in Hc.
      apply list_elem_of_fmap in Hc as (i & -> & Hi).
      unfold range in Hi. apply elem_of_seq in Hi. rewrite num_leaves_structure in Hi.
      destruct (lookup_lt_is_Some_2 (tree_leaves tree) i) as [x Hx]; [lia|].
      destruct (lookup_lt_is_Some_2 ys i) as [y Hy]; [lia|].
      exists y. split; [by rewrite dict_of_enumerate_lookup|].
      rewrite (Hshape x y) by exact (Forall2_lookup_lr _ _ _ _ _ _ Hys Hx Hy).
      unfold _leafshape. simpl. unfold index at 1. simpl.
      change (map np_shape (tree_leaves tree) !! i)
        with ((np_shape <$> tree_leaves tree) !! i).
      rewrite list_lookup_fmap, Hx. simpl. by rewrite app_nil_r.
  - rewrite Hlv. apply Forall2_same_length_lookup_2; [done|].
    intros i y x Hy Hx. exact (Forall2_lookup_lr _ _ _ _ _ _ Hys Hx Hy).
Qed.

(** X5.  The tracers of containers ([tree_trace], [_trees_to_tree_tracers]):
    when the cast keeps the shape of an array and each container has at least
    one leaf whose leaves can be promoted to one dtype, every converted
    container passes the checks of the [TreeTracer] constructor.  The tracer
    has one axis, described by the shape of the container, whose logical
    length is the total number of elements of the leaves, and
    [_tree_tracers_to_trees] gives back containers of the same shapes whose
    leaves are the casts of the original leaves. *)
Theorem trees_to_tree_tracers_valid (trees : list (PyTree Arr)) :
  (∀ x d y, asarray x d = Ok y → np_shape y = np_shape x) →
  Forall (λ tree, tree_leaves tree ≠ []
                  ∧ ∃ dtype, result_type (tree_leaves tree) = Ok dtype
                             ∧ ∀ x, x ∈ tree_leaves tree → is_Ok (asarray x dtype))
         trees →
  ∃ tracers trees',
    _trees_to_tree_tracers trees = Ok tracers
    ∧ Forall2 (λ tree t,
                 treedefs t = [tree_structure tree]
                 ∧ leafshapes t = [map np_shape (tree_leaves tree)]
                 ∧ aval_shape t
                   = [sum_list (map (λ x, prod (np_shape x)) (tree_leaves tree))])
              trees tracers
    ∧ _tree_tracers_to_trees tracers = Ok trees'
    ∧ Forall2 (λ tree tree',
                 tree_structure tree' = tree_structure tree
                 ∧ ∃ dtype, Forall2 (λ x' x, asarray x dtype = Ok x')
                                    (tree_leaves tree') (tree_leaves tree))
              trees trees'.
Proof.
  intros Hshape Hall. unfold _trees_to_tree_tracers, _tree_tracers_to_trees.
  induction Hall as [|tree trees (Hne & dtype & Hdt & Hcast) _ IH].
  { by exists [], []. }
  destruct IH as (tracers & trees' & Htr & Hax & Hback & Hrt).
  apply bind_Ok in Htr as (parts & Hparts & Htracers).
  destruct (convert_vectorized_tree_tracer tree dtype)
    as (lv & tree' & Hconv & Hinit & Hrestore & Hst & Hlv);
    [by eauto|done..|].
  exists (mkTreeTracer [tree_structure tree] [map np_shape (tree_leaves tree)] lv
            :: tracers), (tree' :: trees').
  split_and!.
  - apply bind_Ok. eexists. split; [by rewrite mapM_cons, Hconv, Hparts|].
    rewrite mapM_cons. cbv beta iota. rewrite Hinit, Htracers. done.
  - constructor; [|done]. split_and!; [done|done|].
    unfold aval_shape, _axis_length. simpl. by rewrite map_map.
  - rewrite mapM_cons. cbn [treedefs leaves]. by rewrite Hrestore, Hback.
  - constructor; [|done]. split; [done|]. by exists dtype.
Qed.

End Trace.

Lemma trees_to_tree_tracers_valid_witness :
  ∃ tracers trees',
    _trees_to_tree_tracers [Examples.tree_mixed; Examples.tree_xyz] = Ok tracers
    ∧ aval_shape <$> tracers = [[4]; [4]]
    ∧ _tree_tracers_to_trees tracers = Ok trees'
    ∧ tree_structure <$> trees'
      = [tree_structure Examples.tree_mixed; tree_structure Examples.tree_xyz].
Proof.
  destruct (trees_to_tree_tracers_valid [Examples.tree_mixed; Examples.tree_xyz])
    as (tracers & trees' & H1 & H2 & H3 & H4).
  - intros x d y [= <-]. reflexivity.
  - repeat constructor; try discriminate;
      (exists Ref.float32; split; [reflexivity|]; intros x _; by eexists).
  - exists tracers, trees'. split; [exact H1|].
    apply Forall2_cons_inv_l in H2 as (t1 & ts & (_ & _ & Ha1) & H2 & ->).
    apply Forall2_cons_inv_l in H2 as (t2 & ts' & (_ & _ & Ha2) & H2 & ->).
    apply Forall2_nil_inv_l in H2 as ->.
    apply Forall2_cons_inv_l in H4 as (r1 & rs & (Hs1 & _) & H4 & ->).
    apply Forall2_cons_inv_l in H4 as (r2 & rs' & (Hs2 & _) & H4 & ->).
    apply Forall2_nil_inv_l in H4 as ->.
    split; [|split; [exact H3|]].
    + simpl. rewrite Ha1, Ha2. reflexivity.
    + simpl. rewrite Hs1, Hs2. reflexivity.
Defined.

(** ** The rule of the unary elementwise primitives *)


Section Vectorized.
Context {Arr DType : Type} `{!Kernels Arr DType}.



End Vectorized.


(** ** Operands of rank 0 in the n-ary rule *)

Lemma merge_by_mask_length {A} (mask : list bool) (ss xs : list A) :
  length ss = length (filter (λ b, b = true) mask) →
  length xs = length (filter (λ b, b = false) mask) →
  length (merge_by_mask mask ss xs) = length mask.
Proof.
  revert ss xs. induction mask as [|[] mask IH]; intros ss xs Hs Hx; [done|..].
  - rewrite filter_cons_True in Hs by done. rewrite filter_cons_False in Hx by done.
    destruct ss as [|s ss]; [done|]. simpl in *. rewrite IH; [done|lia|done].
  - rewrite filter_cons_False in Hs by done. rewrite filter_cons_True in Hx by done.
    destruct xs as [|x xs]; [done|]. simpl in *. rewrite IH; [done|done|lia].
Qed.

Lemma merge_by_mask_snoc {A} (mask : list bool) (ss xs : list A) (b : bool) (y : A) :
  length ss = length (filter (λ b, b = true) mask) →
  length xs = length (filter (λ b, b = false) mask) →
  merge_by_mask (mask ++ [b]) (if b then ss ++ [y] else ss) (if b then xs else xs ++ [y])
    = merge_by_mask mask ss xs ++ [y].
Proof.
  revert ss xs. induction mask as [|[] mask IH]; intros ss xs Hs Hx.
  - destruct ss; [|done]. destruct xs; [|done]. by destruct b.
  - rewrite filter_cons_True in Hs by done. rewrite filter_cons_False in Hx by done.
    destruct ss as [|s ss]; [done|]. simpl in Hs.
    specialize (IH ss xs ltac:(lia) Hx). destruct b; simpl in *; by rewrite IH.
  - rewrite filter_cons_False in Hs by done. rewrite filter_cons_True in Hx by done.
    destruct xs as [|x xs]; [done|]. simpl in Hx.
    specialize (IH ss xs Hs ltac:(lia)). destruct b; simpl in *; by rewrite IH.
Qed.

Lemma length_list_insert_at {A} (i : nat) (x : A) (l : list A) :
  length (list_insert_at i x l) = S (length l).
Proof.
  unfold list_insert_at. rewrite length_app. simpl. rewrite length_take, length_drop. lia.
Qed.

Lemma list_insert_at_snoc {A} (i : nat) (x a : A) (l : list A) :
  i ≤ length l → list_insert_at i x (l ++ [a]) = list_insert_at i x l ++ [a].
Proof.
  intros Hi. unfold list_insert_at.
  rewrite take_app_le, drop_app_le by done. by rewrite <- app_assoc.
Qed.

Lemma list_insert_at_end {A} (x : A) (l : list A) :
  list_insert_at (length l) x l = l ++ [x].
Proof. unfold list_insert_at. by rewrite firstn_all, drop_all. Qed.

Lemma foldl_insert_at_snoc {A} (scalars : list (nat * A)) (args : list A) (a : A) :
  (∀ j i x, scalars !! j = Some (i, x) → i ≤ length args + j) →
  foldl (λ args '(i, scalar), list_insert_at i scalar args) (args ++ [a]) scalars
    = foldl (λ args '(i, scalar), list_insert_at i scalar args) args scalars ++ [a].
Proof.
  revert args. induction scalars as [|[i x] scalars IH]; intros args Hb; [done|].
  simpl. rewrite list_insert_at_snoc by (specialize (Hb 0 i x eq_refl); lia).
  apply IH. intros j i' x' Hj. rewrite length_list_insert_at.
  specialize (Hb (S j) i' x' Hj). lia.
Qed.
Section Filter_scalars.
Context {Arr DType : Type} `{!Kernels Arr DType}.
Abbreviation Leaves := (gmap Coords Arr).
Abbreviation Operand := (list TreeDef * (LeafShapes * Leaves))%type.


End Filter_scalars.

Section Naryop_scalars.
Context {Arr DType : Type} `{!Kernels Arr DType}.
Abbreviation Leaves := (gmap Coords Arr).
Abbreviation Operand := (list TreeDef * (LeafShapes * Leaves))%type.



End Naryop_scalars.


(** ** The axes of the result of the n-ary rule *)

Lemma foldM_is_Ok {A St} (f : St → A → result St) (s : St) (l : list A) :
  (∀ s x, x ∈ l → is_Ok (f s x)) → is_Ok (foldM f s l).
Proof.
  revert s. induction l as [|x l IH]; intros s Hall; [apply is_Ok_Ok|].
  simpl. destruct (Hall s x) as [s' Hs']; [by left|]. rewrite Hs'. simpl.
  apply IH. intros s1 y Hy. apply Hall. by right.
Qed.

Lemma foldM_Ok_steps {A St} (f : St → A → result St) (s s' : St) (l : list A) :
  foldM f s l = Ok s' → ∀ x, x ∈ l → ∃ s1, is_Ok (f s1 x).
Proof.
  revert s. induction l as [|y l IH]; intros s Hfold x Hx.
  { by apply elem_of_nil in Hx. }
  simpl in Hfold. apply bind_Ok in Hfold as (s1 & Hs1 & Hfold).
  apply elem_of_cons in Hx as [->|Hx].
  - exists s. by exists s1.
  - by eapply IH.
Qed.

Lemma mapM_index_default {A B} (f : list A → B) (rows : list (list (list A))) (axis : nat)
    (col : list (list A)) :
  mapM (λ row, index row axis) rows = Ok col →
  map f col = map (λ row, f (default [] (row !! axis))) rows.
Proof.
  intros Hcol. apply mapM_index_values in Hcol.
  induction Hcol as [|row x rows col Hx _ IH]; [done|].
  simpl. by rewrite Hx, IH.
Qed.

Section Naryop_axes.
Context {Arr DType : Type} `{!Kernels Arr DType}.

Lemma naryop_check_axis_Ok (treedefs_in : list (list TreeDef))
    (leafshapes_in : list LeafShapes) (out out' : list TreeDef * LeafShapes)
    (axis : nat) :
  naryop_check_axis treedefs_in leafshapes_in out axis = Ok out' →
  ∃ d s, out' = (out.1 ++ [d], out.2 ++ [s])
         ∧ adopts_descriptor treedefs_in axis d
         ∧ adopts_layout leafshapes_in axis s.
Proof.
  destruct out as [out_treedefs out_leafshapes]. unfold naryop_check_axis.
  intros H.
  apply bind_Ok in H as (tcol & Htcol & H).
  apply bind_Ok in H as (otd & Hotd & H).
  apply bind_Ok in H as (scol & Hscol & H).
  apply bind_Ok in H as (ols & Hols & [= <-]).
  pose proof (mapM_index_values _ _ _ Htcol) as Htv.
  pose proof (mapM_index_values _ _ _ Hscol) as Hsv.
  set (nt := pyset (filter (λ treedef, treedef ≠ TRIVIAL_TREEDEF) tcol)) in *.
  set (ns := pyset (filter (λ shapes : list (list nat), length shapes ≠ 1) scol)) in *.
  assert (Hd : ∃ d, otd = out_treedefs ++ [d] ∧ adopts_descriptor treedefs_in axis d).
  { destruct (decide (1 < length nt)); [done|].
    destruct (decide (length nt = 1)) as [H1|H1].
    - apply bind_Ok in Hotd as (d & Hd & [= <-]). apply unpack1_Ok in Hd.
      exists d. split; [done|]. split.
      + intros t d' Ht Hd'. destruct (decide (d' = TRIVIAL_TREEDEF)); [by left|right].
        apply list_elem_of_lookup in Ht as [i Hi].
        destruct (Forall2_lookup_l _ _ _ _ _ Htv Hi) as (x & Hx & Htx).
        assert (x = d') as -> by congruence.
        assert (Hin : d' ∈ nt).
        { apply elem_of_remove_dups, list_elem_of_filter. split; [done|].
          by eapply list_elem_of_lookup_2. }
        rewrite Hd in Hin. by apply list_elem_of_singleton in Hin.
      + intros _. assert (Hin : d ∈ nt) by (rewrite Hd; by left).
        apply elem_of_remove_dups, list_elem_of_filter in Hin as [_ Hin].
        apply list_elem_of_lookup in Hin as [i Hi].
        destruct (Forall2_lookup_r _ _ _ _ _ Htv Hi) as (t & Ht & Htd).
        exists t. split; [by eapply list_elem_of_lookup_2|done].
    - injection Hotd as <-. exists TRIVIAL_TREEDEF. split; [done|]. split; [|done].
      intros t d' Ht Hd'. left. destruct (decide (d' = TRIVIAL_TREEDEF)); [done|].
      assert (Hnil : nt = []) by (destruct nt; simpl in *; [done|lia]).
      apply (proj1 (pyset_nil _)) in Hnil.
      apply list_elem_of_lookup in Ht as [i Hi].
      destruct (Forall2_lookup_l _ _ _ _ _ Htv Hi) as (x & Hx & Htx).
      assert (x = d') as -> by congruence.
      assert (Hin : d' ∈ filter (λ treedef, treedef ≠ TRIVIAL_TREEDEF) tcol).
      { apply list_elem_of_filter. split; [done|]. by eapply list_elem_of_lookup_2. }
      rewrite Hnil in Hin. by apply elem_of_nil in Hin. }
  assert (Hs : ∃ s, ols = out_leafshapes ++ [s] ∧ adopts_layout leafshapes_in axis s).
  { destruct (decide (1 < length ns)); [done|].
    destruct (decide (length ns = 1)) as [H1|H1].
    - apply bind_Ok in Hols as (s & Hs & [= <-]). apply unpack1_Ok in Hs.
      assert (Hin : s ∈ ns) by (rewrite Hs; by left).
      apply elem_of_remove_dups, list_elem_of_filter in Hin as [Hlen Hin].
      exists s. split; [done|]. split_and!.
      + intros l s' Hl Hs'. destruct (decide (length s' = 1)); [by left|right].
        apply list_elem_of_lookup in Hl as [i Hi].
        destruct (Forall2_lookup_l _ _ _ _ _ Hsv Hi) as (x & Hx & Htx).
        assert (x = s') as -> by congruence.
        assert (Hin' : s' ∈ ns).
        { apply elem_of_remove_dups, list_elem_of_filter. split; [done|].
          by eapply list_elem_of_lookup_2. }
        rewrite Hs in Hin'. by apply list_elem_of_singleton in Hin'.
      + intros _. apply list_elem_of_lookup in Hin as [i Hi].
        destruct (Forall2_lookup_r _ _ _ _ _ Hsv Hi) as (l & Hl & Hls).
        exists l. split; [by eapply list_elem_of_lookup_2|done].
      + done.
    - injection Hols as <-. eexists. split; [done|]. split_and!.
      + intros l s' Hl Hs'. left. destruct (decide (length s' = 1)); [done|].
        assert (Hnil : ns = []) by (destruct ns; simpl in *; [done|lia]).
        apply (proj1 (pyset_nil _)) in Hnil.
        apply list_elem_of_lookup in Hl as [i Hi].
        destruct (Forall2_lookup_l _ _ _ _ _ Hsv Hi) as (x & Hx & Htx).
        assert (x = s') as -> by congruence.
        assert (Hin : s' ∈ filter (λ shapes : list (list nat), length shapes ≠ 1) scol).
        { apply list_elem_of_filter. split; [done|]. by eapply list_elem_of_lookup_2. }
        rewrite Hnil in Hin. by apply elem_of_nil in Hin.
      + done.
      + intros _. by rewrite (mapM_index_default _axis_length _ _ _ Hscol). }
  destruct Hd as (d & -> & Hd), Hs as (s & -> & Hs). by exists d, s.
Qed.

Lemma naryop_out_axes_prefix_Ok (treedefs_in : list (list TreeDef))
    (leafshapes_in : list LeafShapes) (ndim n : nat) :
  Forall (λ treedefs, length treedefs = ndim) treedefs_in →
  Forall (λ leafshapes, length leafshapes = ndim) leafshapes_in →
  n ≤ ndim →
  (∀ a, a < n → ¬ descriptor_conflict treedefs_in a ∧ ¬ shape_conflict leafshapes_in a) →
  is_Ok (naryop_out_axes treedefs_in leafshapes_in n).
Proof.
  intros Htd Hls Hn Hnone. unfold naryop_out_axes, range. apply foldM_is_Ok.
  intros s a Ha. apply elem_of_seq in Ha.
  destruct (naryop_check_axis_cases treedefs_in leafshapes_in s a)
    as [[Hc _] | [(_ & Hc & _) | (_ & _ & H)]]; [..|done].
  - eapply Forall_impl; [exact Htd|]. simpl. intros; lia.
  - eapply Forall_impl; [exact Hls|]. simpl. intros; lia.
  - destruct (Hnone a) as [H1 _]; [lia|done].
  - destruct (Hnone a) as [_ H2]; [lia|done].
Qed.

(** X8.  The check of the axes in the n-ary rule, for operands of one rank
    [ndim].  It succeeds exactly when no axis has two operands with
    distinct non-trivial descriptors or with distinct layouts of several
    segments; otherwise the first axis that has such a conflict decides the
    error: ConflictingStructure when it has a descriptor conflict, and
    ConflictingShape when it has only a layout conflict.  On success the
    result has one descriptor and one layout per axis: the descriptor (the
    layout) shared by the operands that are not trivial there, and the
    trivial descriptor (one segment of the largest length) when there is
    none. *)
Theorem naryop_out_axes_result (treedefs_in : list (list TreeDef))
    (leafshapes_in : list LeafShapes) (ndim : nat) :
  Forall (λ treedefs, length treedefs = ndim) treedefs_in →
  Forall (λ leafshapes, length leafshapes = ndim) leafshapes_in →
  leafshapes_in ≠ [] →
  (is_Ok (naryop_out_axes treedefs_in leafshapes_in ndim) ↔
     ∀ a, a < ndim →
          ¬ descriptor_conflict treedefs_in a ∧ ¬ shape_conflict leafshapes_in a)
  ∧ (∀ axis, axis < ndim →
       (∀ a, a < axis →
             ¬ descriptor_conflict treedefs_in a ∧ ¬ shape_conflict leafshapes_in a) →
       (descriptor_conflict treedefs_in axis →
        naryop_out_axes treedefs_in leafshapes_in ndim = Err ConflictingStructure)
       ∧ (¬ descriptor_conflict treedefs_in axis → shape_conflict leafshapes_in axis →
          naryop_out_axes treedefs_in leafshapes_in ndim = Err ConflictingShape))
  ∧ (∀ out_treedefs out_leafshapes,
       naryop_out_axes treedefs_in leafshapes_in ndim
         = Ok (out_treedefs, out_leafshapes) →
       length out_treedefs = ndim ∧ length out_leafshapes = ndim
       ∧ (∀ axis d, out_treedefs !! axis = Some d →
                    adopts_descriptor treedefs_in axis d)
       ∧ (∀ axis s, out_leafshapes !! axis = Some s →
                    adopts_layout leafshapes_in axis s)).
Proof.
  intros Htd Hls _.
  assert (Hcases : ∀ s a, a < ndim →
            (descriptor_conflict treedefs_in a
             ∧ naryop_check_axis treedefs_in leafshapes_in s a = Err ConflictingStructure)
            ∨ (¬ descriptor_conflict treedefs_in a ∧ shape_conflict leafshapes_in a
               ∧ naryop_check_axis treedefs_in leafshapes_in s a = Err ConflictingShape)
            ∨ (¬ descriptor_conflict treedefs_in a ∧ ¬ shape_conflict leafshapes_in a
               ∧ is_Ok (naryop_check_axis treedefs_in leafshapes_in s a))).
  { intros s a Ha. apply naryop_check_axis_cases.
    - eapply Forall_impl; [exact Htd|]. simpl. intros; lia.
    - eapply Forall_impl; [exact Hls|]. simpl. intros; lia. }
  split_and!.
  - split.
    + intros [s Hs] a Ha. unfold naryop_out_axes, range in Hs.
      destruct (foldM_Ok_steps _ _ _ _ Hs a) as (s1 & Hs1).
      { apply elem_of_seq. lia. }
      destruct (Hcases s1 a Ha) as [[_ H] | [(_ & _ & H) | (H1 & H2 & _)]]; [..|done].
      * rewrite H in Hs1. by apply not_is_Ok_Err in Hs1.
      * rewrite H in Hs1. by apply not_is_Ok_Err in Hs1.
    + intros Hnone. by apply (naryop_out_axes_prefix_Ok _ _ ndim ndim).
  - intros axis Hax Hnone.
    destruct (naryop_out_axes_prefix_Ok treedefs_in leafshapes_in ndim axis)
      as [s Hs]; [done|done|lia|done|].
    assert (Hseq : seq 0 ndim = seq 0 axis ++ axis :: seq (S axis) (ndim - S axis)).
    { replace (seq 0 ndim) with (seq 0 (axis + S (ndim - S axis))) by (f_equal; lia).
      by rewrite seq_app. }
    unfold naryop_out_axes, range in *. rewrite Hseq, foldM_app, Hs. simpl.
    split.
    + intros Hdc. destruct (Hcases s axis Hax) as [[_ H] | [(H & _) | (H & _)]];
        [|done..]. by rewrite H.
    + intros Hdc Hsc. destruct (Hcases s axis Hax) as [[H _] | [(_ & _ & H) | (_ & H & _)]];
        [done| |done]. by rewrite H.
  - intros out_treedefs out_leafshapes Hout. unfold naryop_out_axes, range in Hout.
    destruct (foldM_append_lookup (naryop_check_axis treedefs_in leafshapes_in) fst
                (adopts_descriptor treedefs_in) ([], []) (out_treedefs, out_leafshapes) ndim)
      as [Hl1 Hq1];
      [|done|exact Hout|].
    { intros s a s' Hs'. destruct (naryop_check_axis_Ok _ _ _ _ _ Hs')
        as (d & sh & -> & Hd & _). by exists d. }
    destruct (foldM_append_lookup (naryop_check_axis treedefs_in leafshapes_in) snd
                (adopts_layout leafshapes_in) ([], []) (out_treedefs, out_leafshapes) ndim)
      as [Hl2 Hq2];
      [|done|exact Hout|].
    { intros s a s' Hs'. destruct (naryop_check_axis_Ok _ _ _ _ _ Hs')
        as (d & sh & -> & _ & Hsh). by exists sh. }
    done.
Qed.

End Naryop_axes.

Lemma naryop_out_axes_result_witness :
  naryop_out_axes [[Examples.treedef_ab; TRIVIAL_TREEDEF];
                   [TRIVIAL_TREEDEF; Examples.treedef_cd]]
    [[[[]; [2]]; [[1]]]; [[[1]]; [[]; [2]]]] 2
    = Ok ([Examples.treedef_ab; Examples.treedef_cd], [[[]; [2]]; [[]; [2]]])
  ∧ adopts_descriptor [[Examples.treedef_ab; TRIVIAL_TREEDEF];
                       [TRIVIAL_TREEDEF; Examples.treedef_cd]] 1 Examples.treedef_cd
  ∧ adopts_layout [[[[]; [2]]; [[1]]]; [[[1]]; [[]; [2]]]] 0 [[]; [2]].
Proof.
  split; [reflexivity|].
  destruct (naryop_out_axes_result
              [[Examples.treedef_ab; TRIVIAL_TREEDEF];
               [TRIVIAL_TREEDEF; Examples.treedef_cd]]
              [[[[]; [2]]; [[1]]]; [[[1]]; [[]; [2]]]] 2)
    as (_ & _ & H); [by repeat constructor|by repeat constructor|done|].
  destruct (H _ _ eq_refl) as (_ & _ & Hd & Hs).
  split; [by apply (Hd 1)|by apply (Hs 0)].
Defined.

(** ** Splitting an operand along two axes *)

Lemma foldM_invariant {A St} (f : St → A → result St) (I : St → Prop)
    (s s' : St) (l : list A) :
  (∀ s x s', x ∈ l → I s → f s x = Ok s' → I s') →
  I s → foldM f s l = Ok s' → I s'.
Proof.
  revert s. induction l as [|x l IH]; intros s Hstep Hs Hfold.
  { by injection Hfold as <-. }
  simpl in Hfold. apply bind_Ok in Hfold as (s1 & Hs1 & Hfold).
  apply (IH s1); [|by eapply Hstep; [left|..]|done].
  intros s2 y s3 Hy. apply Hstep. by right.
Qed.

Lemma StronglySorted_filter_seq (P : nat → Prop) `{∀ x, Decision (P x)} (k n : nat) :
  StronglySorted lt (filter P (seq k n)).
Proof.
  revert k. induction n as [|n IH]; intros k; [constructor|].
  simpl. destruct (decide (P k)).
  - rewrite filter_cons_True by done. constructor; [apply IH|].
    apply Forall_forall. intros x Hx. apply list_elem_of_filter in Hx as [_ Hx].
    apply elem_of_seq in Hx. lia.
  - rewrite filter_cons_False by done. apply IH.
Qed.

Lemma lookup_replace_middle {A} (c : list A) (z a : nat) (i : A) :
  z < length c → a ≠ z →
  (take z c ++ [i] ++ drop (S z) c) !! a = c !! a.
Proof.
  intros Hz Ha. destruct (decide (a < z)) as [Hlt|Hge].
  - rewrite lookup_app_l by (rewrite length_take; lia). by rewrite lookup_take_lt.
  - rewrite lookup_app_r by (rewrite length_take; lia).
    rewrite length_take, Nat.min_l by lia.
    destruct (a - z) as [|m] eqn:Hm; [lia|]. simpl.
    rewrite lookup_drop. f_equal. lia.
Qed.

Section Two_splits.
Context {Arr DType : Type} `{!Kernels Arr DType}.
Abbreviation Leaves := (gmap Coords Arr).

Lemma split_leaves_Ok_check (leafshapes : LeafShapes) (leaves leaves' : Leaves)
    (axis : nat) (shapes : list (list nat)) :
  _split_leaves leafshapes leaves axis shapes = Ok leaves' →
  ∃ n, leafshapes !! axis = Some [[n]].
Proof.
  unfold _split_leaves. intros H.
  apply bind_Ok in H as (axis_shapes & Hax & H). apply index_Ok in Hax.
  apply bind_Ok in H as ([] & Hcheck & _).
  destruct axis_shapes as [|s [|s' l]]; [done| |done].
  destruct s as [|n [|m s]]; [done| by exists n |done].
Qed.

(** The blocks that a split returns are at coordinates of the layout it
    was given, with the index along the split axis replaced. *)
Lemma split_leaves_keys (leafshapes : LeafShapes) (leaves leaves' : Leaves)
    (axis : nat) (shapes : list (list nat)) :
  _split_leaves leafshapes leaves axis shapes = Ok leaves' →
  ∀ coords, is_Some (leaves' !! coords) →
    ∃ in_coords i, in_coords ∈ _iter_leaf_coords2 leafshapes
                   ∧ coords = take axis in_coords ++ [i] ++ drop (S axis) in_coords.
Proof.
  unfold _split_leaves. intros H.
  apply bind_Ok in H as (axis_shapes & _ & H).
  apply bind_Ok in H as ([] & _ & H).
  revert H. apply (foldM_invariant _ (λ d : Leaves, ∀ coords, is_Some (d !! coords) →
    ∃ in_coords i, in_coords ∈ _iter_leaf_coords2 leafshapes
                   ∧ coords = take axis in_coords ++ [i] ++ drop (S axis) in_coords)).
  - intros d c d' Hc Hd Hstep.
    apply bind_Ok in Hstep as (leaf & _ & Hstep).
    apply bind_Ok in Hstep as (leaf_axes & _ & Hstep).
    apply bind_Ok in Hstep as (leaf_axis & _ & Hstep).
    apply bind_Ok in Hstep as (new_leaves & _ & [= <-]).
    generalize (enumerate new_leaves) as kvs. intros kvs.
    induction kvs as [|[i x] kvs IH] using rev_ind; [done|].
    rewrite foldl_app. simpl. intros coords Hcoords.
    destruct (decide (coords = take axis c ++ i :: drop (S axis) c)) as [->|Hne].
    + by exists c, i.
    + rewrite lookup_insert_ne in Hcoords by done. by apply IH.
  - intros coords [x Hx]. by rewrite lookup_empty in Hx.
Qed.

Lemma split_leaves_other_axis (leafshapes : LeafShapes) (leaves leaves' : Leaves)
    (axis other n : nat) (shapes : list (list nat)) :
  _split_leaves leafshapes leaves axis shapes = Ok leaves' →
  leafshapes !! other = Some [[n]] → other ≠ axis →
  ∀ coords, is_Some (leaves' !! coords) → coords !! other = Some 0.
Proof.
  intros Hsplit Hother Hne coords Hc.
  destruct (split_leaves_Ok_check _ _ _ _ _ Hsplit) as [m Haxis].
  destruct (split_leaves_keys _ _ _ _ _ Hsplit coords Hc) as (c & i & Hin & ->).
  apply elem_of_iter_leaf_coords2 in Hin.
  pose proof (Forall2_length _ _ _ Hin) as Hlen.
  rewrite lookup_replace_middle; [|rewrite Hlen; by eapply lookup_lt_Some|done].
  destruct (Forall2_lookup_r _ _ _ _ _ Hin Hother) as (x & Hx & Hlt).
  simpl in Hlt. rewrite Hx. f_equal. lia.
Qed.

(** After the splits of one operand, every remaining block has the index 0
    along every split axis but the last. *)
Lemma naryop_fix_operand_zero_index (ndim : nat)
    (out_leafshapes leafshapes leafshapes_ : LeafShapes) (leaves leaves_ : Leaves)
    (a b : nat) :
  ndim ≤ length leafshapes → ndim ≤ length out_leafshapes →
  naryop_fix_operand ndim out_leafshapes leafshapes leaves = Ok (leafshapes_, leaves_) →
  a ∈ naryop_split_axes ndim out_leafshapes leafshapes →
  b ∈ naryop_split_axes ndim out_leafshapes leafshapes →
  a < b →
  (∀ coords, is_Some (leaves_ !! coords) → coords !! a = Some 0)
  ∧ leafshapes_ !! a = out_leafshapes !! a
  ∧ leafshapes_ !! b = out_leafshapes !! b.
Proof.
  intros Hls Hout Hfix Ha Hb Hab.
  rewrite naryop_fix_operand_splits in Hfix by done.
  assert (Hlay : ∀ axis, leafshapes_ !! axis =
            if decide (axis ∈ naryop_split_axes ndim out_leafshapes leafshapes)
            then out_leafshapes !! axis else leafshapes !! axis).
  { apply (split_axis_layout _ _ _ _ _ _ _ Hfix). intros x Hx.
    apply list_elem_of_filter in Hx as [_ Hx]. apply elem_of_seq in Hx. lia. }
  split; [|by rewrite !Hlay, !decide_True by done].
  pose proof (StronglySorted_filter_seq
                (λ axis, leafshapes !! axis ≠ out_leafshapes !! axis
                         ∧ axis_length_at leafshapes axis ≠ 1) 0 ndim) as Hsorted.
  fold (range ndim) in Hsorted.
  fold (naryop_split_axes ndim out_leafshapes leafshapes) in Hsorted.
  revert Hfix Ha Hb Hsorted.
  generalize (naryop_split_axes ndim out_leafshapes leafshapes) as axes.
  intros axes Hfix Ha Hb Hsorted.
  destruct axes as [|z l1 _] using rev_ind; [by apply elem_of_nil in Ha|].
  apply StronglySorted_app in Hsorted as (Hlt & _ & _).
  assert (Hbz : b ≤ z).
  { apply elem_of_app in Hb as [Hb|Hb].
    - specialize (Hlt b z Hb). apply Nat.lt_le_incl, Hlt. by left.
    - apply list_elem_of_singleton in Hb. lia. }
  apply elem_of_app in Ha as [Ha|Ha]; [|apply list_elem_of_singleton in Ha; lia].
  rewrite foldM_app in Hfix. apply bind_Ok in Hfix as ([ls1 lv1] & Hpre & Hlast).
  destruct (foldM_Ok_steps _ _ _ _ Hpre a Ha) as ([ls0 lv0] & [[ls2 lv2] Hstep]).
  unfold split_axis in Hstep. apply bind_Ok in Hstep as (sh & _ & Hstep).
  apply bind_Ok in Hstep as (lv3 & Hsplit_a & _).
  destruct (split_leaves_Ok_check _ _ _ _ _ Hsplit_a) as [n Hn].
  simpl in Hlast. apply bind_Ok in Hlast as ([ls4 lv4] & Hlast & [= <- <-]).
  unfold split_axis in Hlast. apply bind_Ok in Hlast as (sh' & _ & Hlast).
  apply bind_Ok in Hlast as (lv5 & Hsplit_z & [= <- <-]).
  apply (split_leaves_other_axis _ _ _ _ a n _ Hsplit_z Hn). lia.
Qed.


(** X9.  The n-ary rule splits an operand along every axis whose layout
    differs from the output layout (and whose length is not 1), and it
    calls [_split_leaves] with the original layout of the operand each
    time.  So when an operand is split along two axes, the blocks that
    remain after the later split all have the partition index 0 along the
    earlier axis: the other blocks of the earlier split are dropped, while
    the layout of the operand is updated on both axes.  As a consequence
    the rule cannot succeed when the output has several segments along the
    earlier axis and a block coordinate with a non-zero index there: the
    lookup of the operand's block fails. *)
Theorem naryop_two_axis_split :
  (∀ ndim (out_leafshapes leafshapes leafshapes_ : LeafShapes) (leaves leaves_ : Leaves)
     a b,
     ndim ≤ length leafshapes → ndim ≤ length out_leafshapes →
     naryop_fix_operand ndim out_leafshapes leafshapes leaves
       = Ok (leafshapes_, leaves_) →
     a ∈ naryop_split_axes ndim out_leafshapes leafshapes →
     b ∈ naryop_split_axes ndim out_leafshapes leafshapes →
     a < b →
     (∀ coords, is_Some (leaves_ !! coords) → coords !! a = Some 0)
     ∧ leafshapes_ !! a = out_leafshapes !! a
     ∧ leafshapes_ !! b = out_leafshapes !! b)
  ∧ (∀ (prim : list Arr → result Arr) treedefs_in leafshapes_in (leaves_in : list Leaves)
       treedefs_nz leafshapes_nz leaves_nz scalars ndim out_treedefs out_leafshapes
       leafshapes leaves a b segments coords,
       _filter_scalar_leaves treedefs_in leafshapes_in leaves_in
         = Ok (treedefs_nz, leafshapes_nz, leaves_nz, scalars) →
       treedefs_nz ≠ [] →
       Forall (λ t, length t = ndim) treedefs_nz →
       Forall (λ l, length l = ndim) leafshapes_nz →
       naryop_out_axes treedefs_nz leafshapes_nz ndim
         = Ok (out_treedefs, out_leafshapes) →
       (leafshapes, leaves) ∈ zip leafshapes_nz leaves_nz →
       a ∈ naryop_split_axes ndim out_leafshapes leafshapes →
       b ∈ naryop_split_axes ndim out_leafshapes leafshapes →
       a < b →
       out_leafshapes !! a = Some segments → length segments ≠ 1 →
       coords ∈ _iter_leaf_coords out_treedefs → coords !! a ≠ Some 0 →
       ¬ is_Ok (naryop_tree_rule prim treedefs_in leafshapes_in leaves_in)).
Proof.
  split; [exact naryop_fix_operand_zero_index|].
  intros prim treedefs_in leafshapes_in leaves_in tds lss lvs scalars ndim otd ols
    ls lv a b segments c Hfilter Hne Htd Hls Hout Hop Ha Hb Hab Hseg Hseglen Hc Hca
    [state Hrule].
  unfold naryop_tree_rule in Hrule. rewrite Hfilter in Hrule. simpl in Hrule.
  destruct tds as [|t0 tds]; [done|].
  rewrite (pyset_constant _ ndim) in Hrule; [|done|].
  2:{ apply Forall_fmap. eapply Forall_impl; [exact Htd|]. done. }
  simpl in Hrule. rewrite Hout in Hrule. simpl in Hrule.
  apply bind_Ok in Hrule as (fixed & Hfixed & Hrule).
  apply bind_Ok in Hrule as (out_leaves & Hloop & _).
  (* the layout of the result has one entry per axis *)
  assert (Hlen : length otd = ndim ∧ length ols = ndim).
  { unfold naryop_out_axes, range in Hout. split.
    - apply (foldM_append_lookup (naryop_check_axis (t0 :: tds) lss) fst
               (λ _ _, True) ([], []) (otd, ols) ndim); [|done|done].
      intros s x s' Hs'. destruct (naryop_check_axis_Ok _ _ _ _ _ Hs')
        as (d & sh & -> & _). by exists d.
    - apply (foldM_append_lookup (naryop_check_axis (t0 :: tds) lss) snd
               (λ _ _, True) ([], []) (otd, ols) ndim); [|done|done].
      intros s x s' Hs'. destruct (naryop_check_axis_Ok _ _ _ _ _ Hs')
        as (d & sh & -> & _). by exists sh. }
  destruct Hlen as [Hlen_td Hlen_ls].
  (* the operand after the splits *)
  apply mapM_Ok in Hfixed. apply list_elem_of_lookup in Hop as [j Hj].
  destruct (Forall2_lookup_l _ _ _ _ _ Hfixed Hj) as ([ls' lv'] & Hj' & Hfix).
  simpl in Hfix.
  assert (Hls_len : length ls = ndim).
  { apply lookup_zip_with_Some in Hj as (l1 & l2 & [= <- <-] & Hl1 & _).
    rewrite Forall_forall in Hls. apply Hls. by eapply list_elem_of_lookup_2. }
  destruct (naryop_fix_operand_zero_index ndim ols ls ls' lv lv' a b)
    as (Hzero & Hlay & _); [lia|lia|done..|].
  (* the kernel call at [c] *)
  destruct (foldM_Ok_steps _ _ _ _ Hloop c Hc) as (acc & [acc' Hstep]).
  apply bind_Ok in Hstep as (args & Hargs & _).
  apply mapM_Ok in Hargs.
  destruct (Forall2_lookup_l _ _ _ _ _ Hargs Hj') as (arg & _ & Harg).
  simpl in Harg. unfold naryop_operand_leaf in Harg.
  apply bind_Ok in Harg as (in_coords & Hin & Harg).
  apply bind_Ok in Harg as (leaf & Hleaf & _). apply getitem_Ok in Hleaf.
  specialize (Hzero in_coords (ex_intro _ _ Hleaf)).
  apply mapM_Ok in Hin.
  assert (Ha_lt : a < ndim).
  { apply list_elem_of_filter in Ha as [_ Ha]. apply elem_of_seq in Ha. lia. }
  assert (Hc_len : length c = ndim).
  { apply elem_of_iter_leaf_coords in Hc. apply Forall2_length in Hc. lia. }
  destruct (lookup_lt_is_Some_2 c a) as [x Hx]; [lia|].
  assert (Hex : enumerate c !! a = Some (a, x)) by by rewrite enumerate_lookup, Hx.
  destruct (Forall2_lookup_l _ _ _ _ _ Hin Hex) as (y & Hy & Hxy).
  simpl in Hxy. apply bind_Ok in Hxy as (shapes & Hshapes & [= <-]).
  apply index_Ok in Hshapes. rewrite Hlay, Hseg in Hshapes. injection Hshapes as <-.
  rewrite decide_True in Hy by done. congruence.
Qed.

End Two_splits.

Lemma naryop_two_axis_split_witness :
  let plain : gmap Coords Ref.ndarray :=
    {[ [0; 0] := Ref.array2 [[1%Q; 2%Q; 3%Q]; [4%Q; 5%Q; 6%Q]; [7%Q; 8%Q; 9%Q]] ]} in
  let outer : gmap Coords Ref.ndarray :=
    {[ [0; 0] := Examples.full [1; 1] 1; [0; 1] := Examples.full [1; 2] 2;
       [1; 0] := Examples.full [2; 1] 3; [1; 1] := Examples.full [2; 2] 4 ]} in
  (∃ leafshapes_ leaves_,
     naryop_fix_operand 2 [[[1]; [2]]; [[1]; [2]]] [[[3]]; [[3]]] plain
       = Ok (leafshapes_, leaves_)
     ∧ leafshapes_ = [[[1]; [2]]; [[1]; [2]]]
     ∧ (∀ coords, is_Some (leaves_ !! coords) → coords !! 0 = Some 0)
     ∧ leaves_ !! [1; 0] = None)
  ∧ is_Ok (TreeTracer_init [Examples.treedef_ab; Examples.treedef_ab]
             [[[1]; [2]]; [[1]; [2]]] outer)
  ∧ is_Ok (TreeTracer_init [TRIVIAL_TREEDEF; TRIVIAL_TREEDEF] [[[3]]; [[3]]] plain)
  ∧ ¬ is_Ok (naryop_tree_rule (Ref.nd_binop Qplus)
               [[Examples.treedef_ab; Examples.treedef_ab];
                [TRIVIAL_TREEDEF; TRIVIAL_TREEDEF]]
               [[[[1]; [2]]; [[1]; [2]]]; [[[3]]; [[3]]]] [outer; plain]).
Proof.
  intros plain outer. split; [|split; [by eexists|split; [by eexists|]]].
  - destruct (naryop_fix_operand 2 [[[1]; [2]]; [[1]; [2]]] [[[3]]; [[3]]] plain)
      as [[leafshapes_ leaves_]|e] eqn:Hfix; [|by vm_compute in Hfix].
    exists leafshapes_, leaves_. split; [reflexivity|].
    destruct (proj1 naryop_two_axis_split 2 [[[1]; [2]]; [[1]; [2]]] [[[3]]; [[3]]]
                leafshapes_ plain leaves_ 0 1) as (Hzero & _ & _).
    + simpl. lia.
    + simpl. lia.
    + exact Hfix.
    + vm_compute. repeat constructor.
    + vm_compute. repeat constructor.
    + lia.
    + split; [by vm_compute in Hfix; injection Hfix as <- _|].
      split; [exact Hzero|].
      destruct (leaves_ !! [1; 0]) eqn:Hl; [|reflexivity].
      specialize (Hzero [1; 0] (ex_intro _ _ Hl)). discriminate Hzero.
  - apply (proj2 naryop_two_axis_split (Ref.nd_binop Qplus)
             [[Examples.treedef_ab; Examples.treedef_ab];
              [TRIVIAL_TREEDEF; TRIVIAL_TREEDEF]]
             [[[[1]; [2]]; [[1]; [2]]]; [[[3]]; [[3]]]] [outer; plain]
             [[Examples.treedef_ab; Examples.treedef_ab];
              [TRIVIAL_TREEDEF; TRIVIAL_TREEDEF]]
             [[[[1]; [2]]; [[1]; [2]]]; [[[3]]; [[3]]]] [outer; plain] []
             2 [Examples.treedef_ab; Examples.treedef_ab] [[[1]; [2]]; [[1]; [2]]]
             [[[3]]; [[3]]] plain 0 1 [[1]; [2]] [1; 0]).
    + reflexivity.
    + discriminate.
    + by repeat constructor.
    + by repeat constructor.
    + reflexivity.
    + right. left.
    + vm_compute. repeat constructor.
    + vm_compute. repeat constructor.
    + lia.
    + reflexivity.
    + simpl. lia.
    + vm_compute. repeat constructor.
    + discriminate.
Defined.

(** ** Concatenation along one axis of several *)

Lemma filter_none {A} (P : A → Prop) `{∀ x, Decision (P x)} (l : list A) :
  Forall (λ x, ¬ P x) l → filter P l = [].
Proof.
  induction 1 as [|x l Hx _ IH]; [done|]. by rewrite filter_cons_False.
Qed.

Lemma unpack1_long {A} (l : list A) : 2 ≤ length l → unpack1 l = Err UnpackError.
Proof. destruct l as [|x [|y l]]; simpl; [lia|lia|done]. Qed.

Section Concatenate_unpack.
Context {Arr DType : Type} `{!Kernels Arr DType}.
Abbreviation Leaves := (gmap Coords Arr).

Lemma concatenate_check_axis_unpack (treedefs_in : list (list TreeDef))
    (leafshapes_in : list LeafShapes) (dimension : nat)
    (out : list TreeDef * LeafShapes) (axis : nat) :
  Forall (λ treedefs, axis < length treedefs) treedefs_in →
  axis ≠ dimension → 2 ≤ length leafshapes_in →
  Forall (λ l, ∃ s, l !! axis = Some [s]) leafshapes_in →
  (descriptor_conflict treedefs_in axis
   ∧ concatenate_check_axis treedefs_in leafshapes_in dimension out axis
     = Err ConflictingStructure)
  ∨ (¬ descriptor_conflict treedefs_in axis
     ∧ concatenate_check_axis treedefs_in leafshapes_in dimension out axis
       = Err UnpackError).
Proof.
  intros Htd Hne Hlen Hsingle. destruct out as [otd ols]. unfold concatenate_check_axis.
  destruct (mapM_index_column treedefs_in axis Htd) as (tcol & -> & Htcol).
  destruct (mapM_index_column leafshapes_in axis) as (scol & Hscol_eq & Hscol).
  { eapply Forall_impl; [exact Hsingle|]. intros l [s Hs]. by eapply lookup_lt_Some. }
  simpl.
  set (nt := pyset (filter (λ treedef, treedef ≠ TRIVIAL_TREEDEF) tcol)).
  rewrite (bool_decide_false (axis = dimension)) by done. simpl.
  assert (Hdc : 1 < length nt ↔ descriptor_conflict treedefs_in axis).
  { unfold nt. rewrite pyset_length_gt1. unfold descriptor_conflict. split.
    - intros (d1 & d2 & H1 & H2 & Hd).
      apply list_elem_of_filter in H1 as [Hn1 H1], H2 as [Hn2 H2].
      apply Htcol in H1 as (t1 & Ht1 & Hd1), H2 as (t2 & Ht2 & Hd2).
      exists d1, d2, t1, t2. tauto.
    - intros (d1 & d2 & t1 & t2 & Ht1 & Ht2 & Hd1 & Hd2 & Hn1 & Hn2 & Hd).
      exists d1, d2. rewrite !list_elem_of_filter, !Htcol. eauto 10. }
  destruct (decide (1 < length nt)) as [Hnt|Hnt].
  { left. split; [by apply Hdc|]. by rewrite bool_decide_true. }
  right. split; [by rewrite <- Hdc|].
  rewrite bool_decide_false by done. simpl.
  assert (Htd_ok : ∃ otd', (if decide (length nt = 1)
                            then unpack1 nt ≫= λ treedef, Ok (otd ++ [treedef])
                            else Ok (otd ++ [TRIVIAL_TREEDEF])) = Ok otd').
  { destruct (decide (length nt = 1)) as [H1|H1]; [|by eexists].
    destruct (pyset_length_1 _ H1) as [x Hx]. fold nt in Hx. rewrite Hx. by eexists. }
  destruct Htd_ok as [otd' ->]. simpl. rewrite Hscol_eq. simpl.
  assert (Hns : filter (λ shapes : list (list nat), length shapes ≠ 1) scol = []).
  { apply filter_none. apply Forall_forall. intros x Hx.
    apply Hscol in Hx as (l & Hl & Hlx). rewrite Forall_forall in Hsingle.
    destruct (Hsingle l Hl) as [s Hs]. assert (x = [s]) as -> by congruence.
    simpl. lia. }
  rewrite Hns. simpl. rewrite decide_False by done. simpl.
  rewrite unpack1_long; [done|].
  rewrite length_map, (mapM_length _ _ _ Hscol_eq). done.
Qed.

(** X10.  [concatenate_tree_rule] on two or more operands that all have a
    single segment along some axis other than the concatenation axis (as
    every axis of a lifted plain array has): the unpacking
    [size, = lengths] of the list of the lengths of that axis fails, so the
    rule raises an exception, whatever the blocks are.  It is the ValueError
    of the unpacking when the axes before it pass their checks and the
    descriptors of the operands do not conflict along it. *)
Theorem concatenate_single_segment_axis (treedefs_in : list (list TreeDef))
    (leafshapes_in : list LeafShapes) (leaves_in : list Leaves)
    (dimension ndim axis : nat) :
  treedefs_in ≠ [] →
  Forall (λ t, length t = ndim) treedefs_in →
  2 ≤ length leafshapes_in →
  axis < ndim → axis ≠ dimension →
  Forall (λ l, ∃ s, l !! axis = Some [s]) leafshapes_in →
  (∃ e, concatenate_tree_rule treedefs_in leafshapes_in leaves_in dimension = Err e)
  ∧ (is_Ok (concatenate_out_axes treedefs_in leafshapes_in dimension axis) →
     ¬ descriptor_conflict treedefs_in axis →
     concatenate_tree_rule treedefs_in leafshapes_in leaves_in dimension
       = Err UnpackError).
Proof.
  intros Hne Htd Hlen Hax Hdim Hsingle. unfold concatenate_tree_rule.
  rewrite (pyset_constant (map length treedefs_in) ndim);
    [|by destruct treedefs_in | by apply Forall_fmap].
  simpl. unfold concatenate_out_axes, range.
  assert (Hseq : seq 0 ndim = seq 0 axis ++ axis :: seq (S axis) (ndim - S axis)).
  { replace (seq 0 ndim) with (seq 0 (axis + S (ndim - S axis))) by (f_equal; lia).
    by rewrite seq_app. }
  rewrite Hseq, foldM_app.
  destruct (foldM _ _ (seq 0 axis)) as [s|e]; simpl.
  - destruct (concatenate_check_axis_unpack treedefs_in leafshapes_in dimension s axis)
      as [[Hdc ->]|[Hdc ->]]; [|done..| |].
    + eapply Forall_impl; [exact Htd|]. simpl. intros; lia.
    + simpl. split; [by eexists|]. intros _ Hn. done.
    + simpl. split; [by eexists|]. done.
  - split; [by exists e|]. by intros [s [=]].
Qed.

End Concatenate_unpack.

Lemma concatenate_single_segment_axis_witness :
  let x : gmap Coords Ref.ndarray := {[ [0; 0] := Ref.array2 [[1%Q; 2%Q]] ]} in
  let y : gmap Coords Ref.ndarray := {[ [0; 0] := Ref.array2 [[3%Q; 4%Q]] ]} in
  is_Ok (TreeTrace_pure (PLeaf (Ref.array2 [[1%Q; 2%Q]])))
  ∧ concatenate_tree_rule [[TRIVIAL_TREEDEF; TRIVIAL_TREEDEF];
                           [TRIVIAL_TREEDEF; TRIVIAL_TREEDEF]]
      [[[[1]]; [[2]]]; [[[1]]; [[2]]]] [x; y] 0 = Err UnpackError
  ∧ is_Ok (lax_concatenate [Ref.array2 [[1%Q; 2%Q]]; Ref.array2 [[3%Q; 4%Q]]] 0).
Proof.
  intros x y. split; [by eexists|]. split; [|by eexists].
  apply (concatenate_single_segment_axis
           [[TRIVIAL_TREEDEF; TRIVIAL_TREEDEF]; [TRIVIAL_TREEDEF; TRIVIAL_TREEDEF]]
           [[[[1]]; [[2]]]; [[[1]]; [[2]]]] [x; y] 0 2 1).
  - discriminate.
  - by repeat constructor.
  - simpl. lia.
  - lia.
  - lia.
  - repeat constructor; by eexists.
  - by eexists.
  - intros (d1 & d2 & t1 & t2 & Ht1 & Ht2 & Hd1 & Hd2 & Hn1 & Hn2 & Hne).
    apply elem_of_cons in Ht1 as [->|Ht1];
      [|apply list_elem_of_singleton in Ht1 as ->]; simpl in Hd1; congruence.
Defined.

(** ** The transpose rule *)

Lemma mapM_index_Ok {A} (l : list A) (perm : list nat) :
  Forall (λ p, p < length l) perm → is_Ok (mapM (index l) perm).
Proof.
  intros Hall. apply mapM_is_Ok. intros p Hp. rewrite Forall_forall in Hall.
  destruct (lookup_lt_is_Some_2 l p (Hall p Hp)) as [x Hx]. exists x. by apply index_Ok.
Qed.

Lemma mapM_index_bound {A} (l : list A) (perm : list nat) (k : list A) :
  mapM (index l) perm = Ok k → Forall (λ p, p < length l) perm.
Proof.
  intros Hk. apply mapM_Ok in Hk. apply Forall_forall. intros p Hp.
  apply list_elem_of_lookup in Hp as [i Hi].
  destruct (Forall2_lookup_l _ _ _ _ _ Hk Hi) as (x & _ & Hx).
  apply index_Ok in Hx. by eapply lookup_lt_Some.
Qed.

(** Reading a tuple at the positions of a list that mentions every position
    loses nothing. *)
Lemma mapM_index_inj {A} (c c' : list A) (perm : list nat) (k : list A) :
  length c = length c' →
  (∀ a, a < length c → a ∈ perm) →
  mapM (index c) perm = Ok k → mapM (index c') perm = Ok k → c = c'.
Proof.
  intros Hlen Hall Hk Hk'. apply mapM_Ok in Hk, Hk'.
  apply list_eq_same_length with (length c); [done|done|].
  intros a x y Ha Hx Hy. apply Hall in Ha. apply list_elem_of_lookup in Ha as [i Hi].
  destruct (Forall2_lookup_l _ _ _ _ _ Hk Hi) as (z & Hz & Hxz).
  destruct (Forall2_lookup_l _ _ _ _ _ Hk' Hi) as (z' & Hz' & Hyz).
  apply index_Ok in Hxz, Hyz. congruence.
Qed.

Section Transpose.
Context {Arr DType : Type} `{!Kernels Arr DType}.
Abbreviation Leaves := (gmap Coords Arr).

Lemma transpose_tree_rule_fold (transpose_p : Arr → list nat → result Arr)
    (tds : list TreeDef) (ls : LeafShapes) (lv : Leaves) (perm : list nat) :
  transpose_tree_rule transpose_p [tds] [ls] [lv] perm =
    mapM (index tds) perm ≫= λ out_treedefs,
    mapM (index ls) perm ≫= λ out_leafshapes,
    foldM (λ d c,
             (mapM (index c) perm ≫= λ _,
              getitem lv c ≫= λ leaf,
              _axes_for_leaf ls c perm ≫= λ leaf_perm,
              transpose_p leaf leaf_perm) ≫= λ out,
             Ok (<[match mapM (index c) perm with Ok oc => oc | Err _ => [] end
                   := out]> d))
          ∅ (_iter_leaf_coords tds) ≫= λ out_leaves,
    Ok (out_treedefs, out_leafshapes, out_leaves).
Proof.
  unfold transpose_tree_rule. simpl.
  destruct (mapM (index tds) perm) as [otd|]; simpl; [|done].
  destruct (mapM (index ls) perm) as [ols|]; simpl; [|done].
  f_equal. apply foldM_ext_in. intros d c _.
  destruct (mapM (index c) perm) as [oc|]; simpl; [|done].
  destruct (getitem lv c) as [leaf|]; simpl; [|done].
  destruct (_axes_for_leaf ls c perm) as [dims|]; simpl; [|done].
  by destruct (transpose_p leaf dims).
Qed.

(** X11.  The transpose rule, for a permutation that mentions every axis of
    the operand.  The descriptors, the layouts and the block coordinates are
    permuted: the block of the result at the permuted coordinates of [c] is
    the result of the kernel on the block at [c], and there is no other
    block.  The kernel is always called with the identity permutation
    [0, 1, ..., n-1] of the dimensions of the block, because
    [_axes_for_leaf] lists the dimensions in increasing order whatever the
    order of [permutation]: the blocks are moved, their own dimensions are
    not permuted. *)
Theorem transpose_tree_rule_blocks (transpose_p : Arr → list nat → result Arr)
    (tds : list TreeDef) (ls : LeafShapes) (lv : Leaves) (permutation : list nat)
    (out_treedefs : list TreeDef) (out_leafshapes : LeafShapes) (out_leaves : Leaves) :
  (∀ axis, axis < length tds → axis ∈ permutation) →
  transpose_tree_rule transpose_p [tds] [ls] [lv] permutation
    = Ok (out_treedefs, out_leafshapes, out_leaves) →
  Forall2 (λ p treedef, tds !! p = Some treedef) permutation out_treedefs
  ∧ Forall2 (λ p shapes, ls !! p = Some shapes) permutation out_leafshapes
  ∧ (∀ c, c ∈ _iter_leaf_coords tds →
       ∃ out_coords leaf shape out,
         Forall2 (λ p x, c !! p = Some x) permutation out_coords
         ∧ lv !! c = Some leaf
         ∧ _leafshape ls c = Ok shape
         ∧ _axes_for_leaf ls c permutation = Ok (seq 0 (length shape))
         ∧ transpose_p leaf (seq 0 (length shape)) = Ok out
         ∧ out_leaves !! out_coords = Some out)
  ∧ (∀ out_coords, is_Some (out_leaves !! out_coords) →
       ∃ c, c ∈ _iter_leaf_coords tds
            ∧ Forall2 (λ p x, c !! p = Some x) permutation out_coords).
Proof.
  intros Hperm Hrule. rewrite transpose_tree_rule_fold in Hrule.
  apply bind_Ok in Hrule as (otd & Hotd & Hrule).
  apply bind_Ok in Hrule as (ols & Hols & Hrule).
  apply bind_Ok in Hrule as (olv & Hfold & [= <- <- <-]).
  pose proof (mapM_index_bound _ _ _ Hotd) as Hbound.
  assert (Hidx : ∀ l (k : list nat), mapM (index l) permutation = Ok k →
            Forall2 (λ p x, l !! p = Some x) permutation k).
  { intros l k Hk. apply mapM_Ok in Hk. eapply Forall2_impl; [exact Hk|].
    intros p x Hpx. by apply index_Ok. }
  set (key := λ c : Coords,
         match mapM (index c) permutation with Ok oc => oc | Err _ => [] end) in *.
  assert (Hkey : ∀ c, c ∈ _iter_leaf_coords tds → mapM (index c) permutation = Ok (key c)).
  { intros c Hc. apply elem_of_iter_leaf_coords, Forall2_length in Hc.
    destruct (mapM_index_Ok c permutation) as [oc Hoc]; [by rewrite Hc|].
    unfold key. by rewrite Hoc. }
  destruct (foldM_insert_lookup
              (λ c, mapM (index c) permutation ≫= λ _,
                    getitem lv c ≫= λ leaf,
                    _axes_for_leaf ls c permutation ≫= λ leaf_perm,
                    transpose_p leaf leaf_perm)
              key (_iter_leaf_coords tds) olv) as [H1 H2]; [|exact Hfold|].
  { apply NoDup_fmap_2_strong; [|apply NoDup_iter_leaf_coords].
    intros c c' Hc Hc' Heq. pose proof (Hkey c Hc) as Hk. pose proof (Hkey c' Hc') as Hk'.
    rewrite <- Heq in Hk'.
    apply elem_of_iter_leaf_coords, Forall2_length in Hc, Hc'.
    eapply mapM_index_inj; [congruence| |exact Hk|exact Hk'].
    intros a Ha. apply Hperm. lia. }
  split_and!.
  - apply mapM_Ok in Hotd. eapply Forall2_impl; [exact Hotd|].
    intros p x Hpx. by apply index_Ok.
  - apply mapM_Ok in Hols. eapply Forall2_impl; [exact Hols|].
    intros p x Hpx. by apply index_Ok.
  - intros c Hc. destruct (H1 c Hc) as (out & Hout & Hlook).
    apply bind_Ok in Hout as (oc & Hoc & Hout).
    apply bind_Ok in Hout as (leaf & Hleaf & Hout).
    apply bind_Ok in Hout as (dims & Hdims & Hout).
    apply getitem_Ok in Hleaf.
    pose proof Hdims as Hdims'. rewrite axes_for_leaf_segments in Hdims'.
    apply bind_Ok in Hdims' as (segs & Hsegs & [= <-]).
    pose proof (segments_at_length _ _ _ Hsegs) as Hseglen.
    pose proof Hc as Hclen. apply elem_of_iter_leaf_coords, Forall2_length in Hclen.
    rewrite leaf_axes_all in Hdims, Hout
      by (intros k Hk; apply Hperm; lia).
    exists (key c), leaf, (concat segs), out.
    split_and!; [by apply Hidx, Hkey| done | | done | done | done].
    by rewrite leafshape_segments, Hsegs.
  - intros oc [out Hout]. destruct (H2 oc out Hout) as (c & Hc & -> & _).
    exists c. split; [done|]. by apply Hidx, Hkey.
Qed.

End Transpose.

Lemma transpose_tree_rule_blocks_witness :
  let leaves : gmap Coords Ref.ndarray :=
    {[ [0; 0] := Examples.full [2; 3] 1; [0; 1] := Examples.full [2; 1] 2;
       [1; 0] := Examples.full [1; 3] 3; [1; 1] := Examples.full [1; 1] 4 ]} in
  let t := mkTreeTracer [Examples.treedef_ab; Examples.treedef_cd]
             [[[2]; [1]]; [[3]; [1]]] leaves in
  TreeTracer_init [Examples.treedef_ab; Examples.treedef_cd]
    [[[2]; [1]]; [[3]; [1]]] leaves = Ok t
  ∧ (∃ out_leaves,
       transpose_tree_rule Ref.transpose_p [treedefs t] [leafshapes t] [leaves] [1; 0]
         = Ok ([Examples.treedef_cd; Examples.treedef_ab], [[[3]; [1]]; [[2]; [1]]],
               out_leaves)
       ∧ out_leaves !! [0; 0] = Some (Examples.full [2; 3] 1)
       ∧ Ref.transpose_p (Examples.full [2; 3] 1) [0; 1] = Ok (Examples.full [2; 3] 1))
  ∧ process_primitive
      (λ treedefs_in leafshapes_in leaves_in,
         transpose_tree_rule Ref.transpose_p treedefs_in leafshapes_in leaves_in [1; 0])
      [t] = Err AssertionError.
Proof.
  intros leaves t. split; [reflexivity|]. split; [|reflexivity].
  destruct (transpose_tree_rule Ref.transpose_p [treedefs t] [leafshapes t] [leaves] [1; 0])
    as [[[otd ols] olv]|e] eqn:Hrule; [|by vm_compute in Hrule].
  destruct (transpose_tree_rule_blocks Ref.transpose_p (treedefs t) (leafshapes t) leaves
              [1; 0] otd ols olv)
    as (Htd & Hls & Hblocks & _); [|exact Hrule|].
  { intros axis Hax. simpl in Hax.
    destruct axis as [|[|axis]]; [repeat constructor..|lia]. }
  destruct (Hblocks [0; 0]) as (oc & leaf & shape & out & Hoc & Hleaf & Hshape & _ & Hout & Hlook).
  { vm_compute. repeat constructor. }
  apply Forall2_cons_inv_l in Hoc as (x1 & oc1 & [= <-] & Hoc & ->).
  apply Forall2_cons_inv_l in Hoc as (x2 & oc2 & [= <-] & Hoc & ->).
  apply Forall2_nil_inv_l in Hoc as ->.
  injection Hleaf as <-. injection Hshape as <-.
  apply Forall2_cons_inv_l in Htd as (d1 & otd1 & [= <-] & Htd & ->).
  apply Forall2_cons_inv_l in Htd as (d2 & otd2 & [= <-] & Htd & ->).
  apply Forall2_nil_inv_l in Htd as ->.
  apply Forall2_cons_inv_l in Hls as (s1 & ols1 & [= <-] & Hls & ->).
  apply Forall2_cons_inv_l in Hls as (s2 & ols2 & [= <-] & Hls & ->).
  apply Forall2_nil_inv_l in Hls as ->.
  exists olv. split; [reflexivity|]. split; [|reflexivity].
  rewrite Hlook. vm_compute in Hout. injection Hout as <-. reflexivity.
Defined.

(** ** The number of blocks that a reduction combines *)

Lemma length_filter_fmap {A B} (P : B → Prop) `{∀ y, Decision (P y)} (g : A → B)
    (l : list A) :
  length (filter P (g <$> l)) = length (filter (λ x, P (g x)) l).
Proof.
  induction l as [|x l IH]; [done|]. rewrite fmap_cons.
  destruct (decide (P (g x))).
  - rewrite !filter_cons_True by done. simpl. by rewrite IH.
  - rewrite !filter_cons_False by done. done.
Qed.

Lemma length_filter_ext {A} (P Q : A → Prop) `{∀ x, Decision (P x)} `{∀ x, Decision (Q x)}
    (l : list A) :
  (∀ x, x ∈ l → P x ↔ Q x) → length (filter P l) = length (filter Q l).
Proof.
  induction l as [|x l IH]; intros Hext; [done|].
  assert (Hl : length (filter P l) = length (filter Q l)).
  { apply IH. intros y Hy. apply Hext. by right. }
  destruct (decide (P x)) as [HP|HP].
  - rewrite !filter_cons_True; [simpl; by rewrite Hl|by apply Hext; [left|]|done].
  - rewrite !filter_cons_False; [done| |done]. intros HQ. apply HP, Hext; [by left|done].
Qed.

Lemma length_filter_False {A} (P : A → Prop) `{∀ x, Decision (P x)} (l : list A) :
  (∀ x, x ∈ l → ¬ P x) → length (filter P l) = 0.
Proof.
  intros Hn. rewrite filter_none; [done|]. by apply Forall_forall.
Qed.

(** The tuples of a product that [drop_at] sends to one tuple of the
    product of the remaining ranges are as many as the product of the
    lengths of the dropped ranges. *)
Lemma count_product_drop_at (axes : list nat) (rs : list (list nat)) (k : nat)
    (oc : Coords) :
  Forall NoDup rs →
  oc ∈ product (drop_at axes k rs) →
  length (filter (λ c, drop_at axes k c = oc) (product rs))
    = prod (length <$> keep_at axes k rs).
Proof.
  intros Hnd. revert k oc. induction Hnd as [|r rs Hr _ IH]; intros k oc Hoc.
  { simpl in *. apply list_elem_of_singleton in Hoc as ->. done. }
  cbn [product drop_at keep_at] in *. destruct (decide (k ∈ axes)) as [Hk|Hk].
  - rewrite fmap_cons. cbn [prod foldr]. fold (prod (length <$> keep_at axes (S k) rs)).
    rewrite <- (IH (S k) oc Hoc). clear Hr.
    induction r as [|x r IHr]; [done|].
    rewrite bind_cons, filter_app, length_app, IHr, length_filter_fmap. simpl.
    f_equal. apply length_filter_ext. intros c _. simpl. by rewrite decide_True.
  - apply list_elem_of_bind in Hoc as (x0 & Hoc & Hx0).
    apply list_elem_of_fmap in Hoc as (oc' & -> & Hoc').
    rewrite <- (IH (S k) oc' Hoc'). clear IH.
    induction Hr as [|x r Hx Hr IHr]; [by apply elem_of_nil in Hx0|].
    rewrite bind_cons, filter_app, length_app, length_filter_fmap.
    destruct (decide (x = x0)) as [->|Hne].
    + rewrite (length_filter_False _ (r ≫= _)).
      * rewrite Nat.add_0_r. apply length_filter_ext. intros c _. simpl.
        rewrite decide_False by done. split; [by intros [= ->]|by intros ->].
      * intros c Hc. apply list_elem_of_bind in Hc as (y & Hc & Hy).
        apply list_elem_of_fmap in Hc as (c' & -> & _). simpl.
        rewrite decide_False by done. intros [= -> _]. done.
    + apply elem_of_cons in Hx0 as [->|Hx0]; [done|]. rewrite IHr by done.
      rewrite (length_filter_False _ (product rs)); [done|].
      intros c _. simpl. rewrite decide_False by done. by intros [= ? _].
Qed.

Lemma keep_at_fmap {A B} (f : A → B) (axes : list nat) (k : nat) (l : list A) :
  keep_at axes k (f <$> l) = f <$> keep_at axes k l.
Proof.
  revert k. induction l as [|x l IH]; intros k; [done|].
  rewrite fmap_cons. simpl. destruct (decide (k ∈ axes)); by rewrite IH.
Qed.

Lemma elem_of_keep_at {A} (axes : list nat) (k : nat) (l : list A) (x : A) :
  x ∈ keep_at axes k l → x ∈ l.
Proof.
  revert k. induction l as [|y l IH]; intros k; [done|]. simpl.
  destruct (decide (k ∈ axes)).
  - intros [->|Hx]%elem_of_cons; [by left|right; by eapply IH].
  - intros Hx. right. by eapply IH.
Qed.

Lemma product_empty_range (rs : list (list nat)) : [] ∈ rs → product rs = [].
Proof.
  induction rs as [|r rs IH]; intros Hin; [by apply elem_of_nil in Hin|].
  simpl. apply elem_of_cons in Hin as [<-|Hin]; [done|]. rewrite IH by done.
  by induction r.
Qed.

Section Reducer_count.
Context {Arr DType : Type} `{!Kernels Arr DType}.
Abbreviation Leaves := (gmap Coords Arr).

(** X12.  How many blocks a reduction combines.  Every block coordinate
    of the result receives as many partially reduced blocks as the product
    of the numbers of leaves of the reduced axes.  So when every reduced
    axis has a single leaf, the result at the coordinates of [c] without
    the reduced axes is the kernel result on the block at [c], and the
    binary combiner plays no part; and when a reduced axis has no leaf while
    the result has a block coordinate, [reduce] is applied to an empty
    list and the rule raises TypeError. *)
Theorem reducer_tree_rule_contributions (prim : Arr → list nat → result Arr)
    (binop : Arr → Arr → result Arr) (tds : list TreeDef) (ls : LeafShapes)
    (lv : Leaves) (axes : list nat) :
  (∀ out_coords, out_coords ∈ _iter_leaf_coords (without_axes axes tds) →
     length (filter (λ c, without_axes axes c = out_coords) (_iter_leaf_coords tds))
       = prod (num_leaves <$> keep_at axes 0 tds))
  ∧ (Forall (λ treedef, num_leaves treedef = 1) (keep_at axes 0 tds) →
     ∀ state, reducer_tree_rule prim binop [tds] [ls] [lv] axes = Ok state →
       ∀ c, c ∈ _iter_leaf_coords tds →
         ∃ out, reduced_leaf prim ls lv axes c = Ok out
                ∧ state.2 !! without_axes axes c = Some out)
  ∧ ((∃ treedef, treedef ∈ keep_at axes 0 tds ∧ num_leaves treedef = 0) →
     _iter_leaf_coords (without_axes axes tds) ≠ [] →
     reducer_tree_rule prim binop [tds] [ls] [lv] axes = Err TypeError).
Proof.
  assert (Hcount : ∀ out_coords,
            out_coords ∈ _iter_leaf_coords (without_axes axes tds) →
            length (filter (λ c, without_axes axes c = out_coords) (_iter_leaf_coords tds))
              = prod (num_leaves <$> keep_at axes 0 tds)).
  { intros oc Hoc. unfold _iter_leaf_coords in *.
    rewrite without_axes_drop_at in Hoc.
    change (map (λ treedef, range (num_leaves treedef)) (drop_at axes 0 tds))
      with ((λ treedef, range (num_leaves treedef)) <$> drop_at axes 0 tds) in Hoc.
    rewrite <- drop_at_fmap in Hoc.
    rewrite (length_filter_ext _ (λ c, drop_at axes 0 c = oc))
      by (intros c _; by rewrite without_axes_drop_at).
    rewrite (count_product_drop_at axes _ 0 oc); [| |exact Hoc].
    - change (map (λ treedef, range (num_leaves treedef)) tds)
        with ((λ treedef, range (num_leaves treedef)) <$> tds).
      rewrite keep_at_fmap, <- list_fmap_compose. f_equal.
      apply list_fmap_ext. intros i td _. simpl. unfold range. by rewrite length_seq.
    - apply Forall_forall. intros r Hr. apply list_elem_of_fmap in Hr as (td & -> & _).
      apply NoDup_seq. }
  split_and!; [exact Hcount| |].
  - intros Hone [[otd ols] olv] Hrule c Hc. simpl.
    rewrite reducer_tree_rule_accumulate in Hrule.
    apply bind_Ok in Hrule as (olv' & Hacc & [= <- <- <-]).
    apply accumulate_group_reduce in Hacc.
    apply group_reduce_lookup in Hacc as (kvs & Hkvs & _ & Hl & _);
      [|apply NoDup_iter_leaf_coords].
    pose proof (without_axes_iter_leaf_coords axes tds c Hc) as Hoc.
    destruct (Hl _ Hoc) as (out & Hout & Hred).
    pose proof (contributions_filter (reduced_leaf prim ls lv axes) (without_axes axes)
                  _ _ (without_axes axes c) Hkvs) as Hfilter.
    assert (Hsingle : filter (λ x, without_axes axes x = without_axes axes c)
                        (_iter_leaf_coords tds) = [c]).
    { pose proof (Hcount _ Hoc) as Hlen.
      assert (Hprod : prod (num_leaves <$> keep_at axes 0 tds) = 1).
      { clear -Hone. induction Hone as [|td l Htd _ IH]; [done|].
        rewrite fmap_cons. unfold prod in *. simpl. rewrite IH, Htd. done. }
      rewrite Hprod in Hlen.
      assert (Hin : c ∈ filter (λ x, without_axes axes x = without_axes axes c)
                        (_iter_leaf_coords tds)) by by apply list_elem_of_filter.
      destruct (filter _ _) as [|c' [|c'' l]]; simpl in Hlen; [lia| |lia].
      by apply list_elem_of_singleton in Hin as ->. }
    rewrite Hsingle in Hfilter. simpl in Hfilter.
    apply bind_Ok in Hfilter as (v & Hv & [= Hcontrib]).
    rewrite <- Hcontrib in Hred. simpl in Hred. injection Hred as <-.
    by exists v.
  - intros (td & Htd & Hzero) Hne.
    rewrite reducer_tree_rule_accumulate.
    assert (Hempty : _iter_leaf_coords tds = []).
    { unfold _iter_leaf_coords. apply product_empty_range.
      apply list_elem_of_fmap. exists td. split; [by rewrite Hzero|].
      by eapply elem_of_keep_at. }
    rewrite Hempty. simpl.
    destruct (_iter_leaf_coords (without_axes axes tds)) as [|k keys] eqn:Hkeys; [done|].
    unfold reduce_nodes. rewrite mapM_cons.
    assert (Hget : getitem (empty_nodes (Arr:=Arr) (k :: keys)) k = Ok []).
    { apply getitem_Ok. rewrite empty_nodes_lookup. by rewrite decide_True by left. }
    rewrite Hget. done.
Qed.

End Reducer_count.

Lemma reducer_tree_rule_contributions_witness :
  let leaves : gmap Coords Ref.ndarray :=
    {[ [0; 0] := Examples.full [2; 3] 1; [0; 1] := Examples.full [2; 1] 2;
       [1; 0] := Examples.full [1; 3] 3; [1; 1] := Examples.full [1; 1] 4 ]} in
  length (filter (λ c, without_axes [0] c = [1])
                 (_iter_leaf_coords [Examples.treedef_ab; Examples.treedef_cd])) = 2
  ∧ reducer_tree_rule Ref.reduce_sum_p Ref.add_p [[TNode KList []; TRIVIAL_TREEDEF]]
      [[[]; [[2]]]] [leaves] [0] = Err TypeError.
Proof.
  intros leaves. split.
  - rewrite (proj1 (reducer_tree_rule_contributions Ref.reduce_sum_p Ref.add_p
               [Examples.treedef_ab; Examples.treedef_cd] [] leaves [0])).
    + reflexivity.
    + vm_compute. repeat constructor.
  - apply (proj2 (proj2 (reducer_tree_rule_contributions Ref.reduce_sum_p Ref.add_p
             [TNode KList []; TRIVIAL_TREEDEF] [[]; [[2]]] leaves [0]))).
    + exists (TNode KList []). split; [vm_compute; repeat constructor|reflexivity].
    + discriminate.
Defined.

(** ** The checks of the [dot_general] rule *)

Section Dot_general_check.
Context {Arr DType : Type} `{!Kernels Arr DType}.
Abbreviation Leaves := (gmap Coords Arr).

Lemma dot_general_check_pair (lt rt : list TreeDef) (ls rs : LeafShapes)
    (pair : nat * nat) :
  (let '(lhs_axis, rhs_axis) := pair in
   lhs_treedef ← index lt lhs_axis;
   rhs_treedef ← index rt rhs_axis;
   raise_if (bool_decide (lhs_treedef ≠ rhs_treedef)) ConflictingStructure;;
   lhs_shapes ← index ls lhs_axis;
   rhs_shapes ← index rs rhs_axis;
   raise_if (bool_decide (lhs_shapes ≠ rhs_shapes)) ConflictingShape) = Ok tt
  ↔ axes_match lt rt ls rs pair.
Proof.
  destruct pair as [la ra]. unfold axes_match. simpl. split.
  - intros H. apply bind_Ok in H as (d1 & Hd1 & H). apply bind_Ok in H as (d2 & Hd2 & H).
    apply bind_Ok in H as ([] & Hr1 & H). apply bind_Ok in H as (s1 & Hs1 & H).
    apply bind_Ok in H as (s2 & Hs2 & Hr2).
    apply raise_if_Ok, bool_decide_eq_false, dec_stable in Hr1, Hr2. subst d2 s2.
    apply index_Ok in Hd1, Hd2, Hs1, Hs2. by exists d1, s1.
  - intros (d & s & Hd1 & Hd2 & Hs1 & Hs2). unfold index.
    rewrite Hd1, Hd2. simpl. rewrite bool_decide_false by (intros Hn; by apply Hn).
    simpl. rewrite Hs1, Hs2. simpl. by rewrite bool_decide_false by (intros Hn; by apply Hn).
Qed.

(** X13.  The checks of the [dot_general] rule.  The rule requires the two
    tuples of batch dimensions to be equal (the unpacking of their set fails
    otherwise).  The loop over the batch axes and then the pairs of
    contracting axes passes exactly when each pair of axes exists in both
    operands with one descriptor and one layout; at the first pair that does
    not, the rule raises ConflictingStructure when the descriptors differ,
    and ConflictingShape when the descriptors agree and the layouts
    differ. *)
Theorem dot_general_tree_rule_checks (lt rt : list TreeDef) (ls rs : LeafShapes)
    (ll rl : Leaves) (lc rc : list nat) :
  (∀ lhs_batch rhs_batch, lhs_batch ≠ rhs_batch →
     dot_general_tree_rule [lt; rt] [ls; rs] [ll; rl] ((lc, rc), (lhs_batch, rhs_batch))
       = Err UnpackError)
  ∧ (∀ batch,
       dot_general_check lt rt ls rs batch lc rc = Ok tt ↔
       Forall (axes_match lt rt ls rs) (zip batch batch ++ zip lc rc))
  ∧ (∀ batch passed lhs_axis rhs_axis rest d1 d2 s1 s2,
       zip batch batch ++ zip lc rc = passed ++ (lhs_axis, rhs_axis) :: rest →
       Forall (axes_match lt rt ls rs) passed →
       lt !! lhs_axis = Some d1 → rt !! rhs_axis = Some d2 →
       ls !! lhs_axis = Some s1 → rs !! rhs_axis = Some s2 →
       (d1 ≠ d2 →
        dot_general_tree_rule [lt; rt] [ls; rs] [ll; rl] ((lc, rc), (batch, batch))
          = Err ConflictingStructure)
       ∧ (d1 = d2 → s1 ≠ s2 →
          dot_general_tree_rule [lt; rt] [ls; rs] [ll; rl] ((lc, rc), (batch, batch))
            = Err ConflictingShape)).
Proof.
  split_and!.
  - intros lb rb Hne. unfold dot_general_tree_rule.
    assert (Hset : pyset [lb; rb] = [lb; rb]).
    { unfold pyset. simpl. destruct (decide_rel elem_of lb [rb]) as [Hin|Hn].
      - by apply list_elem_of_singleton in Hin.
      - destruct (decide_rel elem_of rb []) as [Hin|_]; [by apply elem_of_nil in Hin|done]. }
    by rewrite Hset.
  - intros batch. unfold dot_general_check.
    rewrite (foldM_unit_Ok (λ pair : nat * nat, let '(lhs_axis, rhs_axis) := pair in _)).
    apply Forall_iff. intros pair. apply dot_general_check_pair.
  - intros batch passed la ra rest d1 d2 s1 s2 Hpairs Hpassed Hd1 Hd2 Hs1 Hs2.
    rewrite dot_general_tree_rule_accumulate. unfold dot_general_check. rewrite Hpairs.
    rewrite foldM_app.
    rewrite (proj2 (foldM_unit_Ok
               (λ pair : nat * nat, let '(lhs_axis, rhs_axis) := pair in _) passed)).
    2:{ eapply Forall_impl; [exact Hpassed|]. intros pair Hp.
        by apply dot_general_check_pair. }
    simpl. unfold index. rewrite Hd1, Hd2. simpl. split.
    + intros Hne. by rewrite bool_decide_true.
    + intros -> Hne. rewrite bool_decide_false by (intros Hn; by apply Hn). simpl.
      rewrite Hs1, Hs2. simpl. by rewrite bool_decide_true.
Qed.

End Dot_general_check.

Lemma dot_general_tree_rule_checks_witness :
  let x : gmap Coords Ref.ndarray := {[ [0] := Ref.scalar 1; [1] := Ref.array1 [2%Q] ]} in
  let y : gmap Coords Ref.ndarray := {[ [0] := Ref.scalar 1; [1] := Ref.scalar 2 ]} in
  dot_general_tree_rule [[Examples.treedef_ab]; [Examples.treedef_cd]]
    [[[[]; [1]]]; [[[]; []]]] [x; y] (([0], [0]), ([], [])) = Err ConflictingStructure
  ∧ dot_general_tree_rule [[Examples.treedef_ab]; [Examples.treedef_ab]]
      [[[[]; [1]]]; [[[]; []]]] [x; y] (([0], [0]), ([], [])) = Err ConflictingShape
  ∧ dot_general_tree_rule [[Examples.treedef_ab]; [Examples.treedef_ab]]
      [[[[]; [1]]]; [[[]; []]]] [x; y] (([0], [0]), ([0], [])) = Err UnpackError.
Proof.
  intros x y. split_and!.
  - apply (proj2 (proj2 (dot_general_tree_rule_checks [Examples.treedef_ab]
             [Examples.treedef_cd] [[[]; [1]]] [[[]; []]] x y [0] [0]))
             [] [] 0 0 [] Examples.treedef_ab Examples.treedef_cd [[]; [1]] [[]; []]);
      try reflexivity; [constructor|discriminate].
  - apply (proj2 (proj2 (dot_general_tree_rule_checks [Examples.treedef_ab]
             [Examples.treedef_ab] [[[]; [1]]] [[[]; []]] x y [0] [0]))
             [] [] 0 0 [] Examples.treedef_ab Examples.treedef_ab [[]; [1]] [[]; []]);
      try reflexivity; [constructor|discriminate].
  - apply (proj1 (dot_general_tree_rule_checks [Examples.treedef_ab]
             [Examples.treedef_ab] [[[]; [1]]] [[[]; []]] x y [0] [0])).
    discriminate.
Defined.

(** ** The n-ary rule on operands of one structure *)

Lemma max_list_constant (n : nat) (l : list nat) :
  l ≠ [] → Forall (λ x, x = n) l → max_list l = n.
Proof.
  intros Hne Hall. induction Hall as [|x l -> Hl IH]; [done|].
  simpl. destruct l as [|y l]; [simpl; lia|]. rewrite IH by done. lia.
Qed.

Lemma drop_at_nil {A} (k : nat) (l : list A) : drop_at [] k l = l.
Proof.
  revert k. induction l as [|x l IH]; intros k; [done|]. cbn [drop_at].
  destruct (decide (k ∈ [])) as [Hin|_]; [by apply elem_of_nil in Hin|]. by rewrite IH.
Qed.

Section Naryop_blockwise.
Context {Arr DType : Type} `{!Kernels Arr DType}.
Abbreviation Leaves := (gmap Coords Arr).

Lemma filter_scalar_leaves_no_scalar (tds : list TreeDef) (ls : LeafShapes)
    (lvs : list Leaves) :
  tds ≠ [] →
  _filter_scalar_leaves ((λ _, tds) <$> lvs) ((λ _, ls) <$> lvs) lvs
    = Ok ((λ _, tds) <$> lvs, (λ _, ls) <$> lvs, lvs, []).
Proof.
  intros Hne. unfold _filter_scalar_leaves.
  induction lvs as [|lv lvs IH] using rev_ind; [done|].
  rewrite !fmap_app. simpl.
  rewrite (zip_with_app _ ((λ _, ls) <$> lvs) [ls] lvs [lv]) by by rewrite length_fmap.
  rewrite zip_with_app by (rewrite length_zip_with, !length_fmap; lia).
  simpl. rewrite enumerate_snoc, foldM_app, IH. simpl.
  by destruct tds.
Qed.

Lemma naryop_out_axes_uniform (tds : list TreeDef) (ls : LeafShapes) (lvs : list Leaves) :
  lvs ≠ [] → length tds = length ls →
  Forall (λ s : list (list nat), length s = 1 → ∃ n, s = [[n]]) ls →
  naryop_out_axes ((λ _, tds) <$> lvs) ((λ _, ls) <$> lvs) (length tds) = Ok (tds, ls).
Proof.
  intros Hne Hlen Hsingle.
  assert (Htd : Forall (λ t : list TreeDef, length t = length tds) ((λ _, tds) <$> lvs)).
  { apply Forall_fmap, Forall_forall. by intros. }
  assert (Hls : Forall (λ l : LeafShapes, length l = length tds) ((λ _, ls) <$> lvs)).
  { apply Forall_fmap, Forall_forall. by intros. }
  assert (Hin_td : ∀ t, t ∈ (λ _ : Leaves, tds) <$> lvs ↔ t = tds).
  { intros t. rewrite list_elem_of_fmap. split; [by intros (? & -> & _)|].
    intros ->. destruct lvs as [|lv lvs]; [done|]. exists lv. split; [done|by left]. }
  assert (Hin_ls : ∀ l, l ∈ (λ _ : Leaves, ls) <$> lvs ↔ l = ls).
  { intros l. rewrite list_elem_of_fmap. split; [by intros (? & -> & _)|].
    intros ->. destruct lvs as [|lv lvs]; [done|]. exists lv. split; [done|by left]. }
  destruct (naryop_out_axes_prefix_Ok _ _ (length tds) (length tds) Htd Hls)
    as [[otd ols] Hout]; [done| |].
  { intros a _. split.
    - intros (d1 & d2 & t1 & t2 & Ht1 & Ht2 & Hd1 & Hd2 & _ & _ & Hd).
      apply Hin_td in Ht1, Ht2. congruence.
    - intros (s1 & s2 & l1 & l2 & Hl1 & Hl2 & Hs1 & Hs2 & _ & _ & Hs).
      apply Hin_ls in Hl1, Hl2. congruence. }
  rewrite Hout.
  unfold naryop_out_axes, range in Hout.
  destruct (foldM_append_lookup (naryop_check_axis ((λ _, tds) <$> lvs) ((λ _, ls) <$> lvs))
              fst (adopts_descriptor ((λ _, tds) <$> lvs)) ([], []) (otd, ols) (length tds))
    as [Hl1 Hq1]; [|done|exact Hout|].
  { intros s a s' Hs'. destruct (naryop_check_axis_Ok _ _ _ _ _ Hs')
      as (d & sh & -> & Hd & _). by exists d. }
  destruct (foldM_append_lookup (naryop_check_axis ((λ _, tds) <$> lvs) ((λ _, ls) <$> lvs))
              snd (adopts_layout ((λ _, ls) <$> lvs)) ([], []) (otd, ols) (length tds))
    as [Hl2 Hq2]; [|done|exact Hout|].
  { intros s a s' Hs'. destruct (naryop_check_axis_Ok _ _ _ _ _ Hs')
      as (d & sh & -> & _ & Hsh). by exists sh. }
  simpl in *. assert (otd = tds ∧ ols = ls) as [-> ->]; [|done]. split.
  - apply list_eq_same_length with (length tds); [done|done|].
    intros a d d0 Ha Hd Hd0. destruct (Hq1 a d Hd) as [Hall Hex].
    destruct (decide (d = TRIVIAL_TREEDEF)) as [->|Hnt].
    + destruct (Hall tds d0) as [->| ->]; [by apply Hin_td|done|done..].
    + destruct (Hex Hnt) as (t & Ht & Htd'). apply Hin_td in Ht. congruence.
  - apply list_eq_same_length with (length tds); [done|lia|].
    intros a s s0 Ha Hs Hs0. destruct (Hq2 a s Hs) as (Hall & Hex & Hone).
    destruct (decide (length s = 1)) as [H1|H1].
    + destruct (Hall ls s0) as [H0|H0]; [by apply Hin_ls|done| |done].
      rewrite Forall_forall in Hsingle.
      destruct (Hsingle s0) as [n ->]; [by eapply list_elem_of_lookup_2|done|].
      rewrite (Hone H1). do 2 f_equal. apply max_list_constant.
      * destruct lvs; [done|discriminate].
      * apply Forall_forall. intros x Hx. apply list_elem_of_In, in_map_iff in Hx
          as (l & <- & Hl). apply list_elem_of_In, Hin_ls in Hl as ->.
        rewrite Hs0. unfold _axis_length. simpl. lia.
    + destruct (Hex H1) as (l & Hl & Hls'). apply Hin_ls in Hl. congruence.
Qed.

Lemma naryop_fix_operand_same_layout (ls : LeafShapes) (lv : Leaves) :
  naryop_fix_operand (length ls) ls ls lv = Ok (ls, lv).
Proof.
  rewrite naryop_fix_operand_splits by done. unfold naryop_split_axes.
  rewrite filter_none; [done|]. apply Forall_forall. intros a _ [Hne _]. done.
Qed.

Lemma naryop_operand_leaf_same_layout (tds : list TreeDef) (ls : LeafShapes)
    (lv : Leaves) (c : Coords) :
  (∀ x, lax_squeeze x [] = Ok x) → (∀ x, lax_expand_dims x [] = Ok x) →
  Forall2 (λ treedef shapes, num_leaves treedef = length shapes) tds ls →
  Forall (λ s : list (list nat), s ≠ [[1]]) ls →
  c ∈ _iter_leaf_coords tds →
  naryop_operand_leaf ls c ls lv = getitem lv c.
Proof.
  intros Hsq Hex Hnum Hno1 Hc. unfold naryop_operand_leaf.
  apply elem_of_iter_leaf_coords in Hc.
  assert (Hrange : Forall2 (λ x shapes, x < length shapes) c ls).
  { clear -Hc Hnum. revert ls Hnum. induction Hc as [|x td c tds Hx _ IH];
      intros ls Hnum; inversion Hnum; subst; constructor; [lia|by apply IH]. }
  assert (Hin : mapM (λ '(axis, coord),
                        shapes ← index ls axis;
                        Ok (if decide (length shapes ≠ 1) then coord else 0))
                     (enumerate c) = Ok c).
  { apply mapM_Ok. apply Forall2_same_length_lookup_2; [by rewrite length_enumerate|].
    intros i [j x] y Hjx Hy. rewrite enumerate_lookup, Hy in Hjx.
    injection Hjx as <- <-.
    destruct (Forall2_lookup_l _ _ _ _ _ Hrange Hy) as (shapes & Hshapes & Hlt).
    unfold index. rewrite Hshapes. simpl. f_equal.
    destruct (decide (length shapes ≠ 1)) as [|Hone]; [done|]. lia. }
  rewrite Hin. simpl. destruct (getitem lv c) as [leaf|e]; simpl; [|done].
  assert (Hbd : (filter (λ ix : nat * list (list nat), ix.2 = [[1]]) (enumerate ls)).*1 = []).
  { rewrite filter_none; [done|]. apply Forall_forall. intros [i s] His.
    apply elem_of_enumerate in His. simpl. rewrite Forall_forall in Hno1.
    apply Hno1. by eapply list_elem_of_lookup_2. }
  rewrite Hbd. rewrite axes_for_leaf_segments.
  destruct (segments_at_in_range ls c Hrange) as [segs Hsegs].
  rewrite Hsegs. simpl. rewrite leaf_axes_none by (intros k _; apply not_elem_of_nil).
  rewrite Hsq. simpl. apply Hex.
Qed.

(** X14.  The n-ary rule on operands of positive rank that share their axis
    descriptors and layouts, when every axis that has a single segment has
    a one-dimensional one, of a length other than 1 (no axis is broadcast),
    and squeezing or expanding no dimension leaves a block as it is: the
    result has the axes of the operands, and its block at each coordinate
    of the iteration space is the kernel applied to the blocks of the
    operands at that coordinate, in the order of the operands.  The rule
    succeeds when those blocks are present and the kernel accepts them. *)
Theorem naryop_tree_rule_blockwise (prim : list Arr → result Arr)
    (tds : list TreeDef) (ls : LeafShapes) (lvs : list Leaves) :
  (∀ x, lax_squeeze x [] = Ok x) → (∀ x, lax_expand_dims x [] = Ok x) →
  tds ≠ [] → lvs ≠ [] →
  Forall2 (λ treedef shapes, num_leaves treedef = length shapes) tds ls →
  Forall (λ s : list (list nat), s ≠ [[1]] ∧ (length s = 1 → ∃ n, s = [[n]])) ls →
  (∀ state,
     naryop_tree_rule prim ((λ _, tds) <$> lvs) ((λ _, ls) <$> lvs) lvs = Ok state →
     ∃ out_leaves,
       state = (tds, ls, out_leaves)
       ∧ (∀ c, c ∈ _iter_leaf_coords tds →
            ∃ args out, Forall2 (λ (lv : Leaves) x, lv !! c = Some x) lvs args
                        ∧ prim args = Ok out
                        ∧ out_leaves !! c = Some out)
       ∧ (∀ c, is_Some (out_leaves !! c) → c ∈ _iter_leaf_coords tds))
  ∧ ((∀ c, c ∈ _iter_leaf_coords tds →
        ∃ args, Forall2 (λ (lv : Leaves) x, lv !! c = Some x) lvs args
                ∧ is_Ok (prim args)) →
     is_Ok (naryop_tree_rule prim ((λ _, tds) <$> lvs) ((λ _, ls) <$> lvs) lvs)).
Proof.
  intros Hsq Hex Htds Hlvs Hnum Hls.
  pose proof (Forall2_length _ _ _ Hnum) as Hlen.
  assert (Hrule :
    naryop_tree_rule prim ((λ _, tds) <$> lvs) ((λ _, ls) <$> lvs) lvs =
      foldM (λ d c, (mapM (λ lv : Leaves, getitem lv c) lvs ≫= prim)
                      ≫= λ out, Ok (<[c := out]> d))
            ∅ (_iter_leaf_coords tds)
      ≫= λ out_leaves, Ok (tds, ls, out_leaves)).
  { unfold naryop_tree_rule. rewrite filter_scalar_leaves_no_scalar by done. simpl.
    destruct ((λ _ : Leaves, tds) <$> lvs) as [|t0 tl] eqn:Htdin.
    { destruct lvs; [done|discriminate]. }
    rewrite <- Htdin.
    rewrite (pyset_constant _ (length tds)).
    2:{ rewrite Htdin. discriminate. }
    2:{ apply Forall_fmap, Forall_fmap, Forall_forall. by intros. }
    simpl. rewrite naryop_out_axes_uniform; [|done|done|].
    2:{ eapply Forall_impl; [exact Hls|]. by intros s [_ Hs]. }
    simpl.
    assert (Hfixed : mapM (λ '(leafshapes, leaves),
                             naryop_fix_operand (length tds) ls leafshapes leaves)
                          (zip ((λ _ : Leaves, ls) <$> lvs) lvs)
                     = Ok ((λ lv, (ls, lv)) <$> lvs)).
    { apply mapM_Ok. apply Forall2_same_length_lookup_2.
      { rewrite length_zip_with, !length_fmap. lia. }
      intros i [l lv] [l' lv'] Hi Hi'.
      apply lookup_zip_with_Some in Hi as (l1 & lv1 & [= <- <-] & Hl1 & Hlv1).
      rewrite list_lookup_fmap, Hlv1 in Hl1. rewrite list_lookup_fmap, Hlv1 in Hi'.
      simpl in Hl1, Hi'. injection Hl1 as <-. injection Hi' as <- <-.
      rewrite Hlen. apply naryop_fix_operand_same_layout. }
    rewrite Hfixed. simpl. f_equal. apply foldM_ext_in. intros d c Hc.
    assert (Hargs : mapM (λ '(leafshapes, leaves),
                            naryop_operand_leaf ls c leafshapes leaves)
                         ((λ lv, (ls, lv)) <$> lvs)
                    = mapM (λ lv : Leaves, getitem lv c) lvs).
    { clear Hfixed Htdin. induction lvs as [|lv lvs' IH]; [done|].
      rewrite fmap_cons, !mapM_cons.
      rewrite (naryop_operand_leaf_same_layout tds); [|done|done|done| |done].
      2:{ eapply Forall_impl; [exact Hls|]. by intros s [Hs _]. }
      destruct (getitem lv c); simpl; [|done].
      destruct lvs' as [|lv' lvs'']; [done|]. by rewrite IH. }
    rewrite Hargs. destruct (mapM _ lvs) as [args|e]; simpl; [|done].
    by destruct (prim args). }
  rewrite Hrule.
  assert (Hget : ∀ c args, mapM (λ lv : Leaves, getitem lv c) lvs = Ok args ↔
                   Forall2 (λ (lv : Leaves) x, lv !! c = Some x) lvs args).
  { intros c args. rewrite mapM_Ok. split; intros H0; (eapply Forall2_impl; [exact H0|]);
      intros lv x; by rewrite getitem_Ok. }
  split.
  - intros state Hstate. apply bind_Ok in Hstate as (olv & Hfold & [= <-]).
    exists olv. split; [done|].
    destruct (foldM_insert_lookup
                (λ c, mapM (λ lv : Leaves, getitem lv c) lvs ≫= prim) id
                (_iter_leaf_coords tds) olv) as [H1 H2]; [|exact Hfold|].
    { rewrite list_fmap_id. apply NoDup_iter_leaf_coords. }
    split.
    + intros c Hc. destruct (H1 c Hc) as (out & Hout & Hlook).
      apply bind_Ok in Hout as (args & Hargs & Hprim). apply Hget in Hargs.
      by exists args, out.
    + intros c [out Hout]. destruct (H2 c out Hout) as (c' & Hc' & -> & _). done.
  - intros Hall.
    destruct (foldM_insert_is_Ok
                (λ c, mapM (λ lv : Leaves, getitem lv c) lvs ≫= prim) id
                (_iter_leaf_coords tds) (∅ : Leaves)) as [olv Holv].
    { intros c Hc. destruct (Hall c Hc) as (args & Hargs & [out Hout]).
      apply Hget in Hargs. exists out. by rewrite Hargs. }
    unfold id in Holv. rewrite Holv. apply is_Ok_Ok.
Qed.

End Naryop_blockwise.

Lemma Ref_squeeze_nil (x : Ref.ndarray) : lax_squeeze x [] = Ok x.
Proof.
  destruct x as [d shape data]. simpl. unfold Ref.nd_squeeze. simpl.
  by rewrite without_axes_drop_at, drop_at_nil.
Qed.

Lemma Ref_expand_dims_nil (x : Ref.ndarray) : lax_expand_dims x [] = Ok x.
Proof. by destruct x. Qed.

Lemma naryop_tree_rule_blockwise_witness :
  let x : gmap Coords Ref.ndarray :=
    {[ [0] := Examples.int_scalar 0; [1] := Examples.int_array1 [1%Z; 2%Z] ]} in
  let y : gmap Coords Ref.ndarray :=
    {[ [0] := Examples.int_scalar 10; [1] := Examples.int_array1 [20%Z; 30%Z] ]} in
  ∃ out_leaves,
    naryop_tree_rule (Ref.nd_binop Qplus)
      [[Examples.treedef_ab]; [Examples.treedef_ab]] [[[[]; [2]]]; [[[]; [2]]]] [x; y]
      = Ok ([Examples.treedef_ab], [[[]; [2]]], out_leaves)
    ∧ out_leaves !! [0] = Some (Examples.int_scalar 10)
    ∧ out_leaves !! [1] = Some (Examples.int_array1 [21%Z; 32%Z]).
Proof.
  intros x y.
  destruct (naryop_tree_rule_blockwise (Ref.nd_binop Qplus) [Examples.treedef_ab]
              [[[]; [2]]] [x; y]) as [Hinv _].
  - exact Ref_squeeze_nil.
  - exact Ref_expand_dims_nil.
  - discriminate.
  - discriminate.
  - by repeat constructor.
  - repeat constructor; [discriminate|discriminate].
  - destruct (naryop_tree_rule (Ref.nd_binop Qplus)
                [[Examples.treedef_ab]; [Examples.treedef_ab]]
                [[[[]; [2]]]; [[[]; [2]]]] [x; y]) as [state|e] eqn:Hrule;
      [|by vm_compute in Hrule].
    destruct (Hinv state Hrule) as (out_leaves & -> & Hblocks & _).
    exists out_leaves. split; [reflexivity|].
    assert (Hat : ∀ c bx by' out,
              c ∈ _iter_leaf_coords [Examples.treedef_ab] →
              x !! c = Some bx → y !! c = Some by' →
              Ref.nd_binop Qplus [bx; by'] = Ok out → out_leaves !! c = Some out).
    { intros c bx by' out Hc Hx Hy Hout.
      destruct (Hblocks c Hc) as (args & out' & Hargs & Hprim & Hlook).
      apply Forall2_cons_inv_l in Hargs as (a1 & args1 & Ha1 & Hargs & ->).
      apply Forall2_cons_inv_l in Hargs as (a2 & args2 & Ha2 & Hargs & ->).
      apply Forall2_nil_inv_l in Hargs as ->. congruence. }
    split.
    + apply (Hat [0] (Examples.int_scalar 0) (Examples.int_scalar 10));
        [vm_compute; repeat constructor|reflexivity..].
    + apply (Hat [1] (Examples.int_array1 [1%Z; 2%Z]) (Examples.int_array1 [20%Z; 30%Z]));
        [vm_compute; repeat constructor|reflexivity..].
Defined.

(** ** The blocks of a concatenation *)


Section Concatenate_blocks.
Context {Arr DType : Type} `{!Kernels Arr DType}.
Abbreviation Leaves := (gmap Coords Arr).



End Concatenate_blocks.


(** ** One split keeps every block *)

Lemma foldl_insert_dict_of {V} (kvs0 kvs : list (Coords * V)) :
  foldl (λ d kv, <[kv.1 := kv.2]> d) (dict_of kvs0) kvs = dict_of (kvs0 ++ kvs).
Proof. unfold dict_of. by rewrite foldl_app. Qed.

(** A loop that enters several bindings per step builds the dictionary of
    all the bindings, in their order. *)
Lemma foldM_insert_many {A V} (g : A → result (list (Coords * V)))
    (kvs0 : list (Coords * V)) (l : list A) (d : gmap Coords V) :
  foldM (λ d x, g x ≫= λ kvs, Ok (foldl (λ d kv, <[kv.1 := kv.2]> d) d kvs))
        (dict_of kvs0) l = Ok d →
  ∃ kvss, Forall2 (λ x kvs, g x = Ok kvs) l kvss ∧ d = dict_of (kvs0 ++ concat kvss).
Proof.
  revert kvs0. induction l as [|x l IH]; intros kvs0 Hfold.
  { injection Hfold as <-. exists []. split; [constructor|]. simpl. by rewrite app_nil_r. }
  simpl in Hfold. apply bind_Ok in Hfold as (d1 & Hstep & Hfold).
  apply bind_Ok in Hstep as (kvs & Hkvs & [= <-]).
  rewrite foldl_insert_dict_of in Hfold.
  destruct (IH _ Hfold) as (kvss & Hall & ->).
  exists (kvs :: kvss). split; [by constructor|]. simpl. by rewrite app_assoc.
Qed.

Lemma NoDup_concat_keys {A V} (P : A → Coords → Prop) (l : list A)
    (kvss : list (list (Coords * V))) :
  NoDup l →
  Forall2 (λ x kvs, NoDup kvs.*1 ∧ ∀ k, k ∈ kvs.*1 → P x k) l kvss →
  (∀ x y k, x ∈ l → y ∈ l → P x k → P y k → x = y) →
  NoDup (concat kvss).*1
  ∧ ∀ k, k ∈ (concat kvss).*1 → ∃ x, x ∈ l ∧ P x k.
Proof.
  intros Hnd Hall. induction Hall as [|x kvs l kvss [Hkvs HP] _ IH]; intros Hinj.
  { split; [constructor|]. intros k Hk. by apply elem_of_nil in Hk. }
  apply NoDup_cons in Hnd as [Hx Hnd].
  destruct IH as [IH1 IH2]; [done|intros y z k Hy Hz; apply Hinj; by right|].
  simpl. rewrite fmap_app. split.
  - apply NoDup_app. split_and!; [done| |done].
    intros k Hk Hk'. destruct (IH2 k Hk') as (y & Hy & HPy).
    assert (x = y) as -> by (apply (Hinj x y k); [by left|by right|by apply HP|done]).
    done.
  - intros k [Hk|Hk]%elem_of_app.
    + exists x. split; [by left|by apply HP].
    + destruct (IH2 k Hk) as (y & Hy & HPy). exists y. split; [by right|done].
Qed.

Section Split_lossless.
Context {Arr DType : Type} `{!Kernels Arr DType}.
Abbreviation Leaves := (gmap Coords Arr).

(** X16.  One call of [_split_leaves] loses no block.  When it succeeds,
    the split axis has one segment of dimension one, every block of the
    iteration space of the given layout is present and is cut by
    [_split_leaf] along the physical dimension of the axis, and the result
    holds piece [i] of the block at [c] at the coordinate of [c] with [i] in
    the place of the index of the split axis; it holds nothing else. *)
Theorem split_leaves_pieces (leafshapes : LeafShapes) (leaves leaves' : Leaves)
    (axis : nat) (shapes : list (list nat)) :
  _split_leaves leafshapes leaves axis shapes = Ok leaves' →
  (∃ n, leafshapes !! axis = Some [[n]])
  ∧ (∀ c, c ∈ _iter_leaf_coords2 leafshapes →
       ∃ leaf segs pieces,
         leaves !! c = Some leaf
         ∧ segments_at leafshapes c = Ok segs
         ∧ _split_leaf leaf (length (concat (take axis segs))) shapes = Ok pieces
         ∧ ∀ i piece, pieces !! i = Some piece →
             leaves' !! (take axis c ++ [i] ++ drop (S axis) c) = Some piece)
  ∧ (∀ coords, is_Some (leaves' !! coords) →
       ∃ c i, c ∈ _iter_leaf_coords2 leafshapes
              ∧ coords = take axis c ++ [i] ++ drop (S axis) c).
Proof.
  intros Hsplit.
  destruct (split_leaves_Ok_check _ _ _ _ _ Hsplit) as [n Hn].
  split; [by exists n|]. split; [|by apply (split_leaves_keys _ _ _ _ _ Hsplit)].
  unfold _split_leaves in Hsplit.
  apply bind_Ok in Hsplit as (axis_shapes & _ & Hsplit).
  apply bind_Ok in Hsplit as ([] & _ & Hfold).
  set (key := λ (c : Coords) (i : nat), take axis c ++ [i] ++ drop (S axis) c).
  set (g := λ c, getitem leaves c ≫= λ leaf,
                 _axes_for_leaf leafshapes c [axis] ≫= λ leaf_axes,
                 unpack1 leaf_axes ≫= λ leaf_axis,
                 _split_leaf leaf leaf_axis shapes ≫= λ new_leaves,
                 Ok ((λ ix : nat * Arr, (key c ix.1, ix.2)) <$> enumerate new_leaves)).
  rewrite (foldM_ext_in _
             (λ d c, g c ≫= λ kvs, Ok (foldl (λ d kv, <[kv.1 := kv.2]> d) d kvs)))
    in Hfold.
  2:{ intros d c _. unfold g.
      destruct (getitem leaves c) as [leaf|]; simpl; [|done].
      destruct (_axes_for_leaf leafshapes c [axis]) as [dims|]; simpl; [|done].
      destruct (unpack1 dims) as [dim|]; simpl; [|done].
      destruct (_split_leaf leaf dim shapes) as [pieces|]; simpl; [|done].
      f_equal. generalize (enumerate pieces) as l. intros l. revert d.
      induction l as [|[i x] l IH]; intros d; [done|]. simpl. apply IH. }
  destruct (foldM_insert_many g [] _ _ Hfold) as (kvss & Hall & ->). simpl.
  assert (Hzero : ∀ c, c ∈ _iter_leaf_coords2 leafshapes →
            length c = length leafshapes ∧ c !! axis = Some 0).
  { intros c Hc. apply elem_of_iter_leaf_coords2 in Hc.
    split; [by eapply Forall2_length|].
    destruct (Forall2_lookup_r _ _ _ _ _ Hc Hn) as (x & Hx & Hlt).
    simpl in Hlt. rewrite Hx. f_equal. lia. }
  assert (Hax : axis < length leafshapes) by by eapply lookup_lt_Some.
  destruct (NoDup_concat_keys (λ c k, ∃ i, k = key c i) (_iter_leaf_coords2 leafshapes) kvss)
    as [Hnd _].
  - unfold _iter_leaf_coords2. apply NoDup_product, Forall_fmap, Forall_forall.
    intros s _. apply NoDup_seq.
  - eapply Forall2_impl; [exact Hall|]. intros c kvs Hkvs. unfold g in Hkvs.
    apply bind_Ok in Hkvs as (leaf & _ & Hkvs). apply bind_Ok in Hkvs as (dims & _ & Hkvs).
    apply bind_Ok in Hkvs as (dim & _ & Hkvs).
    apply bind_Ok in Hkvs as (pieces & _ & [= <-]).
    rewrite <- list_fmap_compose. split.
    + apply NoDup_fmap_2_strong.
      * intros [i x] [j y] Hi Hj Heq. simpl in Heq. unfold key in Heq.
        apply app_inv_head in Heq. injection Heq as ->.
        apply elem_of_enumerate in Hi, Hj. congruence.
      * apply NoDup_alt. intros i j [i' x] Hi Hj. rewrite enumerate_lookup in Hi, Hj.
        destruct (pieces !! i); [|done]. destruct (pieces !! j); [|done].
        simpl in *. congruence.
    + intros k Hk. apply list_elem_of_fmap in Hk as ([i x] & -> & _). by exists i.
  - intros c c' k Hc Hc' [i ->] [i' Heq].
    destruct (Hzero c Hc) as [Hl Hz], (Hzero c' Hc') as [Hl' Hz'].
    apply list_eq_same_length with (length leafshapes); [done|done|].
    intros a x y Ha Hx Hy. destruct (decide (a = axis)) as [->|Hne]; [congruence|].
    assert (Hk : key c i !! a = key c' i' !! a) by by rewrite Heq.
    unfold key in Hk. rewrite !lookup_replace_middle in Hk by (done || lia). congruence.
  - intros c Hc. apply list_elem_of_lookup in Hc as [j Hj].
    destruct (Forall2_lookup_l _ _ _ _ _ Hall Hj) as (kvs & Hkvs & Hg).
    unfold g in Hg.
    apply bind_Ok in Hg as (leaf & Hleaf & Hg). apply bind_Ok in Hg as (dims & Hdims & Hg).
    apply bind_Ok in Hg as (dim & Hdim & Hg).
    apply bind_Ok in Hg as (pieces & Hpieces & [= <-]).
    apply getitem_Ok in Hleaf. apply unpack1_Ok in Hdim.
    rewrite axes_for_leaf_segments in Hdims.
    apply bind_Ok in Hdims as (segs & Hsegs & [= <-]).
    assert (Hc : c ∈ _iter_leaf_coords2 leafshapes) by by eapply list_elem_of_lookup_2.
    destruct (Hzero c Hc) as [Hl Hz].
    destruct (segments_at_lookup _ _ _ _ _ _ Hsegs Hz Hn) as [Hseg _]. simpl in Hseg.
    rewrite (leaf_axes_single _ _ _ Hseg) in Hdim. simpl in Hdim. injection Hdim as <-.
    exists leaf, segs, pieces. split_and!; [done..|].
    intros i piece Hi. apply dict_of_lookup_Some; [done|].
    apply list_elem_of_In, in_concat. eexists. split.
    + apply list_elem_of_In. by eapply list_elem_of_lookup_2.
    + apply list_elem_of_In, list_elem_of_fmap. exists (i, piece).
      split; [done|]. by apply elem_of_enumerate.
Qed.

End Split_lossless.

Lemma split_leaves_pieces_witness :
  let leaves : gmap Coords Ref.ndarray :=
    {[ [0; 0] := Ref.array2 [[1%Q; 2%Q; 3%Q]; [4%Q; 5%Q; 6%Q]] ]} in
  ∃ leaves',
    _split_leaves [[[2]]; [[3]]] leaves 1 [[]; [2]] = Ok leaves'
    ∧ leaves' !! [0; 0] = Some (Ref.NDArray Ref.float32 [2] [1%Q; 4%Q])
    ∧ leaves' !! [0; 1] = Some (Ref.array2 [[2%Q; 3%Q]; [5%Q; 6%Q]]).
Proof.
  intros leaves.
  destruct (_split_leaves [[[2]]; [[3]]] leaves 1 [[]; [2]]) as [leaves'|e] eqn:Hsplit;
    [|by vm_compute in Hsplit].
  exists leaves'. split; [reflexivity|].
  destruct (split_leaves_pieces _ _ _ _ _ Hsplit) as (_ & Hpieces & _).
  destruct (Hpieces [0; 0]) as (leaf & segs & pieces & Hleaf & Hsegs & Hcut & Hat).
  { vm_compute. repeat constructor. }
  injection Hleaf as <-. injection Hsegs as <-.
  vm_compute in Hcut. injection Hcut as <-.
  split; [exact (Hat 0 _ eq_refl)|exact (Hat 1 _ eq_refl)].
Defined.

(** ** Callable arguments *)

Lemma apply_callables_inv {A} (callable : A → bool) (callable_transform : A → A)
    (args : list A) (callables : list (nat * A)) (out_args : list A) :
  _apply_callables callable callable_transform args = (callables, out_args) →
  out_args = filter (λ a, callable a = false) args
  ∧ callables.*2 = callable_transform <$> filter (λ a, callable a = true) args
  ∧ Forall (λ ix, ∃ a, args !! ix.1 = Some a ∧ callable a = true
                       ∧ ix.2 = callable_transform a) callables
  ∧ length out_args = length (filter (λ b, b = false) (callable <$> args))
  ∧ length callables = length (filter (λ b, b = true) (callable <$> args))
  ∧ (∀ j i x, callables !! j = Some (i, x) → i ≤ length out_args + j)
  ∧ ∀ dyn_args, length dyn_args = length out_args →
      _partial_args callables dyn_args
        = merge_by_mask (callable <$> args) callables.*2 dyn_args.
Proof.
  unfold _apply_callables, _partial_args. revert callables out_args.
  induction args as [|a args IH] using rev_ind; intros callables out_args Hfold.
  { injection Hfold as <- <-. split_and!; try done. intros [|] Hd; done. }
  rewrite enumerate_snoc, foldl_app in Hfold.
  destruct (foldl _ _ (enumerate args)) as [cs os] eqn:Hpre.
  destruct (IH cs os eq_refl) as (Hos & Hcs & Hpos & Hl1 & Hl2 & Hbound & Hmerge).
  clear IH. simpl in Hfold.
  assert (Hlen : length args = length os + length cs).
  { rewrite Hl1, Hl2, <- (length_fmap callable args).
    generalize (callable <$> args) as m. intros m.
    induction m as [|[] m IHm]; [done|..].
    - rewrite filter_cons_False, filter_cons_True by done. simpl. lia.
    - rewrite filter_cons_True, filter_cons_False by done. simpl. lia. }
  rewrite fmap_app, !filter_app. simpl.
  destruct (callable a) eqn:Ha.
  - injection Hfold as <- <-.
    rewrite (filter_cons_False (λ a, callable a = false)) by (by rewrite Ha).
    rewrite (filter_cons_True (λ a, callable a = true)) by done.
    rewrite (filter_cons_False (λ b, b = false)) by done.
    rewrite (filter_cons_True (λ b, b = true)) by done.
    rewrite !filter_nil, !app_nil_r, !fmap_app, !length_app. simpl.
    split_and!; [done|by rewrite Hcs| |done|lia| |].
    + apply Forall_app. split.
      * eapply Forall_impl; [exact Hpos|]. intros [i x] (b & Hb & Hcb & Hx).
        simpl in *. exists b.
        split; [|done]. by apply lookup_app_l_Some.
      * constructor; [|done]. simpl.
        exists a. by rewrite list_lookup_middle.
    + intros j i x Hj. apply lookup_app_Some in Hj as [Hj|[Hge Hj]]; [by eapply Hbound|].
      apply list_lookup_singleton_Some in Hj as [Hj [= <- <-]]. lia.
    + intros dyn Hdyn. rewrite foldl_app. simpl. rewrite Hmerge by done.
      pose proof (merge_by_mask_snoc (callable <$> args) (cs.*2) dyn true
                    (callable_transform a)) as Hm.
      simpl in Hm. rewrite Hm by (rewrite ?length_fmap; congruence).
      rewrite <- list_insert_at_end. f_equal.
      rewrite merge_by_mask_length by (rewrite ?length_fmap; congruence).
      by rewrite length_fmap.
  - injection Hfold as <- <-.
    rewrite (filter_cons_True (λ a, callable a = false)) by done.
    rewrite (filter_cons_False (λ a, callable a = true)) by (by rewrite Ha).
    rewrite (filter_cons_True (λ b, b = false)) by done.
    rewrite (filter_cons_False (λ b, b = true)) by done.
    rewrite !filter_nil, !app_nil_r, !length_app. simpl.
    split_and!; [by rewrite Hos|done| |lia|done| |].
    + eapply Forall_impl; [exact Hpos|]. intros [i x] (b & Hb & Hcb & Hx).
      simpl in *. exists b.
      split; [|done]. by apply lookup_app_l_Some.
    + intros j i x Hj. specialize (Hbound j i x Hj). lia.
    + intros dyn Hdyn. destruct dyn as [|d dyn _] using rev_ind.
      { simpl in Hdyn. lia. }
      rewrite length_app in Hdyn. simpl in Hdyn.
      rewrite foldl_insert_at_snoc by (intros j i x Hj; specialize (Hbound j i x Hj); lia).
      rewrite Hmerge by lia.
      pose proof (merge_by_mask_snoc (callable <$> args) (cs.*2) dyn false d) as Hm.
      simpl in Hm. rewrite Hm by (rewrite ?length_fmap; lia). done.
Qed.

Lemma merge_by_mask_filter {A} (p : A → bool) (f : A → A) (l : list A) :
  merge_by_mask (p <$> l) (f <$> filter (λ a, p a = true) l)
                (filter (λ a, p a = false) l)
    = (λ a, if p a then f a else a) <$> l.
Proof.
  induction l as [|a l IH]; [done|]. rewrite !fmap_cons. destruct (p a) eqn:Ha.
  - rewrite (filter_cons_True (λ a, p a = true)) by done.
    rewrite (filter_cons_False (λ a, p a = false)) by (by rewrite Ha).
    rewrite fmap_cons. simpl. by rewrite IH.
  - rewrite (filter_cons_False (λ a, p a = true)) by (by rewrite Ha).
    rewrite (filter_cons_True (λ a, p a = false)) by done.
    simpl. by rewrite IH.
Qed.

(** X18.  The callable arguments of a vectorized function.
    [_apply_callables] separates the callable arguments, transformed and
    with their positions, from the other arguments, which keep their order;
    [_partial_args] puts the callables back at their positions.  So the
    wrapped function is called with the transformed callables at the
    positions of the callable arguments and with the values given for the
    other arguments at the other positions, in their order; given the other
    arguments themselves, it is called with the original argument list in
    which every callable is transformed. *)
Theorem apply_callables_partial_args {A} (callable : A → bool)
    (callable_transform : A → A) (args : list A) :
  let '(callables, out_args) := _apply_callables callable callable_transform args in
  out_args = filter (λ a, callable a = false) args
  ∧ callables.*2 = callable_transform <$> filter (λ a, callable a = true) args
  ∧ Forall (λ ix, ∃ a, args !! ix.1 = Some a ∧ callable a = true
                       ∧ ix.2 = callable_transform a) callables
  ∧ _partial_args callables out_args
    = (λ a, if callable a then callable_transform a else a) <$> args
  ∧ ∀ dyn_args, length dyn_args = length out_args →
      _partial_args callables dyn_args
        = merge_by_mask (callable <$> args) callables.*2 dyn_args.
Proof.
  destruct (_apply_callables callable callable_transform args) as [callables out_args]
    eqn:Happly.
  destruct (apply_callables_inv _ _ _ _ _ Happly)
    as (Hos & Hcs & Hpos & _ & _ & _ & Hmerge).
  split_and!; [done|done|done| |done].
  - rewrite Hmerge by done. rewrite Hcs, Hos. apply merge_by_mask_filter.
Qed.

Lemma apply_callables_partial_args_witness :
  let callable := λ a : nat + nat, match a with inr _ => true | inl _ => false end in
  let callable_transform := λ a : nat + nat,
    match a with inr f => inr (S f) | inl x => inl x end in
  _apply_callables callable callable_transform [inl 5; inr 10; inl 6; inr 20]
    = ([(1, inr 11); (3, inr 21)], [inl 5; inl 6])
  ∧ _partial_args [(1, inr 11); (3, inr 21)] [inl 7; inl 8]
    = [inl 7; inr 11; inl 8; inr 21].
Proof.
  intros callable callable_transform. split; [reflexivity|].
  pose proof (apply_callables_partial_args callable callable_transform
                [inl 5; inr 10; inl 6; inr 20]) as H.
  change (_apply_callables callable callable_transform [inl 5; inr 10; inl 6; inr 20])
    with ([(1, @inr nat nat 11); (3, inr 21)], [@inl nat nat 5; inl 6]) in H.
  destruct H as (_ & _ & _ & _ & H). rewrite H by reflexivity. reflexivity.
Defined.

(** ** The blocks of a tracer tile its logical shape *)

Lemma prod_app (a b : list nat) : prod (a ++ b) = prod a * prod b.
Proof.
  unfold prod. induction a as [|x a IH]; simpl; [lia|]. rewrite IH. lia.
Qed.

Lemma sum_list_bind {A} (h : A → nat) (g : A → list A) (l : list A) :
  sum_list (h <$> (l ≫= g)) = sum_list ((λ c, sum_list (h <$> g c)) <$> l).
Proof.
  induction l as [|x l IH]; [done|].
  rewrite bind_cons, fmap_app, fmap_cons, sum_list_with_app. simpl. by rewrite IH.
Qed.

Lemma sum_list_mul_r (h : list nat) (a : nat) :
  sum_list ((λ x, x * a) <$> h) = sum_list h * a.
Proof.
  induction h as [|x h IH]; [done|].
  change (x * a + sum_list ((λ x, x * a) <$> h) = (x + sum_list h) * a).
  rewrite IH. lia.
Qed.

Lemma fmap_seq_lookup {A B} (f : nat → B) (g : A → B) (l : list A) :
  (∀ i x, l !! i = Some x → f i = g x) → f <$> seq 0 (length l) = g <$> l.
Proof.
  induction l as [|x l IH] using rev_ind; intros Hfg; [done|].
  rewrite length_app. simpl. rewrite Nat.add_1_r, seq_S, !fmap_app. simpl.
  rewrite IH.
  - f_equal. f_equal. apply Hfg. by rewrite list_lookup_middle.
  - intros i y Hy. apply Hfg. by apply lookup_app_l_Some.
Qed.

Lemma segments_at_app_l (leafshapes more : LeafShapes) (coords : Coords) :
  length coords ≤ length leafshapes →
  segments_at (leafshapes ++ more) coords = segments_at leafshapes coords.
Proof.
  intros Hlen. unfold segments_at. apply mapM_ext_in. intros [k x] Hkx. simpl.
  apply elem_of_enumerate in Hkx. apply lookup_lt_Some in Hkx.
  unfold index. rewrite lookup_app_l by lia. done.
Qed.

(** The sizes of the shapes that a layout gives to the blocks add up to the
    product of the lengths of the axes. *)
Lemma leafshape_sizes_tile (leafshapes : LeafShapes) :
  sum_list ((λ c, match _leafshape leafshapes c with
                  | Ok s => prod s
                  | Err _ => 0
                  end) <$> _iter_leaf_coords2 leafshapes)
    = prod (_axis_length <$> leafshapes).
Proof.
  induction leafshapes as [|shapes leafshapes IH] using rev_ind; [done|].
  unfold _iter_leaf_coords2. rewrite map_app. simpl. rewrite product_snoc.
  fold (_iter_leaf_coords2 leafshapes).
  rewrite sum_list_bind, fmap_app, prod_app. simpl.
  rewrite Nat.mul_1_r, <- IH, <- sum_list_mul_r.
  rewrite <- list_fmap_compose. f_equal. apply list_fmap_ext. intros k c Hc.
  apply list_elem_of_lookup_2, elem_of_iter_leaf_coords2, Forall2_length in Hc.
  simpl. rewrite Nat.mul_comm. unfold _axis_length. rewrite <- sum_list_mul_r.
  change (map prod shapes) with (prod <$> shapes).
  rewrite <- !list_fmap_compose. f_equal. unfold range.
  apply fmap_seq_lookup. intros i s Hs. simpl.
  rewrite !leafshape_segments, segments_at_snoc, segments_at_app_l by lia.
  destruct (segments_at leafshapes c) as [segs|e]; simpl; [|done].
  unfold index. rewrite Hc, list_lookup_middle by done. simpl.
  rewrite Hs. simpl.
  unfold _concat_tuple. rewrite concat_app, prod_app. simpl.
  rewrite app_nil_r. lia.
Qed.

Section Tiling.
Context {Arr DType : Type} `{!Kernels Arr DType}.
Abbreviation Leaves := (gmap Coords Arr).

(** X20.  The blocks of a tracer tile its logical shape.  For a tracer that
    passes the constructor's assertions, the blocks at the coordinates of
    its iteration space are all present, and their numbers of elements add
    up to the number of elements of the logical shape ([aval]). *)
Theorem tracer_blocks_tile (tds : list TreeDef) (ls : LeafShapes) (lv : Leaves)
    (t : TreeTracer) :
  TreeTracer_init tds ls lv = Ok t →
  ∃ blocks,
    mapM (getitem (leaves t)) (_iter_leaf_coords (treedefs t)) = Ok blocks
    ∧ sum_list (map (λ x, prod (np_shape x)) blocks) = prod (aval_shape t).
Proof.
  intros Hinit. apply TreeTracer_init_Ok in Hinit as (-> & Hlen & Hnum & _ & Hblocks).
  simpl.
  destruct (Forall2_exists_mapM (getitem lv) (_iter_leaf_coords tds)) as [blocks Hb].
  { intros c Hc. destruct (Hblocks c Hc) as (leaf & Hleaf & _).
    exists leaf. by apply getitem_Ok. }
  exists blocks. apply mapM_Ok in Hb as Hb'. split; [by apply mapM_Ok|].
  unfold aval_shape. simpl.
  change (map _axis_length ls) with (_axis_length <$> ls).
  rewrite <- leafshape_sizes_tile.
  assert (Hiter : _iter_leaf_coords2 ls = _iter_leaf_coords tds).
  { unfold _iter_leaf_coords2, _iter_leaf_coords. f_equal.
    clear -Hnum. induction Hnum as [|td shapes tds ls Hn _ IH]; [done|].
    simpl. by rewrite IH, Hn. }
  rewrite Hiter. f_equal.
  change (map (λ x, prod (np_shape x)) blocks) with ((λ x, prod (np_shape x)) <$> blocks).
  symmetry. apply list_eq_Forall2, Forall2_fmap.
  apply Forall2_same_length_lookup_2; [by eapply Forall2_length|].
  intros i c block Hc Hblock.
  destruct (Forall2_lookup_l _ _ _ _ _ Hb Hc) as (block' & Hblock' & Hget).
  rewrite Hblock in Hblock'. injection Hblock' as <-. apply getitem_Ok in Hget.
  destruct (Hblocks c) as (leaf & Hleaf & Hshape); [by eapply list_elem_of_lookup_2|].
  rewrite Hget in Hleaf. injection Hleaf as <-. by rewrite Hshape.
Qed.

End Tiling.

Lemma tracer_blocks_tile_witness :
  let leaves : gmap Coords Ref.ndarray :=
    {[ [0; 0] := Examples.full [2; 3] 1; [0; 1] := Examples.full [2; 1] 2;
       [1; 0] := Examples.full [1; 3] 3; [1; 1] := Examples.full [1; 1] 4 ]} in
  ∃ t blocks,
    TreeTracer_init [Examples.treedef_ab; Examples.treedef_cd]
      [[[2]; [1]]; [[3]; [1]]] leaves = Ok t
    ∧ mapM (getitem leaves) (_iter_leaf_coords [Examples.treedef_ab; Examples.treedef_cd])
      = Ok blocks
    ∧ sum_list (map (λ x, prod (np_shape x)) blocks) = 12.
Proof.
  intros leaves.
  set (t := mkTreeTracer [Examples.treedef_ab; Examples.treedef_cd]
              [[[2]; [1]]; [[3]; [1]]] leaves).
  assert (Hinit : TreeTracer_init [Examples.treedef_ab; Examples.treedef_cd]
                    [[[2]; [1]]; [[3]; [1]]] leaves = Ok t) by reflexivity.
  destruct (tracer_blocks_tile _ _ _ t Hinit) as (blocks & Hblocks & Hsum).
  exists t, blocks. split; [exact Hinit|]. split; [exact Hblocks|exact Hsum].
Defined.

(** ** Lowering a tracer *)

Lemma forallb_zip_Forall2 {A B} (f : A → B → bool) (l : list A) (k : list B) :
  length l = length k →
  forallb (λ '(x, y), f x y) (zip l k) = true ↔ Forall2 (λ x y, f x y = true) l k.
Proof.
  revert k. induction l as [|x l IH]; intros [|y k] Hlen; try discriminate Hlen.
  - split; [constructor|done].
  - simpl. rewrite andb_true_iff, IH by (simpl in Hlen; lia). split.
    + intros [Hx Hl]. by constructor.
    + intros H. apply Forall2_cons_1 in H. done.
Qed.

Lemma is_trivial_axis_true (treedef : TreeDefObject) (shapes : list (list nat)) :
  is_trivial_axis treedef shapes = true ↔
    treedef = TRIVIAL_TREEDEF_object ∧ ∃ n, shapes = [[n]].
Proof.
  unfold is_trivial_axis. rewrite andb_true_iff. split.
  - intros [Htd Hs]. destruct treedef; [|discriminate Htd]. split; [done|].
    destruct shapes as [|s [|? ?]]; try discriminate Hs.
    apply bool_decide_eq_true in Hs. destruct s as [|n [|? ?]]; try discriminate Hs.
    by exists n.
  - intros [-> [n ->]]. done.
Qed.

Section Full_lower.
Context {Arr DType : Type} `{!Kernels Arr DType}.
Variable core_full_lower : Arr → Arr.

(** X21.  [full_lower] on a tracer that passes the constructor's
    assertions, with its descriptor objects.  When some axis is not trivial
    the tracer is returned as it is; this is so as soon as one descriptor is
    not the module's [TRIVIAL_TREEDEF] object, whatever its value, as in
    every tracer that [convert_vectorized_tree] makes, also from a bare
    array.  When every axis is trivial, the tracer holds a block at the
    coordinate of zeros, whose shape is the logical shape; if that is the
    only entry of the dictionary, the result is the lowered block; if the
    dictionary has other entries, which the constructor does not exclude,
    the unpacking raises ValueError. *)
Theorem full_lower_valid (objects : list TreeDefObject) (t : @TreeTracer Arr) :
  is_Ok (TreeTracer_init (treedefs t) (leafshapes t) (leaves t)) →
  object_value <$> objects = treedefs t →
  (Forall2 (λ treedef shapes, is_trivial_axis treedef shapes = true)
           objects (leafshapes t) →
     ∃ value,
       leaves t !! replicate (length (treedefs t)) 0 = Some value
       ∧ np_shape value = aval_shape t
       ∧ (size (leaves t) = 1 →
            full_lower core_full_lower objects t = Ok (inl (core_full_lower value)))
       ∧ (size (leaves t) ≠ 1 →
            full_lower core_full_lower objects t = Err UnpackError))
  ∧ (¬ Forall2 (λ treedef shapes, is_trivial_axis treedef shapes = true)
               objects (leafshapes t) →
     full_lower core_full_lower objects t = Ok (inr t))
  ∧ ((∃ value, other_object value ∈ objects) →
     full_lower core_full_lower objects t = Ok (inr t)).
Proof.
  destruct t as [tds ls lv]. simpl. intros [t0 Hinit] Hobjects.
  apply TreeTracer_init_Ok in Hinit as (_ & Hlen & _ & _ & Hblocks).
  assert (Hlen' : length objects = length ls).
  { rewrite <- Hlen, <- Hobjects. by rewrite length_fmap. }
  unfold full_lower. simpl. rewrite bool_decide_true by done. simpl.
  pose proof (forallb_zip_Forall2 is_trivial_axis objects ls Hlen') as Hall.
  assert (Hself : ¬ Forall2 (λ treedef shapes, is_trivial_axis treedef shapes = true)
                      objects ls →
                  (if forallb (λ '(treedef, shapes), is_trivial_axis treedef shapes)
                              (zip objects ls)
                   then unpack1 (map_to_list lv).*2 ≫= λ value,
                        Ok (inl (core_full_lower value))
                   else Ok (inr (mkTreeTracer tds ls lv)))
                  = Ok (inr (mkTreeTracer tds ls lv))).
  { intros Hn. destruct (forallb _ _) eqn:Hf; [|done].
    exfalso. apply Hn. by apply Hall. }
  split_and!.
  - intros Htriv. rewrite (proj2 Hall Htriv).
    assert (Htds : tds = replicate (length tds) TRIVIAL_TREEDEF).
    { rewrite <- Hobjects. rewrite length_fmap. clear -Htriv.
      induction Htriv as [|td s tds ls Hx _ IH]; [done|].
      apply is_trivial_axis_true in Hx as [-> _]. simpl. by rewrite <- IH. }
    destruct (Hblocks (replicate (length tds) 0)) as (value & Hvalue & Hshape).
    { pose proof (iter_leaf_coords_trivial (length tds)) as Hit.
      rewrite <- Htds in Hit. rewrite Hit. by left. }
    exists value. split_and!; [done| | |].
    + assert (Hs : _leafshape ls (replicate (length tds) 0)
                   = Ok (aval_shape (mkTreeTracer tds ls lv))).
      { unfold aval_shape. simpl. clear -Htriv Hlen Hlen'.
        rewrite leafshape_segments.
        assert (Hsegs : segments_at ls (replicate (length tds) 0)
                        = Ok ((λ n, [n]) <$> map _axis_length ls)).
        { unfold segments_at. apply mapM_Ok. apply Forall2_same_length_lookup_2.
          { rewrite length_enumerate, length_replicate, length_fmap, length_map.
            done. }
          intros i [j x] y Hjx Hy. rewrite enumerate_lookup in Hjx.
          destruct (replicate (length tds) 0 !! i) as [x'|] eqn:Hx; simplify_eq/=.
          apply lookup_replicate in Hx as [-> Hi].
          destruct (lookup_lt_is_Some_2 objects j) as [td Htd]; [lia|].
          destruct (Forall2_lookup_l _ _ _ _ _ Htriv Htd) as (shapes & Hshapes & Hx).
          apply is_trivial_axis_true in Hx as [_ [n ->]].
          rewrite list_lookup_fmap in Hy.
          change (map _axis_length ls) with (_axis_length <$> ls) in Hy.
          rewrite list_lookup_fmap, Hshapes in Hy. simpl in Hy. injection Hy as <-.
          unfold index. rewrite Hshapes. simpl. f_equal. f_equal.
          unfold _axis_length, prod. simpl. lia. }
        rewrite Hsegs. simpl. f_equal. unfold _concat_tuple.
        apply (concat_singletons (map _axis_length ls)). }
      rewrite Hshape in Hs. by injection Hs.
    + intros Hsize. rewrite <- length_map_to_list in Hsize.
      apply elem_of_map_to_list in Hvalue.
      destruct (map_to_list lv) as [|[k v] [|? ?]]; try discriminate Hsize.
      apply list_elem_of_singleton in Hvalue. injection Hvalue as <- <-. done.
    + intros Hsize. rewrite <- length_map_to_list in Hsize.
      destruct (map_to_list lv) as [|[k v] [|? ?]]; [done| |done].
      simpl in Hsize. done.
  - exact Hself.
  - intros [value Hin]. apply Hself. intros Htriv.
    apply list_elem_of_lookup in Hin as [i Hi].
    destruct (Forall2_lookup_l _ _ _ _ _ Htriv Hi) as (shapes & _ & Hx).
    by apply is_trivial_axis_true in Hx as [[=] _].
Qed.

End Full_lower.

(** A lifted array is lowered; the tracer that [convert_vectorized_tree]
    makes from the same array is not: its descriptor is the trivial one, but
    not the module's object. *)
Lemma full_lower_valid_witness :
  let x := Examples.full [3] 1 in
  let t := mkTreeTracer [TRIVIAL_TREEDEF] [[[3]]]
             ({[ [0] := x ]} : gmap Coords Ref.ndarray) in
  TreeTrace_pure (PLeaf x) = Ok t
  ∧ full_lower (λ y, y) (convert_leaf_array_objects x) t = Ok (inl x)
  ∧ (convert_vectorized_tree (PLeaf x) ≫= λ '(treedefs, leafshapes, leaves),
       TreeTracer_init treedefs leafshapes leaves) = Ok t
  ∧ full_lower (λ y, y) (convert_vectorized_tree_objects (PLeaf x)) t = Ok (inr t).
Proof.
  intros x t.
  assert (Hinit : is_Ok (TreeTracer_init (treedefs t) (leafshapes t) (leaves t))).
  { exists t. reflexivity. }
  split; [reflexivity|]. split; [|split; [reflexivity|]].
  - assert (Hobjects : object_value <$> convert_leaf_array_objects x = treedefs t)
      by reflexivity.
    destruct (full_lower_valid (λ y, y) (convert_leaf_array_objects x) t Hinit Hobjects)
      as [Htriv _].
    destruct Htriv as (value & Hvalue & _ & Hlower & _).
    { repeat constructor. }
    rewrite Hlower by reflexivity. f_equal. f_equal.
    unfold t in Hvalue. simpl in Hvalue.
    apply lookup_singleton_Some in Hvalue as [_ <-]. reflexivity.
  - assert (Hobjects : object_value <$> convert_vectorized_tree_objects (PLeaf x)
                       = treedefs t) by reflexivity.
    destruct (full_lower_valid (λ y, y) (convert_vectorized_tree_objects (PLeaf x)) t
                Hinit Hobjects) as (_ & _ & Hself).
    apply Hself. exists TLeaf. by left.
Defined.

(** ** Flattening a tracer *)

Section Flatten_tracer.
Context {Arr DType : Type} `{!Kernels Arr DType}.
Abbreviation Leaves := (gmap Coords Arr).

Lemma dict_of_zip_lookup {V W} (kvs : list (Coords * V)) (ys : list W)
    (i : nat) (k : Coords) (x : V) :
  NoDup kvs.*1 → length ys = length kvs → kvs !! i = Some (k, x) →
  dict_of (zip kvs.*1 ys) !! k = ys !! i.
Proof.
  intros Hnd Hlen Hi.
  destruct (lookup_lt_is_Some_2 ys i) as [y Hy].
  { rewrite Hlen. by eapply lookup_lt_Some. }
  rewrite Hy. apply dict_of_lookup_Some.
  - rewrite fst_zip; [done|]. rewrite length_fmap. lia.
  - apply list_elem_of_lookup. exists i. apply lookup_zip_with_Some.
    exists k, y. split_and!; [done| |done].
    by rewrite list_lookup_fmap, Hi.
Qed.

Lemma dict_of_zip_None {V W} (kvs : list (Coords * V)) (ys : list W) (k : Coords) :
  length ys = length kvs → k ∉ kvs.*1 → dict_of (zip kvs.*1 ys) !! k = None.
Proof.
  intros Hlen Hk. apply dict_of_lookup_None.
  rewrite fst_zip; [done|]. rewrite length_fmap. lia.
Qed.

Lemma dict_of_is_Some {V} (kvs : list (Coords * V)) (k : Coords) :
  NoDup kvs.*1 → is_Some (dict_of kvs !! k) ↔ k ∈ kvs.*1.
Proof.
  intros Hnd. split.
  - intros [v Hv]. destruct (decide (k ∈ kvs.*1)) as [|Hn]; [done|].
    by rewrite dict_of_lookup_None in Hv.
  - intros Hin. apply list_elem_of_fmap in Hin as ([k' v] & -> & Hin).
    exists v. by apply dict_of_lookup_Some.
Qed.

Lemma dict_of_size_NoDup {V} (kvs : list (Coords * V)) :
  NoDup kvs.*1 → size (dict_of kvs) = length kvs.
Proof.
  induction kvs as [|[k v] kvs IH] using rev_ind; intros Hnd; [done|].
  rewrite fmap_app in Hnd. apply NoDup_app in Hnd as (Hnd & Hdisj & _).
  rewrite dict_of_snoc, length_app. simpl.
  rewrite map_size_insert_None.
  - rewrite IH by done. lia.
  - apply dict_of_lookup_None. intros Hin. apply (Hdisj k Hin). by left.
Qed.

(** X17.  Flattening and rebuilding a tracer, the items of whose dictionary
    are [items], in the order of their insertion.  For a tracer that passes
    the constructor's assertions, [_flatten_tracer] gives the values in that
    order, one for each block, and [_unflatten_tracer] on these values gives
    the tracer back.  On other values, one for each block and each of the
    shape of the block it replaces, [_unflatten_tracer] gives a tracer of
    the same descriptors and layout whose dictionary has the same keys,
    the key inserted at position [i] holding the [i]-th value. *)
Theorem flatten_unflatten_tracer (items : list (Coords * Arr)) (t : @TreeTracer Arr) :
  is_Ok (TreeTracer_init (treedefs t) (leafshapes t) (leaves t)) →
  NoDup items.*1 → dict_of items = leaves t →
  let '(xs, tracer_treedef) := _flatten_tracer items t in
  length xs = size (leaves t)
  ∧ (∀ i k x, items !! i = Some (k, x) → xs !! i = Some x)
  ∧ _unflatten_tracer tracer_treedef xs = Ok t
  ∧ ∀ ys, Forall2 (λ x y, np_shape y = np_shape x) xs ys →
      ∃ t', _unflatten_tracer tracer_treedef ys = Ok t'
        ∧ treedefs t' = treedefs t ∧ leafshapes t' = leafshapes t
        ∧ (∀ k, is_Some (leaves t' !! k) ↔ is_Some (leaves t !! k))
        ∧ ∀ i k x, items !! i = Some (k, x) → leaves t' !! k = ys !! i.
Proof.
  destruct t as [tds ls m]. simpl. intros [t0 Hinit] Hnd Hitems.
  apply TreeTracer_init_Ok in Hinit as (-> & Hlen & Hnum & Hsize & Hblocks).
  assert (Hval : ∀ i k x, items !! i = Some (k, x) → items.*2 !! i = Some x).
  { intros i k x Hi. by rewrite list_lookup_fmap, Hi. }
  assert (Hin : ∀ k x, m !! k = Some x → ∃ i, items !! i = Some (k, x)).
  { intros k x Hk. rewrite <- Hitems in Hk.
    assert (Hk' : k ∈ items.*1) by (apply (dict_of_is_Some items k Hnd); by eexists).
    apply list_elem_of_lookup in Hk' as [i Hi].
    rewrite list_lookup_fmap in Hi.
    destruct (items !! i) as [[k' x']|] eqn:Hi'; [|done]. injection Hi as ->.
    exists i. rewrite Hi'. do 2 f_equal.
    rewrite (dict_of_lookup_Some items k x' Hnd) in Hk;
      [congruence|by eapply list_elem_of_lookup_2]. }
  assert (Hsame : dict_of (zip items.*1 items.*2) = m).
  { rewrite zip_fst_snd. exact Hitems. }
  split_and!.
  - rewrite length_fmap, <- Hitems. symmetry. by apply dict_of_size_NoDup.
  - exact Hval.
  - rewrite Hsame. by apply TreeTracer_init_Ok.
  - intros ys Hys.
    assert (Hlys : length ys = length items).
    { apply Forall2_length in Hys. by rewrite length_fmap in Hys. }
    set (m' := dict_of (zip items.*1 ys)).
    assert (Hat : ∀ i k x, items !! i = Some (k, x) → m' !! k = ys !! i).
    { intros i k x Hi. by eapply dict_of_zip_lookup. }
    assert (Hdom : ∀ k, is_Some (m' !! k) ↔ is_Some (m !! k)).
    { intros k. unfold m'. rewrite <- Hitems, !dict_of_is_Some; [|done|].
      - rewrite fst_zip; [done|]. rewrite length_fmap. lia.
      - rewrite fst_zip; [done|]. rewrite length_fmap. lia. }
    exists (mkTreeTracer tds ls m'). split_and!; [|done|done|exact Hdom|exact Hat].
    apply TreeTracer_init_Ok. split_and!; [done|done|done| |].
    + intros Hz. apply Hsize. apply map_size_empty_iff in Hz.
      apply map_size_empty_iff. apply map_eq. intros k. rewrite lookup_empty.
      destruct (m !! k) eqn:Hk; [|done]. exfalso.
      destruct (proj2 (Hdom k)) as [y Hy]; [by rewrite Hk|].
      rewrite Hz, lookup_empty in Hy. done.
    + intros coords Hc. destruct (Hblocks coords Hc) as (leaf & Hleaf & Hshape).
      destruct (Hin _ _ Hleaf) as [i Hi].
      destruct (lookup_lt_is_Some_2 ys i) as [y Hy].
      { rewrite Hlys. by eapply lookup_lt_Some. }
      exists y. split; [by rewrite (Hat _ _ _ Hi)|].
      rewrite Hshape. f_equal.
      eapply (Forall2_lookup_lr _ _ _ i leaf y) in Hys; [done| |done].
      by apply (Hval i coords).
Qed.

End Flatten_tracer.

(** A tracer whose dictionary was filled in the order [[1]], [[0]]: the
    values come in that order, and replacement values go to the keys in that
    order. *)
Lemma flatten_unflatten_tracer_witness :
  let a := Examples.full [2] 1 in
  let b := Examples.full [1] 2 in
  let items := [([1], b); ([0], a)] in
  let t := mkTreeTracer [Examples.treedef_ab] [[[2]; [1]]] (dict_of items) in
  (_flatten_tracer items t).1 = [b; a]
  ∧ _unflatten_tracer (_flatten_tracer items t).2 [b; a] = Ok t
  ∧ ∃ t', _unflatten_tracer (_flatten_tracer items t).2
            [Examples.full [1] 7; Examples.full [2] 8] = Ok t'
          ∧ leaves t' !! [1] = Some (Examples.full [1] 7)
          ∧ leaves t' !! [0] = Some (Examples.full [2] 8).
Proof.
  intros a b items t.
  assert (Hinit : is_Ok (TreeTracer_init (treedefs t) (leafshapes t) (leaves t))).
  { exists t. reflexivity. }
  assert (Hnd : NoDup items.*1).
  { apply NoDup_cons. split; [|apply NoDup_singleton].
    intros Hin. apply list_elem_of_singleton in Hin. discriminate. }
  pose proof (flatten_unflatten_tracer items t Hinit Hnd eq_refl) as H.
  unfold _flatten_tracer in *. simpl fst. simpl snd.
  destruct H as (_ & _ & Hsame & Hother).
  split; [reflexivity|]. split; [exact Hsame|].
  destruct (Hother [Examples.full [1] 7; Examples.full [2] 8])
    as (t' & Ht' & _ & _ & _ & Hat).
  { repeat constructor. }
  exists t'. split; [exact Ht'|]. split.
  - exact (Hat 0 [1] b eq_refl).
  - exact (Hat 1 [0] a eq_refl).
Defined.

(** ** The broadcast rule *)

Lemma foldB_app {A S} (f : S → A → broadcast_result S) (s : S) (l1 l2 : list A) :
  foldB f s (l1 ++ l2) = foldB f s l1 ≫= λ s', foldB f s' l2.
Proof.
  revert s. induction l1 as [|x l1 IH]; intros s; simpl; [done|].
  destruct (f s x); simpl; [apply IH|done..].
Qed.

Lemma setitem_Ok {A} (l : list A) (i : nat) (x : A) :
  i < length l → setitem l i x = Ok (<[i := x]> l).
Proof. intros Hi. unfold setitem. by rewrite decide_True. Qed.

Lemma zip_fmap_l_diag {A B} (f : A → B) (l : list A) :
  zip (f <$> l) l = (λ x, (f x, x)) <$> l.
Proof. induction l as [|x l IH]; [done|]. simpl. f_equal. exact IH. Qed.

(** The entries of a list at increasing positions are what is left when the
    other positions are dropped. *)
Lemma drop_at_gather {A} (axes bdims : list nat) (k : nat) (l xs : list A) :
  StronglySorted lt bdims →
  (∀ j, k ≤ j < k + length l → (j ∈ axes ↔ j ∉ bdims)) →
  Forall2 (λ d x, k ≤ d ∧ l !! (d - k) = Some x) bdims xs →
  drop_at axes k l = xs.
Proof.
  revert k bdims xs. induction l as [|x l IH]; intros k bdims xs Hsorted Haxes Hxs.
  { destruct Hxs as [|d y bdims xs [_ Hd]]; [done|]. by destruct (d - k). }
  simpl. destruct (decide (k ∈ axes)) as [Hin|Hnin].
  - apply (IH (S k) bdims); [done| |].
    + intros j Hj. apply Haxes. simpl. lia.
    + assert (Hk : k ∉ bdims) by (apply Haxes; [simpl; lia|done]).
      clear -Hxs Hk. induction Hxs as [|d y bdims xs [Hle Hd] _ IHxs]; [constructor|].
      apply not_elem_of_cons in Hk as [Hne Hk]. constructor; [|by apply IHxs].
      split; [lia|]. replace (d - k) with (S (d - S k)) in Hd by lia. done.
  - assert (Hk : k ∈ bdims).
    { destruct (decide (k ∈ bdims)) as [|Hn]; [done|].
      exfalso. apply Hnin, Haxes; [simpl; lia|done]. }
    destruct Hxs as [|d y bdims xs [Hle Hd] Hxs]; [by apply elem_of_nil in Hk|].
    apply StronglySorted_inv in Hsorted as [Hsorted Hlt].
    assert (d = k) as ->.
    { apply elem_of_cons in Hk as [->|Hk]; [done|].
      rewrite Forall_forall in Hlt. specialize (Hlt k Hk). lia. }
    rewrite Nat.sub_diag in Hd. injection Hd as ->. f_equal.
    apply (IH (S k) bdims); [done| |].
    + intros j Hj. rewrite (Haxes j) by (simpl; lia).
      rewrite not_elem_of_cons. split; [tauto|]. intros Hn. split; [lia|done].
    + clear -Hxs Hlt. induction Hxs as [|d z bdims xs [Hle Hd] _ IHxs]; [constructor|].
      apply Forall_cons in Hlt as [Hkd Hlt]. constructor; [|by apply IHxs].
      split; [lia|]. replace (d - k) with (S (d - S k)) in Hd by lia. done.
Qed.

Lemma gather_exists {A} (bdims : list nat) (l : list A) :
  Forall (λ d, d < length l) bdims →
  ∃ xs, Forall2 (λ d x, l !! d = Some x) bdims xs.
Proof.
  induction 1 as [|d bdims Hd _ [xs IH]]; [by exists []|].
  destruct (lookup_lt_is_Some_2 l d Hd) as [x Hx]. exists (x :: xs). by constructor.
Qed.

Lemma elem_of_unmapped (bdims : list nat) (n j : nat) :
  j ∈ filter (λ d, d ∉ bdims) (seq 0 n) ↔ j < n ∧ j ∉ bdims.
Proof. rewrite list_elem_of_filter, elem_of_seq. split; intros []; split; (done || lia). Qed.

Lemma drop_at_unmapped {A} (bdims : list nat) (l xs : list A) :
  StronglySorted lt bdims →
  Forall2 (λ d x, l !! d = Some x) bdims xs →
  drop_at (filter (λ d, d ∉ bdims) (seq 0 (length l))) 0 l = xs.
Proof.
  intros Hsorted Hxs. apply (drop_at_gather _ bdims); [done| |].
  - intros j Hj. rewrite elem_of_unmapped. split; [tauto|]. intros Hn. split; [lia|done].
  - eapply Forall2_impl; [exact Hxs|]. intros d x Hd. rewrite Nat.sub_0_r.
    split; [lia|done].
Qed.

Section Broadcast.
Context {Arr DType : Type} `{!Kernels Arr DType}.
Abbreviation Leaves := (gmap Coords Arr).

Lemma resized_container_app (tds : list TreeDefObject) (ls : LeafShapes)
    (shape bdims : list nat) (d i : nat) :
  resized_container tds ls shape bdims i →
  resized_container tds ls shape (bdims ++ [d]) i.
Proof.
  intros (td & lsi & d' & s & Htd & Hls & Hd & Hs & Htriv & Hlen).
  exists td, lsi, d', s. split_and!; try done. by apply lookup_app_l_Some.
Qed.

(** The first loop of the rule. *)
Lemma broadcast_axes_loop (tds : list TreeDefObject) (ls : LeafShapes)
    (shape bdims : list nat) :
  length bdims ≤ length tds → length bdims ≤ length ls →
  NoDup bdims → Forall (λ d, d < length shape) bdims →
  match
    foldB (λ '(out_treedefs, out_leafshapes) '(input_dim, output_dim),
             treedef ← raised (index tds input_dim);
             out_treedefs ← raised (setitem out_treedefs output_dim treedef);
             leafshape ← raised (index ls input_dim);
             if is_trivial_axis treedef leafshape
             then mret (out_treedefs, out_leafshapes)
             else
               s ← raised (index shape output_dim);
               if bool_decide (_axis_length leafshape ≠ s)
               then CannotResizeDimension
               else
                 out_leafshapes ←
                   raised (setitem out_leafshapes output_dim leafshape);
                 mret (out_treedefs, out_leafshapes))
          (replicate (length shape) TRIVIAL_TREEDEF_object, map (λ s, [[s]]) shape)
          (enumerate bdims)
  with
  | Broadcast (otd, ols) =>
      (∀ i, ¬ resized_container tds ls shape bdims i)
      ∧ length otd = length shape ∧ length ols = length shape
      ∧ (∀ i d, bdims !! i = Some d →
           ∃ td lsi s, tds !! i = Some td ∧ ls !! i = Some lsi ∧ shape !! d = Some s
             ∧ otd !! d = Some td
             ∧ ols !! d = Some (if is_trivial_axis td lsi then [[s]] else lsi)
             ∧ (is_trivial_axis td lsi = false → _axis_length lsi = s))
      ∧ (∀ d s, shape !! d = Some s → d ∉ bdims →
           otd !! d = Some TRIVIAL_TREEDEF_object ∧ ols !! d = Some [[s]])
  | CannotResizeDimension => ∃ i, resized_container tds ls shape bdims i
  | Raised e => False
  end.
Proof.
  induction bdims as [|d bdims IH] using rev_ind; intros Hltd Hlls Hnd Hlt.
  { simpl. split_and!.
    - intros i (? & ? & ? & ? & _ & _ & Hd & _). done.
    - by rewrite length_replicate.
    - by rewrite length_map.
    - intros i d Hd. done.
    - intros d s Hs _. split.
      + apply lookup_replicate. split; [done|]. by eapply lookup_lt_Some.
      + change (((λ s, [[s]]) <$> shape) !! d = Some [[s]]).
        by rewrite list_lookup_fmap, Hs. }
  rewrite length_app in Hltd, Hlls. simpl in Hltd, Hlls.
  apply NoDup_app in Hnd as (Hnd & Hdisj & _).
  apply Forall_app in Hlt as [Hlt Hd]. rewrite Forall_singleton in Hd.
  specialize (IH ltac:(lia) ltac:(lia) Hnd Hlt).
  assert (Hdn : d ∉ bdims). { intros Hin. apply (Hdisj d Hin). by left. }
  rewrite enumerate_snoc, foldB_app.
  destruct (foldB _ _ (enumerate bdims)) as [[otd ols]| |e]; [|simpl|done].
  2:{ destruct IH as [i Hi]. exists i. by apply resized_container_app. }
  destruct IH as (Hnone & Hlotd & Hlols & Hmapped & Hunmapped).
  destruct (lookup_lt_is_Some_2 tds (length bdims)) as [td Htd]; [lia|].
  destruct (lookup_lt_is_Some_2 ls (length bdims)) as [lsi Hlsi]; [lia|].
  destruct (lookup_lt_is_Some_2 shape d Hd) as [s Hs].
  destruct (Hunmapped d s Hs Hdn) as [Hotd Hols].
  assert (Hnew : ∀ i, i ≠ length bdims →
            resized_container tds ls shape (bdims ++ [d]) i →
            resized_container tds ls shape bdims i).
  { intros i Hi (td' & lsi' & d' & s' & Htd' & Hls' & Hd' & Hs' & Htriv & Hlen).
    exists td', lsi', d', s'. split_and!; try done.
    apply lookup_app_Some in Hd' as [Hd'|[Hge Hd']]; [done|].
    apply list_lookup_singleton_Some in Hd' as [Hz _]. lia. }
  assert (Hprev : ∀ i d', (bdims ++ [d]) !! i = Some d' → i ≠ length bdims →
            bdims !! i = Some d' ∧ d' ≠ d).
  { intros i d' Hd' Hi. apply lookup_app_Some in Hd' as [Hd'|[Hge Hd']].
    - split; [done|]. intros ->. apply Hdn. by eapply list_elem_of_lookup_2.
    - apply list_lookup_singleton_Some in Hd' as [Hz _]. lia. }
  simpl. unfold index. rewrite Htd, Hlsi. simpl.
  rewrite (setitem_Ok otd) by lia. simpl.
  destruct (is_trivial_axis td lsi) eqn:Htriv; simpl.
  - split_and!.
    + intros i Hi. destruct (decide (i = length bdims)) as [->|Hne].
      * destruct Hi as (td' & lsi' & d' & s' & Htd' & Hls' & _ & _ & Htriv' & _).
        congruence.
      * by apply (Hnone i), Hnew.
    + by rewrite length_insert.
    + done.
    + intros i d' Hd'. destruct (decide (i = length bdims)) as [->|Hne].
      * rewrite list_lookup_middle in Hd' by done. injection Hd' as <-.
        exists td, lsi, s. rewrite Htriv.
        split_and!; [done|done|done| |done|done].
        apply list_lookup_insert_eq. lia.
      * destruct (Hprev i d' Hd' Hne) as [Hd'' Hdd].
        destruct (Hmapped i d' Hd'') as (td' & lsi' & s' & ? & ? & ? & ? & ? & ?).
        exists td', lsi', s'. split_and!; try done.
        by rewrite list_lookup_insert_ne.
    + intros d' s' Hs' Hd'. rewrite elem_of_app, list_elem_of_singleton in Hd'.
      rewrite list_lookup_insert_ne by (intros ->; tauto).
      apply Hunmapped; [done|tauto].
  - rewrite Hs. simpl. case_bool_decide as Hlen; simpl.
    + exists (length bdims), td, lsi, d, s. split_and!; try done.
      by rewrite list_lookup_middle.
    + rewrite setitem_Ok by lia. simpl. split_and!.
      * intros i Hi. destruct (decide (i = length bdims)) as [->|Hne].
        -- destruct Hi as (td' & lsi' & d' & s' & Htd' & Hls' & Hd' & Hs' & _ & Hne).
           rewrite list_lookup_middle in Hd' by done. injection Hd' as <-.
           congruence.
        -- by apply (Hnone i), Hnew.
      * by rewrite length_insert.
      * by rewrite length_insert.
      * intros i d' Hd'. destruct (decide (i = length bdims)) as [->|Hne].
        -- rewrite list_lookup_middle in Hd' by done. injection Hd' as <-.
           exists td, lsi, s. rewrite Htriv.
           split_and!; [done|done|done| | |done].
           ++ apply list_lookup_insert_eq. lia.
           ++ apply list_lookup_insert_eq. lia.
        -- destruct (Hprev i d' Hd' Hne) as [Hd'' Hdd].
           destruct (Hmapped i d' Hd'') as (td' & lsi' & s' & ? & ? & ? & ? & ? & ?).
           exists td', lsi', s'. split_and!; try done.
           ++ by rewrite list_lookup_insert_ne.
           ++ by rewrite list_lookup_insert_ne.
      * intros d' s' Hs' Hd'. rewrite elem_of_app, list_elem_of_singleton in Hd'.
        rewrite !list_lookup_insert_ne by (intros ->; tauto).
        apply Hunmapped; [done|tauto].
Qed.

Lemma StronglySorted_lt_NoDup (l : list nat) : StronglySorted lt l → NoDup l.
Proof.
  induction 1 as [|x l _ IH Hx]; constructor; [|done].
  intros Hin. rewrite Forall_forall in Hx. specialize (Hx x Hin). lia.
Qed.

(** The coordinates of the operand's blocks are those of the result's
    blocks without the axes that are not mapped, in the same order. *)
Lemma broadcast_coords (tds otd : list TreeDef) (bdims : list nat) :
  StronglySorted lt bdims →
  Forall2 (λ d td, otd !! d = Some td) bdims tds →
  (∀ d, d < length otd → d ∉ bdims → otd !! d = Some TRIVIAL_TREEDEF) →
  _iter_leaf_coords tds
    = drop_at (filter (λ d, d ∉ bdims) (seq 0 (length otd))) 0
        <$> _iter_leaf_coords otd.
Proof.
  intros Hsorted Hmapped Hunmapped. unfold _iter_leaf_coords.
  rewrite product_drop_at.
  - f_equal.
    change (map (λ treedef, range (num_leaves treedef)) otd)
      with ((λ treedef, range (num_leaves treedef)) <$> otd).
    rewrite drop_at_fmap. f_equal. symmetry. by apply drop_at_unmapped.
  - intros i r Hr Hin. simpl in Hin. apply elem_of_unmapped in Hin as [Hi Hni].
    change (((λ treedef, range (num_leaves treedef)) <$> otd) !! i = Some r) in Hr.
    rewrite list_lookup_fmap, (Hunmapped i Hi Hni) in Hr. by injection Hr as <-.
Qed.

Variable broadcast_in_dim_p : Arr → list nat → list nat → result Arr.

(** The second loop of the rule, by the coordinates of the result. *)
Lemma broadcast_leaves_loop (tds otd : list TreeDef) (ols : LeafShapes) (lv : Leaves)
    (bdims : list nat) :
  StronglySorted lt bdims →
  Forall2 (λ d td, otd !! d = Some td) bdims tds →
  (∀ d, d < length otd → d ∉ bdims → otd !! d = Some TRIVIAL_TREEDEF) →
  foldM (λ out_leaves '(in_coords, out_coords),
           leaf ← getitem lv in_coords;
           leaf_shape ← _leafshape ols out_coords;
           leaf_bdims ← _axes_for_leaf ols out_coords bdims;
           out ← broadcast_in_dim_p leaf leaf_shape leaf_bdims;
           Ok (<[out_coords := out]> out_leaves))
        (∅ : Leaves) (zip (_iter_leaf_coords tds) (_iter_leaf_coords otd))
  = foldM (λ out_leaves out_coords,
             (getitem lv (drop_at (filter (λ d, d ∉ bdims) (seq 0 (length otd))) 0
                            out_coords) ≫= λ leaf,
              _leafshape ols out_coords ≫= λ leaf_shape,
              _axes_for_leaf ols out_coords bdims ≫= λ leaf_bdims,
              broadcast_in_dim_p leaf leaf_shape leaf_bdims) ≫= λ out,
             Ok (<[out_coords := out]> out_leaves))
          (∅ : Leaves) (_iter_leaf_coords otd).
Proof.
  intros Hsorted Hmapped Hunmapped.
  rewrite (broadcast_coords tds otd bdims Hsorted Hmapped Hunmapped).
  rewrite zip_fmap_l_diag, foldM_fmap. apply foldM_ext_in. intros d oc _.
  destruct (getitem lv _); simpl; [|done].
  destruct (_leafshape ols oc); simpl; [|done].
  destruct (_axes_for_leaf ols oc bdims); simpl; [|done].
  destruct (broadcast_in_dim_p _ _ _); done.
Qed.

Lemma axis_length_flat (s : nat) : _axis_length [[s]] = s.
Proof. unfold _axis_length, prod. simpl. lia. Qed.

(** X19.  The broadcast rule, for an operand with one descriptor and one
    layout per entry of [broadcast_dimensions], which is increasing and
    within [shape], as the primitive requires.  An operand axis that is not
    trivial cannot change its length: the rule raises its ValueError; an
    axis is trivial only when its descriptor is the module's
    [TRIVIAL_TREEDEF] object, so that an axis of a tracer made by
    [convert_vectorized_tree] cannot be resized even when it is a plain
    array axis.  Otherwise a result has the logical shape [shape]; its axis
    [broadcast_dimensions[i]] has the descriptor of the operand axis [i],
    and its layout if that axis is not trivial; the other axes are plain.
    Its block at a coordinate is the kernel's broadcast of the operand block
    at the coordinate's entries on the mapped axes, to the shape that the
    result layout gives the block and along the physical dimensions of the
    mapped axes; it has no other block.  The rule returns such a result
    when, for each coordinate of the result, the operand block is present,
    the result layout gives the block a shape and the kernel accepts the
    call. *)
Theorem broadcast_in_dim_tree_rule_blocks (tds : list TreeDefObject) (ls : LeafShapes)
    (lv : Leaves) (shape bdims : list nat) :
  length tds = length bdims → length ls = length bdims →
  StronglySorted lt bdims → Forall (λ d, d < length shape) bdims →
  ((∃ i, resized_container tds ls shape bdims i) →
     broadcast_in_dim_tree_rule broadcast_in_dim_p [tds] [ls] [lv] shape bdims
       = CannotResizeDimension)
  ∧ (∀ otd ols olv,
       broadcast_in_dim_tree_rule broadcast_in_dim_p [tds] [ls] [lv] shape bdims
         = Broadcast (otd, ols, olv) →
       broadcast_axes tds ls shape bdims otd ols
       ∧ map _axis_length ols = shape
       ∧ (∀ oc, oc ∈ _iter_leaf_coords (object_value <$> otd) →
            ∃ c leaf leaf_shape leaf_bdims out,
              Forall2 (λ d x, oc !! d = Some x) bdims c
              ∧ c ∈ _iter_leaf_coords (object_value <$> tds)
              ∧ lv !! c = Some leaf
              ∧ _leafshape ols oc = Ok leaf_shape
              ∧ _axes_for_leaf ols oc bdims = Ok leaf_bdims
              ∧ broadcast_in_dim_p leaf leaf_shape leaf_bdims = Ok out
              ∧ olv !! oc = Some out)
       ∧ (∀ oc, is_Some (olv !! oc) → oc ∈ _iter_leaf_coords (object_value <$> otd)))
  ∧ ((∀ i, ¬ resized_container tds ls shape bdims i) →
     ∃ otd ols,
       broadcast_axes tds ls shape bdims otd ols
       ∧ ((∀ oc, oc ∈ _iter_leaf_coords (object_value <$> otd) →
             ∃ c leaf leaf_shape leaf_bdims,
               Forall2 (λ d x, oc !! d = Some x) bdims c
               ∧ lv !! c = Some leaf
               ∧ _leafshape ols oc = Ok leaf_shape
               ∧ _axes_for_leaf ols oc bdims = Ok leaf_bdims
               ∧ is_Ok (broadcast_in_dim_p leaf leaf_shape leaf_bdims)) →
          ∃ olv,
            broadcast_in_dim_tree_rule broadcast_in_dim_p [tds] [ls] [lv] shape bdims
              = Broadcast (otd, ols, olv))).
Proof.
  intros Hltd Hlls Hsorted Hlt.
  pose proof (broadcast_axes_loop tds ls shape bdims ltac:(lia) ltac:(lia)
                (StronglySorted_lt_NoDup _ Hsorted) Hlt) as Hloop.
  unfold broadcast_in_dim_tree_rule.
  change (raised (unpack1 [tds])) with (Broadcast tds).
  change (raised (unpack1 [ls])) with (Broadcast ls).
  change (raised (unpack1 [lv])) with (Broadcast lv).
  cbn [mbind broadcast_result_bind].
  destruct (foldB _ _ _) as [[otd ols]| |e] eqn:Hfold; [| |done].
  2:{ destruct Hloop as [i Hi]. split_and!; [done|done|].
      intros Hn. by destruct (Hn i). }
  destruct Hloop as (Hnone & Hlotd & Hlols & Hmapped & Hunmapped).
  assert (Haxes : broadcast_axes tds ls shape bdims otd ols).
  { split_and!; [done|done| |done]. intros i d Hd.
    destruct (Hmapped i d Hd) as (td & lsi & s & ? & ? & ? & ? & ? & ?).
    by exists td, lsi, s. }
  assert (Hmap2 : Forall2 (λ d td, (object_value <$> otd) !! d = Some td)
                    bdims (object_value <$> tds)).
  { apply Forall2_same_length_lookup_2; [by rewrite length_fmap|].
    intros i d td Hd Htd.
    destruct (Hmapped i d Hd) as (td' & lsi & s & Htd' & _ & _ & Hotd & _).
    rewrite list_lookup_fmap, Htd' in Htd. rewrite list_lookup_fmap, Hotd.
    exact Htd. }
  assert (Hunm2 : ∀ d, d < length (object_value <$> otd) → d ∉ bdims →
                       (object_value <$> otd) !! d = Some TRIVIAL_TREEDEF).
  { intros d Hd Hn. rewrite length_fmap in Hd.
    destruct (lookup_lt_is_Some_2 shape d) as [s Hs]; [lia|].
    destruct (Hunmapped d s Hs Hn) as [Hotd _].
    by rewrite list_lookup_fmap, Hotd. }
  cbn [mbind broadcast_result_bind].
  rewrite (broadcast_leaves_loop (object_value <$> tds) (object_value <$> otd) ols lv
             bdims Hsorted Hmap2 Hunm2).
  set (U := filter (λ d, d ∉ bdims) (seq 0 (length (object_value <$> otd)))).
  set (g := λ oc : Coords,
         getitem lv (drop_at U 0 oc) ≫= λ leaf,
         _leafshape ols oc ≫= λ leaf_shape,
         _axes_for_leaf ols oc bdims ≫= λ leaf_bdims,
         broadcast_in_dim_p leaf leaf_shape leaf_bdims).
  assert (Hcoords : ∀ oc, oc ∈ _iter_leaf_coords (object_value <$> otd) →
            Forall2 (λ d x, oc !! d = Some x) bdims (drop_at U 0 oc)
            ∧ drop_at U 0 oc ∈ _iter_leaf_coords (object_value <$> tds)
            ∧ ∀ c, Forall2 (λ d x, oc !! d = Some x) bdims c → c = drop_at U 0 oc).
  { intros oc Hoc.
    pose proof Hoc as Hlen. apply elem_of_iter_leaf_coords, Forall2_length in Hlen.
    assert (Huniq : ∀ c, Forall2 (λ d x, oc !! d = Some x) bdims c →
                         c = drop_at U 0 oc).
    { intros c Hc. unfold U. rewrite <- Hlen.
      by rewrite (drop_at_unmapped bdims oc c). }
    split_and!; [|by rewrite (broadcast_coords _ _ bdims Hsorted Hmap2 Hunm2);
                     apply list_elem_of_fmap_2|exact Huniq].
    destruct (gather_exists bdims oc) as [xs Hxs].
    { eapply Forall_impl; [exact Hlt|]. intros d Hd. simpl in Hd.
      rewrite Hlen, length_fmap. lia. }
    by rewrite <- (Huniq xs Hxs). }
  split_and!.
  - intros [i Hi]. by destruct (Hnone i).
  - intros otd' ols' olv Hrule.
    destruct (foldM _ _ _) as [olv'|e] eqn:Hfold2; [|done].
    injection Hrule as <- <- <-.
    apply (foldM_insert_lookup g (λ oc, oc)) in Hfold2 as [Hblocks Hkeys];
      [|rewrite list_fmap_id; apply NoDup_iter_leaf_coords].
    split_and!.
    + exact Haxes.
    + apply list_eq. intros d.
      change ((_axis_length <$> ols) !! d = shape !! d). rewrite list_lookup_fmap.
      destruct (shape !! d) as [s|] eqn:Hs.
      * destruct (decide (d ∈ bdims)) as [Hin|Hnin].
        -- apply list_elem_of_lookup in Hin as [i Hi].
           destruct (Hmapped i d Hi) as (td & lsi & s' & _ & _ & Hs' & _ & Hols & Hlen).
           rewrite Hols. simpl. f_equal. rewrite Hs in Hs'. injection Hs' as <-.
           destruct (is_trivial_axis td lsi); [apply axis_length_flat|by apply Hlen].
        -- destruct (Hunmapped d s Hs Hnin) as [_ ->]. simpl. f_equal.
           apply axis_length_flat.
      * apply lookup_ge_None in Hs. rewrite (proj2 (lookup_ge_None ols d)); [done|lia].
    + intros oc Hoc. destruct (Hblocks oc Hoc) as (out & Hg & Hlook).
      destruct (Hcoords oc Hoc) as (Hc & Hin & _).
      unfold g in Hg.
      apply bind_Ok in Hg as (leaf & Hleaf & Hg). apply getitem_Ok in Hleaf.
      apply bind_Ok in Hg as (leaf_shape & Hshape & Hg).
      apply bind_Ok in Hg as (leaf_bdims & Hbdims & Hg).
      exists (drop_at U 0 oc), leaf, leaf_shape, leaf_bdims, out. done.
    + intros oc [out Hout]. by destruct (Hkeys oc out Hout) as (oc' & Hoc' & -> & _).
  - intros _. exists otd, ols. split; [exact Haxes|]. intros Hcalls.
    destruct (foldM_insert_is_Ok g (λ oc, oc)
                (_iter_leaf_coords (object_value <$> otd)) ∅) as [olv Holv].
    { intros oc Hoc.
      destruct (Hcalls oc Hoc) as (c & leaf & leaf_shape & leaf_bdims
                                   & Hc & Hleaf & Hshape & Hbdims & Hkernel).
      destruct (Hcoords oc Hoc) as (_ & _ & Huniq). rewrite (Huniq c Hc) in Hleaf.
      unfold g. apply getitem_Ok in Hleaf. rewrite Hleaf. simpl.
      rewrite Hshape. simpl. rewrite Hbdims. simpl. exact Hkernel. }
    exists olv. unfold g in Holv. cbv beta in Holv. by rewrite Holv.
Qed.

End Broadcast.

(** The axis of a tracer that [convert_vectorized_tree] makes from an array
    of shape [(1,)] is not resized, its descriptor not being the module's
    object; the axis of the lifted array is.  The tracer of the container
    [{'a', 'b'}] with the layout [(2,), (1,)] is broadcast along a new
    leading axis of length 2, and not to the length 4. *)
Lemma broadcast_in_dim_tree_rule_blocks_witness :
  let one : gmap Coords Ref.ndarray := {[ [0] := Examples.full [1] 5 ]} in
  let leaves : gmap Coords Ref.ndarray :=
    {[ [0] := Examples.full [2] 1; [1] := Examples.full [1] 2 ]} in
  broadcast_in_dim_tree_rule Ref.broadcast_in_dim_p
    [convert_vectorized_tree_objects (PLeaf (Examples.full [1] 5))] [[[[1]]]] [one]
    [3] [0]
    = CannotResizeDimension
  ∧ broadcast_in_dim_tree_rule Ref.broadcast_in_dim_p
      [convert_leaf_array_objects (Examples.full [1] 5)] [[[[1]]]] [one] [3] [0]
    = Broadcast ([TRIVIAL_TREEDEF_object], [[[3]]],
                 {[ [0] := Examples.full [3] 5 ]})
  ∧ broadcast_in_dim_tree_rule Ref.broadcast_in_dim_p
      [[other_object Examples.treedef_ab]] [[[[2]; [1]]]] [leaves] [2; 4] [1]
    = CannotResizeDimension
  ∧ ∃ out_leaves,
      broadcast_in_dim_tree_rule Ref.broadcast_in_dim_p
        [[other_object Examples.treedef_ab]] [[[[2]; [1]]]] [leaves] [2; 3] [1]
        = Broadcast ([TRIVIAL_TREEDEF_object; other_object Examples.treedef_ab],
                     [[[2]]; [[2]; [1]]], out_leaves)
      ∧ out_leaves !! [0; 0] = Some (Examples.full [2; 2] 1)
      ∧ out_leaves !! [0; 1] = Some (Examples.full [2; 1] 2).
Proof.
  intros one leaves.
  assert (Hs0 : StronglySorted lt [0]) by repeat constructor.
  assert (Hs1 : StronglySorted lt [1]) by repeat constructor.
  split_and!.
  - apply (broadcast_in_dim_tree_rule_blocks Ref.broadcast_in_dim_p
             [other_object TLeaf] [[[1]]] one [3] [0]);
      [reflexivity|reflexivity|exact Hs0|repeat constructor|].
    exists 0, (other_object TLeaf), [[1]], 0, 3.
    split_and!; [reflexivity..|]. vm_compute. lia.
  - vm_compute. reflexivity.
  - apply (broadcast_in_dim_tree_rule_blocks Ref.broadcast_in_dim_p
             [other_object Examples.treedef_ab] [[[2]; [1]]] leaves [2; 4] [1]);
      [reflexivity|reflexivity|exact Hs1|repeat constructor; simpl; lia|].
    exists 0, (other_object Examples.treedef_ab), [[2]; [1]], 1, 4.
    split_and!; [reflexivity..|]. vm_compute. lia.
  - destruct (broadcast_in_dim_tree_rule_blocks Ref.broadcast_in_dim_p
                [other_object Examples.treedef_ab] [[[2]; [1]]] leaves [2; 3] [1])
      as (_ & Hblocks & Hreturns);
      [reflexivity|reflexivity|exact Hs1|repeat constructor; simpl; lia|].
    destruct Hreturns as (otd & ols & (Hlen & Hlen' & Hmapped & Hunmapped) & Hreturns).
    { intros i (td & lsi & d & s & Htd & Hlsi & Hd & Hs & _ & Hne).
      destruct i as [|i]; [|discriminate Hd].
      injection Hlsi as <-. injection Hd as <-. injection Hs as <-.
      apply Hne. vm_compute. reflexivity. }
    destruct otd as [|td0 [|td1 [|? ?]]]; try discriminate Hlen.
    destruct ols as [|s0 [|s1 [|? ?]]]; try discriminate Hlen'.
    destruct (Hmapped 0 1 eq_refl) as (td & lsi & s & Htd & Hlsi & Hs & Htd1 & Hs1').
    injection Htd as <-. injection Hlsi as <-. injection Hs as <-.
    simpl in Htd1, Hs1'. injection Htd1 as ->. injection Hs1' as ->.
    destruct (Hunmapped 0 2 eq_refl) as [Htd0 Hs0'].
    { intros Hin. apply list_elem_of_singleton in Hin. discriminate. }
    simpl in Htd0, Hs0'. injection Htd0 as ->. injection Hs0' as ->.
    destruct Hreturns as [olv Holv].
    { intros oc Hoc. vm_compute in Hoc.
      repeat (apply elem_of_cons in Hoc as [-> | Hoc];
              [eexists [_], _, _, _; split_and!;
               [repeat constructor|reflexivity|reflexivity|reflexivity|
                eexists; vm_compute; reflexivity]|]).
      by apply elem_of_nil in Hoc. }
    exists olv. split; [exact Holv|].
    destruct (Hblocks _ _ olv Holv) as (_ & _ & Hleaves & _).
    split.
    + destruct (Hleaves [0; 0]) as (c & leaf & leaf_shape & leaf_bdims & out & Hc & _
                                    & Hleaf & Hls & Hbd & Hout & Hlook).
      { vm_compute. repeat constructor. }
      apply Forall2_cons_inv_l in Hc as (x & c' & [= <-] & Hc & ->).
      apply Forall2_nil_inv_l in Hc as ->.
      injection Hleaf as <-. injection Hls as <-. injection Hbd as <-.
      rewrite Hlook. vm_compute in Hout. injection Hout as <-. reflexivity.
    + destruct (Hleaves [0; 1]) as (c & leaf & leaf_shape & leaf_bdims & out & Hc & _
                                    & Hleaf & Hls & Hbd & Hout & Hlook).
      { vm_compute. repeat constructor. }
      apply Forall2_cons_inv_l in Hc as (x & c' & [= <-] & Hc & ->).
      apply Forall2_nil_inv_l in Hc as ->.
      injection Hleaf as <-. injection Hls as <-. injection Hbd as <-.
      rewrite Hlook. vm_compute in Hout. injection Hout as <-. reflexivity.
Defined.

(** ** The coordinates of the right operand in the contraction rule *)

Lemma drop_at_app {A} (axes : list nat) (k : nat) (l1 l2 : list A) :
  drop_at axes k (l1 ++ l2) = drop_at axes k l1 ++ drop_at axes (k + length l1) l2.
Proof.
  revert k. induction l1 as [|x l1 IH]; intros k; simpl.
  - by rewrite Nat.add_0_r.
  - rewrite IH. replace (S k + length l1) with (k + S (length l1)) by lia.
    by destruct (decide (k ∈ axes)).
Qed.

Lemma drop_at_ext {A} (axes axes' : list nat) (k : nat) (l : list A) :
  (∀ i, k ≤ i < k + length l → i ∈ axes ↔ i ∈ axes') →
  drop_at axes k l = drop_at axes' k l.
Proof.
  revert k. induction l as [|x l IH]; intros k H; simpl; [done|].
  rewrite IH by (intros i Hi; apply H; simpl; lia).
  destruct (decide (k ∈ axes)) as [Hin|Hnin], (decide (k ∈ axes')) as [Hin'|Hnin'];
    try done.
  - exfalso. apply Hnin'. apply H; [simpl; lia | done].
  - exfalso. apply Hnin. apply H; [simpl; lia | done].
Qed.

Lemma drop_at_none {A} (axes : list nat) (k : nat) (l : list A) :
  (∀ i, k ≤ i → i ∉ axes) → drop_at axes k l = l.
Proof.
  revert k. induction l as [|x l IH]; intros k H; simpl; [done|].
  rewrite decide_False by (apply H; lia). f_equal. apply IH. intros i Hi. apply H. lia.
Qed.

(** Inserting the paired indices one after another, at increasing positions
    that the final list has, puts each index at its position and leaves
    the other entries in their order. *)
Lemma contracting_inserts (lhs_coords : Coords) (pairs : list (nat * nat))
    (r res : Coords) :
  StronglySorted lt pairs.*2 →
  (∀ p, p ∈ pairs.*2 → p < length r + length pairs) →
  foldM (λ rhs_only_coords '(lhs_axis, rhs_axis),
           c ← index lhs_coords lhs_axis;
           Ok (list_insert_at rhs_axis c rhs_only_coords)) r pairs = Ok res →
  length res = length r + length pairs
  ∧ (∀ lhs_axis rhs_axis, (lhs_axis, rhs_axis) ∈ pairs →
       ∃ c, lhs_coords !! lhs_axis = Some c ∧ res !! rhs_axis = Some c)
  ∧ drop_at pairs.*2 0 res = r.
Proof.
  revert res. induction pairs as [|[la ra] pairs IH] using rev_ind; intros res Hsorted Hlt Hres.
  { injection Hres as <-. simpl. split; [lia|]. split.
    - intros la ra Hin. by apply elem_of_nil in Hin.
    - apply drop_at_none. intros i _. apply not_elem_of_nil. }
  rewrite foldM_app in Hres. apply bind_Ok in Hres as (res' & Hres' & Hstep).
  simpl in Hstep. apply bind_Ok in Hstep as (res'' & Hstep & [= <-]).
  apply bind_Ok in Hstep as (c & Hc%index_Ok & [= <-]).
  rewrite fmap_app in Hsorted, Hlt. simpl in Hsorted, Hlt.
  rewrite length_app in Hlt. simpl in Hlt.
  assert (Hbelow : ∀ q, q ∈ pairs.*2 → q < ra).
  { intros q Hq. apply (StronglySorted_app_1_elem_of lt pairs.*2 [ra]); [done|done|by left]. }
  assert (Hra : ra ≤ length r + length pairs).
  { assert (ra < length r + (length pairs + 1)); [|lia].
    apply Hlt. apply elem_of_app. right. by left. }
  destruct (IH res') as (Hlen & Hlook & Hdrop).
  { by apply StronglySorted_app_1_l in Hsorted. }
  { intros q Hq. specialize (Hbelow q Hq). lia. }
  { done. }
  assert (Htake : length (take ra res') = ra) by (apply length_take_le; lia).
  unfold list_insert_at. split; [|split].
  - rewrite length_app, Htake. simpl. rewrite length_drop, length_app. simpl. lia.
  - intros la' ra' [Hin | Hin%list_elem_of_singleton]%elem_of_app.
    + destruct (Hlook la' ra' Hin) as (c' & Hc' & Hr'). exists c'. split; [done|].
      assert (ra' < ra).
      { apply Hbelow. apply list_elem_of_fmap. by exists (la', ra'). }
      rewrite lookup_app_l by lia. by rewrite lookup_take_lt.
    + injection Hin as -> ->. exists c. split; [done|].
      rewrite <- Htake at 1. apply list_lookup_middle. done.
  - rewrite fmap_app. simpl. rewrite drop_at_app, Htake. simpl.
    rewrite decide_True by (apply elem_of_app; right; by left).
    rewrite (drop_at_none _ (S ra)).
    2:{ intros i Hi [Hin | Hin%list_elem_of_singleton]%elem_of_app; [|lia].
        specialize (Hbelow i Hin). lia. }
    rewrite (drop_at_ext _ pairs.*2 0 (take ra res')).
    2:{ intros i Hi. rewrite Htake in Hi. rewrite elem_of_app, list_elem_of_singleton.
        split; [intros [?|?]; [done|lia] | by left]. }
    transitivity (drop_at pairs.*2 0 (take ra res' ++ drop ra res'));
      [|by rewrite take_drop].
    rewrite drop_at_app, Htake. f_equal. simpl. symmetry.
    apply drop_at_none. intros i Hi Hin. specialize (Hbelow i Hin). lia.
Qed.
Lemma mapM_index_omap {A} (l : list A) (ixs : list nat) (k : list A) :
  mapM (index l) ixs = Ok k → omap (λ i, l !! i) ixs = k.
Proof.
  revert k. induction ixs as [|i ixs IH]; intros k H.
  - by injection H as <-.
  - rewrite mapM_cons in H. apply bind_Ok in H as (x & Hx%index_Ok & H).
    apply bind_Ok in H as (k' & Hk' & [= <-]).
    cbn [omap list_omap]. rewrite Hx. f_equal. by apply IH.
Qed.

Lemma mapM_index_remaining {A} (axes : list nat) (l : list A) :
  mapM (index l) (filter (λ i, i ∉ axes) (range (length l))) = Ok (remaining axes l).
Proof.
  destruct (mapM_is_Ok (index l) (filter (λ i, i ∉ axes) (range (length l))))
    as [k Hk].
  { intros i [_ Hi%elem_of_seq]%list_elem_of_filter.
    destruct (lookup_lt_is_Some_2 l i) as [x Hx]; [lia|].
    exists x. by apply index_Ok. }
  rewrite Hk. f_equal. symmetry. by apply mapM_index_omap.
Qed.

(** The axes that are left are those that are not contracted. *)
Lemma length_remaining {A} (axes : list nat) (l : list A) :
  StronglySorted lt axes →
  Forall (λ i, i < length l) axes →
  length (remaining axes l) + length axes = length l.
Proof.
  intros Hsorted Hlt.
  rewrite (mapM_length _ _ _ (mapM_index_remaining axes l)). unfold range.
  pose proof (filter_app_complement (λ i, i ∈ axes) (seq 0 (length l))) as Hperm.
  apply Permutation_length in Hperm. rewrite length_app, length_seq in Hperm.
  assert (Hin : filter (λ i, i ∈ axes) (seq 0 (length l)) ≡ₚ axes).
  { apply NoDup_Permutation.
    - apply NoDup_filter, NoDup_seq.
    - by apply StronglySorted_lt_NoDup.
    - intros i. rewrite list_elem_of_filter, elem_of_seq.
      rewrite Forall_forall in Hlt. split; [tauto|].
      intros Hi. split; [done|]. specialize (Hlt i Hi). lia. }
  apply Permutation_length in Hin. rewrite Hin in Hperm.
  rewrite Nat.add_comm. exact Hperm.
Qed.

Lemma leaf_axes_nil (segs : list (list nat)) : leaf_axes segs [] = [].
Proof.
  induction segs as [|s segs IH] using rev_ind; [done|].
  rewrite leaf_axes_snoc, IH. rewrite decide_False by apply not_elem_of_nil. done.
Qed.

Lemma axes_for_leaf_nil (leafshapes : LeafShapes) (coords : Coords) (dims : list nat) :
  _axes_for_leaf leafshapes coords [] = Ok dims → dims = [].
Proof.
  rewrite axes_for_leaf_segments. intros H.
  apply bind_Ok in H as (segs & _ & [= <-]). apply leaf_axes_nil.
Qed.

Lemma Forall2_impl_in {A B} (P Q : A → B → Prop) (l : list A) (k : list B) :
  Forall2 P l k → (∀ x y, x ∈ l → P x y → Q x y) → Forall2 Q l k.
Proof.
  induction 1 as [|x y l k Hxy _ IH]; intros HPQ; constructor.
  - apply HPQ; [by left | done].
  - apply IH. intros x' y' Hin. apply HPQ. by right.
Qed.
Section Dot_general_pairs.
Context {Arr DType : Type} `{!Kernels Arr DType}.
Abbreviation Leaves := (gmap Coords Arr).

(** One pair of input coordinates of a contraction without batch axes whose
    contracting axes of the right operand increase. *)
Lemma dot_general_pair_coords (lhs_treedefs rhs_treedefs : list TreeDef)
    (ls rs : LeafShapes) (ll rl : Leaves) (lc rc : list nat)
    (lhs_coords rhs_nonbatch_coords out_coords : Coords) (v : Arr) :
  length lc = length rc →
  StronglySorted lt rc →
  Forall (λ i, i < length rhs_treedefs) rc →
  length lhs_coords = length lhs_treedefs →
  length rhs_nonbatch_coords = length (remaining rc rhs_treedefs) →
  dot_general_pair ls rs ll rl lc rc []
    (filter (λ i, i ∉ lc ++ []) (range (length lhs_treedefs)))
    (filter (λ i, i ∉ rc ++ []) (range (length rhs_treedefs)))
    (lhs_coords, rhs_nonbatch_coords) = Ok (out_coords, v) →
  out_coords = remaining lc lhs_coords ++ rhs_nonbatch_coords
  ∧ ∃ rhs_coords lhs_leaf rhs_leaf leaf_lhs_contracting leaf_rhs_contracting,
      length rhs_coords = length rhs_treedefs
      ∧ remaining rc rhs_coords = rhs_nonbatch_coords
      ∧ (∀ k lhs_axis rhs_axis,
           lc !! k = Some lhs_axis → rc !! k = Some rhs_axis →
           ∃ c, lhs_coords !! lhs_axis = Some c ∧ rhs_coords !! rhs_axis = Some c)
      ∧ ll !! lhs_coords = Some lhs_leaf
      ∧ rl !! rhs_coords = Some rhs_leaf
      ∧ _axes_for_leaf ls lhs_coords lc = Ok leaf_lhs_contracting
      ∧ _axes_for_leaf rs rhs_coords rc = Ok leaf_rhs_contracting
      ∧ lax_dot_general lhs_leaf rhs_leaf
          ((leaf_lhs_contracting, leaf_rhs_contracting), ([], [])) = Ok v.
Proof.
  intros Hlen Hsorted Hlt Hlhs Hrnb. rewrite !app_nil_r.
  unfold dot_general_pair. cbn [fst snd]. intros H.
  apply bind_Ok in H as ([rhs_coords oc'] & Hcoords & H).
  apply bind_Ok in H as (v' & Hleaf & [= <- <-]).
  unfold dot_general_coords in Hcoords.
  apply bind_Ok in Hcoords as (rhs_only & Hins & Hcoords).
  apply bind_Ok in Hcoords as (out_l & Hl & Hcoords).
  apply bind_Ok in Hcoords as (out_r & Hr & [= <- <-]).
  cbn [length take app] in *.
  assert (Hzip2 : (zip lc rc).*2 = rc) by (apply snd_zip; lia).
  assert (Hziplen : length (zip lc rc) = length rc) by (rewrite length_zip; lia).
  pose proof (length_remaining rc rhs_treedefs Hsorted Hlt) as Hcount.
  destruct (contracting_inserts lhs_coords (zip lc rc) rhs_nonbatch_coords rhs_only)
    as (Hlen_r & Hlook & Hdrop).
  { by rewrite Hzip2. }
  { rewrite Hzip2, Hziplen. intros p Hp. rewrite Forall_forall in Hlt.
    specialize (Hlt p Hp). lia. }
  { done. }
  rewrite Hzip2 in Hdrop. rewrite Hziplen in Hlen_r.
  assert (Hlen_rhs : length rhs_only = length rhs_treedefs) by lia.
  assert (Hrem : remaining rc rhs_only = rhs_nonbatch_coords).
  { by rewrite <- without_axes_remaining, without_axes_drop_at. }
  apply mapM_index_omap in Hl, Hr.
  split.
  - f_equal.
    + rewrite <- Hl. unfold remaining, range. by rewrite Hlhs.
    + rewrite <- Hr, <- Hrem. unfold remaining, range. by rewrite Hlen_rhs.
  - unfold dot_general_leaf in Hleaf.
    apply bind_Ok in Hleaf as (leaf_lc & Hleaf_lc & Hleaf).
    apply bind_Ok in Hleaf as (leaf_rc & Hleaf_rc & Hleaf).
    apply bind_Ok in Hleaf as (leaf_batch & Hbatch%axes_for_leaf_nil & Hleaf).
    apply bind_Ok in Hleaf as (leaf_batch' & _ & Hleaf).
    apply bind_Ok in Hleaf as ([] & _ & Hleaf).
    apply bind_Ok in Hleaf as (lhs_leaf & Hlhs_leaf%getitem_Ok & Hleaf).
    apply bind_Ok in Hleaf as (rhs_leaf & Hrhs_leaf%getitem_Ok & Hleaf).
    subst leaf_batch.
    exists rhs_only, lhs_leaf, rhs_leaf, leaf_lc, leaf_rc.
    split_and!; try done.
    intros k la ra Hla Hra. apply Hlook.
    apply list_elem_of_lookup. exists k. apply lookup_zip_with_Some. by exists la, ra.
Qed.

End Dot_general_pairs.
(** X22.  The contraction rule without batch axes, when the contracting
    axes of the right operand are given in increasing order (as for a dot
    product, a matrix-vector and a matrix-matrix product).  When the rule
    returns, the result has the axes of the left operand that are not
    contracted followed by those of the right operand that are not
    contracted.  The block at an output coordinate is the sum (the fold
    with [operator.add], in the order of the iteration) of the kernel
    results of the pairs of a left block and a right block such that the
    right coordinates have, at every contracting axis, the index that the
    left coordinates have at the paired contracting axis, and such that
    the left indices at the axes that are not contracted followed by the
    right indices at the axes that are not contracted are the output
    coordinate; the kernel contracts the physical dimensions of the
    contracting axes in the two blocks.  The dot product of the tracer of
    [{'x': 1.0, 'y': [2.0], 'z': [[3.0, 4.0]]}] with itself is [30.0]; the
    product of the vector [[1, 2]] (one block per entry) with the matrix
    [[[1, 2], [3, 4]]] (one block per entry) has the blocks [7] and
    [10]. *)
Theorem dot_general_tree_rule_pairs :
  (∀ (Arr DType : Type) (K : Kernels Arr DType)
     (lhs_treedefs rhs_treedefs : list TreeDef) (ls rs : LeafShapes)
     (ll rl : gmap Coords Arr) (lc rc : list nat)
     out_treedefs out_leafshapes out_leaves,
     length ls = length lhs_treedefs →
     length rs = length rhs_treedefs →
     length lc = length rc →
     StronglySorted lt rc →
     Forall (λ i, i < length rhs_treedefs) rc →
     dot_general_tree_rule [lhs_treedefs; rhs_treedefs] [ls; rs] [ll; rl]
       ((lc, rc), ([], [])) = Ok (out_treedefs, out_leafshapes, out_leaves) →
     out_treedefs = remaining lc lhs_treedefs ++ remaining rc rhs_treedefs
     ∧ out_leafshapes = remaining lc ls ++ remaining rc rs
     ∧ (∀ out_coords, out_coords ∈ _iter_leaf_coords out_treedefs →
          ∃ blocks out,
            Forall2
              (λ '(lhs_coords, rhs_nonbatch_coords) block,
                 ∃ rhs_coords lhs_leaf rhs_leaf leaf_lhs_contracting leaf_rhs_contracting,
                   length rhs_coords = length rhs_treedefs
                   ∧ remaining rc rhs_coords = rhs_nonbatch_coords
                   ∧ (∀ k lhs_axis rhs_axis,
                        lc !! k = Some lhs_axis → rc !! k = Some rhs_axis →
                        ∃ c, lhs_coords !! lhs_axis = Some c
                             ∧ rhs_coords !! rhs_axis = Some c)
                   ∧ ll !! lhs_coords = Some lhs_leaf
                   ∧ rl !! rhs_coords = Some rhs_leaf
                   ∧ _axes_for_leaf ls lhs_coords lc = Ok leaf_lhs_contracting
                   ∧ _axes_for_leaf rs rhs_coords rc = Ok leaf_rhs_contracting
                   ∧ lax_dot_general lhs_leaf rhs_leaf
                       ((leaf_lhs_contracting, leaf_rhs_contracting), ([], []))
                     = Ok block)
              (filter (λ p, remaining lc p.1 ++ p.2 = out_coords)
                      (lhs_coords ← _iter_leaf_coords lhs_treedefs;
                       rhs_nonbatch_coords ←
                         _iter_leaf_coords (remaining rc rhs_treedefs);
                       [(lhs_coords, rhs_nonbatch_coords)]))
              blocks
            ∧ py_reduce operator_add blocks = Ok out
            ∧ out_leaves !! out_coords = Some out)
     ∧ (∀ out_coords, is_Some (out_leaves !! out_coords) →
          out_coords ∈ _iter_leaf_coords out_treedefs))
  ∧ (∀ tree, tree = Examples.tree_xyz ∨ tree = Examples.tree_xyz_lists →
       ∃ treedefs leafshapes (leaves : gmap Coords Ref.ndarray),
         convert_vectorized_tree tree = Ok ([treedefs], [leafshapes], leaves)
         ∧ dot_general_tree_rule [[treedefs]; [treedefs]] [[leafshapes]; [leafshapes]]
             [leaves; leaves] (([0], [0]), ([], []))
           = Ok ([], [], {[ [] := Ref.scalar 30 ]}))
  ∧ dot_general_tree_rule
      [[Examples.treedef_ab]; [Examples.treedef_ab; Examples.treedef_cd]]
      [[[[1]; [1]]]; [[[1]; [1]]; [[1]; [1]]]]
      [({[ [0] := Examples.full [1] 1; [1] := Examples.full [1] 2 ]}
          : gmap Coords Ref.ndarray);
       {[ [0; 0] := Examples.full [1; 1] 1; [0; 1] := Examples.full [1; 1] 2;
          [1; 0] := Examples.full [1; 1] 3; [1; 1] := Examples.full [1; 1] 4 ]}]
      (([0], [0]), ([], []))
    = Ok ([Examples.treedef_cd], [[[1]; [1]]],
          {[ [0] := Examples.full [1] 7; [1] := Examples.full [1] 10 ]}).
Proof.
  split; [|split].
  - intros Arr DType K ltd rtd ls rs ll rl lc rc otd ols olv
      Hls Hrs Hlen Hsorted Hlt Hrule.
    rewrite dot_general_tree_rule_accumulate in Hrule. cbn [app] in Hrule.
    apply bind_Ok in Hrule as ([] & Hcheck & H).
    apply bind_Ok in H as (otd_l & Hotd_l & H).
    apply bind_Ok in H as (otd_r & Hotd_r & H).
    apply bind_Ok in H as (ols_l & Hols_l & H).
    apply bind_Ok in H as (ols_r & Hols_r & H).
    apply bind_Ok in H as (olv' & Hacc & [= <- <- <-]).
    apply mapM_index_omap in Hotd_l, Hotd_r, Hols_l, Hols_r.
    rewrite !app_nil_r in Hotd_l, Hotd_r, Hols_l, Hols_r.
    assert (Eotd_l : otd_l = remaining lc ltd) by (by rewrite <- Hotd_l).
    assert (Eotd_r : otd_r = remaining rc rtd) by (by rewrite <- Hotd_r).
    assert (Eols_l : ols_l = remaining lc ls).
    { rewrite <- Hols_l. unfold remaining, range. by rewrite Hls. }
    assert (Eols_r : ols_r = remaining rc rs).
    { rewrite <- Hols_r. unfold remaining, range. by rewrite Hrs. }
    clear Hotd_l Hotd_r Hols_l Hols_r. subst otd_l otd_r ols_l ols_r.
    split; [done|]. split; [done|].
    apply accumulate_group_reduce in Hacc.
    apply group_reduce_lookup in Hacc as (kvs & Hkvs & _ & Hl & Hr);
      [|apply NoDup_iter_leaf_coords].
    split; [|done]. intros oc Hoc. destruct (Hl oc Hoc) as (out & Hout & Hred).
    exists (contributions kvs oc), out. split; [|done].
    set (pair := dot_general_pair ls rs ll rl lc rc []
                   (filter (λ i, i ∉ lc ++ []) (range (length ltd)))
                   (filter (λ i, i ∉ rc ++ []) (range (length rtd)))) in *.
    set (pairs := lhs_coords ← _iter_leaf_coords ltd;
                  rhs_nonbatch_coords ← _iter_leaf_coords (remaining rc rtd);
                  [(lhs_coords, rhs_nonbatch_coords)]) in *.
    assert (Hin : ∀ p, p ∈ pairs →
              length p.1 = length ltd ∧ length p.2 = length (remaining rc rtd)).
    { intros p Hp. unfold pairs in Hp.
      apply list_elem_of_bind in Hp as (lhs_coords & Hp & Hlhs).
      apply list_elem_of_bind in Hp as (rnb & Hp & Hrnb).
      apply list_elem_of_singleton in Hp as ->. simpl.
      apply elem_of_iter_leaf_coords, Forall2_length in Hlhs, Hrnb. done. }
    assert (Hkey : ∀ p, p ∈ pairs →
              pair p = (pair p ≫= λ kv, Ok kv.2)
                         ≫= λ v, Ok (remaining lc p.1 ++ p.2, v)).
    { intros [lhs_coords rnb] Hp. destruct (Hin _ Hp) as [H1 H2]. simpl in H1, H2.
      destruct (pair (lhs_coords, rnb)) as [[oc' v]|e] eqn:Hpair; [|done].
      simpl. destruct (dot_general_pair_coords ltd rtd ls rs ll rl lc rc
                         lhs_coords rnb oc' v) as [-> _]; done. }
    rewrite (mapM_ext_in _ _ _ Hkey) in Hkvs.
    apply (contributions_filter (λ p, pair p ≫= λ kv, Ok kv.2)
             (λ p, remaining lc p.1 ++ p.2) pairs kvs oc) in Hkvs.
    apply mapM_Ok in Hkvs. eapply Forall2_impl_in; [exact Hkvs|].
    intros [lhs_coords rnb] block [_ Hp]%list_elem_of_filter Hblock.
    destruct (Hin _ Hp) as [H1 H2]. simpl in H1, H2.
    apply bind_Ok in Hblock as ([oc' v] & Hpair & [= <-]).
    by destruct (dot_general_pair_coords ltd rtd ls rs ll rl lc rc
                   lhs_coords rnb oc' v) as [_ Hex].
  - intros tree [-> | ->]; eexists _, _, _;
      (split; [vm_compute; reflexivity|]); vm_compute; reflexivity.
  - vm_compute. reflexivity.
Qed.

(** The product of the vector [[1, 2]] with the matrix [[[1, 2], [3, 4]]]:
    the output block [(1,)] is the sum of the kernel results of the left
    block [(0,)] with the right block [(0, 1)] and of the left block
    [(1,)] with the right block [(1, 1)]. *)
Lemma dot_general_tree_rule_pairs_witness :
  let ll : gmap Coords Ref.ndarray :=
    {[ [0] := Examples.full [1] 1; [1] := Examples.full [1] 2 ]} in
  let rl : gmap Coords Ref.ndarray :=
    {[ [0; 0] := Examples.full [1; 1] 1; [0; 1] := Examples.full [1; 1] 2;
       [1; 0] := Examples.full [1; 1] 3; [1; 1] := Examples.full [1; 1] 4 ]} in
  ∃ blocks out,
    Forall2
      (λ '(lhs_coords, rhs_nonbatch_coords) block,
         ∃ rhs_coords lhs_leaf rhs_leaf leaf_lhs_contracting leaf_rhs_contracting,
           length rhs_coords = 2
           ∧ remaining [0] rhs_coords = rhs_nonbatch_coords
           ∧ (∀ k lhs_axis rhs_axis,
                [0] !! k = Some lhs_axis → [0] !! k = Some rhs_axis →
                ∃ c, lhs_coords !! lhs_axis = Some c ∧ rhs_coords !! rhs_axis = Some c)
           ∧ ll !! lhs_coords = Some lhs_leaf
           ∧ rl !! rhs_coords = Some rhs_leaf
           ∧ _axes_for_leaf [[[1]; [1]]] lhs_coords [0] = Ok leaf_lhs_contracting
           ∧ _axes_for_leaf [[[1]; [1]]; [[1]; [1]]] rhs_coords [0]
             = Ok leaf_rhs_contracting
           ∧ lax_dot_general lhs_leaf rhs_leaf
               ((leaf_lhs_contracting, leaf_rhs_contracting), ([], [])) = Ok block)
      [([0], [1]); ([1], [1])] blocks
    ∧ py_reduce operator_add blocks = Ok out
    ∧ ({[ [0] := Examples.full [1] 7; [1] := Examples.full [1] 10 ]}
         : gmap Coords Ref.ndarray) !! [1] = Some out.
Proof.
  intros ll rl.
  destruct (proj1 dot_general_tree_rule_pairs Ref.ndarray Ref.dtype Ref.kernels
              [Examples.treedef_ab] [Examples.treedef_ab; Examples.treedef_cd]
              [[[1]; [1]]] [[[1]; [1]]; [[1]; [1]]] ll rl [0] [0]
              [Examples.treedef_cd] [[[1]; [1]]]
              {[ [0] := Examples.full [1] 7; [1] := Examples.full [1] 10 ]})
    as (_ & _ & Hblocks & _).
  - reflexivity.
  - reflexivity.
  - reflexivity.
  - repeat constructor.
  - repeat constructor.
  - vm_compute. reflexivity.
  - apply (Hblocks [1]). vm_compute. right. by left.
Defined.
